(* ===== verification/_CoqProject ===== *)
-Q . S2P
Prelude.v
Go.v
Calendar.v
GoTime.v
GoFloat.v
FloatLaws.v
Model.v
RecurrenceCalc.v
Bolt.v
Json.v
Storage.v
Command.v
Dispatch.v
StateMachine.v
RaftNode.v
Spec.v
Lifecycle.v
Invariants.v
Refinement.v
RefinementScan.v
RefinementTx.v
CommandRefinement.v
Pages.v
Replica.v
Robust.v
Attempts.v
Sample.v
Safety.v
RecurrenceSpec.v
MonthlySpec.v
Recurrences.v
Intervals.v
IdempotencyKey.v
Headers.v
Backoff.v
Restart.v
Sha256.v
Prog.v
Worker.v
WorkerSafe.v
Cluster.v
Quiet.v
Recovery.v
Firing.v
Retrying.v
Takeover.v
Progress.v
Scheduling.v
Supervisor.v
GoStrings.v
Config.v
RateLimit.v
Replies.v
Api.v
Access.v
ApiNode.v
Isolation.v
Effects.v
Credentials.v
Node.v
Main.v
Findings.v
