(* ===== verification/Prelude.v ===== *)
(** * raft-billing: a verification development

    The program (src/, Go) is a replicated, multi-tenant scheduler of HTTP
    callbacks.  Every change of state is a command: a node proposes it to
    hashicorp/raft, every replica applies the committed log, in order, to its
    own bbolt database inside one transaction per entry, and a scheduler on the
    leader claims due schedules and drives their executions by proposing more
    commands.  What must hold is that replicas cannot disagree, that a slot of a
    schedule is executed under one identity, that histories are kept, and that
    tenants do not see each other.

    ** Parts of the program and the files that model them

    Language and library (what the source uses of Go):
    - Prelude.v: this header, tactics, byte strings and their order, colon-free
      strings, [drop_while]/[take_while].
    - Go.v: error values and their chains, [result] (a value, an error or a
      panic), the state-and-error monad [M] of a transaction, 64-bit integers;
      [CommandError] is internal/apperr/apperr.go.
    - Calendar.v, GoTime.v: the proleptic Gregorian calendar and package time
      (instants in nanoseconds, locations as spans of offsets, [Date] with its
      two zone look-ups, [AddDate], RFC 3339 printing).
    - GoFloat.v: float64 as SpecFloat's binary64, with [math.Floor], [math.Ceil],
      [math.Pow], [Duration.Seconds] and the conversions to int64.  FloatLaws.v
      has the rounding of the operations the interval functions perform,
      Backoff.v that of [math.Pow].
    - Bolt.v, Json.v: bbolt buckets and encoding/json are not part of the
      repository.  They are classes ([Bolt], [Json]) whose laws ([BoltLaws],
      [JsonLaws]) state their documented behaviour, each with an instance
      ([gmap_bolt], [plain_json]) that satisfies them.

    The program:
    - Model.v: internal/model (the records, the enumerations, the retry delay,
      the idempotency key, the reserved headers).
    - RecurrenceCalc.v: internal/model/recurrence.go.
    - Storage.v: internal/storage/storage.go.  [Tx] is its interface, a class;
      [boltTx] the implementation on eight buckets, with the keys, the secondary
      indexes, the cursors, the pages; [Update] rolls back on an error.
    - Command.v, Dispatch.v: internal/command.  The eleven handlers [Apply*] are
      written against [Tx], as in the source; [Dispatch] decodes and runs them.
    - StateMachine.v: internal/statemachine.  Open databases are handles in a
      [World], so that [Restore], which closes one and opens another, and the
      Raft node, which keeps the old one, are told apart.
    - RaftNode.v: internal/raftnode.  What raft and the clock answer to a call is
      the argument [RaftObs].
    - Sha256.v: crypto/sha256, hexadecimal and base64, for body hashes and keys.
    - Prog.v, Worker.v: internal/scheduler/worker.go.  A goroutine is a [prog], a
      tree of the actions it performs (reads, proposals, HTTP requests, clock,
      queue); the loops of the tick and of recovery, and the three tasks, are
      such programs, errors included.
    - Supervisor.v: supervisor.go and scheduler.go, a state machine of the
      supervisor's loop with the workers it has started.
    - GoStrings.v, Config.v: internal/config, with strings.TrimSpace, Cut, Split
      and strconv.Atoi.  What the flag package parsed is an argument.
    - RateLimit.v, Api.v: internal/api.  Handlers run in [HM], a state monad in
      which writing the response ends the handler, and a panic leaves the request
      without one; [Backend] is its interface,
      [routes] the table of patterns.
    - Node.v: internal/node.  Main.v: cmd/scheduler/main.go, from the arguments
      to the exit status.

    How they run:
    - Quiet.v runs a worker alone on a store nobody else changes, Cluster.v any
      number of workers on any number of nodes, interleaved with clients, with
      stale reads, proposals that commit after their proposer gave up, and
      crashes anywhere; a step of a [prog] is one action.
    - ApiNode.v runs the API on a Raft node, with other entries committed between
      its calls.

    ** The abstract specification and the refinement

    Spec.v is a second implementation of [Tx]: four finite maps keyed by tenant
    and identifier, listings as filtered and sorted rows.  The handlers run
    on both.  Refinement.v (keys, tables and index buckets), RefinementScan.v
    (cursor scans and pages) and RefinementTx.v (the relation [R] with every
    operation of [Tx]) relate them; CommandRefinement.v lifts this to
    the handlers ([agree]: same answer, related states) for [admissible]
    commands; Replica.v to logs.  Lifecycle.v describes the commands once more as
    a step relation [spec_step] with one rule per way a command succeeds, and
    Invariants.v proves by cases on it what every step preserves.

    A command is admissible when its identifiers contain no colon and fit in a
    key, when what it carries survives JSON (valid UTF-8, int64 integers, finite
    numbers, times without a monotonic reading or zone name), and when it does
    not reuse the identifier of an execution of another schedule or of an attempt
    of another execution.  The first and the last are not checked by the code;
    Findings.v shows what happens without the first.  For the API they become the
    hypothesis that paths have no colon ([clean_request]).

    ** What the theorems show

    - Safety.v: C1 the bbolt replica refines the abstract one, entry for entry;
      C2 successful commands are steps of the abstract machine; C3, C16, C17 one
      execution per slot and what a claim answers; C5, C13 to C15 the lifecycles
      of executions and schedules; isolation of tenants entry by entry; C19, C20
      panics and typed errors (lemmas in Robust.v), with the rollback of rejected
      entries; C25 attempt counts (Attempts.v); C26 to C28 listings, pages
      (Pages.v) and the round trip through storage.
    - Replies.v: C21 every reply is the row the command names.
    - Restart.v: C29 snapshot and restore; C30 reads of the Raft node; its reads
      after a restore.  Node.v: a new node reads what its state machine applies;
      the order of start and shutdown.  Main.v: C40 what the exit status tells, of
      the lines main.go prints itself.
    - Recurrences.v (lemmas in RecurrenceSpec.v and MonthlySpec.v): C33 to C35 the
      recurrence functions return the least or greatest slot; a slot is an
      instant at which the clocks of the schedule's location show the first run's
      time of day, to the second, on the weekday or day of the month wanted
      there.  They hold from the first run on, in locations that are [steady] at
      that time of day: it comes once every day, [time.Date] names it, and the
      date never goes back.  Fixed offsets are, and so is New York at nine
      ([new_york_steady]), across its summer time; [daily_after_stuck_in_gap] is
      a location that is not, where they fail.  What the functions answer before
      the first run, and what the weekly "after" function computes instead.
    - Intervals.v: C32 the three interval functions, whose float64 division is
      exact enough on whole seconds and, elsewhere, at a distance from the slots
      that the rounding cannot bridge; [near_slot_rounds] is an instant closer
      than that, where they are wrong.
    - IdempotencyKey.v: C36.  Headers.v: reserved headers.  Backoff.v: C37 the
      retry delay is the initial delay times a power of the multiplier: [math.Pow]
      and the product are exact for integer and binary-fraction multipliers as
      long as the digits fit; [delay_overflow_beats_max] is what happens when the
      delay does not fit.
    - Progress.v, on quiet runs (lemmas in Recovery.v, Firing.v, Takeover.v and
      Retrying.v): C6 a due schedule runs; C7 what a dispatch records; C8 what
      recovery leaves, and when it succeeds; C9 over any list of tick times, each
      retry is made at the first tick not before its time, and a receiver that
      never accepts is called exactly as often as the schedule allows.
      Scheduling.v, in every reachable cluster (the invariant is in Cluster.v,
      what a task may propose in WorkerSafe.v): C10 completions are earned by a
      recorded attempt; C18 callbacks carry the key of their slot; the headers of
      a callback.
    - Supervisor.v: C23 at most one worker; C24 after the cancellation every run
      ends, whatever is picked, given a bound by the notifications there are.
    - Access.v: C4 who may do what through the API; C31 what no response shows.
      Both are proved against [BackendLaws], which ApiNode.v proves of a Raft
      node.  Isolation.v and Effects.v compose them with the node and its
      database: C11 a tenant's request leaves all that another tenant reads;
      C12 the response to a write says what has become of the schedule.
      Credentials.v: C22 the key a created tenant is answered with opens it.
      RateLimit.v: C38.  Config.v: C39; the list of peers is read back.
    - Findings.v, and lemmas of other files without a number: behaviours that
      differ from what the code intends, each on a concrete run or for a class of
      inputs.
    - Sample.v is the platform and log the witnesses use.

    ** Bounds and fuel

    [month_search] has 120 rounds: a month of the sought day is met within the
    first two of them from any start (C33 shows it returns a slot, hence the
    fuel is never exhausted).  [read_all] follows cursors with a given fuel; C27
    states a number of pages that is enough.  [appendInt] prints the digits a
    field needs.  [scan] and [page_scan] recurse on the list of entries a
    cursor has left.  Times are unbounded integers of nanoseconds: the range of
    Go's time.Time (some 10^11 years) is not modelled; its JSON range, the years
    0 to 9999, is ([time_years]), and [Sub] saturates as the source does.
    Integers of commands and rows are bounded by int64, with wrap-around where
    the code adds.

    ** What is not modelled

    Log messages, other than those of main; raft's consensus itself, of which
    only "every replica applies the same log" is used, and elections, of which the
    notifications a node gets are an argument;
    bbolt's file format; a commit of bbolt's that fails, in the replicas of C1 to
    C20 ([Update_commit] has it: [failed_commit_panics] in Safety.v says that it
    ends the process and changes nothing, and C40 counts it); what package flag,
    raft and the runtime write to standard error on their own; that a read asks
    raft three times (state, term, barrier) and could see it change in between:
    [RaftObs] is one observation; the bytes of JSON; the flag package; net/http's
    transport, its mux's own answers (404, 405, redirects) and the decoding of
    request bodies; the constant time of credential comparisons.  [%q] and
    [strconv.Itoa] are parameters where only a message or a header shows them.
    A panic of a task or of recovery, which the source recovers from, does not
    occur in the model: the calls of a worker return errors.  [steadyState] and
    [Run] have fuel, one unit a round, since the loop has no end of its own; no
    theorem rests on it.  The rate limiter's arithmetic is that of separately
    rounded operations, which a compiler that fuses multiplication and addition
    (arm64) need not follow.  A proposal that raft fails leaves no entry of its
    own in the call that proposed it; one that commits later is among the entries
    committed before a later call. *)

From stdpp Require Export base strings list gmap sorting.
From Stdlib Require Export ZArith Lia.
From Stdlib Require Import Ascii.

(** ** Scopes, hint databases and tactics *)

Declare Scope go_scope.
Delimit Scope go_scope with go.

Create HintDb rb discriminated.

(** [simp_all]: simplify every equation between constructors in sight. *)
Ltac simp_all := repeat (simplify_eq/= || case_match); try done.

(** [bool_hyps]: turn boolean tests among the hypotheses into propositions. *)
Ltac bool_hyps :=
  repeat match goal with
  | H : bool_decide _ = true |- _ => apply bool_decide_eq_true_1 in H
  | H : bool_decide _ = false |- _ => apply bool_decide_eq_false_1 in H
  | H : (_ && _)%bool = true |- _ => apply andb_true_iff in H as [? ?]
  | H : (_ || _)%bool = false |- _ => apply orb_false_iff in H as [? ?]
  | H : negb _ = true |- _ => apply negb_true_iff in H
  | H : negb _ = false |- _ => apply negb_false_iff in H
  end.

(** ** Byte strings: prefixes and the order of keys *)

Lemma append_cons x (a b : string) : String x a +:+ b = String x (a +:+ b).
Proof. reflexivity. Qed.

Lemma append_nil_l (a : string) : "" +:+ a = a.
Proof. reflexivity. Qed.

Lemma append_assoc (a b c : string) : (a +:+ b) +:+ c = a +:+ (b +:+ c).
Proof. induction a as [|x a IH]; [done|]. rewrite !append_cons. by f_equal. Qed.

Lemma append_nil_r (a : string) : a +:+ "" = a.
Proof. induction a as [|x a IH]; [done|]. rewrite !append_cons. by f_equal. Qed.

Lemma append_inj_l (p a b : string) : p +:+ a = p +:+ b → a = b.
Proof. induction p as [|x p IH]; [done|]. rewrite !append_cons. intros [=]; auto. Qed.

Lemma prefix_cons (x y : Ascii.ascii) (p s : string) :
  String.prefix (String x p) (String y s) =
  if Ascii.ascii_dec x y then String.prefix p s else false.
Proof. reflexivity. Qed.

(** [String.prefix] is [bytes.HasPrefix] with its arguments swapped. *)
Lemma prefix_spec (p s : string) : String.prefix p s = true ↔ ∃ r, s = p +:+ r.
Proof.
  revert s. induction p as [|x p IH]; intros s.
  { split; [by exists s|by destruct s]. }
  destruct s as [|y s].
  { split; [done|intros [r Hr]; rewrite append_cons in Hr; done]. }
  rewrite prefix_cons. destruct (Ascii.ascii_dec x y) as [->|Hne].
  - rewrite IH. split; intros [r Hr]; exists r; [by rewrite append_cons, Hr|].
    rewrite append_cons in Hr. by simplify_eq.
  - split; [done|intros [r Hr]]. rewrite append_cons in Hr. by simplify_eq.
Qed.

Lemma prefix_app (p r : string) : String.prefix p (p +:+ r) = true.
Proof. apply prefix_spec. by exists r. Qed.

(** [strip_prefix p s] is [bytes.TrimPrefix(s, p)]: [s] without a leading
    [p], and [s] itself when [p] is not a prefix of it. *)
Fixpoint strip_prefix_opt (p s : string) : option string :=
  match p, s with
  | EmptyString, _ => Some s
  | String x p', String y s' => if Ascii.eqb x y then strip_prefix_opt p' s' else None
  | String _ _, EmptyString => None
  end.

Definition strip_prefix (p s : string) : string :=
  match strip_prefix_opt p s with Some r => r | None => s end.

Lemma strip_prefix_app (p r : string) : strip_prefix p (p +:+ r) = r.
Proof.
  unfold strip_prefix.
  assert (strip_prefix_opt p (p +:+ r) = Some r) as ->; [|done].
  induction p as [|x p IH]; [done|]. rewrite append_cons; simpl.
  by rewrite Ascii.eqb_refl.
Qed.

(** The strict order of keys is bytewise lexicographic, [bytes.Compare]. *)
Definition str_lt (a b : string) : Prop := String.ltb a b = true.

#[export] Instance str_lt_dec : RelDecision str_lt := λ a b, decide (String.ltb a b = true).

Lemma ascii_compare_lt_iff (a b : Ascii.ascii) :
  Ascii.compare a b = Lt ↔ (Ascii.N_of_ascii a < Ascii.N_of_ascii b)%N.
Proof. unfold Ascii.compare. apply N.compare_lt_iff. Qed.

Lemma ascii_compare_refl (a : Ascii.ascii) : Ascii.compare a a = Eq.
Proof. unfold Ascii.compare. apply N.compare_refl. Qed.

Lemma str_lt_cons (x y : Ascii.ascii) (a b : string) :
  str_lt (String x a) (String y b) ↔
  (Ascii.N_of_ascii x < Ascii.N_of_ascii y)%N ∨ (x = y ∧ str_lt a b).
Proof.
  unfold str_lt, String.ltb; simpl.
  destruct (Ascii.compare x y) eqn:E.
  - apply Ascii.compare_eq_iff in E as ->.
    split; [by right|intros [H|[_ H]]; [lia|done]].
  - split; [left; by apply ascii_compare_lt_iff|done].
  - split; [done|]. intros [H|[-> _]].
    + apply ascii_compare_lt_iff in H. congruence.
    + rewrite ascii_compare_refl in E. done.
Qed.

Lemma str_lt_nil_r (a : string) : ¬ str_lt a "".
Proof. by destruct a. Qed.

Lemma str_lt_nil_l (x : Ascii.ascii) (a : string) : str_lt "" (String x a).
Proof. done. Qed.

#[export] Instance str_lt_irrefl : Irreflexive str_lt.
Proof.
  intros a. induction a as [|x a IH]; [by intros ?|].
  intros [H|[_ H]]%str_lt_cons; [lia|done].
Qed.

#[export] Instance str_lt_trans : Transitive str_lt.
Proof.
  intros a. induction a as [|x a IH]; intros [|y b] [|z c] H1 H2; try done.
  apply str_lt_cons. apply str_lt_cons in H1, H2.
  destruct H1 as [H1|[-> H1]], H2 as [H2|[-> H2]]; eauto.
  left. lia.
Qed.

Lemma str_lt_total (a b : string) : str_lt a b ∨ a = b ∨ str_lt b a.
Proof.
  unfold str_lt, String.ltb.
  destruct (String.compare a b) eqn:E; [|by left|].
  - right; left. by apply String.compare_eq_iff.
  - right; right. rewrite String.compare_antisym, E. done.
Qed.

Lemma str_lt_app (p a b : string) : str_lt (p +:+ a) (p +:+ b) ↔ str_lt a b.
Proof.
  induction p as [|x p IH]; [done|].
  rewrite !append_cons, str_lt_cons, IH. split; [intros [?|[_ ?]]; [lia|done]|auto].
Qed.

(** A string that has [p] as a prefix is not below [p] ... *)
Lemma prefix_not_lt (p s : string) : String.prefix p s = true → ¬ str_lt s p.
Proof.
  intros [r ->]%prefix_spec. induction p as [|x p IH].
  - apply str_lt_nil_r.
  - rewrite append_cons. intros [H|[_ H]]%str_lt_cons; [lia|done].
Qed.

(** ... and once the ordered keys have left the prefix they never re-enter it. *)
Lemma prefix_gap (p k k' : string) :
  ¬ str_lt k p → String.prefix p k = false → str_lt k k' → String.prefix p k' = false.
Proof.
  revert k k'. induction p as [|x p IH]; intros k k' Hge Hnp Hlt; [by destruct k|].
  destruct k as [|y k]; [by destruct Hge|].
  destruct k' as [|z k']; [done|].
  rewrite prefix_cons in Hnp |- *. destruct (Ascii.ascii_dec x z) as [<-|]; [|done].
  apply str_lt_cons in Hlt.
  destruct (Ascii.ascii_dec x y) as [<-|Hne].
  - destruct Hlt as [?|[_ Hlt]]; [lia|].
    eapply IH; [|done..]. intros Hk. apply Hge, str_lt_cons. by right.
  - exfalso. destruct Hlt as [Hlt|[-> _]]; [|done].
    apply Hge, str_lt_cons. by left.
Qed.

(** ** Colon-free identifiers: when a composite key decodes uniquely *)

Fixpoint no_colon (s : string) : bool :=
  match s with
  | EmptyString => true
  | String c s' => negb (Ascii.eqb c ":"%char) && no_colon s'
  end.

Lemma no_colon_split (a b x y : string) :
  no_colon a = true → no_colon b = true →
  a +:+ ":" +:+ x = b +:+ ":" +:+ y → a = b ∧ x = y.
Proof.
  revert b. induction a as [|c a IH]; intros [|d b] Ha Hb Heq;
    rewrite ?append_cons, ?append_nil_l in Heq.
  - by injection Heq as ->.
  - injection Heq as <- _. done.
  - injection Heq as -> _. done.
  - injection Heq as -> Heq. simpl in Ha, Hb. bool_hyps.
    by destruct (IH b) as [-> ->].
Qed.

(** ** Lists: dropping and taking while a test holds *)

Section while.
Context {A : Type} (f : A → bool).

Fixpoint drop_while (l : list A) : list A :=
  match l with
  | [] => []
  | x :: l' => if f x then drop_while l' else l
  end.

Fixpoint take_while (l : list A) : list A :=
  match l with
  | [] => []
  | x :: l' => if f x then x :: take_while l' else []
  end.

Lemma take_drop_while_none (l : list A) :
  (∀ x, x ∈ l → f x = false) → take_while l = [].
Proof.
  destruct l as [|x l]; simpl; [done|]. intros H. by rewrite (H x) by set_solver.
Qed.

Lemma drop_while_none (l : list A) : (∀ x, x ∈ l → f x = false) → drop_while l = l.
Proof.
  destruct l as [|x l]; simpl; [done|]. intros H. by rewrite (H x) by set_solver.
Qed.

Lemma elem_of_drop_while (l : list A) (x : A) : x ∈ drop_while l → x ∈ l.
Proof.
  induction l as [|y l IH]; simpl; [done|]. case_match; set_solver.
Qed.
End while.

(** ** Strictly ordered lists *)

(** A strictly sorted list is determined by its elements. *)
Lemma sorted_ext {A} (R : relation A) `{!Irreflexive R, !Transitive R} (l1 l2 : list A) :
  StronglySorted R l1 → StronglySorted R l2 → (∀ x, x ∈ l1 ↔ x ∈ l2) → l1 = l2.
Proof.
  revert l2. induction l1 as [|x l1 IH]; intros [|y l2] H1 H2 Hiff.
  - done.
  - exfalso. assert (y ∈ []) as ?%not_elem_of_nil by (apply Hiff; set_solver). done.
  - exfalso. assert (x ∈ []) as ?%not_elem_of_nil by (apply Hiff; set_solver). done.
  - inversion H1 as [|?? S1 F1]; inversion H2 as [|?? S2 F2]; subst.
    rewrite Forall_forall in F1, F2.
    assert (x = y) as ->.
    { assert (x ∈ y :: l2) as [->|Hx]%elem_of_cons by (apply Hiff; set_solver); [done|].
      assert (y ∈ x :: l1) as [->|Hy]%elem_of_cons by (apply Hiff; set_solver); [done|].
      exfalso. apply (irreflexivity R x). etrans; eauto. }
    f_equal. apply IH; [done..|]. intros z. split; intros Hz.
    + assert (z ∈ y :: l2) as [->|]%elem_of_cons by (apply Hiff; set_solver); [|done].
      exfalso. by apply (irreflexivity R y), F1.
    + assert (z ∈ y :: l1) as [->|]%elem_of_cons by (apply Hiff; set_solver); [|done].
      exfalso. by apply (irreflexivity R y), F2.
Qed.

Lemma StronglySorted_filter {A} (R : relation A) (P : A → Prop) `{!∀ x, Decision (P x)} l :
  StronglySorted R l → StronglySorted R (filter P l).
Proof.
  induction 1 as [|x l HS IH HF]; [constructor|].
  rewrite filter_cons. case_decide; [|done].
  constructor; [done|]. rewrite Forall_forall in *. intros y [_ Hy]%list_elem_of_filter. auto.
Qed.

Lemma filter_id {A} (P : A → Prop) `{!∀ x, Decision (P x)} (l : list A) :
  (∀ x, x ∈ l → P x) → filter P l = l.
Proof.
  intros Hall. induction l as [|x l IH]; [done|].
  rewrite filter_cons_True by set_solver. f_equal. apply IH. set_solver.
Qed.

Lemma filter_swap {A} (P Q : A → Prop) `{!∀ x, Decision (P x), !∀ x, Decision (Q x)}
    (l : list A) : filter P (filter Q l) = filter Q (filter P l).
Proof. rewrite !list_filter_filter. apply list_filter_iff. naive_solver. Qed.

(** The keys under a prefix are what a cursor yields from [Seek(prefix)] on,
    for as long as the prefix matches. *)
Lemma prefix_scan {A} (key : A → string) (p : string) (l : list A) :
  StronglySorted (λ x y, str_lt (key x) (key y)) l →
  take_while (λ x, String.prefix p (key x)) (drop_while (λ x, String.ltb (key x) p) l)
  = filter (λ x, String.prefix p (key x) = true) l.
Proof.
  induction 1 as [|x l HS IH HF]; [done|].
  rewrite Forall_forall in HF. simpl. rewrite filter_cons.
  destruct (String.ltb (key x) p) eqn:Elt.
  - rewrite decide_False; [done|]. intros ?%prefix_not_lt. done.
  - assert (drop_while (λ y, String.ltb (key y) p) l = l) as Hdw.
    { apply drop_while_none. intros y Hy. apply not_true_is_false. intros Hlt.
      assert (str_lt (key x) p) by (etrans; [by apply HF|done]). unfold str_lt in *. congruence. }
    simpl. destruct (String.prefix p (key x)) eqn:Epr.
    + rewrite decide_True by done. rewrite Hdw in IH. by rewrite IH.
    + rewrite decide_False by done. symmetry.
      assert (∀ y, y ∈ l → String.prefix p (key y) = false) as Hnone.
      { intros y Hy. eapply prefix_gap; [|done|by apply HF].
        unfold str_lt. by rewrite Elt. }
      clear -Hnone. induction l as [|y l IHl]; [done|].
      rewrite filter_cons, decide_False by (rewrite Hnone by set_solver; done).
      apply IHl. set_solver.
Qed.

(** ** Options *)

Lemma option_guard_none {A} (o : option A) : ¬ is_Some o ↔ o = None.
Proof. destruct o; split; try done. intros H. by destruct H. Qed.
