(* ===== verification/Go.v ===== *)
(** * Go: errors, results, panics, state and machine integers

    What the modelled code uses of the Go language itself: the [error] values
    it returns and wraps, run-time panics, the state a [storage.Tx] threads
    through a command, and 64-bit integer arithmetic.  [CommandError] is
    src/internal/apperr/apperr.go. *)

From S2P Require Import Prelude.

(** ** apperr: the typed rejection a command returns *)

Module CommandError.
Record CommandError := mk {
  Kind : string;
  Message : string;
  Field : string;
  Details : gmap string string
}.

#[global] Instance CommandError_eq_dec : EqDecision CommandError.
Proof. solve_decision. Defined.
End CommandError.
Notation CommandError := CommandError.CommandError.

Definition KindValidation : string := "validation".
Definition KindConflict : string := "conflict".
Definition KindNotFound : string := "not_found".
Definition KindStorage : string := "storage".

(** ** Error values

    [ECommand] is a [*apperr.CommandError]; [EFoundCollision] the sentinel
    [errFoundCollision] of command/execution.go; [EText] an error with a text
    and nothing inside ([errors.New], [fmt.Errorf] without [%w], or an error of
    a library); [ENotCaughtUp m] is [fmt.Errorf("%w: %v", ErrNotCaughtUp, err)]
    of raftnode.go for an [err] that prints as [m]; [EWrap m e] is [fmt.Errorf(m + "%w", e)]. *)
Inductive error :=
| ECommand (c : CommandError)
| EFoundCollision
| EText (msg : string)
| ENotCaughtUp (msg : string)
| EWrap (msg : string) (e : error).

#[export] Instance error_eq_dec : EqDecision error.
Proof. solve_decision. Defined.

(** [err.Error()] *)
Fixpoint Error (e : error) : string :=
  match e with
  | ECommand c => CommandError.Message c
  | EFoundCollision => "collision found"
  | EText m => m
  | ENotCaughtUp m => "leader elected but not yet caught up: " +:+ m
  | EWrap m e' => m +:+ Error e'
  end.

(** [errors.As(err, &cmdErr)] with a [*CommandError] target. *)
Fixpoint asCommandErrorChain (e : error) : option CommandError :=
  match e with
  | ECommand c => Some c
  | EWrap _ e' => asCommandErrorChain e'
  | _ => None
  end.

(** [errors.Is(err, errFoundCollision)] *)
Fixpoint isFoundCollision (e : error) : bool :=
  match e with
  | EFoundCollision => true
  | EWrap _ e' => isFoundCollision e'
  | _ => false
  end.

(** [errors.Is(err, raftnode.ErrNotCaughtUp)] *)
Fixpoint isNotCaughtUp (e : error) : bool :=
  match e with
  | ENotCaughtUp _ => true
  | EWrap _ e' => isNotCaughtUp e'
  | _ => false
  end.

(** The three shapes of [&CommandError{...}] literals the commands build. *)
Definition cmd_error (kind field msg : string) : error :=
  ECommand (CommandError.mk kind msg field ∅).

(** ** Results: a value, an error, or a run-time panic *)

Inductive result (A : Type) : Type :=
| Ok (a : A)
| Err (e : error)
| Panic (msg : string).
Arguments Ok {A} a.
Arguments Err {A} e.
Arguments Panic {A} msg.

#[export] Instance result_eq_dec {A} `{!EqDecision A} : EqDecision (result A).
Proof. solve_decision. Defined.

#[export] Instance result_ret : MRet result := λ A a, Ok a.
#[export] Instance result_bind : MBind result := λ A B f m,
  match m with Ok a => f a | Err e => Err e | Panic p => Panic p end.
#[export] Instance result_fmap : FMap result := λ A B f m,
  match m with Ok a => Ok (f a) | Err e => Err e | Panic p => Panic p end.

(** ** State: what a handler does to the transaction it is given

    A computation keeps the state it has reached when it fails, as Go code
    does: rolling it back is what the transaction's caller decides. *)
Definition M (St A : Type) : Type := St → result A * St.

#[export] Instance M_ret {St} : MRet (M St) := λ A a s, (Ok a, s).
#[export] Instance M_bind {St} : MBind (M St) := λ A B f m s,
  match m s with
  | (Ok a, s') => f a s'
  | (Err e, s') => (Err e, s')
  | (Panic p, s') => (Panic p, s')
  end.

Definition fail {St A} (e : error) : M St A := λ s, (Err e, s).
Definition lift {St A} (r : result A) : M St A := λ s, (r, s).

(** [if cond { return nil, e }] *)
Definition reject_if {St} (cond : bool) (e : error) : M St unit :=
  if cond then fail e else mret ().

(** [if err != nil { return nil, g(err) }] *)
Definition wrap_err {St A} (g : error → error) (m : M St A) : M St A := λ s,
  match m s with
  | (Err e, s') => (Err (g e), s')
  | r => r
  end.

Section monad_lemmas.
Context {St : Type}.
Implicit Types s : St.

Lemma M_bind_ok {A B} (m : M St A) (f : A → M St B) s a s' :
  m s = (Ok a, s') → (m ≫= f) s = f a s'.
Proof. intros H. unfold mbind, M_bind. by rewrite H. Qed.

Lemma M_bind_inv {A B} (m : M St A) (f : A → M St B) s b s' :
  (m ≫= f) s = (Ok b, s') → ∃ a s1, m s = (Ok a, s1) ∧ f a s1 = (Ok b, s').
Proof.
  unfold mbind, M_bind. destruct (m s) as [[a|e|p] s1]; [|done..]. eauto.
Qed.

Lemma reject_if_inv (b : bool) e s (u : unit) s' :
  reject_if b e s = (Ok u, s') → b = false ∧ s' = s.
Proof. destruct b; [done|]. by intros [= _ ->]. Qed.

Lemma reject_pass {A} b e (f : unit → M St A) s :
  b = false → (reject_if b e ≫= f) s = f () s.
Proof. by intros ->. Qed.

Lemma reject_stop {A} b e (f : unit → M St A) s :
  b = true → (reject_if b e ≫= f) s = (Err e, s).
Proof. by intros ->. Qed.

Lemma wrap_err_inv {A} g (m : M St A) s a s' :
  wrap_err g m s = (Ok a, s') ↔ m s = (Ok a, s').
Proof. unfold wrap_err. destruct (m s) as [[?|?|?] ?]; split; congruence. Qed.

Lemma lift_inv {A} (r : result A) s a s' : lift r s = (Ok a, s') → r = Ok a ∧ s' = s.
Proof. by intros [= -> ->]. Qed.
End monad_lemmas.

(** [m_inv H]: take a successful run of a monadic body apart, one bind at a
    time, discharging the guards on the way. *)
Ltac m_inv1 H :=
  first
  [ apply M_bind_inv in H as (?&?&?&H)
  | apply reject_if_inv in H as [? ->]
  | apply (proj1 (wrap_err_inv _ _ _ _ _)) in H
  | apply lift_inv in H as [? ->] ].

(** ** Machine integers: Go's [int] and [time.Duration] are 64-bit signed *)

Open Scope Z_scope.

Definition wrap64 (z : Z) : Z := (z + 2 ^ 63) mod 2 ^ 64 - 2 ^ 63.
Definition in_int64 (z : Z) : Prop := - 2 ^ 63 ≤ z < 2 ^ 63.

Lemma wrap64_id z : in_int64 z → wrap64 z = z.
Proof. unfold wrap64, in_int64. intros H. rewrite Z.mod_small; lia. Qed.

Lemma wrap64_range z : in_int64 (wrap64 z).
Proof.
  unfold wrap64, in_int64. pose proof (Z.mod_pos_bound (z + 2 ^ 63) (2 ^ 64)). lia.
Qed.

Definition minInt64 : Z := - 2 ^ 63.
Definition maxInt64 : Z := 2 ^ 63 - 1.

(** [time.Duration] counts nanoseconds. *)
Definition second_ns : Z := 1000000000.
Definition minute_ns : Z := 60 * second_ns.
