(* ===== verification/Calendar.v ===== *)
(** * Calendar: the proleptic Gregorian calendar of package time

    Dates as (year, month, day) triples and as day counts since 1 January of
    year 1, the conversions both ways, and the proof that they are inverse. *)

From S2P Require Import Prelude Go.
Open Scope Z_scope.

Definition isLeap (y : Z) : bool :=
  (y mod 4 =? 0) && (negb (y mod 100 =? 0) || (y mod 400 =? 0)).

(** Days from 0001-01-01 to the first of January of year [y]. *)
Definition days_before_year (y : Z) : Z :=
  let y' := y - 1 in 365 * y' + y' / 4 - y' / 100 + y' / 400.

Definition year_len (y : Z) : Z := if isLeap y then 366 else 365.

Lemma div_pred (y n : Z) :
  0 < n → y / n = (y - 1) / n + (if y mod n =? 0 then 1 else 0).
Proof.
  intros Hn. pose proof (Z.div_mod y n). pose proof (Z.mod_pos_bound y n Hn).
  destruct (Z.eqb_spec (y mod n) 0) as [E|E].
  - rewrite <- (Z.div_unique (y - 1) n (y / n - 1) (n - 1)); lia.
  - rewrite <- (Z.div_unique (y - 1) n (y / n) (y mod n - 1)); lia.
Qed.

Lemma mod_mod_zero (y n k : Z) : 0 < n → 0 < k → y mod (n * k) = 0 → y mod n = 0.
Proof.
  intros Hn Hk H. apply Z.mod_divide; [lia|].
  apply Z.mod_divide in H; [|lia]. destruct H as [q ->]. exists (q * k). lia.
Qed.

Lemma days_before_year_succ (y : Z) :
  days_before_year (y + 1) = days_before_year y + year_len y.
Proof.
  unfold days_before_year, year_len, isLeap.
  replace (y + 1 - 1) with y by lia.
  pose proof (div_pred y 4 ltac:(lia)). pose proof (div_pred y 100 ltac:(lia)).
  pose proof (div_pred y 400 ltac:(lia)).
  pose proof (mod_mod_zero y 4 25 ltac:(lia) ltac:(lia)).
  pose proof (mod_mod_zero y 100 4 ltac:(lia) ltac:(lia)).
  change (4 * 25) with 100 in *. change (100 * 4) with 400 in *.
  destruct (Z.eqb_spec (y mod 4) 0), (Z.eqb_spec (y mod 100) 0), (Z.eqb_spec (y mod 400) 0);
    simpl; lia.
Qed.

Lemma days_before_year_mono (y1 y2 : Z) :
  y1 ≤ y2 → days_before_year y1 + 365 * (y2 - y1) ≤ days_before_year y2.
Proof.
  intros H. replace y2 with (y1 + Z.of_nat (Z.to_nat (y2 - y1))) by lia.
  generalize (Z.to_nat (y2 - y1)) as n. clear. intros n. induction n as [|n IH]; [|].
  - rewrite Z.add_0_r. lia.
  - replace (y1 + Z.of_nat (S n)) with ((y1 + Z.of_nat n) + 1) by lia.
    rewrite days_before_year_succ. unfold year_len. destruct (isLeap _); lia.
Qed.

(** ** Months *)

(** Days from the first of January to the first of month [m]. *)
Definition days_before_month (leap : bool) (m : Z) : Z :=
  let l := if leap then 1 else 0 in
  if m <=? 1 then 0 else if m =? 2 then 31 else
  l + (if m =? 3 then 59 else if m =? 4 then 90 else if m =? 5 then 120 else
       if m =? 6 then 151 else if m =? 7 then 181 else if m =? 8 then 212 else
       if m =? 9 then 243 else if m =? 10 then 273 else if m =? 11 then 304 else
       if m =? 12 then 334 else 365).

Definition month_len (leap : bool) (m : Z) : Z :=
  days_before_month leap (m + 1) - days_before_month leap m.

Definition month_of_yday (leap : bool) (yd : Z) : Z :=
  let b := days_before_month leap in
  if yd <? b 2 then 1 else if yd <? b 3 then 2 else if yd <? b 4 then 3 else
  if yd <? b 5 then 4 else if yd <? b 6 then 5 else if yd <? b 7 then 6 else
  if yd <? b 8 then 7 else if yd <? b 9 then 8 else if yd <? b 10 then 9 else
  if yd <? b 11 then 10 else if yd <? b 12 then 11 else 12.

(** [month_cases m]: one goal for each of the twelve months. *)
Ltac month_cases m :=
  assert (m = 1 ∨ m = 2 ∨ m = 3 ∨ m = 4 ∨ m = 5 ∨ m = 6 ∨ m = 7 ∨ m = 8 ∨
          m = 9 ∨ m = 10 ∨ m = 11 ∨ m = 12) as Hm by lia;
  destruct Hm as [->|[->|[->|[->|[->|[->|[->|[->|[->|[->|[->| ->]]]]]]]]]]].

Lemma month_of_yday_spec (leap : bool) (yd : Z) :
  0 ≤ yd < (if leap then 366 else 365) →
  let m := month_of_yday leap yd in
  1 ≤ m ≤ 12 ∧ days_before_month leap m ≤ yd < days_before_month leap (m + 1).
Proof.
  intros H. unfold month_of_yday.
  destruct leap; cbv [days_before_month Z.leb Z.eqb Z.compare Pos.compare Pos.compare_cont
    Pos.eqb Z.add Pos.add Pos.succ] in *;
  repeat case_match; bool_hyps; rewrite ?Z.ltb_lt, ?Z.ltb_ge in *;
  cbv [days_before_month Z.leb Z.eqb Z.compare Pos.compare Pos.compare_cont Pos.eqb Z.add
    Pos.add Pos.succ]; lia.
Qed.

Lemma month_len_range (leap : bool) (m : Z) : 1 ≤ m ≤ 12 → 28 ≤ month_len leap m ≤ 31.
Proof. intros H. month_cases m; destruct leap; vm_compute; split; discriminate. Qed.

Lemma days_before_month_bound (leap : bool) (m : Z) :
  1 ≤ m ≤ 12 → 0 ≤ days_before_month leap m ∧
  days_before_month leap (m + 1) ≤ (if leap then 366 else 365).
Proof. intros H. month_cases m; destruct leap; vm_compute; split; discriminate. Qed.

Lemma days_before_month_mono (leap : bool) (m1 m2 : Z) :
  1 ≤ m1 → m1 < m2 → m2 ≤ 13 → days_before_month leap m1 + 28 ≤ days_before_month leap m2.
Proof.
  intros H1 H2 H3. assert (m2 = 13 ∨ 1 ≤ m2 ≤ 12) as [->|Hm2] by lia.
  - assert (1 ≤ m1 ≤ 12) as Hm1 by lia. clear -Hm1.
    month_cases m1; destruct leap; vm_compute; discriminate.
  - assert (1 ≤ m1 ≤ 12) as Hm1 by lia.
    revert H2. month_cases m1; month_cases m2; intros H2; destruct leap; first [lia|vm_compute; discriminate].
Qed.

(** ** Dates and day counts *)

Definition days_of_civil (y m d : Z) : Z :=
  days_before_year y + days_before_month (isLeap y) m + (d - 1).

Definition year_of_days (n : Z) : Z :=
  let y0 := n * 400 / 146097 in
  if n <? days_before_year (y0 + 1) then y0
  else if n <? days_before_year (y0 + 2) then y0 + 1 else y0 + 2.

Lemma year_of_days_spec (n : Z) :
  days_before_year (year_of_days n) ≤ n < days_before_year (year_of_days n + 1).
Proof.
  unfold year_of_days. set (y0 := n * 400 / 146097).
  assert (146097 * y0 ≤ n * 400 < 146097 * (y0 + 1)) as Hy.
  { unfold y0. pose proof (Z.div_mod (n * 400) 146097).
    pose proof (Z.mod_pos_bound (n * 400) 146097). lia. }
  assert (days_before_year y0 ≤ n < days_before_year (y0 + 3)) as [Hlo Hhi].
  { unfold days_before_year. clearbody y0. Z.div_mod_to_equations. lia. }
  destruct (Z.ltb_spec n (days_before_year (y0 + 1))); [lia|].
  destruct (Z.ltb_spec n (days_before_year (y0 + 2))).
  - replace (y0 + 1 + 1) with (y0 + 2) by lia. lia.
  - replace (y0 + 2 + 1) with (y0 + 3) by lia. lia.
Qed.

Lemma year_of_days_unique (n y : Z) :
  days_before_year y ≤ n < days_before_year (y + 1) → year_of_days n = y.
Proof.
  intros H. pose proof (year_of_days_spec n) as H'.
  destruct (Z.lt_trichotomy (year_of_days n) y) as [Hlt|[|Hgt]]; [|done|].
  - pose proof (days_before_year_mono (year_of_days n + 1) y). lia.
  - pose proof (days_before_year_mono (y + 1) (year_of_days n)). lia.
Qed.

(** [t.Date()] on a day count. *)
Definition civil_of_days (n : Z) : Z * Z * Z :=
  let y := year_of_days n in
  let yd := n - days_before_year y in
  let m := month_of_yday (isLeap y) yd in
  (y, m, yd - days_before_month (isLeap y) m + 1).

Definition valid_civil (y m d : Z) : Prop :=
  1 ≤ m ≤ 12 ∧ 1 ≤ d ≤ month_len (isLeap y) m.

Lemma civil_of_days_valid (n y m d : Z) :
  civil_of_days n = (y, m, d) → valid_civil y m d ∧ days_of_civil y m d = n.
Proof.
  unfold civil_of_days, valid_civil, days_of_civil, month_len. intros [= <- <- <-].
  pose proof (year_of_days_spec n) as Hy. rewrite days_before_year_succ in Hy.
  unfold year_len in Hy.
  pose proof (month_of_yday_spec (isLeap (year_of_days n)) (n - days_before_year (year_of_days n))) as Hm.
  simpl in Hm. destruct (isLeap (year_of_days n)); lia.
Qed.

Lemma month_of_yday_unique (leap : bool) (yd m : Z) :
  1 ≤ m ≤ 12 → days_before_month leap m ≤ yd < days_before_month leap (m + 1) →
  month_of_yday leap yd = m.
Proof.
  intros Hm H. pose proof (days_before_month_bound leap m Hm).
  destruct (month_of_yday_spec leap yd ltac:(lia)) as [Hr Hs].
  destruct (Z.lt_trichotomy (month_of_yday leap yd) m) as [Hlt|[|Hgt]]; [|done|].
  - destruct (decide (month_of_yday leap yd + 1 = m)) as [<-|]; [lia|].
    pose proof (days_before_month_mono leap (month_of_yday leap yd + 1) m). lia.
  - destruct (decide (month_of_yday leap yd = m + 1)) as [E|]; [rewrite E in *; lia|].
    pose proof (days_before_month_mono leap (m + 1) (month_of_yday leap yd)). lia.
Qed.

Lemma civil_of_days_of_civil (y m d : Z) :
  valid_civil y m d → civil_of_days (days_of_civil y m d) = (y, m, d).
Proof.
  intros [Hm Hd]. unfold month_len in Hd. unfold civil_of_days.
  pose proof (days_before_month_bound (isLeap y) m Hm).
  assert (year_of_days (days_of_civil y m d) = y) as ->.
  { apply year_of_days_unique. rewrite days_before_year_succ.
    unfold days_of_civil, year_len. destruct (isLeap y); lia. }
  assert (month_of_yday (isLeap y) (days_of_civil y m d - days_before_year y) = m) as ->.
  { apply month_of_yday_unique; [done|]. unfold days_of_civil. lia. }
  unfold days_of_civil. f_equal. lia.
Qed.

(** [time.Date]'s day count: the month is normalised into the year, the day
    is added as a number of days and may be outside its month. *)
Definition date_days (year month day : Z) : Z :=
  let m := month - 1 in
  days_of_civil (year + m / 12) (m mod 12 + 1) 1 + (day - 1).

Lemma date_days_civil (y m d : Z) : 1 ≤ m ≤ 12 → date_days y m d = days_of_civil y m d.
Proof.
  intros Hm. unfold date_days, days_of_civil.
  rewrite (Z.div_small (m - 1)), (Z.mod_small (m - 1)) by lia.
  replace (y + 0) with y by lia. replace (m - 1 + 1) with m by lia. lia.
Qed.

Lemma date_days_add (y m d k : Z) : date_days y m (d + k) = date_days y m d + k.
Proof. unfold date_days. lia. Qed.

(** Day 0 of the following month is the last day of this one. *)
Lemma date_days_next_month (y m : Z) :
  1 ≤ m ≤ 12 → date_days y (m + 1) 1 = days_of_civil y m 1 + month_len (isLeap y) m.
Proof.
  intros Hm. destruct (decide (m = 12)) as [->|].
  - change (date_days y (12 + 1) 1) with (days_of_civil (y + 1) 1 1 + 0).
    unfold days_of_civil, month_len. rewrite days_before_year_succ. unfold year_len.
    change (days_before_month (isLeap (y + 1)) 1) with 0. destruct (isLeap y).
    + change (days_before_month true (12 + 1)) with 366. lia.
    + change (days_before_month false (12 + 1)) with 365. lia.
  - rewrite date_days_civil by lia. unfold days_of_civil, month_len. lia.
Qed.

(** [t.Weekday()], Sunday = 0: 0001-01-01 was a Monday. *)
Definition weekday_of_days (n : Z) : Z := (n + 1) mod 7.
