(* ===== verification/GoTime.v ===== *)
(** * GoTime: package time, as far as the scheduler uses it

    Instants, zones, wall-clock fields, [time.Date] with Go's zone lookup,
    [AddDate], [Sub], comparisons and the RFC 3339 format.  Years and seconds
    are unbounded here: every time the program handles has gone through JSON,
    which only carries the years 0 to 9999. *)

From Stdlib Require Import Ascii.
From S2P Require Import Prelude Go Calendar.
Open Scope Z_scope.

(** ** Instants

    A [time.Time] as the code can observe it: nanoseconds since the Unix epoch
    and the offset (in seconds east of UTC) its zone has at that instant.  A
    monotonic reading never gets here: all stored times come out of JSON. *)
Record Time := mkTime { t_ns : Z; t_off : Z }.

#[global] Instance Time_eq_dec : EqDecision Time.
Proof. solve_decision. Defined.

Definition unix_epoch_days : Z := 719162.
Definition day_secs : Z := 86400.
Definition day_ns : Z := day_secs * second_ns.

Definition Unix (t : Time) : Z := t_ns t / second_ns.
Definition Nanosecond (t : Time) : Z := t_ns t mod second_ns.

(** [t.Before(u)], [t.After(u)] and [t.Equal(u)] compare instants. *)
Definition Before (t u : Time) : bool := t_ns t <? t_ns u.
Definition After (t u : Time) : bool := t_ns u <? t_ns t.
Definition Equal (t u : Time) : bool := t_ns t =? t_ns u.

(** The zero time, January 1 of year 1, UTC. *)
Definition zeroTime : Time := mkTime (- unix_epoch_days * day_ns) 0.
Definition IsZero (t : Time) : bool := t_ns t =? t_ns zeroTime.

(** [t.UTC()] *)
Definition UTC (t : Time) : Time := mkTime (t_ns t) 0.

(** [t.Add(d)] for a duration of [d] nanoseconds. *)
Definition Add (t : Time) (d : Z) : Time := mkTime (t_ns t + d) (t_off t).

(** [t.Sub(u)] saturates at the ends of [Duration]. *)
Definition Sub (t u : Time) : Z := Z.max minInt64 (Z.min maxInt64 (t_ns t - t_ns u)).

(** ** Wall-clock fields *)

Definition local_secs (t : Time) : Z := Unix t + t_off t.
Definition local_days (t : Time) : Z := local_secs t / day_secs + unix_epoch_days.

Definition Year (t : Time) : Z := let '(y, _, _) := civil_of_days (local_days t) in y.
Definition Month (t : Time) : Z := let '(_, m, _) := civil_of_days (local_days t) in m.
Definition Day (t : Time) : Z := let '(_, _, d) := civil_of_days (local_days t) in d.
Definition Hour (t : Time) : Z := local_secs t mod day_secs / 3600.
Definition Minute (t : Time) : Z := local_secs t mod 3600 / 60.
Definition Second (t : Time) : Z := local_secs t mod 60.
Definition Weekday (t : Time) : Z := weekday_of_days (local_days t).

(** ** Zones

    [loc.lookup(sec)] answers with the offset in force at a Unix time and the
    interval over which it is in force. *)
Record zone_span := mkSpan { zs_offset : Z; zs_start : Z; zs_end : Z }.
Record Location := mkLocation { lookup_zone : Z → zone_span }.

Definition loc_UTC : Location := mkLocation (λ _, mkSpan 0 minInt64 maxInt64).

(** A location with one offset for all time, as [time.FixedZone] makes. *)
Definition FixedZone (off : Z) : Location := mkLocation (λ _, mkSpan off minInt64 maxInt64).

(** A location given by its transitions, in order: from the Unix time of each
    one on, the offset is the one beside it. *)
Fixpoint span_at (start off : Z) (tx : list (Z * Z)) (sec : Z) : zone_span :=
  match tx with
  | [] => mkSpan off start maxInt64
  | (when_, off') :: tx' =>
      if sec <? when_ then mkSpan off start when_ else span_at when_ off' tx' sec
  end.

Definition loc_of_transitions (off : Z) (tx : list (Z * Z)) : Location :=
  mkLocation (span_at minInt64 off tx).

(** [t.In(loc)] *)
Definition In_loc (t : Time) (loc : Location) : Time :=
  mkTime (t_ns t) (zs_offset (lookup_zone loc (Unix t))).

(** [time.Date(year, month, day, hour, min, sec, nsec, loc)]: the fields are
    read as UTC first, the offset found there is tried, and when it does not
    hold at the adjusted time the offset of the adjusted time is used. *)
Definition zone_adjust (loc : Location) (unix : Z) : Z :=
  let sp := lookup_zone loc unix in
  if zs_offset sp =? 0 then unix else
  let utc := unix - zs_offset sp in
  if (utc <? zs_start sp) || (zs_end sp <=? utc)
  then unix - zs_offset (lookup_zone loc utc)
  else utc.

Definition Date (year month day hour min sec nsec : Z) (loc : Location) : Time :=
  let naive := (date_days year month day - unix_epoch_days) * day_secs
               + hour * 3600 + min * 60 + sec in
  let unix := zone_adjust loc naive in
  mkTime (unix * second_ns + nsec) (zs_offset (lookup_zone loc unix)).

(** [t.AddDate(years, months, days)] for a [t] whose location is [loc]. *)
Definition AddDate (loc : Location) (t : Time) (years months days : Z) : Time :=
  Date (Year t + years) (Month t + months) (Day t + days)
       (Hour t) (Minute t) (Second t) (Nanosecond t) loc.

(** [time.LoadLocation(name)] over the embedded time-zone database: the names
    "" and "UTC" need no database, and path-like names are refused. *)
Fixpoint has_dot_dot (s : string) : bool :=
  match s with
  | String "."%char (String "."%char _) => true
  | String _ s' => has_dot_dot s'
  | EmptyString => false
  end.

Definition bad_zone_name (name : string) : bool :=
  has_dot_dot name || String.prefix "/" name || String.prefix "\" name.

Definition LoadLocation (tzdb : string → option Location) (name : string) : result Location :=
  if bool_decide (name = "" ∨ name = "UTC") then Ok loc_UTC else
  if bad_zone_name name then Err (EText "time: invalid location name") else
  match tzdb name with
  | Some loc => Ok loc
  | None => Err (EText ("unknown time zone " +:+ name))
  end.

(** ** RFC 3339 with nanoseconds *)

Definition digit (z : Z) : Ascii.ascii := Ascii.ascii_of_nat (48 + Z.to_nat (z mod 10)).

(** The last [n] decimal digits of [z], most significant first. *)
Fixpoint digits (n : nat) (z : Z) : string :=
  match n with
  | O => ""
  | S n' => digits n' (z / 10) +:+ String (digit z) ""
  end.

(** [appendInt(b, x, width)] *)
Definition appendInt (x : Z) (width : nat) : string :=
  let n := Z.abs x in
  let k := Nat.max width (Z.to_nat (Z.log2 n) + 1) in
  let fix trim (k : nat) (s : string) : string :=
    match k, s with
    | S k', String "0"%char s' => trim k' s'
    | _, _ => s
    end in
  (if x <? 0 then "-" else "") +:+ trim (k - width)%nat (digits k n).

Fixpoint trim_zeros (s : string) : string :=
  match s with
  | EmptyString => ""
  | String c s' =>
      match trim_zeros s' with
      | EmptyString => if Ascii.eqb c "0"%char then "" else String c ""
      | r => String c r
      end
  end.

Definition fraction (nsec : Z) : string :=
  if nsec =? 0 then "" else "." +:+ trim_zeros (digits 9 nsec).

Definition zone_suffix (off : Z) : string :=
  if off =? 0 then "Z" else
  let zone := Z.quot off 60 in
  (if zone <? 0 then "-" else "+") +:+ appendInt (Z.abs zone / 60) 2 +:+ ":"
  +:+ appendInt (Z.abs zone mod 60) 2.

(** [t.Format(time.RFC3339Nano)] *)
Definition FormatRFC3339Nano (t : Time) : string :=
  appendInt (Year t) 4 +:+ "-" +:+ appendInt (Month t) 2 +:+ "-" +:+ appendInt (Day t) 2
  +:+ "T" +:+ appendInt (Hour t) 2 +:+ ":" +:+ appendInt (Minute t) 2 +:+ ":"
  +:+ appendInt (Second t) 2 +:+ fraction (Nanosecond t) +:+ zone_suffix (t_off t).

(** A convenient way to write an instant: a UTC date and time of day. *)
Definition utc_date (y m d h mi s : Z) : Time := Date y m d h mi s 0 loc_UTC.

Example format_utc :
  FormatRFC3339Nano (utc_date 2024 2 29 9 5 7) = "2024-02-29T09:05:07Z".
Proof. reflexivity. Qed.

Example format_offset :
  FormatRFC3339Nano (mkTime (t_ns (utc_date 1999 12 31 23 59 59) + 120000000) (- 12600))
  = "1999-12-31T20:29:59.12-03:30".
Proof. reflexivity. Qed.

Example format_big_year : appendInt 12024 4 = "12024" ∧ appendInt (-5) 4 = "-0005".
Proof. split; reflexivity. Qed.

(** ** Facts about wall clocks *)

Lemma unix_ns (t : Time) : t_ns t = Unix t * second_ns + Nanosecond t.
Proof. unfold Unix, Nanosecond, second_ns. pose proof (Z.div_mod (t_ns t) 1000000000). lia. Qed.

Lemma nanosecond_range (t : Time) : 0 ≤ Nanosecond t < second_ns.
Proof. apply Z.mod_pos_bound. done. Qed.

(** The hour, minute and second are the base-60 digits of the time of day. *)
Lemma clock_secs (t : Time) :
  Hour t * 3600 + Minute t * 60 + Second t = local_secs t mod day_secs.
Proof.
  unfold Hour, Minute, Second, day_secs. generalize (local_secs t) as z. intros z.
  Z.div_mod_to_equations. lia.
Qed.

Lemma civil_local (t : Time) : civil_of_days (local_days t) = (Year t, Month t, Day t).
Proof. unfold Year, Month, Day. by destruct (civil_of_days (local_days t)) as [[??]?]. Qed.

Lemma valid_civil_local (t : Time) : valid_civil (Year t) (Month t) (Day t).
Proof. eapply civil_of_days_valid, civil_local. Qed.

(** Reading a time's date and putting it back gives its day. *)
Lemma date_days_local (t : Time) (k : Z) :
  date_days (Year t) (Month t) (Day t + k) = local_days t + k.
Proof.
  pose proof (civil_of_days_valid _ _ _ _ (civil_local t)) as [[Hm _] Hd].
  rewrite date_days_add, date_days_civil by done. lia.
Qed.

Lemma local_secs_split (t : Time) :
  local_secs t = (local_days t - unix_epoch_days) * day_secs + local_secs t mod day_secs.
Proof.
  unfold local_days, day_secs. pose proof (Z.div_mod (local_secs t) 86400). lia.
Qed.

Lemma time_of_day_range (t : Time) : 0 ≤ local_secs t mod day_secs < day_secs.
Proof. apply Z.mod_pos_bound. done. Qed.

Lemma unix_mk (u n o : Z) : 0 ≤ n < second_ns → Unix (mkTime (u * second_ns + n) o) = u.
Proof.
  intros Hn. unfold Unix; simpl. rewrite Z.div_add_l by done. rewrite Z.div_small; lia.
Qed.

Lemma nanosecond_mk (u n o : Z) : 0 ≤ n < second_ns → Nanosecond (mkTime (u * second_ns + n) o) = n.
Proof.
  intros Hn. unfold Nanosecond; simpl. rewrite Z.add_comm, Z.mod_add by done.
  by apply Z.mod_small.
Qed.

(** Times with no fraction of a second. *)
Definition whole_second (t : Time) : Prop := Nanosecond t = 0.

(** ** Locations with a single offset *)

Section fixed.
Context (off : Z).

Lemma zone_adjust_fixed (u : Z) :
  minInt64 ≤ u - off < maxInt64 → zone_adjust (FixedZone off) u = u - off.
Proof.
  intros H. unfold zone_adjust; simpl. destruct (Z.eqb_spec off 0) as [->|]; [lia|].
  destruct (Z.ltb_spec (u - off) minInt64); [lia|].
  destruct (Z.leb_spec maxInt64 (u - off)); [lia|]. done.
Qed.
End fixed.

Lemma zone_adjust_UTC (u : Z) : zone_adjust loc_UTC u = u.
Proof. reflexivity. Qed.
