(* ===== verification/GoFloat.v ===== *)
(** * GoFloat: float64 arithmetic

    Go's [float64] is IEEE 754 binary64 with round-to-nearest-even, which the
    Standard Library specifies in [SpecFloat].  Here are the operations the
    scheduler uses: integer conversions, [+], [*], [/], comparisons,
    [math.Floor], [math.Ceil] and [math.Pow] with an integer exponent. *)

From Stdlib Require Import SpecFloat.
From S2P Require Import Prelude Go.
Open Scope Z_scope.

Notation f64 := spec_float.

#[global] Instance f64_eq_dec : EqDecision f64.
Proof. solve_decision. Defined.

(** [float64(z)] for an integer, and the arithmetic operators. *)
Definition f64_of_int (z : Z) : f64 := binary_normalize 53 1024 z 0 false.
Definition f64_add : f64 → f64 → f64 := SFadd 53 1024.
Definition f64_mul : f64 → f64 → f64 := SFmul 53 1024.
Definition f64_div : f64 → f64 → f64 := SFdiv 53 1024.
Definition f64_ltb : f64 → f64 → bool := SFltb.
Definition f64_eqb : f64 → f64 → bool := SFeqb.

(** The integer below and the integer above a finite float. *)
Definition floor_Z (m e : Z) : Z := if 0 <=? e then m * 2 ^ e else m / 2 ^ (- e).
Definition ceil_Z (m e : Z) : Z := - floor_Z (- m) e.
Definition trunc_Z (s : bool) (m : positive) (e : Z) : Z :=
  if s then - floor_Z (Zpos m) e else floor_Z (Zpos m) e.

Definition signed (s : bool) (m : positive) : Z := if s then Zneg m else Zpos m.

(** [math.Floor] and [math.Ceil] *)
Definition Floor (x : f64) : f64 :=
  match x with
  | S754_finite s m e => f64_of_int (floor_Z (signed s m) e)
  | _ => x
  end.

Definition Ceil (x : f64) : f64 :=
  match x with
  | S754_finite s m e =>
      let z := ceil_Z (signed s m) e in
      if z =? 0 then S754_zero s else f64_of_int z
  | _ => x
  end.

(** [int(x)] and [time.Duration(x)] truncate; for a NaN, an infinity or a value
    outside [int64] the result is implementation-specific, [oor x] here. *)
Definition int_of_f64 (oor : f64 → Z) (x : f64) : Z :=
  match x with
  | S754_zero _ => 0
  | S754_finite s m e =>
      let z := trunc_Z s m e in
      if (minInt64 <=? z) && (z <=? maxInt64) then z else oor x
  | _ => oor x
  end.

(** The integer that [float64(z)] stands for ([z] itself up to 2^53). *)
Definition f64_int_value (z : Z) : Z :=
  match f64_of_int z with
  | S754_finite s m e => trunc_Z s m e
  | _ => 0
  end.

(** [d.Seconds()]: whole seconds and the fraction are converted apart. *)
Definition Seconds (d : Z) : f64 :=
  f64_add (f64_of_int (Z.quot d second_ns))
          (f64_div (f64_of_int (Z.rem d second_ns)) (f64_of_int second_ns)).

(** ** math.Pow(x, y) for an integral [y >= 0], as package math computes it *)

Definition f64_one : f64 := f64_of_int 1.
Definition f64_half : f64 := S754_finite false 4503599627370496 (-53).

(** One bit of the exponent per step: square [x1], and multiply the answer
    [a1 * 2^ae] when the bit is set; give up once [xe] is beyond any exponent. *)
Definition pow_square (x1 : f64) (xe : Z) : f64 * Z :=
  let x1 := f64_mul x1 x1 in
  let xe := 2 * xe in
  if f64_ltb x1 f64_half then (f64_add x1 x1, xe - 1) else (x1, xe).

Fixpoint pow_loop (i : positive) (a1 : f64) (ae : Z) (x1 : f64) (xe : Z) : f64 * Z :=
  if (xe <? -4096) || (4096 <? xe) then (a1, ae + xe) else
  match i with
  | xH => (f64_mul a1 x1, ae + xe)
  | xO i' => let '(x1', xe') := pow_square x1 xe in pow_loop i' a1 ae x1' xe'
  | xI i' =>
      let '(x1', xe') := pow_square x1 xe in
      pow_loop i' (f64_mul a1 x1) (ae + xe) x1' xe'
  end.

Definition is_odd (y : Z) : bool := Z.odd y && (y <? 2 ^ 53).

Definition Pow (x : f64) (y : Z) : f64 :=
  if (y =? 0) || f64_eqb x f64_one then f64_one else
  if y =? 1 then x else
  match x with
  | S754_nan => S754_nan
  | S754_zero s => if s && is_odd y then x else S754_zero false
  | S754_infinity s => S754_infinity (s && is_odd y)
  | S754_finite s _ _ =>
      if 2 ^ 63 <=? y then
        if f64_eqb x (SFopp f64_one) then f64_one
        else if f64_ltb (SFabs x) f64_one then S754_zero false else S754_infinity false
      else
      let '(x1, xe) := SFfrexp 53 1024 x in
      let '(a1, ae) := pow_loop (Z.to_pos y) f64_one 0 x1 xe in
      SFldexp 53 1024 a1 ae
  end.

Example pow_two_ten : Pow (f64_of_int 2) 10 = f64_of_int 1024.
Proof. reflexivity. Qed.

Example pow_three_halves :
  f64_mul (f64_of_int 8) (Pow (f64_div (f64_of_int 3) (f64_of_int 2)) 3) = f64_of_int 27.
Proof. reflexivity. Qed.

Example pow_overflow : Pow (f64_of_int 10) 400 = S754_infinity false.
Proof. reflexivity. Qed.

Example seconds_half : Seconds 1500000000 = f64_div (f64_of_int 3) (f64_of_int 2).
Proof. reflexivity. Qed.
