(* ===== verification/FloatLaws.v ===== *)
(** * FloatLaws: what float64 arithmetic guarantees

    [SpecFloat] defines the operations by bit manipulation.  Here is what the
    scheduler relies on: each result is the nearest float to the exact
    rational, integers up to 2^53 are exact, and so [math.Floor] and
    [math.Ceil] of a quotient are the exact integers unless the quotient is
    too close to one of them. *)

From Stdlib Require Import SpecFloat QArith Qpower Qround Lqa.
From S2P Require Import Prelude Go GoFloat.
Open Scope Z_scope.

(** ** Binary digits *)

Lemma digits2_log2 (p : positive) : Zpos (digits2_pos p) = Z.log2 (Zpos p) + 1.
Proof.
  induction p as [p IH|p IH|]; simpl digits2_pos.
  - rewrite Pos2Z.inj_xI, Z.log2_succ_double by lia. lia.
  - rewrite Pos2Z.inj_xO, Z.log2_double by lia. lia.
  - reflexivity.
Qed.

Lemma Zdigits2_log2 z : 0 < z → Zdigits2 z = Z.log2 z + 1.
Proof. destruct z; try lia. intros _. apply digits2_log2. Qed.

Lemma log2_shift z n : 0 < z → 0 ≤ n → Z.log2 (z * 2 ^ n) = Z.log2 z + n.
Proof. intros. rewrite Z.log2_mul_pow2 by lia. lia. Qed.

Lemma log2_bounds z : 0 < z → 2 ^ Z.log2 z ≤ z < 2 * 2 ^ Z.log2 z.
Proof. intros H. pose proof (Z.log2_spec z H). rewrite Z.pow_succ_r in *; [lia|apply Z.log2_nonneg]. Qed.

Lemma shl_align_left (p : positive) e (e' : Z) : e' ≤ e →
  shl_align p e e' = (Z.to_pos (Zpos p * 2 ^ (e - e')), e').
Proof.
  intros He. unfold shl_align. destruct (e' - e) as [|d|d] eqn:Hd; try lia.
  - replace (e - e') with 0 by lia. replace e with e' by lia. f_equal; simpl; lia.
  - replace (e - e') with (Zpos d) by lia. f_equal.
    apply Pos2Z.inj. rewrite Z2Pos.id by nia.
    clear. revert p. induction d using Pos.peano_ind; intros p.
    + simpl. lia.
    + rewrite Pos.iter_succ, Pos2Z.inj_xO, IHd, Pos2Z.inj_succ, Z.pow_succ_r by lia. lia.
Qed.

Lemma shl_align_right (p : positive) e (e' : Z) : e ≤ e' → shl_align p e e' = (p, e).
Proof. intros He. unfold shl_align. destruct (e' - e) eqn:Hd; [done|done|lia]. Qed.

(** ** Where an exact rational [M / w] lies above the integer [m] *)

Definition loc_at (M w m : Z) (l : location) : Prop :=
  match l with
  | loc_Exact => M = m * w
  | loc_Inexact c => m * w < M < (m + 1) * w ∧ (2 * (M - m * w) ?= w) = c
  end.

Definition rec_at (M w : Z) (mrs : shr_record) : Prop :=
  0 ≤ shr_m mrs ∧ loc_at M w (shr_m mrs) (loc_of_shr_record mrs).

Lemma new_location_at M w : 0 < w → loc_at M w (M / w) (new_location w (M mod w)).
Proof.
  intros Hw. pose proof (Z.div_mod M w ltac:(lia)) as HM. pose proof (Z.mod_pos_bound M w Hw).
  set (r := M mod w) in *. set (q := M / w) in *.
  unfold new_location, new_location_even, new_location_odd.
  destruct (Z.even w) eqn:He; destruct (Z.eqb_spec r 0); simpl; try lia.
  - split; [lia|]. f_equal. lia.
  - apply (f_equal negb) in He. rewrite Z.negb_even in He. apply Z.odd_spec in He as [j Hj].
    split; [lia|]. replace (M - q * w) with r by lia. fold (2 * r).
    destruct (Z.compare_spec (2 * r + 1) w); destruct (Z.compare_spec (2 * r) w); try done; lia.
Qed.

Lemma loc_record m l : shr_m (shr_record_of_loc m l) = m
  ∧ loc_of_shr_record (shr_record_of_loc m l) = l.
Proof. by destruct l as [|[]]. Qed.

Lemma shr_1_at M w mrs : 0 < w → rec_at M w mrs → rec_at M (2 * w) (shr_1 mrs).
Proof.
  intros Hw [Hm Hl]. destruct mrs as [m r s]. simpl in Hm, Hl.
  assert (∃ h (b : bool), m = 2 * h + Z.b2z b ∧ 0 ≤ h
    ∧ shr_1 {| shr_m := m; shr_r := r; shr_s := s |}
        = {| shr_m := h; shr_r := b; shr_s := r || s |}) as (h & b & -> & Hh & ->).
  { destruct m as [|[p|p|]|]; [exists 0, false|exists (Zpos p), true|exists (Zpos p), false
      |exists 0, true|lia]; (split; [simpl; lia|split; [lia|done]]). }
  split; [done|]. simpl. revert Hl.
  destruct r, s, b; unfold loc_at; cbn [loc_of_shr_record orb Z.b2z]; intros Hl; try lia.
  all: rewrite ?Z.compare_lt_iff, ?Z.compare_gt_iff, ?Z.compare_eq_iff in *.
  all: replace (h * (2 * w)) with (2 * (h * w)) by lia.
  all: replace ((h + 1) * (2 * w)) with (2 * (h * w) + 2 * w) by lia.
  all: rewrite ?Z.mul_add_distr_r, <- ?Z.mul_assoc, ?Z.mul_1_l in Hl.
  all: lia.
Qed.

Lemma shr_n_at (p : positive) M w mrs : 0 < w → rec_at M w mrs →
  rec_at M (w * 2 ^ Zpos p) (SpecFloat.iter_pos shr_1 p mrs).
Proof.
  revert w mrs. induction p as [p IH|p IH|]; intros w mrs Hw Hat; cbn [SpecFloat.iter_pos].
  - replace (Zpos p~1) with (1 + Zpos p + Zpos p) by lia.
    rewrite !Z.pow_add_r, !Z.mul_assoc by lia. apply IH; [lia|]. apply IH; [lia|].
    rewrite Z.mul_comm. by apply shr_1_at.
  - replace (Zpos p~0) with (Zpos p + Zpos p) by lia.
    rewrite Z.pow_add_r, Z.mul_assoc by lia. apply IH; [lia|]. by apply IH.
  - rewrite Z.mul_comm. by apply shr_1_at.
Qed.

Lemma round_near M w m l : 0 < w → loc_at M w m l →
  2 * Z.abs (round_nearest_even m l * w - M) ≤ w ∧ m ≤ round_nearest_even m l ≤ m + 1.
Proof.
  intros Hw Hl. destruct l as [|[]]; simpl in *; try lia;
    destruct Hl as [Hr Hc]; rewrite ?Z.compare_lt_iff, ?Z.compare_gt_iff, ?Z.compare_eq_iff in Hc;
    try destruct (Z.even m); lia.
Qed.

(** ** Rounding is to a nearest float *)

Lemma fexp_normal d : -1074 ≤ d - 53 → fexp 53 1024 d = d - 53.
Proof. intros H. unfold fexp, emin. lia. Qed.

(** Shifting the mantissa down to 53 bits. *)
Lemma shr_fexp_at M w mx e l : 0 < w → 0 < mx → loc_at M w mx l →
  let n := Z.log2 mx - 52 in
  0 ≤ n → -1074 ≤ e + n →
  ∃ mrs, shr_fexp 53 1024 mx e l = (mrs, e + n) ∧ rec_at M (w * 2 ^ n) mrs.
Proof.
  intros Hw Hm Hl n Hn He. destruct (loc_record mx l) as [Hr1 Hr2].
  assert (Hat : rec_at M w (shr_record_of_loc mx l)) by (split; [lia|]; by rewrite Hr1, Hr2).
  unfold shr_fexp. rewrite Zdigits2_log2, fexp_normal by lia.
  replace (Z.log2 mx + 1 + e - 53 - e) with n by lia.
  destruct n as [|p|p] eqn:Hp; [|by eexists; split; [done|apply shr_n_at]|lia].
  eexists. simpl. rewrite Z.add_0_r, Z.mul_1_r. done.
Qed.

Lemma rec_at_bounds M w mrs : rec_at M w mrs →
  shr_m mrs * w ≤ M ∧ (0 < w → M < (shr_m mrs + 1) * w).
Proof. intros [_ Hl]. destruct (loc_of_shr_record mrs) as [|[]]; simpl in Hl; lia. Qed.

Lemma loc_at_bounds M w m l : 0 < w → loc_at M w m l → m * w ≤ M < (m + 1) * w.
Proof. intros Hw Hl. destruct l as [|[]]; simpl in Hl; lia. Qed.

(** The second shift only moves when the rounding carried into a 54th bit. *)
Lemma carry_shift r e : 2 ^ 52 ≤ r ≤ 2 ^ 53 → -1074 ≤ e →
  ∃ m E, shr_fexp 53 1024 r e loc_Exact = ({| shr_m := Zpos m; shr_r := false; shr_s := false |}, E)
    ∧ 2 ^ 52 ≤ Zpos m < 2 ^ 53 ∧ e ≤ E ≤ e + 1 ∧ r = Zpos m * 2 ^ (E - e).
Proof.
  intros Hr He. unfold shr_fexp. rewrite Zdigits2_log2 by lia.
  destruct (decide (r = 2 ^ 53)) as [->|Hne].
  - change (Z.log2 (2 ^ 53)) with 53. rewrite fexp_normal by lia.
    replace (53 + 1 + e - 53 - e) with 1 by lia.
    exists (2 ^ 52)%positive, (e + 1). split; [done|]. split; [done|]. split; [lia|].
    by replace (e + 1 - e) with 1 by lia.
  - rewrite (Z.log2_unique r 52) by lia. rewrite fexp_normal by lia.
    replace (52 + 1 + e - 53 - e) with 0 by lia.
    exists (Z.to_pos r), e. rewrite Z2Pos.id by lia. split; [done|]. split; [lia|]. split; [lia|].
    rewrite Z.sub_diag. lia.
Qed.

Theorem round_aux_nearest (s : bool) M w mx e l : 0 < w → 0 < mx → loc_at M w mx l →
  let n := Z.log2 mx - 52 in
  0 ≤ n → -1074 ≤ e + n → e + n < 970 →
  ∃ m E, binary_round_aux 53 1024 s mx e l = S754_finite s m E
    ∧ 2 ^ 52 ≤ Zpos m < 2 ^ 53 ∧ e + n ≤ E ≤ e + n + 1
    ∧ 2 * Z.abs (Zpos m * 2 ^ (E - e) * w - M) ≤ w * 2 ^ (E - e).
Proof.
  intros Hw Hm Hl n Hn He Hmax. unfold binary_round_aux.
  destruct (shr_fexp_at M w mx e l) as (mrs & -> & Hat); [done..|]. fold n in Hat |- *.
  assert (Hp : 0 < 2 ^ n) by lia. destruct (rec_at_bounds _ _ _ Hat) as [Hb1 Hb2].
  specialize (Hb2 ltac:(nia)). apply loc_at_bounds in Hl; [|done].
  pose proof (log2_bounds mx Hm) as Hlog. replace (Z.log2 mx) with (52 + n) in Hlog by lia.
  rewrite Z.pow_add_r in Hlog by lia. set (P := 2 ^ n) in *.
  assert (2 ^ 52 ≤ shr_m mrs < 2 ^ 53) as Hmm by nia.
  destruct (round_near M (w * P) (shr_m mrs) (loc_of_shr_record mrs)) as [Hr Hrb];
    [nia|apply Hat|]. set (r := round_nearest_even _ _) in *.
  destruct (carry_shift r (e + n)) as (m & E & -> & Hm' & HE & Hrm); [lia|lia|].
  cbn [shr_m]. rewrite (proj2 (Z.leb_le E (1024 - 53))) by lia.
  exists m, E. split; [done|]. split; [done|]. split; [lia|].
  replace (E - e) with (E - (e + n) + n) by lia. rewrite Z.pow_add_r by lia. fold P.
  rewrite Hrm in Hr. assert (0 < 2 ^ (E - (e + n))) by lia.
  replace (Zpos m * (2 ^ (E - (e + n)) * P) * w)
    with (Zpos m * 2 ^ (E - (e + n)) * (w * P)) by lia. nia.
Qed.

(** ** The values of floats, as rationals *)

Definition pow2 (e : Z) : Q := (inject_Z 2 ^ e)%Q.
Definition fval (m : positive) (e : Z) : Q := (inject_Z (Zpos m) * pow2 e)%Q.

(** [f] is a positive float with 53 significant bits nearest to [x]. *)
Definition rounds (x : Q) (f : f64) : Prop :=
  ∃ m e, f = S754_finite false m e ∧ 2 ^ 52 ≤ Zpos m < 2 ^ 53
    ∧ (- pow2 e <= 2 * (fval m e - x) <= pow2 e)%Q.

Lemma pow2_pos e : (0 < pow2 e)%Q.
Proof. apply Qpower_0_lt. reflexivity. Qed.

Lemma pow2_add a b : (pow2 (a + b) == pow2 a * pow2 b)%Q.
Proof. apply Qpower_plus. discriminate. Qed.

Lemma pow2_Z n : 0 ≤ n → (inject_Z (2 ^ n) == pow2 n)%Q.
Proof. apply Zpower_Qpower. Qed.

Lemma inject_le a b : a ≤ b ↔ (inject_Z a <= inject_Z b)%Q.
Proof. by rewrite Zle_Qle. Qed.

Lemma inject_lt a b : a < b ↔ (inject_Z a < inject_Z b)%Q.
Proof. by rewrite Zlt_Qlt. Qed.

Lemma inject_pos z : 0 < z → (0 < inject_Z z)%Q.
Proof. intros Hz. change 0%Q with (inject_Z 0). by rewrite <- Zlt_Qlt. Qed.

Lemma inject_nonneg z : 0 ≤ z → (0 <= inject_Z z)%Q.
Proof. intros Hz. change 0%Q with (inject_Z 0). by rewrite <- Zle_Qle. Qed.

(** Carry an inequality between integers over to rationals. *)
Ltac inject_in H :=
  unfold Z.sub in H;
  repeat first [rewrite inject_Z_mult in H | rewrite inject_Z_plus in H | rewrite inject_Z_opp in H];
  change (inject_Z 2) with 2%Q in H.

#[global] Instance rounds_proper : Proper (Qeq ==> eq ==> iff) rounds.
Proof.
  intros x y Hxy f f' <-. unfold rounds.
  split; intros (m & e & Hf & Hm & Hv); exists m, e; (split; [done|]); (split; [done|]); lra.
Qed.

Lemma Qmult_scale (a b w t : Q) : (0 < w -> 0 < t -> a * w <= b * w -> a * t <= b * t)%Q.
Proof. intros Hw Ht H. apply Qmult_le_compat_r; [|lra]. by apply Qmult_le_r in H. Qed.

Lemma round_aux_rounds M w mx e l : 0 < w → 0 < mx → loc_at M w mx l →
  0 ≤ Z.log2 mx - 52 → -1074 ≤ e + (Z.log2 mx - 52) → e + (Z.log2 mx - 52) < 970 →
  rounds (inject_Z M / inject_Z w * pow2 e) (binary_round_aux 53 1024 false mx e l).
Proof.
  intros Hw Hm Hl Hn He Hmax.
  destruct (round_aux_nearest false M w mx e l) as (m & E & -> & Hm' & HE & Hr); [done..|].
  exists m, E. split; [done|]. split; [done|]. unfold fval.
  set (P := 2 ^ (E - e)) in *. assert (HP : (pow2 E == inject_Z P * pow2 e)%Q).
  { unfold P. rewrite pow2_Z, <- pow2_add by lia. by replace (E - e + e) with E by lia. }
  rewrite HP. pose proof (pow2_pos e) as Ht. set (t := pow2 e) in *.
  assert (Hwq : (0 < inject_Z w)%Q) by (by apply inject_pos).
  set (y := (inject_Z M / inject_Z w)%Q).
  assert (Hy : (y * inject_Z w == inject_Z M)%Q).
  { unfold y. field. intros H. rewrite H in Hwq. by apply Qlt_irrefl in Hwq. }
  assert (H1 : - (w * P) ≤ 2 * (Zpos m * P * w - M)) by lia.
  assert (H2 : 2 * (Zpos m * P * w - M) ≤ w * P) by lia.
  apply inject_le in H1, H2. inject_in H1. inject_in H2.
  split.
  - assert (H : (- inject_Z P * inject_Z w <= 2 * (inject_Z (Zpos m) * inject_Z P - y) * inject_Z w)%Q) by lra.
    apply (Qmult_scale _ _ _ t) in H; [lra|done..].
  - assert (H : (2 * (inject_Z (Zpos m) * inject_Z P - y) * inject_Z w <= inject_Z P * inject_Z w)%Q) by lra.
    apply (Qmult_scale _ _ _ t) in H; [lra|done..].
Qed.

Lemma pow2_le a b : a ≤ b → (pow2 a <= pow2 b)%Q.
Proof. intros H. apply Qpower_le_compat_l; [done|discriminate]. Qed.

Lemma pow2_lt_inv a b : (pow2 a < pow2 b)%Q → a < b.
Proof.
  intros H. destruct (decide (a < b)) as [|Hn]; [done|].
  assert (pow2 b <= pow2 a)%Q by (apply pow2_le; lia). lra.
Qed.

Lemma pow2_succ e : (pow2 (e + 1) == 2 * pow2 e)%Q.
Proof. rewrite pow2_add. change (pow2 1) with 2%Q. lra. Qed.

(** The leading bit of a mantissa, on the scale of the value. *)
Lemma log2_pow2 z e : 0 < z →
  (pow2 (Z.log2 z + e) <= inject_Z z * pow2 e)%Q
  ∧ ((inject_Z z + 1) * pow2 e <= pow2 (Z.log2 z + e + 1))%Q.
Proof.
  intros Hz. pose proof (log2_bounds z Hz) as [H1 H2]. pose proof (Z.log2_nonneg z).
  assert (H2' : z + 1 ≤ 2 * 2 ^ Z.log2 z) by lia.
  apply inject_le in H1, H2'. inject_in H2'.
  rewrite pow2_succ, pow2_add, <- pow2_Z by done. pose proof (pow2_pos e) as Ht.
  split; [|rewrite Qmult_assoc]; (apply Qmult_le_compat_r; [done|lra]).
Qed.

(** Rounding is faithful whenever the exact value is far from overflow and
    underflow. *)
Definition in_range (x : Q) : Prop := (pow2 (-300) <= x <= pow2 300)%Q.

#[global] Instance in_range_proper : Proper (Qeq ==> iff) in_range.
Proof. intros x y Hxy. unfold in_range. split; intros []; split; lra. Qed.

Lemma round_aux_in_range x M w mx e l : 0 < w → 0 < mx → loc_at M w mx l →
  0 ≤ Z.log2 mx - 52 → (x == inject_Z M / inject_Z w * pow2 e)%Q → in_range x →
  rounds x (binary_round_aux 53 1024 false mx e l).
Proof.
  intros Hw Hm Hl Hn Hx [Hlo Hhi]. rewrite Hx.
  pose proof (loc_at_bounds _ _ _ _ Hw Hl) as [H1 H2]. apply inject_le in H1. apply inject_lt in H2.
  inject_in H1. inject_in H2.
  assert (Hwq : (0 < inject_Z w)%Q) by (by apply inject_pos).
  assert (Hb : (inject_Z mx <= inject_Z M / inject_Z w)%Q) by (by apply Qle_shift_div_l).
  assert (Hb' : (inject_Z M / inject_Z w < inject_Z mx + 1)%Q) by (by apply Qlt_shift_div_r).
  pose proof (pow2_pos e) as Ht. destruct (log2_pow2 mx e Hm) as [Hp1 Hp2].
  assert (H3 : (inject_Z mx * pow2 e <= x)%Q) by (rewrite Hx; apply Qmult_le_compat_r; [done|lra]).
  assert (H4 : (x < (inject_Z mx + 1) * pow2 e)%Q) by (rewrite Hx; by apply Qmult_lt_compat_r).
  assert (-301 < Z.log2 mx + e + 1).
  { apply pow2_lt_inv. apply (Qlt_le_trans _ (pow2 (-300))); [reflexivity|lra]. }
  assert (Z.log2 mx + e < 301).
  { apply pow2_lt_inv. apply (Qle_lt_trans _ (pow2 300)); [lra|reflexivity]. }
  apply round_aux_rounds; (done || lia).
Qed.

(** ** The operations *)

Lemma fval_log2 p e : (pow2 (Z.log2 (Zpos p) + e) <= fval p e < pow2 (Z.log2 (Zpos p) + e + 1))%Q.
Proof.
  unfold fval. destruct (log2_pow2 (Zpos p) e) as [H1 H2]; [lia|]. pose proof (pow2_pos e).
  split; lra.
Qed.

Lemma binary_round_rounds p e : in_range (fval p e) →
  rounds (fval p e) (binary_round 53 1024 false p e).
Proof.
  intros Hr. pose proof (fval_log2 p e) as [H1 H2]. set (L := Z.log2 (Zpos p)) in *.
  assert (0 ≤ L) by apply Z.log2_nonneg.
  assert (-300 < L + e + 1) by (apply pow2_lt_inv; destruct Hr; lra).
  unfold binary_round. rewrite digits2_log2. fold L.
  rewrite fexp_normal by lia. set (f := L + 1 + e - 53).
  destruct (decide (f ≤ e)) as [Hf|Hf].
  - rewrite shl_align_left by done. simpl. rewrite Z2Pos.id by lia.
    apply (round_aux_in_range _ (Zpos p * 2 ^ (e - f)) 1); [lia|lia|simpl; lia| | |done].
    + rewrite log2_shift by lia. unfold f, L. lia.
    + unfold fval. rewrite inject_Z_mult, pow2_Z by lia.
      replace e with (e - f + f) at 1 by lia. rewrite pow2_add. field.
  - rewrite shl_align_right by lia. simpl.
    apply (round_aux_in_range _ (Zpos p) 1); [lia|lia|simpl; lia| | |done].
    + fold L. unfold f in Hf. lia.
    + unfold fval. field.
Qed.

Lemma fval_0 p : (fval p 0 == inject_Z (Zpos p))%Q.
Proof. unfold fval. change (pow2 0) with 1%Q. lra. Qed.

(** A product of bounds is not needed: integers below 2^200 are in range. *)
Lemma int_in_range z : 0 < z < 2 ^ 200 → in_range (inject_Z z).
Proof.
  intros [H1 H2]. split.
  - apply (Qle_trans _ (inject_Z 1)); [done|]. by rewrite <- inject_le; lia.
  - apply (Qle_trans _ (inject_Z (2 ^ 200))); [|done]. rewrite <- inject_le. lia.
Qed.

Lemma f64_of_int_rounds z : 0 < z < 2 ^ 200 → rounds (inject_Z z) (f64_of_int z).
Proof.
  intros Hz. destruct z as [|p|p]; try lia. unfold f64_of_int. simpl binary_normalize.
  rewrite <- fval_0. apply binary_round_rounds. rewrite fval_0. by apply int_in_range.
Qed.

Lemma fval_pos m e : (0 < fval m e)%Q.
Proof. apply Qmult_lt_0_compat; [done|apply pow2_pos]. Qed.

Lemma f64_div_rounds m1 e1 m2 e2 :
  2 ^ 52 ≤ Zpos m1 < 2 ^ 53 → 2 ^ 52 ≤ Zpos m2 < 2 ^ 53 →
  in_range (fval m1 e1 / fval m2 e2) → -1000 ≤ e1 - e2 →
  rounds (fval m1 e1 / fval m2 e2) (f64_div (S754_finite false m1 e1) (S754_finite false m2 e2)).
Proof.
  intros H1 H2 Hr He. unfold f64_div, SFdiv, SFdiv_core_binary.
  rewrite !Zdigits2_log2, !(Z.log2_unique _ 52) by lia. rewrite fexp_normal by lia.
  replace (Z.min _ _) with (e1 - e2 - 53) by lia.
  replace (e1 - e2 - (e1 - e2 - 53)) with 53 by lia. rewrite Z.shiftl_mul_pow2 by lia.
  destruct (Z.div_eucl (Zpos m1 * 2 ^ 53) (Zpos m2)) as [q r] eqn:Hqr.
  assert (Hq : q = Zpos m1 * 2 ^ 53 / Zpos m2) by (unfold Z.div; by rewrite Hqr).
  assert (Hr' : r = Zpos m1 * 2 ^ 53 mod Zpos m2) by (unfold Z.modulo; by rewrite Hqr).
  simpl xorb. subst q r. clear Hqr.
  assert (Hq : 2 ^ 52 ≤ Zpos m1 * 2 ^ 53 / Zpos m2) by (apply Z.div_le_lower_bound; lia).
  apply (round_aux_in_range _ (Zpos m1 * 2 ^ 53) (Zpos m2));
    [lia|lia|by apply new_location_at| | |done].
  - apply Z.log2_le_mono in Hq. change (Z.log2 (2 ^ 52)) with 52 in Hq. lia.
  - unfold fval. rewrite inject_Z_mult, pow2_Z by lia.
    replace e1 with (53 + (e1 - e2 - 53) + e2) at 1 by lia. rewrite !pow2_add.
    pose proof (pow2_pos e2). field. split; [discriminate|lra].
Qed.

Lemma shl_align_value p e e' : e' ≤ e →
  fval (fst (shl_align p e e')) e' = fval (Z.to_pos (Zpos p * 2 ^ (e - e'))) e'
  ∧ (fval (fst (shl_align p e e')) e' == fval p e)%Q.
Proof.
  intros He. rewrite shl_align_left by done. split; [done|]. unfold fval. simpl fst.
  rewrite Z2Pos.id by lia. rewrite inject_Z_mult, pow2_Z by lia.
  replace e with (e - e' + e') at 2 by lia. rewrite pow2_add. lra.
Qed.

Lemma f64_add_rounds m1 e1 m2 e2 : in_range (fval m1 e1 + fval m2 e2) →
  rounds (fval m1 e1 + fval m2 e2) (f64_add (S754_finite false m1 e1) (S754_finite false m2 e2)).
Proof.
  intros Hr. unfold f64_add, SFadd, cond_Zopp. set (ez := Z.min e1 e2).
  destruct (shl_align_value m1 e1 ez) as [_ H1]; [lia|].
  destruct (shl_align_value m2 e2 ez) as [_ H2]; [lia|].
  set (a := fst (shl_align m1 e1 ez)) in *. set (b := fst (shl_align m2 e2 ez)) in *.
  simpl binary_normalize.
  assert (Hv : (fval (a + b) ez == fval m1 e1 + fval m2 e2)%Q).
  { rewrite <- H1, <- H2. unfold fval. rewrite Pos2Z.inj_add, inject_Z_plus. lra. }
  rewrite <- Hv in Hr |- *. by apply binary_round_rounds.
Qed.

(** ** Integers are exact, floors and ceilings of floats *)

(** A float whose value is the integer [z], or the zero. *)
Definition is_int (z : Z) (f : f64) : Prop :=
  z = 0 ∧ f = S754_zero false
  ∨ 0 < z ∧ ∃ m e, f = S754_finite false m e ∧ 2 ^ 52 ≤ Zpos m < 2 ^ 53
      ∧ e ≤ 0 ∧ Zpos m = z * 2 ^ (- e).

Lemma pow2_opp e : (pow2 e * pow2 (- e) == 1)%Q.
Proof. rewrite <- pow2_add, Z.add_opp_diag_r. reflexivity. Qed.

Lemma rounds_int z f : 0 < z < 2 ^ 52 → rounds (inject_Z z) f → is_int z f.
Proof.
  intros Hz (m & e & -> & Hm & Hv). right. split; [lia|]. exists m, e.
  split; [done|]. split; [done|].
  assert (He : e < 0).
  { apply pow2_lt_inv. unfold fval in Hv. change (pow2 0) with 1%Q.
    assert (H1 : z ≤ 2 ^ 52 - 1) by lia. destruct Hm as [Hm _]. apply inject_le in H1, Hm.
    pose proof (pow2_pos e).
    assert (inject_Z (2 ^ 52) * pow2 e <= inject_Z (Zpos m) * pow2 e)%Q
      by (apply Qmult_le_compat_r; [done|lra]).
    change (inject_Z (2 ^ 52 - 1)) with 4503599627370495%Q in *.
    change (inject_Z (2 ^ 52)) with 4503599627370496%Q in *. lra. }
  split; [lia|].
  pose proof (pow2_opp e) as Ho. pose proof (pow2_pos (- e)) as Hp. unfold fval in Hv.
  assert (H : (-(1) <= 2 * (inject_Z (Zpos m) - inject_Z z * pow2 (- e)) <= 1)%Q).
  { destruct Hv as [Hv1 Hv2]. apply (Qmult_le_compat_r _ _ (pow2 (- e))) in Hv1, Hv2; [|lra|lra].
    assert (Hme : (inject_Z (Zpos m) * pow2 e * pow2 (- e) == inject_Z (Zpos m))%Q)
      by (rewrite <- Qmult_assoc, Ho; lra).
    split; lra. }
  rewrite <- pow2_Z in H by lia. rewrite <- inject_Z_mult in H. destruct H as [Ha Hb].
  assert (-1 ≤ 2 * (Zpos m - z * 2 ^ (- e)) ≤ 1); [|lia].
  split; apply inject_le; unfold Z.sub; rewrite inject_Z_mult, inject_Z_plus, inject_Z_opp;
    [change (inject_Z (-1)) with (-(1))%Q|change (inject_Z 1) with 1%Q];
    change (inject_Z 2) with 2%Q; lra.
Qed.

Lemma f64_of_int_is_int z : 0 ≤ z < 2 ^ 52 → is_int z (f64_of_int z).
Proof.
  intros Hz. destruct (decide (z = 0)) as [->|]; [by left|].
  apply rounds_int; [lia|]. apply f64_of_int_rounds. lia.
Qed.

Lemma is_int_fval z m e : is_int z (S754_finite false m e) →
  (fval m e == inject_Z z)%Q ∧ 2 ^ 52 ≤ Zpos m < 2 ^ 53 ∧ e ≤ 0 ∧ 0 < z.
Proof.
  intros [[_ ?]|(Hz & m' & e' & [= <- <-] & Hm & He & Hv)]; [done|]. split_and!; try done; try lia.
  unfold fval. rewrite Hv, inject_Z_mult, pow2_Z, <- Qmult_assoc, (Qmult_comm (pow2 (- e))), pow2_opp
    by lia. lra.
Qed.

Lemma is_int_finite z f : 0 < z → is_int z f →
  ∃ m e, f = S754_finite false m e ∧ 2 ^ 52 ≤ Zpos m < 2 ^ 53 ∧ -52 ≤ e ≤ 0
    ∧ (fval m e == inject_Z z)%Q.
Proof.
  intros Hz [[? _]|(_ & m & e & -> & Hm & He & Hv)]; [lia|]. exists m, e.
  destruct (is_int_fval z m e) as (Hf & _); [right; split; [done|]; by exists m, e|].
  split_and!; try done; try lia. destruct (decide (-52 ≤ e)) as [|Hn]; [done|]. exfalso.
  assert (2 ^ 53 ≤ 2 ^ (- e)) by (apply Z.pow_le_mono_r; lia). nia.
Qed.

Lemma int_of_is_int oor z f : is_int z f → z ≤ maxInt64 → int_of_f64 oor f = z.
Proof.
  intros [[-> ->]|(Hz & m & e & -> & Hm & He & Hv)] Hmax; [done|]. simpl.
  replace (floor_Z (Zpos m) e) with z.
  { by rewrite (proj2 (Z.leb_le minInt64 z)), (proj2 (Z.leb_le z maxInt64)) by (unfold minInt64; lia). }
  unfold floor_Z. rewrite Hv. destruct (Z.leb_spec 0 e).
  - replace e with 0 by lia. simpl. lia.
  - rewrite Z.div_mul; lia.
Qed.

Lemma floor_of m e z : (inject_Z z <= inject_Z m * pow2 e < inject_Z (z + 1))%Q → floor_Z m e = z.
Proof.
  intros [H1 H2]. unfold floor_Z. destruct (Z.leb_spec 0 e) as [He|He].
  - rewrite <- pow2_Z, <- inject_Z_mult in H1, H2 by done.
    apply inject_le in H1. apply inject_lt in H2. lia.
  - symmetry. assert (Hp : (0 < pow2 (- e))%Q) by apply pow2_pos. pose proof (pow2_opp e) as Ho.
    apply (Qmult_le_compat_r _ _ (pow2 (- e))) in H1; [|lra].
    apply (Qmult_lt_r _ _ (pow2 (- e))) in H2; [|done].
    rewrite <- Qmult_assoc, Ho, Qmult_1_r in H1, H2.
    rewrite <- pow2_Z, <- inject_Z_mult in H1, H2 by lia.
    apply inject_le in H1. apply inject_lt in H2.
    apply (Z.div_unique_pos _ _ _ (m - z * 2 ^ (- e))); lia.
Qed.

Lemma Floor_of m e z : 0 ≤ z → (inject_Z z <= fval m e < inject_Z (z + 1))%Q →
  Floor (S754_finite false m e) = f64_of_int z.
Proof. intros Hz H. simpl. by rewrite (floor_of _ _ z). Qed.

Lemma Ceil_of m e z : 0 < z → (inject_Z (z - 1) < fval m e <= inject_Z z)%Q →
  Ceil (S754_finite false m e) = f64_of_int z.
Proof.
  intros Hz [H1 H2]. simpl Ceil. unfold ceil_Z, signed.
  rewrite (floor_of _ _ (- z)).
  - replace (- - z) with z by lia. destruct (Z.eqb_spec z 0); [lia|done].
  - unfold fval in *. replace (- z + 1) with (- (z - 1)) by lia. rewrite !inject_Z_opp. split; lra.
Qed.

(** ** [d.Seconds() / float64(s)], with its relative error *)

Definition near (ε x : Q) (f : f64) : Prop :=
  ∃ m e, f = S754_finite false m e ∧ 2 ^ 52 ≤ Zpos m < 2 ^ 53 ∧ -130 ≤ e ≤ 50
    ∧ (- (ε * x) <= fval m e - x <= ε * x)%Q.

(** Half a unit in the last place, relative to the value. *)
Definition ulp_half : Q := 1 # 9007199254740991.

Lemma near_exponent m e : 2 ^ 52 ≤ Zpos m < 2 ^ 53 →
  (pow2 (-77) <= fval m e <= pow2 100)%Q → -130 ≤ e ≤ 50.
Proof.
  intros Hm [H1 H2]. pose proof (fval_log2 m e) as [H3 H4]. rewrite (Z.log2_unique _ 52) in H3, H4 by lia.
  assert (-77 < 52 + e + 1) by (apply pow2_lt_inv; lra).
  assert (52 + e < 101); [|lia].
  apply pow2_lt_inv. apply (Qle_lt_trans _ (pow2 100)); [lra|reflexivity].
Qed.

Lemma rounds_near x f : (pow2 (-76) <= x <= pow2 99)%Q → rounds x f → near ulp_half x f.
Proof.
  intros [Hlo Hhi] (m & e & -> & Hm & Hv1 & Hv2). exists m, e. split; [done|]. split; [done|].
  assert (Hu : (pow2 e * 4503599627370496 <= fval m e)%Q).
  { unfold fval. rewrite Qmult_comm. apply Qmult_le_compat_r; [|pose proof (pow2_pos e); lra].
    apply (proj1 (inject_le (2 ^ 52) (Zpos m))). lia. }
  assert (H : (- (ulp_half * x) <= fval m e - x <= ulp_half * x)%Q) by (unfold ulp_half; split; lra).
  split; [|done]. apply (near_exponent m); [done|]. unfold ulp_half in H.
  assert (pow2 (-76) == 2 * pow2 (-77))%Q by reflexivity.
  assert (pow2 100 == 2 * pow2 99)%Q by reflexivity.
  pose proof (pow2_pos (-77)). pose proof (pow2_pos 99). split; lra.
Qed.

Lemma near_int z f : 0 < z < 2 ^ 52 → is_int z f → near 0 (inject_Z z) f.
Proof.
  intros Hz Hf. apply is_int_finite in Hf as (m & e & -> & Hm & He & Hf); [|lia].
  exists m, e. split; [done|]. split; [done|]. split; [|split; lra].
  apply (near_exponent m); [done|]. rewrite Hf. split.
  - apply (Qle_trans _ (inject_Z 1)); [done|]. rewrite <- inject_le. lia.
  - apply (Qle_trans _ (inject_Z (2 ^ 52))); [|done]. rewrite <- inject_le. lia.
Qed.

Lemma in_range_of x : (pow2 (-76) <= x <= pow2 99)%Q → in_range x.
Proof.
  intros [H1 H2]. split.
  - apply (Qle_trans _ (pow2 (-76))); [by apply pow2_le|done].
  - apply (Qle_trans _ (pow2 99)); [done|by apply pow2_le].
Qed.

Lemma near_add ε x y f g : (0 <= ε)%Q → (pow2 (-70) <= x + y <= pow2 90)%Q →
  (ε <= 1 # 4)%Q → near ε x f → near ε y g →
  near (ε + ulp_half * (1 + ε)) (x + y) (f64_add f g).
Proof.
  intros Hε [Hlo Hhi] Hε' (m1 & e1 & -> & _ & _ & Hx) (m2 & e2 & -> & _ & _ & Hy).
  assert (Hs : (- (ε * (x + y)) <= fval m1 e1 + fval m2 e2 - (x + y) <= ε * (x + y))%Q) by (split; lra).
  assert (Hεs : (ε * (x + y) <= (1 # 4) * (x + y))%Q).
  { apply Qmult_le_compat_r; [done|]. pose proof (pow2_pos (-70)). lra. }
  set (s := (x + y)%Q) in *. set (v := (fval m1 e1 + fval m2 e2)%Q) in *.
  pose proof (pow2_pos (-70)). pose proof (pow2_pos 90).
  assert (Hr : (pow2 (-76) <= v <= pow2 99)%Q).
  { assert (pow2 (-70) == 64 * pow2 (-76))%Q by reflexivity.
    assert (pow2 99 == 512 * pow2 90)%Q by reflexivity. split; lra. }
  destruct (rounds_near v (f64_add (S754_finite false m1 e1) (S754_finite false m2 e2)))
    as (m & e & Hf & Hm & He & Hv); [done|by apply f64_add_rounds, in_range_of|].
  exists m, e. split; [done|]. split; [done|]. split; [done|].
  assert ((ulp_half * v <= ulp_half * (s + ε * s))%Q).
  { rewrite !(Qmult_comm ulp_half). apply Qmult_le_compat_r; [lra|done]. }
  split; lra.
Qed.

Lemma near_div ε x s f g : (0 <= ε)%Q → (ε <= 1 # 4)%Q → 0 < s < 2 ^ 52 →
  (pow2 (-70) <= x / inject_Z s <= pow2 90)%Q → near ε x f → is_int s g →
  near (ε + ulp_half * (1 + ε)) (x / inject_Z s) (f64_div f g).
Proof.
  intros Hε Hε' Hs [Hlo Hhi] (m1 & e1 & -> & Hm1 & He1 & Hx) Hg.
  apply is_int_finite in Hg as (m2 & e2 & -> & Hm2 & He2 & Hf2); [|lia].
  assert (Hsq : (0 < inject_Z s)%Q) by (apply inject_pos; lia).
  assert (Hv : (fval m1 e1 / fval m2 e2 == fval m1 e1 / inject_Z s)%Q) by (rewrite Hf2; reflexivity).
  set (y := (x / inject_Z s)%Q) in *. set (v := (fval m1 e1 / fval m2 e2)%Q) in *.
  assert (Hy : (y * inject_Z s == x)%Q) by (unfold y; field; lra).
  assert (Hvs : (v * inject_Z s == fval m1 e1)%Q) by (rewrite Hv; field; lra).
  assert (Hd : (- (ε * y) <= v - y <= ε * y)%Q).
  { assert (ε * y * inject_Z s == ε * x)%Q by (rewrite <- Qmult_assoc, Hy; reflexivity).
    destruct Hx as [Hx1 Hx2]. split; apply (Qmult_le_r _ _ (inject_Z s)); (done || lra). }
  assert (Hεs : (ε * y <= (1 # 4) * y)%Q).
  { apply Qmult_le_compat_r; [done|]. pose proof (pow2_pos (-70)). lra. }
  pose proof (pow2_pos (-70)). pose proof (pow2_pos 90).
  assert (Hr : (pow2 (-76) <= v <= pow2 99)%Q).
  { assert (pow2 (-70) == 64 * pow2 (-76))%Q by reflexivity.
    assert (pow2 99 == 512 * pow2 90)%Q by reflexivity. split; lra. }
  destruct (rounds_near v (f64_div (S754_finite false m1 e1) (S754_finite false m2 e2)))
    as (m & e & Hf & Hm & He & Hv'); [done|apply f64_div_rounds; [done|done|by apply in_range_of|lia]|].
  exists m, e. split; [done|]. split; [done|]. split; [done|].
  assert ((ulp_half * v <= ulp_half * (y + ε * y))%Q).
  { rewrite !(Qmult_comm ulp_half). apply Qmult_le_compat_r; [lra|done]. }
  split; lra.
Qed.

Lemma near_mono ε ε' x x' f : (ε <= ε')%Q → (x == x')%Q → (0 <= x)%Q → near ε x f → near ε' x' f.
Proof.
  intros Hε Hx H0 (m & e & -> & Hm & He & Hv). exists m, e. do 3 (split; [done|]).
  assert (ε * x <= ε' * x)%Q by (by apply Qmult_le_compat_r).
  assert (ε' * x' == ε' * x)%Q by (by rewrite Hx). split; lra.
Qed.

(** Adding or dividing the zero that [float64(0)] is. *)
Lemma f64_add_zero_r z f : is_int z f → f64_add f (S754_zero false) = f.
Proof. intros [[_ ->]|(_ & m & e & -> & _)]; reflexivity. Qed.

Lemma f64_add_zero_l ε x f : near ε x f → f64_add (S754_zero false) f = f.
Proof. intros (m & e & -> & _). reflexivity. Qed.

Lemma f64_div_zero s f : 0 < s → is_int s f → f64_div (S754_zero false) f = S754_zero false.
Proof. intros Hs [[? _]|(_ & m & e & -> & _)]; [lia|reflexivity]. Qed.

Definition in_seconds (d : Z) : Q := inject_Z d / inject_Z second_ns.

Lemma in_seconds_split d : (in_seconds d == inject_Z (d / second_ns) + in_seconds (d mod second_ns))%Q.
Proof.
  unfold in_seconds. rewrite (Z.div_mod d second_ns) at 1 by done.
  rewrite inject_Z_plus, inject_Z_mult. field. discriminate.
Qed.

(** A quotient of positive integers, with bounds for both. *)
Lemma quotient_range a b : 0 < a < 2 ^ 80 → 0 < b < 2 ^ 70 →
  (pow2 (-70) <= inject_Z a / inject_Z b <= pow2 90)%Q.
Proof.
  intros [Ha Ha'] [Hb Hb']. assert (Hbq : (0 < inject_Z b)%Q) by (by apply inject_pos).
  split.
  - apply Qle_shift_div_l; [done|]. apply (Qle_trans _ (pow2 (-70) * inject_Z (2 ^ 70))).
    + rewrite !(Qmult_comm (pow2 (-70))). apply Qmult_le_compat_r; [|discriminate].
      rewrite <- inject_le. lia.
    + apply (Qle_trans _ (inject_Z 1)); [discriminate|]. rewrite <- inject_le. lia.
  - apply Qle_shift_div_r; [done|]. apply (Qle_trans _ (pow2 90 * inject_Z 1)).
    + apply (Qle_trans _ (inject_Z (2 ^ 80))); [rewrite <- inject_le; lia|discriminate].
    + rewrite !(Qmult_comm (pow2 90)). apply Qmult_le_compat_r; [|discriminate].
      rewrite <- inject_le. lia.
Qed.

Definition two_roundings : Q := ulp_half + ulp_half * (1 + ulp_half).
Definition three_roundings : Q := two_roundings + ulp_half * (1 + two_roundings).

Lemma ulp_two : (0 <= ulp_half <= two_roundings)%Q.
Proof. unfold two_roundings, ulp_half. split; lra. Qed.

Lemma two_small : (0 <= two_roundings <= 1 # 4)%Q.
Proof. unfold two_roundings, ulp_half. split; lra. Qed.

Lemma three_small : (0 <= three_roundings < 1 # 2251799813685248)%Q.
Proof. unfold three_roundings, two_roundings, ulp_half. split; lra. Qed.

Lemma Seconds_near d : 0 < d ≤ maxInt64 → near two_roundings (in_seconds d) (Seconds d).
Proof.
  intros Hd. unfold Seconds. rewrite Z.quot_div_nonneg, Z.rem_mod_nonneg by (unfold second_ns; lia).
  pose proof (in_seconds_split d) as Hsp. set (D := d / second_ns) in *. set (f := d mod second_ns) in *.
  assert (Hf : 0 ≤ f < second_ns) by (apply Z.mod_pos_bound; done).
  assert (Hdf : d = second_ns * D + f) by (apply Z.div_mod; done).
  assert (HD : 0 ≤ D < 2 ^ 52) by (unfold second_ns, maxInt64 in *; lia).
  assert (H1e9 : is_int second_ns (f64_of_int second_ns)) by (by apply f64_of_int_is_int).
  assert (Hdq : (0 < in_seconds d)%Q).
  { unfold in_seconds. apply Qlt_shift_div_l; [reflexivity|]. rewrite Qmult_0_l.
    apply inject_pos. lia. }
  pose proof (f64_of_int_is_int D HD) as HDi.
  destruct (decide (f = 0)) as [Hf0|Hf0].
  - rewrite Hf0 in *. rewrite (f64_div_zero second_ns), (f64_add_zero_r D) by done.
    apply (near_mono 0 _ (inject_Z D)); [discriminate| | |apply near_int; [|done]].
    + rewrite Hsp. unfold in_seconds. change (inject_Z 0) with 0%Q. field. discriminate.
    + apply inject_nonneg. lia.
    + unfold second_ns in *. lia.
  - assert (Hfn : near ulp_half (in_seconds f) (f64_div (f64_of_int f) (f64_of_int second_ns))).
    { apply (near_mono (0 + ulp_half * (1 + 0)) _ (in_seconds f)); [discriminate|reflexivity| |].
      - apply Qle_shift_div_l; [reflexivity|]. rewrite Qmult_0_l. apply inject_nonneg. lia.
      - apply near_div; [discriminate|discriminate|done|apply quotient_range; [|done]| |done].
        + unfold second_ns in *. lia.
        + apply near_int; [|apply f64_of_int_is_int]; unfold second_ns in *; lia. }
    destruct (decide (D = 0)) as [HD0|HD0].
    + rewrite HD0 in *. change (f64_of_int 0) with (S754_zero false).
      rewrite (f64_add_zero_l _ _ _ Hfn).
      apply (near_mono ulp_half _ (in_seconds f)); [apply ulp_two| | |done].
      * rewrite Hsp. change (inject_Z 0) with 0%Q. lra.
      * change (inject_Z 0) with 0%Q in Hsp. lra.
    + apply (near_mono two_roundings _ (inject_Z D + in_seconds f)); [lra|by rewrite Hsp|lra|].
      apply near_add; [discriminate| |discriminate| |done].
      * rewrite <- Hsp. apply quotient_range; [unfold maxInt64 in *; lia|done].
      * apply (near_mono 0 _ (inject_Z D)); [discriminate|reflexivity| |apply near_int; [lia|done]].
        apply inject_nonneg. lia.
Qed.

(** The quotient the interval schedules take the floor or the ceiling of. *)
Lemma quotient_near d s : 0 < d ≤ maxInt64 → 0 < s → s * second_ns ≤ maxInt64 →
  near three_roundings (inject_Z d / inject_Z (s * second_ns)) (f64_div (Seconds d) (f64_of_int s)).
Proof.
  intros Hd Hs Hmax. assert (s < 2 ^ 52) by (unfold second_ns, maxInt64 in *; lia).
  assert (Hsq : (0 < inject_Z s)%Q) by (by apply inject_pos).
  assert (Heq : (in_seconds d / inject_Z s == inject_Z d / inject_Z (s * second_ns))%Q).
  { unfold in_seconds. rewrite inject_Z_mult. field. split; [discriminate|lra]. }
  assert (Hr : (pow2 (-70) <= inject_Z d / inject_Z (s * second_ns) <= pow2 90)%Q)
    by (apply quotient_range; unfold second_ns, maxInt64 in *; lia).
  apply (near_mono three_roundings _ (in_seconds d / inject_Z s)); [lra|done| |].
  - rewrite Heq. pose proof (pow2_pos (-70)). lra.
  - apply near_div; [apply two_small..|lia|by rewrite Heq|by apply Seconds_near|].
    apply f64_of_int_is_int. lia.
Qed.

Lemma one_value : ∃ m e, f64_one = S754_finite false m e ∧ (fval m e == 1)%Q.
Proof.
  destruct (is_int_finite 1 f64_one) as (m & e & Hf & _ & _ & Hv); [done| |by exists m, e].
  by apply f64_of_int_is_int.
Qed.

Lemma f64_add_one z f : 0 ≤ z < 2 ^ 51 → is_int z f → is_int (z + 1) (f64_add f f64_one).
Proof.
  intros Hz Hf. destruct (decide (z = 0)) as [->|Hz0].
  - destruct Hf as [[_ ->]|[? _]]; [|lia]. by apply (f64_of_int_is_int 1).
  - apply is_int_finite in Hf as (m & e & -> & _ & _ & Hv); [|lia].
    destruct one_value as (m' & e' & -> & Hv'). apply rounds_int; [lia|].
    assert (H : (inject_Z (z + 1) == fval m e + fval m' e')%Q) by (rewrite inject_Z_plus, Hv, Hv'; reflexivity).
    rewrite H. apply f64_add_rounds. rewrite <- H. apply int_in_range. lia.
Qed.

(** A quotient that is an integer is computed exactly. *)
Lemma f64_div_exact z s f g : 0 < z < 2 ^ 52 → 0 < s → is_int (z * s) f → is_int s g →
  is_int z (f64_div f g).
Proof.
  intros Hz Hs Hf Hg. apply is_int_finite in Hf as (m1 & e1 & -> & Hm1 & He1 & Hv1); [|lia].
  apply is_int_finite in Hg as (m2 & e2 & -> & Hm2 & He2 & Hv2); [|lia].
  assert (Hsq : (0 < inject_Z s)%Q) by (by apply inject_pos).
  assert (H : (inject_Z z == fval m1 e1 / fval m2 e2)%Q).
  { rewrite Hv1, Hv2, inject_Z_mult. field. lra. }
  apply rounds_int; [lia|]. rewrite H. apply f64_div_rounds; [done|done| |].
  - rewrite <- H. apply int_in_range. lia.
  - lia.
Qed.
