(* ===== verification/Model.v ===== *)
(** * Model: the domain types of src/internal/model

    Tenants, schedules, executions and attempts with the fields of the Go
    structs, the string-typed enumerations with their constants, the retry
    back-off, the idempotency key and the header names the scheduler owns.
    A string-typed field holds any string, since the code decodes it from JSON
    without a check; a [*T] field is an [option T]; a [map[string]string] is a
    [gmap] (no code here tells a nil map from an empty one); a
    [json.RawMessage] is its bytes, the empty string for nil. *)

From Stdlib Require Import Ascii.
From S2P Require Import Prelude Go Calendar GoTime GoFloat.
Open Scope Z_scope.

(** ** What the platform decides

    [cvt_out_of_range] is the value of a float-to-integer conversion that does
    not fit, which the Go specification leaves to the implementation; [tzdb] is
    the time-zone database that time/tzdata embeds. *)
Class Platform := {
  cvt_out_of_range : f64 → Z;
  tzdb : string → option Location
}.

(** ** Enumerations *)

Definition ScheduleTypeOnce : string := "once".
Definition ScheduleTypeRecurring : string := "recurring".

Definition ScheduleStatusActive : string := "active".
Definition ScheduleStatusPaused : string := "paused".
Definition ScheduleStatusCanceled : string := "canceled".
Definition ScheduleStatusCompleted : string := "completed".

Definition CatchUpPolicyAll : string := "catch_up_all".
Definition CatchUpPolicySkipMissed : string := "skip_missed".
Definition CatchUpPolicyLatestOnly : string := "catch_up_latest_only".

Definition CadenceMonthly : string := "monthly".
Definition CadenceWeekly : string := "weekly".
Definition CadenceDaily : string := "daily".
Definition CadenceInterval : string := "interval".

Definition ExecutionStatusPending : string := "pending".
Definition ExecutionStatusInFlight : string := "in_flight".
Definition ExecutionStatusSucceeded : string := "succeeded".
Definition ExecutionStatusFailedTerminal : string := "failed_terminal".
Definition ExecutionStatusFailedMaxRetries : string := "failed_max_retries".
Definition FinalOutcomeTimedOut : string := "timed out".

Definition OutcomeSuccess : string := "success".
Definition OutcomeRetry : string := "retry".
Definition OutcomeTerminalFailure : string := "terminal_failure".

(** ** Constants *)

Definition CurrentScheduleSchemaVersion : Z := 1.
Definition CurrentExecutionSchemaVersion : Z := 1.
Definition CurrentAttemptSchemaVersion : Z := 1.

Definition DefaultCallTimeout : Z := 30 * second_ns.
Definition MinCallTimeout : Z := 1 * second_ns.
Definition MaxCallTimeout : Z := 5 * minute_ns.

(** ** Records *)

(** model/tenant.go *)
Module Tenant.
Record Tenant := mk {
  ID : string;
  Name : string;
  CreatedAt : Time;
  APIKeyHash : string
}.

#[global] Instance Tenant_eq_dec : EqDecision Tenant.
Proof. solve_decision. Defined.

Definition set_APIKeyHash (v : string) (x : Tenant) : Tenant :=
  mk (x.(ID)) (x.(Name)) (x.(CreatedAt)) v.
End Tenant.
Notation Tenant := Tenant.Tenant.

(** [Recurrence] of model/schedule.go *)
Module Recurrence.
Record Recurrence := mk {
  Cadence : string;
  DayOfMonth : option Z;
  DayOfWeek : option string;
  Seconds : option Z
}.

#[global] Instance Recurrence_eq_dec : EqDecision Recurrence.
Proof. solve_decision. Defined.
End Recurrence.
Notation Recurrence := Recurrence.Recurrence.

(** [RetryBackoff] of model/schedule.go *)
Module RetryBackoff.
Record RetryBackoff := mk {
  Initial : Z;
  Multiplier : f64;
  Max : Z
}.

#[global] Instance RetryBackoff_eq_dec : EqDecision RetryBackoff.
Proof. solve_decision. Defined.
End RetryBackoff.
Notation RetryBackoff := RetryBackoff.RetryBackoff.

(** model/schedule.go; [updated := *existing; updated.F = v] is [set_F v existing]. *)
Module Schedule.
Record Schedule := mk {
  SchemaVersion : Z;
  ID : string;
  TenantID : string;
  CreatedAt : Time;
  UpdatedAt : Time;
  CreatedBy : string;
  CallbackURL : string;
  Payload : string;
  Headers : gmap string string;
  ScheduleType : string;
  FirstRunAt : Time;
  Recurrence : option Recurrence.Recurrence;
  Timezone : string;
  MaxAttempts : Z;
  RetryBackoff : RetryBackoff.RetryBackoff;
  CallTimeout : option Z;
  CatchUpPolicy : string;
  Status : string;
  NextRunAt : option Time
}.

#[global] Instance Schedule_eq_dec : EqDecision Schedule.
Proof. solve_decision. Defined.

Definition set_UpdatedAt (v : Time) (x : Schedule) : Schedule :=
  mk (x.(SchemaVersion)) (x.(ID)) (x.(TenantID)) (x.(CreatedAt)) v (x.(CreatedBy))
     (x.(CallbackURL)) (x.(Payload)) (x.(Headers)) (x.(ScheduleType)) (x.(FirstRunAt))
     (x.(Recurrence)) (x.(Timezone)) (x.(MaxAttempts)) (x.(RetryBackoff)) (x.(CallTimeout))
     (x.(CatchUpPolicy)) (x.(Status)) (x.(NextRunAt)).

Definition set_CallbackURL (v : string) (x : Schedule) : Schedule :=
  mk (x.(SchemaVersion)) (x.(ID)) (x.(TenantID)) (x.(CreatedAt)) (x.(UpdatedAt))
     (x.(CreatedBy)) v (x.(Payload)) (x.(Headers)) (x.(ScheduleType)) (x.(FirstRunAt))
     (x.(Recurrence)) (x.(Timezone)) (x.(MaxAttempts)) (x.(RetryBackoff)) (x.(CallTimeout))
     (x.(CatchUpPolicy)) (x.(Status)) (x.(NextRunAt)).

Definition set_Payload (v : string) (x : Schedule) : Schedule :=
  mk (x.(SchemaVersion)) (x.(ID)) (x.(TenantID)) (x.(CreatedAt)) (x.(UpdatedAt))
     (x.(CreatedBy)) (x.(CallbackURL)) v (x.(Headers)) (x.(ScheduleType)) (x.(FirstRunAt))
     (x.(Recurrence)) (x.(Timezone)) (x.(MaxAttempts)) (x.(RetryBackoff)) (x.(CallTimeout))
     (x.(CatchUpPolicy)) (x.(Status)) (x.(NextRunAt)).

Definition set_Headers (v : gmap string string) (x : Schedule) : Schedule :=
  mk (x.(SchemaVersion)) (x.(ID)) (x.(TenantID)) (x.(CreatedAt)) (x.(UpdatedAt))
     (x.(CreatedBy)) (x.(CallbackURL)) (x.(Payload)) v (x.(ScheduleType)) (x.(FirstRunAt))
     (x.(Recurrence)) (x.(Timezone)) (x.(MaxAttempts)) (x.(RetryBackoff)) (x.(CallTimeout))
     (x.(CatchUpPolicy)) (x.(Status)) (x.(NextRunAt)).

Definition set_MaxAttempts (v : Z) (x : Schedule) : Schedule :=
  mk (x.(SchemaVersion)) (x.(ID)) (x.(TenantID)) (x.(CreatedAt)) (x.(UpdatedAt))
     (x.(CreatedBy)) (x.(CallbackURL)) (x.(Payload)) (x.(Headers)) (x.(ScheduleType))
     (x.(FirstRunAt)) (x.(Recurrence)) (x.(Timezone)) v (x.(RetryBackoff)) (x.(CallTimeout))
     (x.(CatchUpPolicy)) (x.(Status)) (x.(NextRunAt)).

Definition set_RetryBackoff (v : RetryBackoff.RetryBackoff) (x : Schedule) : Schedule :=
  mk (x.(SchemaVersion)) (x.(ID)) (x.(TenantID)) (x.(CreatedAt)) (x.(UpdatedAt))
     (x.(CreatedBy)) (x.(CallbackURL)) (x.(Payload)) (x.(Headers)) (x.(ScheduleType))
     (x.(FirstRunAt)) (x.(Recurrence)) (x.(Timezone)) (x.(MaxAttempts)) v (x.(CallTimeout))
     (x.(CatchUpPolicy)) (x.(Status)) (x.(NextRunAt)).

Definition set_CallTimeout (v : option Z) (x : Schedule) : Schedule :=
  mk (x.(SchemaVersion)) (x.(ID)) (x.(TenantID)) (x.(CreatedAt)) (x.(UpdatedAt))
     (x.(CreatedBy)) (x.(CallbackURL)) (x.(Payload)) (x.(Headers)) (x.(ScheduleType))
     (x.(FirstRunAt)) (x.(Recurrence)) (x.(Timezone)) (x.(MaxAttempts)) (x.(RetryBackoff)) v
     (x.(CatchUpPolicy)) (x.(Status)) (x.(NextRunAt)).

Definition set_Status (v : string) (x : Schedule) : Schedule :=
  mk (x.(SchemaVersion)) (x.(ID)) (x.(TenantID)) (x.(CreatedAt)) (x.(UpdatedAt))
     (x.(CreatedBy)) (x.(CallbackURL)) (x.(Payload)) (x.(Headers)) (x.(ScheduleType))
     (x.(FirstRunAt)) (x.(Recurrence)) (x.(Timezone)) (x.(MaxAttempts)) (x.(RetryBackoff))
     (x.(CallTimeout)) (x.(CatchUpPolicy)) v (x.(NextRunAt)).

Definition set_NextRunAt (v : option Time) (x : Schedule) : Schedule :=
  mk (x.(SchemaVersion)) (x.(ID)) (x.(TenantID)) (x.(CreatedAt)) (x.(UpdatedAt))
     (x.(CreatedBy)) (x.(CallbackURL)) (x.(Payload)) (x.(Headers)) (x.(ScheduleType))
     (x.(FirstRunAt)) (x.(Recurrence)) (x.(Timezone)) (x.(MaxAttempts)) (x.(RetryBackoff))
     (x.(CallTimeout)) (x.(CatchUpPolicy)) (x.(Status)) v.
End Schedule.
Notation Schedule := Schedule.Schedule.

(** model/execution.go *)
Module Execution.
Record Execution := mk {
  SchemaVersion : Z;
  ID : string;
  TenantID : string;
  ScheduleID : string;
  ScheduledFor : Time;
  IdempotencyKey : string;
  OwnerNodeID : string;
  ClaimedAt : option Time;
  Status : string;
  StartedAt : option Time;
  CompletedAt : option Time;
  AttemptCount : Z;
  LastAttemptID : string;
  LastRetryAt : option Time;
  FinalOutcome : string
}.

#[global] Instance Execution_eq_dec : EqDecision Execution.
Proof. solve_decision. Defined.

Definition set_OwnerNodeID (v : string) (x : Execution) : Execution :=
  mk (x.(SchemaVersion)) (x.(ID)) (x.(TenantID)) (x.(ScheduleID)) (x.(ScheduledFor))
     (x.(IdempotencyKey)) v (x.(ClaimedAt)) (x.(Status)) (x.(StartedAt)) (x.(CompletedAt))
     (x.(AttemptCount)) (x.(LastAttemptID)) (x.(LastRetryAt)) (x.(FinalOutcome)).

Definition set_Status (v : string) (x : Execution) : Execution :=
  mk (x.(SchemaVersion)) (x.(ID)) (x.(TenantID)) (x.(ScheduleID)) (x.(ScheduledFor))
     (x.(IdempotencyKey)) (x.(OwnerNodeID)) (x.(ClaimedAt)) v (x.(StartedAt))
     (x.(CompletedAt)) (x.(AttemptCount)) (x.(LastAttemptID)) (x.(LastRetryAt))
     (x.(FinalOutcome)).

Definition set_CompletedAt (v : option Time) (x : Execution) : Execution :=
  mk (x.(SchemaVersion)) (x.(ID)) (x.(TenantID)) (x.(ScheduleID)) (x.(ScheduledFor))
     (x.(IdempotencyKey)) (x.(OwnerNodeID)) (x.(ClaimedAt)) (x.(Status)) (x.(StartedAt)) v
     (x.(AttemptCount)) (x.(LastAttemptID)) (x.(LastRetryAt)) (x.(FinalOutcome)).

Definition set_AttemptCount (v : Z) (x : Execution) : Execution :=
  mk (x.(SchemaVersion)) (x.(ID)) (x.(TenantID)) (x.(ScheduleID)) (x.(ScheduledFor))
     (x.(IdempotencyKey)) (x.(OwnerNodeID)) (x.(ClaimedAt)) (x.(Status)) (x.(StartedAt))
     (x.(CompletedAt)) v (x.(LastAttemptID)) (x.(LastRetryAt)) (x.(FinalOutcome)).

Definition set_LastAttemptID (v : string) (x : Execution) : Execution :=
  mk (x.(SchemaVersion)) (x.(ID)) (x.(TenantID)) (x.(ScheduleID)) (x.(ScheduledFor))
     (x.(IdempotencyKey)) (x.(OwnerNodeID)) (x.(ClaimedAt)) (x.(Status)) (x.(StartedAt))
     (x.(CompletedAt)) (x.(AttemptCount)) v (x.(LastRetryAt)) (x.(FinalOutcome)).

Definition set_LastRetryAt (v : option Time) (x : Execution) : Execution :=
  mk (x.(SchemaVersion)) (x.(ID)) (x.(TenantID)) (x.(ScheduleID)) (x.(ScheduledFor))
     (x.(IdempotencyKey)) (x.(OwnerNodeID)) (x.(ClaimedAt)) (x.(Status)) (x.(StartedAt))
     (x.(CompletedAt)) (x.(AttemptCount)) (x.(LastAttemptID)) v (x.(FinalOutcome)).

Definition set_FinalOutcome (v : string) (x : Execution) : Execution :=
  mk (x.(SchemaVersion)) (x.(ID)) (x.(TenantID)) (x.(ScheduleID)) (x.(ScheduledFor))
     (x.(IdempotencyKey)) (x.(OwnerNodeID)) (x.(ClaimedAt)) (x.(Status)) (x.(StartedAt))
     (x.(CompletedAt)) (x.(AttemptCount)) (x.(LastAttemptID)) (x.(LastRetryAt)) v.
End Execution.
Notation Execution := Execution.Execution.

(** model/attempt.go *)
Module Attempt.
Record Attempt := mk {
  SchemaVersion : Z;
  ID : string;
  TenantID : string;
  ExecutionID : string;
  NodeID : string;
  AttemptNumber : Z;
  StartedAt : option Time;
  CompletedAt : option Time;
  RequestURL : string;
  RequestHeaders : gmap string string;
  RequestBodyHash : string;
  ResponseStatus : Z;
  ResponseBodyExcerpt : string;
  ResponseHeaders : gmap string string;
  Outcome : string;
  RetryAt : Time
}.

#[global] Instance Attempt_eq_dec : EqDecision Attempt.
Proof. solve_decision. Defined.

Definition set_RetryAt (v : Time) (x : Attempt) : Attempt :=
  mk (x.(SchemaVersion)) (x.(ID)) (x.(TenantID)) (x.(ExecutionID)) (x.(NodeID))
     (x.(AttemptNumber)) (x.(StartedAt)) (x.(CompletedAt)) (x.(RequestURL))
     (x.(RequestHeaders)) (x.(RequestBodyHash)) (x.(ResponseStatus)) (x.(ResponseBodyExcerpt))
     (x.(ResponseHeaders)) (x.(Outcome)) v.
End Attempt.
Notation Attempt := Attempt.Attempt.

(** ** Retry back-off

    [RetryBackoff.DelayForAttempt]: initial * multiplier^(n-1) in float64,
    truncated to a duration, and capped by a positive [Max]. *)
Definition DelayForAttempt `{!Platform} (rb : RetryBackoff) (attemptNumber : Z) : Z :=
  let attemptNumber := if attemptNumber <? 1 then 1 else attemptNumber in
  let delay := int_of_f64 cvt_out_of_range
    (f64_mul (f64_of_int (RetryBackoff.Initial rb))
             (Pow (RetryBackoff.Multiplier rb) (f64_int_value (attemptNumber - 1)))) in
  if (0 <? RetryBackoff.Max rb) && (RetryBackoff.Max rb <? delay)
  then RetryBackoff.Max rb else delay.

(** ** Idempotency keys *)

Definition DeriveIdempotencyKey (scheduleID : string) (scheduledFor : Time) : string :=
  scheduleID +:+ ":" +:+ FormatRFC3339Nano scheduledFor.

(** ** Header names *)

Definition HeaderIdempotencyKey : string := "X-Scheduler-Idempotency-Key".
Definition HeaderAttemptID : string := "X-Scheduler-Attempt-Id".

Definition in_range (lo hi : nat) (c : ascii) : bool :=
  (lo <=? nat_of_ascii c)%nat && (nat_of_ascii c <=? hi)%nat.
Definition is_upper : ascii → bool := in_range 65 90.
Definition is_lower : ascii → bool := in_range 97 122.

(** net/textproto: the bytes of an RFC 7230 token. *)
Definition validHeaderFieldByte (c : ascii) : bool :=
  is_upper c || is_lower c || in_range 48 57 c ||
  existsb (Ascii.eqb c)
    ["!"; "#"; "$"; "%"; "&"; "'"; "*"; "+"; "-"; "."; "^"; "_"; "`"; "|"; "~"]%char.

Definition to_upper (c : ascii) : ascii :=
  if is_lower c then ascii_of_nat (nat_of_ascii c - 32) else c.
Definition to_lower (c : ascii) : ascii :=
  if is_upper c then ascii_of_nat (nat_of_ascii c + 32) else c.

Fixpoint canonical_case (upper : bool) (s : string) : string :=
  match s with
  | EmptyString => ""
  | String c s' =>
      let c' := if upper then to_upper c else to_lower c in
      String c' (canonical_case (Ascii.eqb c' "-") s')
  end.

Fixpoint all_bytes (f : ascii → bool) (s : string) : bool :=
  match s with EmptyString => true | String c s' => f c && all_bytes f s' end.

(** [textproto.CanonicalMIMEHeaderKey]: upper case at the start and after a
    hyphen, lower case elsewhere; a key that is not a token is left alone. *)
Definition CanonicalMIMEHeaderKey (s : string) : string :=
  if all_bytes validHeaderFieldByte s then canonical_case true s else s.

Definition ReservedHeaderKeys : gset string :=
  {[ CanonicalMIMEHeaderKey "Content-Type";
     CanonicalMIMEHeaderKey HeaderIdempotencyKey;
     CanonicalMIMEHeaderKey HeaderAttemptID ]}.

Fixpoint lower_string (s : string) : string :=
  match s with EmptyString => "" | String c s' => String (to_lower c) (lower_string s') end.
