(* ===== verification/RecurrenceCalc.v ===== *)
(** * RecurrenceCalc: src/internal/model/recurrence.go

    The next and latest slots of a recurring schedule, for the four cadences
    and the three directions (on or after, after, latest on or before).  A
    [*time.Time] result is an [option Time]; dereferencing a nil [*int] field
    is a [Panic]. *)

From Stdlib Require Import Ascii.
From S2P Require Import Prelude Go Calendar GoTime GoFloat Model.
Open Scope Z_scope.

Definition nil_deref : string := "runtime error: invalid memory address or nil pointer dereference".

(** [*p] for a pointer that may be nil. *)
Definition deref {A} (p : option A) : result A :=
  match p with Some a => Ok a | None => Panic nil_deref end.

Definition quote : string := String (ascii_of_nat 34) "".

Definition local_not_allowed : string :=
  "timezone: " +:+ quote +:+ "Local" +:+ quote +:+ " is not allowed — it depends on the machine running Apply, which breaks Raft FSM determinism across replicas".

Section recurrence.
Context `{!Platform}.

Definition resolveTimezone (timezone : string) : result Location :=
  if bool_decide (timezone = "Local")
  then Err (cmd_error KindValidation "timezone" local_not_allowed)
  else match LoadLocation tzdb timezone with
       | Ok loc => Ok loc
       | Err err => Err (cmd_error KindValidation "timezone" ("timezone: " +:+ Error err))
       | Panic p => Panic p
       end.

(** [time.Duration(int(N)*seconds) * time.Second], all in 64-bit arithmetic. *)
Definition slot_offset (N : f64) (seconds : Z) : Z :=
  wrap64 (wrap64 (int_of_f64 cvt_out_of_range N * seconds) * second_ns).

(** ** The slot on or after [from] *)

Definition computeIntervalOnOrAfter (firstRunAt : Time) (seconds : Z) (from : Time)
    : result (option Time) :=
  if Before from firstRunAt || Equal from firstRunAt then Ok (Some (UTC firstRunAt)) else
  let timeDifference := Sub from firstRunAt in
  let N := Ceil (f64_div (Seconds timeDifference) (f64_of_int seconds)) in
  Ok (Some (UTC (Add firstRunAt (slot_offset N seconds)))).

(** [time.Date] on the day of [base] plus [days], at the time of day of
    [clock], both read in [loc]. *)
Definition at_clock_of (base : Time) (days : Z) (clock : Time) (loc : Location) : Time :=
  Date (Year base) (Month base) (Day base + days)
       (Hour clock) (Minute clock) (Second clock) 0 loc.

Definition computeDailyOnOrAfter (firstRunAt from : Time) (loc : Location)
    : result (option Time) :=
  if Before from firstRunAt then Ok (Some (UTC firstRunAt)) else
  let firstRunAtLocal := In_loc firstRunAt loc in
  let fromLocal := In_loc from loc in
  let candidate := at_clock_of fromLocal 0 firstRunAtLocal loc in
  let candidate := if Before candidate from then AddDate loc candidate 0 0 1 else candidate in
  Ok (Some (UTC candidate)).

Definition computeWeeklyOnOrAfter (firstRunAt from : Time) (loc : Location)
    : result (option Time) :=
  if Before from firstRunAt then Ok (Some (UTC firstRunAt)) else
  let firstRunAtLocal := In_loc firstRunAt loc in
  let fromLocal := In_loc from loc in
  let targetWeekday := Weekday firstRunAtLocal in
  let daysUntilTarget := Z.rem (targetWeekday - Weekday fromLocal + 7) 7 in
  let candidate := at_clock_of fromLocal daysUntilTarget firstRunAtLocal loc in
  let candidate := if Before candidate from then AddDate loc candidate 0 0 7 else candidate in
  Ok (Some (UTC candidate)).

(** The last day of a month, [time.Date(year, month+1, 0, ...).Day()]. *)
Definition lastDayOf (year month : Z) : Z := Day (Date year (month + 1) 0 0 0 0 0 loc_UTC).

(** The slot of one month: the day clamped to the month's length. *)
Definition month_slot (year month dayOfMonth : Z) (clock : Time) (loc : Location) : Time :=
  let actualDay := Z.min dayOfMonth (lastDayOf year month) in
  Date year month actualDay (Hour clock) (Minute clock) (Second clock) 0 loc.

(** The loop of the monthly functions: up to [fuel] months, stepping by
    [step], until a slot passes the test [ok]. *)
Fixpoint month_search (fuel : nat) (year month step dayOfMonth : Z) (clock : Time)
    (loc : Location) (ok : Time → bool) : option Time :=
  match fuel with
  | O => None
  | S fuel' =>
      let candidate := month_slot year month dayOfMonth clock loc in
      if ok candidate then Some (UTC candidate) else
      let next := Date year (month + step) 1 0 0 0 0 loc_UTC in
      month_search fuel' (Year next) (Month next) step dayOfMonth clock loc ok
  end.

Definition month_search_result (who : string) (r : option Time) : result (option Time) :=
  match r with
  | Some t => Ok (Some t)
  | None => Err (cmd_error KindValidation "day_of_month" (who +:+ ": no slot found within 120 months"))
  end.

Definition computeMonthlyOnOrAfter (firstRunAt : Time) (dayOfMonth : Z) (from : Time)
    (loc : Location) : result (option Time) :=
  if Before from firstRunAt then Ok (Some (UTC firstRunAt)) else
  let firstRunAtLocal := In_loc firstRunAt loc in
  let fromLocal := In_loc from loc in
  month_search_result "computeMonthlyOnOrAfter"
    (month_search 120 (Year fromLocal) (Month fromLocal) 1 dayOfMonth firstRunAtLocal loc
       (λ candidate, negb (Before candidate from))).

(** The checks the three exported functions share, and their switch. *)
Definition with_recurrence (recurrence : option Recurrence) (timezone : string)
    (interval : Z → result (option Time)) (daily weekly : Location → result (option Time))
    (monthly : Z → Location → result (option Time)) : result (option Time) :=
  match recurrence with
  | None => Err (cmd_error KindValidation "recurrence" "recurrence: no recurrence, cannot compute")
  | Some r =>
      loc ← resolveTimezone timezone;
      if bool_decide (Recurrence.Cadence r = CadenceInterval) then
        seconds ← deref (Recurrence.Seconds r); interval seconds
      else if bool_decide (Recurrence.Cadence r = CadenceDaily) then daily loc
      else if bool_decide (Recurrence.Cadence r = CadenceWeekly) then weekly loc
      else if bool_decide (Recurrence.Cadence r = CadenceMonthly) then
        dayOfMonth ← deref (Recurrence.DayOfMonth r); monthly dayOfMonth loc
      else Err (cmd_error KindValidation "cadence" "recurrence.cadence: unknown cadence")
  end.

Definition ComputeNextRunOnOrAfter (recurrence : option Recurrence) (timezone : string)
    (firstRunAt from : Time) : result (option Time) :=
  with_recurrence recurrence timezone
    (λ seconds, computeIntervalOnOrAfter firstRunAt seconds from)
    (λ loc, computeDailyOnOrAfter firstRunAt from loc)
    (λ loc, computeWeeklyOnOrAfter firstRunAt from loc)
    (λ dayOfMonth loc, computeMonthlyOnOrAfter firstRunAt dayOfMonth from loc).

(** ** The slot strictly after [from] *)

Definition computeIntervalAfter (firstRunAt : Time) (seconds : Z) (from : Time)
    : result (option Time) :=
  if Before from firstRunAt then Ok (Some (UTC firstRunAt)) else
  let timeDifference := Sub from firstRunAt in
  let N := f64_add (Floor (f64_div (Seconds timeDifference) (f64_of_int seconds))) f64_one in
  Ok (Some (UTC (Add firstRunAt (slot_offset N seconds)))).

Definition computeDailyAfter (firstRunAt from : Time) (loc : Location) : result (option Time) :=
  if Before from firstRunAt then Ok (Some (UTC firstRunAt)) else
  let firstRunAtLocal := In_loc firstRunAt loc in
  let fromLocal := In_loc from loc in
  let candidate := at_clock_of fromLocal 0 firstRunAtLocal loc in
  let candidate := if negb (After candidate from) then AddDate loc candidate 0 0 1 else candidate in
  Ok (Some (UTC candidate)).

Definition computeWeeklyAfter (firstRunAt from : Time) (loc : Location) : result (option Time) :=
  if Before from firstRunAt then Ok (Some (UTC firstRunAt)) else
  let firstRunAtLocal := In_loc firstRunAt loc in
  let fromLocal := In_loc from loc in
  let candidate := at_clock_of fromLocal 0 firstRunAtLocal loc in
  let candidate := if negb (After candidate from) then AddDate loc candidate 0 0 7 else candidate in
  Ok (Some (UTC candidate)).

Definition computeMonthlyAfter (firstRunAt : Time) (dayOfMonth : Z) (from : Time)
    (loc : Location) : result (option Time) :=
  if Before from firstRunAt then Ok (Some (UTC firstRunAt)) else
  let firstRunAtLocal := In_loc firstRunAt loc in
  let fromLocal := In_loc from loc in
  month_search_result "computeMonthlyAfter"
    (month_search 120 (Year fromLocal) (Month fromLocal) 1 dayOfMonth firstRunAtLocal loc
       (λ candidate, After candidate from)).

Definition ComputeNextRunAfter (recurrence : option Recurrence) (timezone : string)
    (firstRunAt from : Time) : result (option Time) :=
  with_recurrence recurrence timezone
    (λ seconds, computeIntervalAfter firstRunAt seconds from)
    (λ loc, computeDailyAfter firstRunAt from loc)
    (λ loc, computeWeeklyAfter firstRunAt from loc)
    (λ dayOfMonth loc, computeMonthlyAfter firstRunAt dayOfMonth from loc).

(** ** The latest slot on or before [from]; nil before the first run *)

Definition computeIntervalLatestOnOrBefore (firstRunAt : Time) (seconds : Z) (from : Time)
    : result (option Time) :=
  if Before from firstRunAt then Ok None else
  let timeDifference := Sub from firstRunAt in
  let N := Floor (f64_div (Seconds timeDifference) (f64_of_int seconds)) in
  Ok (Some (UTC (Add firstRunAt (slot_offset N seconds)))).

Definition computeDailyLatestOnOrBefore (firstRunAt from : Time) (loc : Location)
    : result (option Time) :=
  if Before from firstRunAt then Ok None else
  let firstRunAtLocal := In_loc firstRunAt loc in
  let fromLocal := In_loc from loc in
  let candidate := at_clock_of fromLocal 0 firstRunAtLocal loc in
  let candidate := if After candidate from then AddDate loc candidate 0 0 (-1) else candidate in
  Ok (Some (UTC candidate)).

Definition computeWeeklyLatestOnOrBefore (firstRunAt from : Time) (loc : Location)
    : result (option Time) :=
  if Before from firstRunAt then Ok None else
  let firstRunAtLocal := In_loc firstRunAt loc in
  let fromLocal := In_loc from loc in
  let targetWeekday := Weekday firstRunAtLocal in
  let daysBackToTarget := Z.rem (Weekday fromLocal - targetWeekday + 7) 7 in
  let candidate := at_clock_of fromLocal (- daysBackToTarget) firstRunAtLocal loc in
  let candidate := if After candidate from then AddDate loc candidate 0 0 (-7) else candidate in
  Ok (Some (UTC candidate)).

Definition computeMonthlyLatestOnOrBefore (firstRunAt : Time) (dayOfMonth : Z) (from : Time)
    (loc : Location) : result (option Time) :=
  if Before from firstRunAt then Ok None else
  let firstRunAtLocal := In_loc firstRunAt loc in
  let fromLocal := In_loc from loc in
  month_search_result "computeMonthlyLatestOnOrBefore"
    (month_search 120 (Year fromLocal) (Month fromLocal) (-1) dayOfMonth firstRunAtLocal loc
       (λ candidate, negb (After candidate from))).

Definition ComputeLatestRunOnOrBefore (recurrence : option Recurrence) (timezone : string)
    (firstRunAt from : Time) : result (option Time) :=
  with_recurrence recurrence timezone
    (λ seconds, computeIntervalLatestOnOrBefore firstRunAt seconds from)
    (λ loc, computeDailyLatestOnOrBefore firstRunAt from loc)
    (λ loc, computeWeeklyLatestOnOrBefore firstRunAt from loc)
    (λ dayOfMonth loc, computeMonthlyLatestOnOrBefore firstRunAt dayOfMonth from loc).
End recurrence.
