(* ===== verification/Bolt.v ===== *)
(** * Bolt: what the storage layer relies on from go.etcd.io/bbolt

    bbolt is not part of the repository: a bucket is a parameter, with the
    documented behaviour of [Get], [Put], [Delete] and of a cursor as the laws.
    A cursor is the list of entries it has still to visit. *)

From S2P Require Import Prelude Go.
Open Scope Z_scope.

(** bbolt's MaxKeySize; a longer key, or an empty one, is refused by [Put]. *)
Definition MaxKeySize : Z := 32768.

Definition key_ok (k : string) : Prop := 0 < Z.of_nat (String.length k) ≤ MaxKeySize.

Class Bolt := {
  bucket : Type → Type;
  bucket_empty : ∀ {V}, bucket V;
  bucket_get : ∀ {V}, bucket V → string → option V;
  bucket_put : ∀ {V}, bucket V → string → V → result (bucket V);
  bucket_delete : ∀ {V}, bucket V → string → result (bucket V);
  bucket_entries : ∀ {V}, bucket V → list (string * V)
}.

Class BoltLaws (B : Bolt) : Prop := {
  bucket_get_empty : ∀ V k, bucket_get (bucket_empty (V := V)) k = None;
  bucket_put_ok : ∀ V (b : bucket V) k v, key_ok k → ∃ b', bucket_put b k v = Ok b';
  bucket_put_no_panic : ∀ V (b : bucket V) k v p, bucket_put b k v ≠ Panic p;
  bucket_get_put : ∀ V (b b' : bucket V) k v k', bucket_put b k v = Ok b' →
    bucket_get b' k' = if decide (k' = k) then Some v else bucket_get b k';
  bucket_delete_ok : ∀ V (b : bucket V) k, ∃ b', bucket_delete b k = Ok b';
  bucket_get_delete : ∀ V (b b' : bucket V) k k', bucket_delete b k = Ok b' →
    bucket_get b' k' = if decide (k' = k) then None else bucket_get b k';
  bucket_entries_sorted : ∀ V (b : bucket V),
    StronglySorted (λ x y, str_lt x.1 y.1) (bucket_entries b);
  elem_of_bucket_entries : ∀ V (b : bucket V) k v,
    (k, v) ∈ bucket_entries b ↔ bucket_get b k = Some v
}.

Section cursor.
Context `{!Bolt}.

(** [c.First()], [c.Seek(k)] and [c.Next()]. *)
Definition cursor_first {V} (b : bucket V) : list (string * V) := bucket_entries b.
Definition cursor_seek {V} (b : bucket V) (k : string) : list (string * V) :=
  drop_while (λ e, String.ltb e.1 k) (bucket_entries b).
Definition cursor_next {V} (c : list (string * V)) : list (string * V) := tail c.
End cursor.

(** ** A concrete bucket

    A finite map, its entries listed in key order.  It refuses the keys bbolt
    refuses. *)
Section gmap_bolt.

Definition entry_le {V} (x y : string * V) : Prop := ¬ str_lt y.1 x.1.

#[local] Instance entry_le_dec {V} : RelDecision (entry_le (V := V)) :=
  λ x y, decide (¬ str_lt y.1 x.1).

#[local] Instance entry_le_total {V} : Total (entry_le (V := V)).
Proof.
  intros x y. unfold entry_le.
  destruct (str_lt_total x.1 y.1) as [H|[H|H]].
  - left. intros H'. by apply (irreflexivity str_lt x.1); etrans.
  - left. rewrite H. apply irreflexivity, _.
  - right. intros H'. by apply (irreflexivity str_lt x.1); etrans.
Qed.

#[local] Instance entry_le_trans {V} : Transitive (entry_le (V := V)).
Proof.
  intros x y z Hxy Hyz Hzx. unfold entry_le in *.
  destruct (str_lt_total x.1 y.1) as [H|[H|H]]; [|rewrite H in Hzx; done|done].
  apply Hyz. by etrans.
Qed.

Definition gmap_entries {V} (m : gmap string V) : list (string * V) :=
  merge_sort entry_le (map_to_list m).

Lemma elem_of_gmap_entries {V} (m : gmap string V) k v :
  (k, v) ∈ gmap_entries m ↔ m !! k = Some v.
Proof.
  unfold gmap_entries. rewrite merge_sort_Permutation. apply elem_of_map_to_list.
Qed.

Lemma gmap_entries_sorted {V} (m : gmap string V) :
  StronglySorted (λ x y, str_lt x.1 y.1) (gmap_entries m).
Proof.
  assert (StronglySorted entry_le (gmap_entries m)) as HS
    by apply (StronglySorted_merge_sort _).
  assert (NoDup ((gmap_entries m).*1)) as HN.
  { unfold gmap_entries. rewrite merge_sort_Permutation. apply NoDup_fst_map_to_list. }
  induction HS as [|x l HS IH HF]; [constructor|].
  rewrite fmap_cons, NoDup_cons in HN. destruct HN as [Hx HN].
  constructor; [by apply IH|]. rewrite Forall_forall in *. intros y Hy.
  destruct (str_lt_total x.1 y.1) as [|[Heq|Hlt]]; [done| |].
  - exfalso. apply Hx. rewrite Heq. by apply list_elem_of_fmap_2.
  - exfalso. by apply (HF y Hy).
Qed.

#[export] Instance gmap_bolt : Bolt := {|
  bucket := gmap string;
  bucket_empty V := ∅;
  bucket_get V b k := b !! k;
  bucket_put V b k v :=
    if 0 <? Z.of_nat (String.length k) then
      if Z.of_nat (String.length k) <=? MaxKeySize then Ok (<[k := v]> b)
      else Err (EText "key too large")
    else Err (EText "key required");
  bucket_delete V b k := Ok (delete k b);
  bucket_entries V b := gmap_entries b
|}.

#[export] Instance gmap_bolt_laws : BoltLaws gmap_bolt.
Proof.
  split; simpl.
  - intros. apply lookup_empty.
  - intros V b k v [H1 H2]. apply Z.ltb_lt in H1 as ->. apply Z.leb_le in H2 as ->. eauto.
  - intros. by repeat case_match.
  - intros V b b' k v k' H. repeat case_match; simplify_eq.
    + by rewrite lookup_insert_eq.
    + by rewrite lookup_insert_ne.
  - eauto.
  - intros V b b' k k' [= <-]. case_decide; subst.
    + by rewrite lookup_delete_eq.
    + by rewrite lookup_delete_ne.
  - intros. apply gmap_entries_sorted.
  - intros. apply elem_of_gmap_entries.
Qed.
End gmap_bolt.
