(* ===== verification/Json.v ===== *)
(** * Json: what the program relies on from encoding/json

    Rows and commands go through [json.Marshal] and [json.Unmarshal].  The
    bytes are abstract; what matters is when a value can be encoded at all and
    when decoding gives the same value back.  Both are decided field by field:
    a value is a list of atoms (strings, times, integers, floats, raw JSON). *)

From Stdlib Require Import Ascii SpecFloat.
From S2P Require Import Prelude Go Calendar GoTime GoFloat Model.
Open Scope Z_scope.

(** ** UTF-8: the strings JSON carries unchanged *)

Definition byte_in (lo hi : N) (c : ascii) : bool :=
  ((lo <=? N_of_ascii c) && (N_of_ascii c <=? hi))%N.

Definition is_cont : ascii → bool := byte_in 128 191.

(** The second byte allowed after a given first byte of a 3- or 4-byte rune. *)
Definition second3 (c c1 : ascii) : bool :=
  (byte_in 224 224 c && byte_in 160 191 c1) ||
  ((byte_in 225 236 c || byte_in 238 239 c) && is_cont c1) ||
  (byte_in 237 237 c && byte_in 128 159 c1).
Definition second4 (c c1 : ascii) : bool :=
  (byte_in 240 240 c && byte_in 144 191 c1) ||
  (byte_in 241 243 c && is_cont c1) ||
  (byte_in 244 244 c && byte_in 128 143 c1).

(** [utf8.ValidString] *)
Fixpoint utf8_valid (s : string) : bool :=
  match s with
  | EmptyString => true
  | String c s1 =>
      if byte_in 0 127 c then utf8_valid s1 else
      match s1 with
      | EmptyString => false
      | String c1 s2 =>
          if byte_in 194 223 c && is_cont c1 then utf8_valid s2 else
          match s2 with
          | EmptyString => false
          | String c2 s3 =>
              if second3 c c1 && is_cont c2 then utf8_valid s3 else
              match s3 with
              | EmptyString => false
              | String c3 s4 => second4 c c1 && is_cont c2 && is_cont c3 && utf8_valid s4
              end
          end
      end
  end.

Lemma utf8_valid_app (a b : string) :
  utf8_valid a = true → utf8_valid b = true → utf8_valid (a +:+ b) = true.
Proof.
  intros Ha Hb. remember (String.length a) as n eqn:Hn.
  revert a Hn Ha. induction (lt_wf n) as [n _ IH]. intros a -> Ha.
  destruct a as [|c s1]; [done|]. rewrite append_cons. simpl in *.
  destruct (byte_in 0 127 c); [eapply IH; [|reflexivity|done]; simpl; lia|].
  destruct s1 as [|c1 s2]; [done|]. rewrite append_cons. simpl in *.
  destruct (byte_in 194 223 c && is_cont c1); [eapply IH; [|reflexivity|done]; simpl; lia|].
  destruct s2 as [|c2 s3]; [done|]. rewrite append_cons. simpl in *.
  destruct (second3 c c1 && is_cont c2); [eapply IH; [|reflexivity|done]; simpl; lia|].
  destruct s3 as [|c3 s4]; [done|]. rewrite append_cons. simpl in *.
  destruct (second4 c c1 && is_cont c2 && is_cont c3); [|done].
  eapply IH; [|reflexivity|done]. simpl; lia.
Qed.

Lemma all_ascii_utf8 (s : string) : all_bytes (byte_in 0 127) s = true → utf8_valid s = true.
Proof.
  induction s as [|c s IH]; simpl; [done|]. intros [Hc Hs]%andb_true_iff. rewrite Hc. auto.
Qed.

(** ** Atoms *)

Inductive atom :=
| AStr (s : string)
| ATime (t : Time)
| AInt (z : Z)
| AFloat (f : f64)
| ARaw (s : string).

(** Times print their offset to the minute and refuse an offset of a day. *)
Definition time_clean (t : Time) : bool :=
  (t_off t mod 60 =? 0) && (Z.abs (t_off t) <? 86400).

Definition time_years (t : Time) : bool := (0 <=? Year t) && (Year t <=? 9999).

Definition f64_clean (f : f64) : bool :=
  valid_binary 53 1024 f && match f with S754_nan | S754_infinity _ => false | _ => true end.

Class Rows (A : Type) := atoms : A → list atom.

Definition opt_atoms {A} (f : A → list atom) (o : option A) : list atom :=
  match o with Some a => f a | None => [] end.
Definition time_atoms (o : option Time) : list atom := opt_atoms (λ t, [ATime t]) o.
Definition map_atoms (m : gmap string string) : list atom :=
  map_to_list m ≫= λ kv, [AStr kv.1; AStr kv.2].

#[export] Instance Tenant_rows : Rows Tenant := λ t,
  [AStr t.(Tenant.ID); AStr t.(Tenant.Name); ATime t.(Tenant.CreatedAt);
   AStr t.(Tenant.APIKeyHash)].

#[export] Instance Recurrence_rows : Rows Recurrence := λ r,
  [AStr r.(Recurrence.Cadence)] ++ opt_atoms (λ z, [AInt z]) r.(Recurrence.DayOfMonth)
  ++ opt_atoms (λ s, [AStr s]) r.(Recurrence.DayOfWeek)
  ++ opt_atoms (λ z, [AInt z]) r.(Recurrence.Seconds).

#[export] Instance RetryBackoff_rows : Rows RetryBackoff := λ rb,
  [AInt rb.(RetryBackoff.Initial); AFloat rb.(RetryBackoff.Multiplier);
   AInt rb.(RetryBackoff.Max)].

#[export] Instance Schedule_rows : Rows Schedule := λ s,
  [AInt s.(Schedule.SchemaVersion); AStr s.(Schedule.ID); AStr s.(Schedule.TenantID);
   ATime s.(Schedule.CreatedAt); ATime s.(Schedule.UpdatedAt); AStr s.(Schedule.CreatedBy);
   AStr s.(Schedule.CallbackURL); ARaw s.(Schedule.Payload);
   AStr s.(Schedule.ScheduleType); ATime s.(Schedule.FirstRunAt);
   AStr s.(Schedule.Timezone); AInt s.(Schedule.MaxAttempts);
   AStr s.(Schedule.CatchUpPolicy); AStr s.(Schedule.Status)]
  ++ map_atoms s.(Schedule.Headers) ++ opt_atoms atoms s.(Schedule.Recurrence)
  ++ atoms s.(Schedule.RetryBackoff) ++ opt_atoms (λ z, [AInt z]) s.(Schedule.CallTimeout)
  ++ time_atoms s.(Schedule.NextRunAt).

#[export] Instance Execution_rows : Rows Execution := λ e,
  [AInt e.(Execution.SchemaVersion); AStr e.(Execution.ID); AStr e.(Execution.TenantID);
   AStr e.(Execution.ScheduleID); ATime e.(Execution.ScheduledFor);
   AStr e.(Execution.IdempotencyKey); AStr e.(Execution.OwnerNodeID);
   AStr e.(Execution.Status); AInt e.(Execution.AttemptCount);
   AStr e.(Execution.LastAttemptID); AStr e.(Execution.FinalOutcome)]
  ++ time_atoms e.(Execution.ClaimedAt) ++ time_atoms e.(Execution.StartedAt)
  ++ time_atoms e.(Execution.CompletedAt) ++ time_atoms e.(Execution.LastRetryAt).

#[export] Instance Attempt_rows : Rows Attempt := λ a,
  [AInt a.(Attempt.SchemaVersion); AStr a.(Attempt.ID); AStr a.(Attempt.TenantID);
   AStr a.(Attempt.ExecutionID); AStr a.(Attempt.NodeID); AInt a.(Attempt.AttemptNumber);
   AStr a.(Attempt.RequestURL); AStr a.(Attempt.RequestBodyHash);
   AInt a.(Attempt.ResponseStatus); AStr a.(Attempt.ResponseBodyExcerpt);
   AStr a.(Attempt.Outcome); ATime a.(Attempt.RetryAt)]
  ++ time_atoms a.(Attempt.StartedAt) ++ time_atoms a.(Attempt.CompletedAt)
  ++ map_atoms a.(Attempt.RequestHeaders) ++ map_atoms a.(Attempt.ResponseHeaders).

(** ** The codec *)

Class RowCodec (bytes A : Type) := {
  Marshal : A → result bytes;
  Unmarshal : bytes → result A
}.

(** [raw_canonical s]: [s] is a JSON value in the compact, HTML-escaped form
    that [json.Marshal] gives a [json.RawMessage]. *)
Class Json := {
  jbytes : Type;
  raw_canonical : string → bool;
  codec_Tenant :: RowCodec jbytes Tenant;
  codec_Schedule :: RowCodec jbytes Schedule;
  codec_Execution :: RowCodec jbytes Execution;
  codec_Attempt :: RowCodec jbytes Attempt
}.

Section clean.
Context `{!Json}.

(** What comes back from JSON exactly as it went in. *)
Definition atom_clean (a : atom) : bool :=
  match a with
  | AStr s => utf8_valid s
  | ATime t => time_clean t
  | AInt z => (minInt64 <=? z) && (z <=? maxInt64)
  | AFloat f => f64_clean f
  | ARaw s => raw_canonical s
  end.

(** What, among that, [json.Marshal] does not refuse. *)
Definition atom_encodable (a : atom) : bool :=
  match a with ATime t => time_years t | _ => true end.

Definition clean {A} `{!Rows A} (x : A) : Prop := Forall (λ a, atom_clean a = true) (atoms x).
Definition encodable {A} `{!Rows A} (x : A) : Prop :=
  Forall (λ a, atom_encodable a = true) (atoms x).
End clean.

Class CodecLaws `{!Json} (A : Type) `{!Rows A} (C : RowCodec jbytes A) : Prop := {
  marshal_no_panic : ∀ (x : A) p, Marshal x ≠ Panic p;
  unmarshal_no_panic : ∀ (b : jbytes) p, Unmarshal (A := A) b ≠ Panic p;
  unmarshal_marshal : ∀ (x : A) b, clean x → Marshal x = Ok b → Unmarshal b = Ok x;
  marshal_ok : ∀ (x : A), clean x → encodable x → ∃ b, Marshal x = Ok b
}.

Class JsonLaws (J : Json) : Prop := {
  laws_Tenant :: CodecLaws Tenant codec_Tenant;
  laws_Schedule :: CodecLaws Schedule codec_Schedule;
  laws_Execution :: CodecLaws Execution codec_Execution;
  laws_Attempt :: CodecLaws Attempt codec_Attempt
}.

(** ** A concrete codec

    Bytes that remember the value they encode; a time outside the years 0 to
    9999 is refused with encoding/json's message. *)
Inductive row_bytes :=
| BTenant (t : Tenant)
| BSchedule (s : Schedule)
| BExecution (e : Execution)
| BAttempt (a : Attempt).

Definition year_error : error :=
  EText "json: error calling MarshalJSON for type time.Time: Time.MarshalJSON: year outside of range [0,9999]".

Definition encodableb {A} `{!Rows A} (x : A) : bool := forallb atom_encodable (atoms x).

Definition syntax_error : error := EText "json: cannot unmarshal row".

Section plain_json.
Context {A : Type} `{!Rows A} (inj : A → row_bytes) (prj : row_bytes → option A).

Definition plain_codec : RowCodec row_bytes A := {|
  Marshal x := if encodableb x then Ok (inj x) else Err year_error;
  Unmarshal b := match prj b with Some x => Ok x | None => Err syntax_error end
|}.
End plain_json.

#[export] Instance plain_json : Json := {|
  jbytes := row_bytes;
  raw_canonical s := negb (String.eqb s "");
  codec_Tenant := plain_codec BTenant (λ b, match b with BTenant t => Some t | _ => None end);
  codec_Schedule := plain_codec BSchedule (λ b, match b with BSchedule t => Some t | _ => None end);
  codec_Execution := plain_codec BExecution (λ b, match b with BExecution t => Some t | _ => None end);
  codec_Attempt := plain_codec BAttempt (λ b, match b with BAttempt t => Some t | _ => None end)
|}.

Lemma plain_codec_laws {A} `{!Rows A} (inj : A → row_bytes) prj :
  (∀ x, prj (inj x) = Some x) → CodecLaws (H := plain_json) A (plain_codec inj prj).
Proof.
  intros Hinv. split; simpl.
  - intros. by case_match.
  - intros. by case_match.
  - intros x b _ H. case_match; simplify_eq. by rewrite Hinv.
  - intros x _ Henc. unfold encodableb. rewrite (proj2 (forallb_forall _ _)); [eauto|].
    intros a Ha. by eapply Forall_forall in Henc; [|apply list_elem_of_In].
Qed.

#[export] Instance plain_json_laws : JsonLaws plain_json.
Proof. split; by apply plain_codec_laws. Qed.
