(* ===== verification/Storage.v ===== *)
(** * Storage: src/internal/storage/storage.go

    The [Tx] interface as a type class, and [boltTx], its implementation over
    eight bbolt buckets: four of JSON rows and four secondary indexes whose
    keys carry everything.  A callback that writes captured variables is a
    function on an accumulator; an iteration returns the accumulator it has
    reached together with the error that stopped it, if one did. *)

From S2P Require Import Prelude Go GoTime Model Bolt Json.
Open Scope Z_scope.

(** ** The interface *)

Class Tx (St : Type) := {
  GetSchedule : string → string → M St (option Schedule);
  PutSchedule : Schedule → M St unit;
  GetExecution : string → string → M St (option Execution);
  PutExecution : Execution → M St unit;
  GetAttempt : string → string → M St (option Attempt);
  PutAttempt : Attempt → M St unit;
  PutTenant : Tenant → M St unit;
  GetTenant : string → M St (option Tenant);
  ListTenants : M St (list Tenant);
  ListExecutionsBySchedule : ∀ {A}, string → string →
    (A → Execution → A * option error) → A → M St (A * option error);
  ListExecutionsByStatus : ∀ {A}, string → string →
    (A → Execution → A * option error) → A → M St (A * option error);
  ListAttemptsByExecution : ∀ {A}, string → string →
    (A → Attempt → A * option error) → A → M St (A * option error);
  ListSchedulesDue : ∀ {A}, string → Time →
    (A → Schedule → A * option error) → A → M St (A * option error);
  ListTenantsPage : Z → string → M St (list Tenant * string);
  ListExecutionsBySchedulePage : string → string → Z → string → M St (list Execution * string);
  ListExecutionsByStatusPage : string → string → Z → string → M St (list Execution * string);
  ListAttemptsByExecutionPage : string → string → Z → string → M St (list Attempt * string)
}.

(** ** Transactions

    [BoltStorage.Update] commits when the function returns nil and rolls back
    otherwise (and on a panic); [View] never writes.  Both are the same for
    any store, and are used on the abstract one too.  bbolt's commit can fail,
    with an error of its own ([commit_err]), and then leaves the database as it
    was; [Update] is the case that it succeeds. *)
Definition Update_commit {St A} (commit_err : option error) (fn : M St A) (d : St) : result A * St :=
  match fn d with
  | (Ok a, d') => match commit_err with None => (Ok a, d') | Some e => (Err e, d) end
  | (Err e, _) => (Err e, d)
  | (Panic p, _) => (Panic p, d)
  end.

Definition Update {St A} (fn : M St A) (d : St) : result A * St :=
  match fn d with
  | (Ok a, d') => (Ok a, d')
  | (Err e, _) => (Err e, d)
  | (Panic p, _) => (Panic p, d)
  end.

Lemma Update_commits {St A} (fn : M St A) (d : St) : Update_commit None fn d = Update fn d.
Proof. reflexivity. Qed.

Definition View {St A} (fn : M St A) (d : St) : result A := (fn d).1.

(** ** The buckets *)

Section buckets.
Context `{!Bolt, !Json}.

Record DB := mkDB {
  schedules : bucket jbytes;
  executions : bucket jbytes;
  attempts : bucket jbytes;
  tenants : bucket jbytes;
  executions_by_schedule : bucket unit;
  executions_by_status : bucket unit;
  attempts_by_execution : bucket unit;
  schedules_by_status : bucket unit
}.

(** A new database: eight empty buckets. *)
Definition emptyDB : DB :=
  mkDB bucket_empty bucket_empty bucket_empty bucket_empty
       bucket_empty bucket_empty bucket_empty bucket_empty.

(** A bucket of the database: how to read it and how to write it back. *)
Record bucket_ref (V : Type) := mkRef { ref_get : DB → bucket V; ref_set : bucket V → DB → DB }.
Arguments ref_get {V} _ _.
Arguments ref_set {V} _ _ _.

Definition bucketSchedules : bucket_ref jbytes := mkRef _ schedules
  (λ b d, mkDB b (executions d) (attempts d) (tenants d) (executions_by_schedule d)
            (executions_by_status d) (attempts_by_execution d) (schedules_by_status d)).
Definition bucketExecutions : bucket_ref jbytes := mkRef _ executions
  (λ b d, mkDB (schedules d) b (attempts d) (tenants d) (executions_by_schedule d)
            (executions_by_status d) (attempts_by_execution d) (schedules_by_status d)).
Definition bucketAttempts : bucket_ref jbytes := mkRef _ attempts
  (λ b d, mkDB (schedules d) (executions d) b (tenants d) (executions_by_schedule d)
            (executions_by_status d) (attempts_by_execution d) (schedules_by_status d)).
Definition bucketTenants : bucket_ref jbytes := mkRef _ tenants
  (λ b d, mkDB (schedules d) (executions d) (attempts d) b (executions_by_schedule d)
            (executions_by_status d) (attempts_by_execution d) (schedules_by_status d)).
Definition bucketExecutionsBySchedule : bucket_ref unit := mkRef _ executions_by_schedule
  (λ b d, mkDB (schedules d) (executions d) (attempts d) (tenants d) b
            (executions_by_status d) (attempts_by_execution d) (schedules_by_status d)).
Definition bucketExecutionsByStatus : bucket_ref unit := mkRef _ executions_by_status
  (λ b d, mkDB (schedules d) (executions d) (attempts d) (tenants d)
            (executions_by_schedule d) b (attempts_by_execution d) (schedules_by_status d)).
Definition bucketAttemptsByExecution : bucket_ref unit := mkRef _ attempts_by_execution
  (λ b d, mkDB (schedules d) (executions d) (attempts d) (tenants d)
            (executions_by_schedule d) (executions_by_status d) b (schedules_by_status d)).
Definition bucketSchedulesByStatus : bucket_ref unit := mkRef _ schedules_by_status
  (λ b d, mkDB (schedules d) (executions d) (attempts d) (tenants d)
            (executions_by_schedule d) (executions_by_status d) (attempts_by_execution d) b).

(** [t.tx.Bucket(name).Get/Put/Delete] *)
Definition Get {V} (r : bucket_ref V) (k : string) : M DB (option V) :=
  λ d, (Ok (bucket_get (ref_get r d) k), d).
Definition Put {V} (r : bucket_ref V) (k : string) (v : V) : M DB unit := λ d,
  match bucket_put (ref_get r d) k v with
  | Ok b => (Ok (), ref_set r b d)
  | Err e => (Err e, d)
  | Panic p => (Panic p, d)
  end.
Definition Delete {V} (r : bucket_ref V) (k : string) : M DB unit := λ d,
  match bucket_delete (ref_get r d) k with
  | Ok b => (Ok (), ref_set r b d)
  | Err e => (Err e, d)
  | Panic p => (Panic p, d)
  end.

(** ** Keys *)

Definition scheduleKey (tenantID id : string) : string := tenantID +:+ ":" +:+ id.
Definition executionKey (tenantID id : string) : string := tenantID +:+ ":" +:+ id.
Definition attemptKey (tenantID id : string) : string := tenantID +:+ ":" +:+ id.
Definition executionByScheduleKey (tenantID scheduleID id : string) : string :=
  tenantID +:+ ":" +:+ scheduleID +:+ ":" +:+ id.
Definition executionByStatusKey (tenantID status id : string) : string :=
  tenantID +:+ ":" +:+ status +:+ ":" +:+ id.
Definition attemptsByExecutionKey (tenantID executionID id : string) : string :=
  tenantID +:+ ":" +:+ executionID +:+ ":" +:+ id.
Definition scheduleByStatusKey (tenantID status id : string) : string :=
  tenantID +:+ ":" +:+ status +:+ ":" +:+ id.

(** ** Rows *)

(** [raw := Bucket.Get(key); if raw == nil { return nil, nil }; Unmarshal] *)
Definition get_row {A} `{!RowCodec jbytes A} (r : bucket_ref jbytes) (key : string)
    : M DB (option A) :=
  raw ← Get r key;
  match raw with
  | None => mret None
  | Some b => x ← lift (Unmarshal b); mret (Some x)
  end.

Definition bolt_GetSchedule (tenantID id : string) : M DB (option Schedule) :=
  get_row bucketSchedules (scheduleKey tenantID id).

Definition bolt_PutSchedule (s : Schedule) : M DB unit :=
  oldRow ← wrap_err (EWrap "Could not find the schedule ")
             (bolt_GetSchedule s.(Schedule.TenantID) s.(Schedule.ID));
  _ ← match oldRow with
      | Some old => wrap_err (EWrap "Delete was not successful ")
          (Delete bucketSchedulesByStatus
             (scheduleByStatusKey old.(Schedule.TenantID) old.(Schedule.Status) old.(Schedule.ID)))
      | None => mret ()
      end;
  jsonData ← lift (Marshal s);
  let key := scheduleKey s.(Schedule.TenantID) s.(Schedule.ID) in
  let statusKey := scheduleByStatusKey s.(Schedule.TenantID) s.(Schedule.Status) s.(Schedule.ID) in
  _ ← wrap_err (EWrap "Put to Schedules Bucket was unsuccessful ")
        (Put bucketSchedules key jsonData);
  wrap_err (EWrap "Put to Schedules By Status Bucket was unsuccessful ")
    (Put bucketSchedulesByStatus statusKey ()).

Definition bolt_GetExecution (tenantID id : string) : M DB (option Execution) :=
  get_row bucketExecutions (executionKey tenantID id).

Definition bolt_PutExecution (ex : Execution) : M DB unit :=
  oldRow ← wrap_err (EWrap "Could not find the execution ")
             (bolt_GetExecution ex.(Execution.TenantID) ex.(Execution.ID));
  _ ← match oldRow with
      | Some old => wrap_err (EWrap "Delete was not successful ")
          (Delete bucketExecutionsByStatus
             (executionByStatusKey old.(Execution.TenantID) old.(Execution.Status) old.(Execution.ID)))
      | None => mret ()
      end;
  jsonData ← lift (Marshal ex);
  let exKey := executionKey ex.(Execution.TenantID) ex.(Execution.ID) in
  let exByStatusKey :=
    executionByStatusKey ex.(Execution.TenantID) ex.(Execution.Status) ex.(Execution.ID) in
  let exBySchedKey :=
    executionByScheduleKey ex.(Execution.TenantID) ex.(Execution.ScheduleID) ex.(Execution.ID) in
  _ ← wrap_err (EWrap "Put to Executions Bucket was unsuccessful ")
        (Put bucketExecutions exKey jsonData);
  _ ← wrap_err (EWrap "Put to Executions By Status was Bucket was unsuccessful ")
        (Put bucketExecutionsByStatus exByStatusKey ());
  wrap_err (EWrap "Put to Executions By Schedule Bucket was unsuccessful ")
    (Put bucketExecutionsBySchedule exBySchedKey ()).

Definition bolt_GetAttempt (tenantID id : string) : M DB (option Attempt) :=
  get_row bucketAttempts (attemptKey tenantID id).

Definition bolt_PutAttempt (a : Attempt) : M DB unit :=
  jsonData ← lift (Marshal a);
  let key := attemptKey a.(Attempt.TenantID) a.(Attempt.ID) in
  let attemptByExecKey :=
    attemptsByExecutionKey a.(Attempt.TenantID) a.(Attempt.ExecutionID) a.(Attempt.ID) in
  _ ← wrap_err (EWrap "Put to Attempts Bucket was unsuccessful ")
        (Put bucketAttempts key jsonData);
  wrap_err (EWrap "Put to Attempts By Execution Bucket was unsuccessful ")
    (Put bucketAttemptsByExecution attemptByExecKey ()).

Definition bolt_PutTenant (t : Tenant) : M DB unit :=
  jsonData ← lift (Marshal t);
  Put bucketTenants t.(Tenant.ID) jsonData.

Definition bolt_GetTenant (id : string) : M DB (option Tenant) := get_row bucketTenants id.

(** ** Iteration *)

(** [b.ForEach] over the tenants, appending each decoded row. *)
Fixpoint decode_all {A} `{!RowCodec jbytes A} (c : list (string * jbytes)) : result (list A) :=
  match c with
  | [] => Ok []
  | (_, raw) :: c' => x ← Unmarshal raw; l ← decode_all c'; Ok (x :: l)
  end.

Definition bolt_ListTenants : M DB (list Tenant) := λ d,
  (decode_all (bucket_entries (tenants d)), d).

(** The loop of the unpaginated lists: the cursor from [Seek(prefix)] on,
    while the prefix matches.  [fn] may stop it with an error. *)
Fixpoint scan {Row A} (prefix : string) (get : string → M DB (option Row))
    (missing : string → error) (fn : A → Row → A * option error)
    (c : list (string * unit)) (acc : A) : M DB (A * option error) := λ d,
  match c with
  | [] => (Ok (acc, None), d)
  | (k, _) :: c' =>
      if String.prefix prefix k then
        let id := strip_prefix prefix k in
        match get id d with
        | (Err e, d') => (Ok (acc, Some e), d')
        | (Panic p, d') => (Panic p, d')
        | (Ok None, d') => (Ok (acc, Some (missing id)), d')
        | (Ok (Some x), d') =>
            match fn acc x with
            | (acc', Some e) => (Ok (acc', Some e), d')
            | (acc', None) => scan prefix get missing fn c' acc' d'
            end
        end
      else (Ok (acc, None), d)
  end.

Definition scan_prefix {Row A} (idx : DB → bucket unit) (prefix : string)
    (get : string → M DB (option Row)) (missing : string → error)
    (fn : A → Row → A * option error) (acc : A) : M DB (A * option error) := λ d,
  scan prefix get missing fn (cursor_seek (idx d) prefix) acc d.

Definition missing_execution (tenantID execID : string) : error :=
  EText ("index entry references missing execution: tenant=" +:+ tenantID +:+ " exec_id=" +:+ execID).
Definition missing_schedule (tenantID schedID : string) : error :=
  EText ("index entry references missing schedule: tenant=" +:+ tenantID +:+ " schedule_id=" +:+ schedID).
Definition missing_attempt (tenantID attemptID : string) : error :=
  EText ("index entry references missing attempt: tenant=" +:+ tenantID +:+ " attempt_id=" +:+ attemptID).

Definition bolt_ListExecutionsBySchedule {A} (tenantID scheduleID : string)
    (fn : A → Execution → A * option error) (acc : A) : M DB (A * option error) :=
  scan_prefix executions_by_schedule (tenantID +:+ ":" +:+ scheduleID +:+ ":")
    (bolt_GetExecution tenantID) (missing_execution tenantID) fn acc.

Definition bolt_ListExecutionsByStatus {A} (tenantID status : string)
    (fn : A → Execution → A * option error) (acc : A) : M DB (A * option error) :=
  scan_prefix executions_by_status (tenantID +:+ ":" +:+ status +:+ ":")
    (bolt_GetExecution tenantID) (missing_execution tenantID) fn acc.

Definition bolt_ListAttemptsByExecution {A} (tenantID executionID : string)
    (fn : A → Attempt → A * option error) (acc : A) : M DB (A * option error) :=
  scan_prefix attempts_by_execution (tenantID +:+ ":" +:+ executionID +:+ ":")
    (bolt_GetAttempt tenantID) (missing_attempt tenantID) fn acc.

(** [sched.NextRunAt == nil || sched.NextRunAt.After(now)] *)
Definition not_due (now : Time) (s : Schedule) : bool :=
  match s.(Schedule.NextRunAt) with None => true | Some t => After t now end.

Definition bolt_ListSchedulesDue {A} (tenantID : string) (now : Time)
    (fn : A → Schedule → A * option error) (acc : A) : M DB (A * option error) :=
  scan_prefix schedules_by_status (tenantID +:+ ":" +:+ ScheduleStatusActive +:+ ":")
    (bolt_GetSchedule tenantID) (missing_schedule tenantID)
    (λ acc s, if not_due now s then (acc, None) else fn acc s) acc.

(** ** Pages *)

(** [rows[len(rows)-1].ID] once [limit] rows are collected. *)
Definition last_id {Row} (idOf : Row → string) (rows : list Row) : string :=
  match last rows with Some x => idOf x | None => "" end.

(** The loop of the paginated lists: it stops when a key beyond the [limit]-th
    row exists, and names that row as the cursor of the next page. *)
Fixpoint page_scan {Row V} (limit : Z) (inPage : string → bool)
    (get : string → V → M DB Row) (idOf : Row → string)
    (c : list (string * V)) (rows : list Row) : M DB (list Row * string) :=
  match c with
  | [] => mret (rows, "")
  | (k, v) :: c' =>
      if inPage k then
        if Z.of_nat (length rows) =? limit then mret (rows, last_id idOf rows) else
        x ← get k v; page_scan limit inPage get idOf c' (rows ++ [x])
      else mret (rows, "")
  end.

(** The start of a page: from [startKey] on, past it when a cursor named it. *)
Definition skip_cursor {V} (cursor startKey : string) (c : list (string * V)) : list (string * V) :=
  match c with
  | (k, _) :: c' => if bool_decide (cursor ≠ "" ∧ k = startKey) then c' else c
  | [] => []
  end.

Definition index_page {Row} (idx : DB → bucket unit) (prefix : string)
    (get : string → M DB (option Row)) (missing : string → error) (idOf : Row → string)
    (limit : Z) (cursor : string) : M DB (list Row * string) := λ d,
  if limit <=? 0 then (Ok ([], ""), d) else
  let startKey := if bool_decide (cursor ≠ "") then prefix +:+ cursor else prefix in
  let c := skip_cursor cursor startKey (cursor_seek (idx d) startKey) in
  page_scan limit (String.prefix prefix)
    (λ k _, let id := strip_prefix prefix k in
            x ← get id; match x with Some row => mret row | None => fail (missing id) end)
    idOf c [] d.

Definition bolt_ListTenantsPage (limit : Z) (cursor : string) : M DB (list Tenant * string) := λ d,
  if limit <=? 0 then (Ok ([], ""), d) else
  let c := if bool_decide (cursor = "") then cursor_first (tenants d)
           else skip_cursor cursor cursor (cursor_seek (tenants d) cursor) in
  page_scan limit (λ _, true) (λ _ raw, lift (Unmarshal raw)) Tenant.ID c [] d.

Definition bolt_ListExecutionsBySchedulePage (tenantID scheduleID : string) (limit : Z)
    (cursor : string) : M DB (list Execution * string) :=
  index_page executions_by_schedule (tenantID +:+ ":" +:+ scheduleID +:+ ":")
    (bolt_GetExecution tenantID) (missing_execution tenantID) Execution.ID limit cursor.

Definition bolt_ListExecutionsByStatusPage (tenantID status : string) (limit : Z)
    (cursor : string) : M DB (list Execution * string) :=
  index_page executions_by_status (tenantID +:+ ":" +:+ status +:+ ":")
    (bolt_GetExecution tenantID) (missing_execution tenantID) Execution.ID limit cursor.

Definition bolt_ListAttemptsByExecutionPage (tenantID executionID : string) (limit : Z)
    (cursor : string) : M DB (list Attempt * string) :=
  index_page attempts_by_execution (tenantID +:+ ":" +:+ executionID +:+ ":")
    (bolt_GetAttempt tenantID) (missing_attempt tenantID) Attempt.ID limit cursor.

#[export] Instance boltTx : Tx DB := {|
  GetSchedule := bolt_GetSchedule;
  PutSchedule := bolt_PutSchedule;
  GetExecution := bolt_GetExecution;
  PutExecution := bolt_PutExecution;
  GetAttempt := bolt_GetAttempt;
  PutAttempt := bolt_PutAttempt;
  PutTenant := bolt_PutTenant;
  GetTenant := bolt_GetTenant;
  ListTenants := bolt_ListTenants;
  ListExecutionsBySchedule := @bolt_ListExecutionsBySchedule;
  ListExecutionsByStatus := @bolt_ListExecutionsByStatus;
  ListAttemptsByExecution := @bolt_ListAttemptsByExecution;
  ListSchedulesDue := @bolt_ListSchedulesDue;
  ListTenantsPage := bolt_ListTenantsPage;
  ListExecutionsBySchedulePage := bolt_ListExecutionsBySchedulePage;
  ListExecutionsByStatusPage := bolt_ListExecutionsByStatusPage;
  ListAttemptsByExecutionPage := bolt_ListAttemptsByExecutionPage
|}.

(** ** Opening the database *)

(** How the calls of [New] end: making the directory, opening the file (with
    what it holds, or [None] when it is new) and creating the buckets. *)
Record OpenIO := mkOpenIO {
  mkdir_err : option error;
  bolt_open : result (option DB);
  create_bucket_err : option error
}.

(** [CreateBucketIfNotExists] keeps the buckets an existing file has. *)
Definition storage_New (io : OpenIO) : result DB :=
  match mkdir_err io with
  | Some e => Err e
  | None =>
      file ← bolt_open io;
      match create_bucket_err io with
      | Some e => Err e
      | None => Ok (match file with Some d => d | None => emptyDB end)
      end
  end.

End buckets.
Arguments ref_get {_ _ V} _ _.
Arguments ref_set {_ _ V} _ _ _.
