(* ===== verification/Command.v ===== *)
(** * Command: src/internal/command

    Every state transition of the replicated state machine, written against
    the [Tx] interface: tenant.go, schedule.go, execution.go and the dispatcher
    of command.go.  A handler runs in [M St]: its guards are [reject_if], a
    failed read or write is wrapped as the source wraps it. *)

From S2P Require Import Prelude Go GoTime GoFloat Model RecurrenceCalc Storage.
Open Scope Z_scope.

(** ** Commands, as decoded from the log *)

Module CreateTenantCommand.
Record CreateTenantCommand := mk { ID : string; Name : string; APIKeyHash : string }.
End CreateTenantCommand.
Notation CreateTenantCommand := CreateTenantCommand.CreateTenantCommand.

Module CreateScheduleCommand.
Record CreateScheduleCommand := mk {
  ID : string;
  TenantID : string;
  CreatedBy : string;
  CallbackURL : string;
  Payload : string;
  Headers : gmap string string;
  ScheduleType : string;
  FirstRunAt : Time;
  Recurrence : option Recurrence.Recurrence;
  Timezone : string;
  MaxAttempts : Z;
  RetryBackoff : RetryBackoff.RetryBackoff;
  CallTimeout : option Z;
  CatchUpPolicy : string
}.
End CreateScheduleCommand.
Notation CreateScheduleCommand := CreateScheduleCommand.CreateScheduleCommand.

Module UpdateScheduleCommand.
Record UpdateScheduleCommand := mk {
  TenantID : string;
  ID : string;
  CallbackURL : option string;
  Headers : option (gmap string string);
  Payload : option string;
  RetryBackoff : option RetryBackoff.RetryBackoff;
  MaxAttempts : option Z;
  CallTimeout : option Z
}.
End UpdateScheduleCommand.
Notation UpdateScheduleCommand := UpdateScheduleCommand.UpdateScheduleCommand.

Module PauseScheduleCommand.
Record PauseScheduleCommand := mk { TenantID : string; ID : string }.
End PauseScheduleCommand.
Notation PauseScheduleCommand := PauseScheduleCommand.PauseScheduleCommand.

Module CancelScheduleCommand.
Record CancelScheduleCommand := mk { TenantID : string; ID : string }.
End CancelScheduleCommand.
Notation CancelScheduleCommand := CancelScheduleCommand.CancelScheduleCommand.

Module ResumeScheduleCommand.
Record ResumeScheduleCommand := mk { TenantID : string; ID : string }.
End ResumeScheduleCommand.
Notation ResumeScheduleCommand := ResumeScheduleCommand.ResumeScheduleCommand.

Module ClaimExecutionCommand.
Record ClaimExecutionCommand := mk {
  ID : string;
  TenantID : string;
  ScheduleID : string;
  ScheduledFor : Time;
  OwnerNodeID : string
}.
End ClaimExecutionCommand.
Notation ClaimExecutionCommand := ClaimExecutionCommand.ClaimExecutionCommand.

Module AdoptExecutionCommand.
Record AdoptExecutionCommand := mk {
  TenantID : string;
  ExecutionID : string;
  PreviousOwner : string;
  NewOwner : string
}.
End AdoptExecutionCommand.
Notation AdoptExecutionCommand := AdoptExecutionCommand.AdoptExecutionCommand.

Module RecordAttemptCommand.
Record RecordAttemptCommand := mk {
  TenantID : string;
  ExecutionID : string;
  ID : string;
  NodeID : string;
  StartedAt : option Time;
  CompletedAt : option Time;
  Outcome : string;
  RetryAt : option Time;
  RequestURL : string;
  RequestHeaders : gmap string string;
  RequestBodyHash : string;
  ResponseStatus : Z;
  ResponseBodyExcerpt : string;
  ResponseHeaders : gmap string string
}.
End RecordAttemptCommand.
Notation RecordAttemptCommand := RecordAttemptCommand.RecordAttemptCommand.

Module CompleteExecutionCommand.
Record CompleteExecutionCommand := mk {
  TenantID : string;
  ExecutionID : string;
  FinalStatus : string;
  FinalOutcome : string;
  NextRunAt : option Time
}.
End CompleteExecutionCommand.
Notation CompleteExecutionCommand := CompleteExecutionCommand.CompleteExecutionCommand.

Module FailExecutionTimeoutCommand.
Record FailExecutionTimeoutCommand := mk {
  TenantID : string;
  ExecutionID : string;
  FinalOutcome : string
}.
End FailExecutionTimeoutCommand.
Notation FailExecutionTimeoutCommand := FailExecutionTimeoutCommand.FailExecutionTimeoutCommand.

(** ** Rejections *)

Definition verr : string → string → error := cmd_error KindValidation.
Definition conflict : string → string → error := cmd_error KindConflict.
Definition not_found : string → string → error := cmd_error KindNotFound.

(** [&CommandError{Kind: KindStorage, Message: fmt.Sprintf(prefix + "%v", err)}] *)
Definition storage_err (prefix : string) (err : error) : error :=
  cmd_error KindStorage "" (prefix +:+ Error err).

Definition empty (s : string) : bool := bool_decide (s = "").

(** ** Headers *)

(** [sort.Strings] *)
Definition string_le (a b : string) : Prop := ¬ str_lt b a.

#[global] Instance string_le_dec : RelDecision string_le := λ a b, decide (¬ str_lt b a).

Fixpoint join (sep : string) (l : list string) : string :=
  match l with
  | [] => ""
  | [x] => x
  | x :: l' => x +:+ sep +:+ join sep l'
  end.

Definition reserved_in (headers : gmap string string) : list string :=
  filter (λ k, k ∈ ReservedHeaderKeys)
    ((λ kv : string * string, CanonicalMIMEHeaderKey kv.1) <$> map_to_list headers).

Definition validateHeaders (headers : gmap string string) : option error :=
  let reserved := reserved_in headers in
  match reserved with
  | [] => None
  | _ => Some (verr "headers" ("reserved header keys not allowed: ["
                 +:+ join ", " (merge_sort string_le reserved) +:+ "]"))
  end.

(** ** Executions: which statuses are final *)

Definition IsTerminal (s : string) : bool :=
  bool_decide (s = ExecutionStatusSucceeded) || bool_decide (s = ExecutionStatusFailedTerminal)
  || bool_decide (s = ExecutionStatusFailedMaxRetries).

(** [*cmd.CallTimeout < MinCallTimeout || *cmd.CallTimeout > MaxCallTimeout] *)
Definition call_timeout_bad (d : Z) : bool := (d <? MinCallTimeout) || (MaxCallTimeout <? d).

Definition call_timeout_error : error :=
  verr "call_timeout" "call_timeout must be between 1s and 5m0s".

Section apply.
Context `{!Platform} {St : Type} `{!Tx St}.

(** [if err := e; err != nil { return nil, err }] *)
Definition reject_some (e : option error) : M St unit :=
  match e with Some e => fail e | None => mret () end.

(** ** tenant.go *)

Definition ApplyCreateTenant (cmd : CreateTenantCommand) (proposedAt : Time) : M St Tenant :=
  _ ← reject_if (empty cmd.(CreateTenantCommand.ID)) (verr "id" "id is missing");
  _ ← reject_if (empty cmd.(CreateTenantCommand.APIKeyHash))
        (verr "api_key_hash" "api_key_hash is missing");
  existing ← wrap_err (storage_err "read failed: ") (GetTenant cmd.(CreateTenantCommand.ID));
  match existing with
  | Some _ => fail (conflict "id" "tenant with this ID already exists")
  | None =>
      let tenant := Tenant.mk cmd.(CreateTenantCommand.ID) cmd.(CreateTenantCommand.Name)
                      proposedAt cmd.(CreateTenantCommand.APIKeyHash) in
      _ ← wrap_err (storage_err "write failed: ") (PutTenant tenant);
      mret tenant
  end.

(** ** schedule.go *)

Definition ApplyCreateSchedule (cmd : CreateScheduleCommand) (proposedAt : Time) : M St Schedule :=
  _ ← reject_if (empty cmd.(CreateScheduleCommand.TenantID)) (verr "tenant_id" "tenant_id is missing");
  _ ← reject_if (empty cmd.(CreateScheduleCommand.ID)) (verr "id" "id is missing");
  _ ← reject_some (validateHeaders cmd.(CreateScheduleCommand.Headers));
  existing ← wrap_err (storage_err "read failed: ")
               (GetSchedule cmd.(CreateScheduleCommand.TenantID) cmd.(CreateScheduleCommand.ID));
  match existing with
  | Some _ => fail (conflict "id" "schedule with this ID already exists")
  | None =>
      nextRun ← (if bool_decide (cmd.(CreateScheduleCommand.ScheduleType) = ScheduleTypeOnce)
                 then mret (Some cmd.(CreateScheduleCommand.FirstRunAt))
                 else lift (ComputeNextRunOnOrAfter cmd.(CreateScheduleCommand.Recurrence)
                        cmd.(CreateScheduleCommand.Timezone) cmd.(CreateScheduleCommand.FirstRunAt)
                        cmd.(CreateScheduleCommand.FirstRunAt)));
      _ ← match cmd.(CreateScheduleCommand.CallTimeout) with
          | Some d => reject_if (call_timeout_bad d) call_timeout_error
          | None => mret ()
          end;
      let schedule := Schedule.mk CurrentScheduleSchemaVersion
        cmd.(CreateScheduleCommand.ID) cmd.(CreateScheduleCommand.TenantID) proposedAt proposedAt
        cmd.(CreateScheduleCommand.CreatedBy) cmd.(CreateScheduleCommand.CallbackURL)
        cmd.(CreateScheduleCommand.Payload) cmd.(CreateScheduleCommand.Headers)
        cmd.(CreateScheduleCommand.ScheduleType) cmd.(CreateScheduleCommand.FirstRunAt)
        cmd.(CreateScheduleCommand.Recurrence) cmd.(CreateScheduleCommand.Timezone)
        cmd.(CreateScheduleCommand.MaxAttempts) cmd.(CreateScheduleCommand.RetryBackoff)
        cmd.(CreateScheduleCommand.CallTimeout) cmd.(CreateScheduleCommand.CatchUpPolicy)
        ScheduleStatusActive nextRun in
      _ ← wrap_err (storage_err "write failed: ") (PutSchedule schedule);
      mret schedule
  end.

(** [if cmd.F != nil { updated.F = *cmd.F }] *)
Definition set_opt {A} (set : A → Schedule → Schedule) (v : option A) (s : Schedule) : Schedule :=
  match v with Some a => set a s | None => s end.

Definition ApplyUpdateSchedule (cmd : UpdateScheduleCommand) (proposedAt : Time) : M St Schedule :=
  _ ← reject_if (empty cmd.(UpdateScheduleCommand.TenantID)) (verr "tenant_id" "tenant_id is missing");
  _ ← reject_if (empty cmd.(UpdateScheduleCommand.ID)) (verr "id" "id is missing");
  _ ← match cmd.(UpdateScheduleCommand.Headers) with
      | Some h => reject_some (validateHeaders h)
      | None => mret ()
      end;
  existing ← wrap_err (storage_err "Getting prexisiting row failed: ")
               (GetSchedule cmd.(UpdateScheduleCommand.TenantID) cmd.(UpdateScheduleCommand.ID));
  match existing with
  | None => fail (not_found "id" "schedule not found")
  | Some existing =>
      _ ← reject_if (bool_decide (existing.(Schedule.Status) = ScheduleStatusCanceled))
            (conflict "status" "you cannot modify a canceled schedule");
      let updated := set_opt Schedule.set_CallbackURL cmd.(UpdateScheduleCommand.CallbackURL) existing in
      let updated := set_opt Schedule.set_Headers cmd.(UpdateScheduleCommand.Headers) updated in
      let updated := set_opt Schedule.set_Payload cmd.(UpdateScheduleCommand.Payload) updated in
      let updated := set_opt Schedule.set_RetryBackoff cmd.(UpdateScheduleCommand.RetryBackoff) updated in
      let updated := set_opt Schedule.set_MaxAttempts cmd.(UpdateScheduleCommand.MaxAttempts) updated in
      updated ← match cmd.(UpdateScheduleCommand.CallTimeout) with
                | None => mret updated
                | Some d =>
                    if d =? 0 then mret (Schedule.set_CallTimeout None updated)
                    else if call_timeout_bad d then fail call_timeout_error
                    else mret (Schedule.set_CallTimeout (Some d) updated)
                end;
      let updated := Schedule.set_UpdatedAt proposedAt updated in
      _ ← wrap_err (storage_err "update failed: ") (PutSchedule updated);
      mret updated
  end.

Definition ApplyPauseSchedule (cmd : PauseScheduleCommand) (proposedAt : Time) : M St Schedule :=
  _ ← reject_if (empty cmd.(PauseScheduleCommand.TenantID)) (verr "tenant_id" "tenant_id is missing");
  _ ← reject_if (empty cmd.(PauseScheduleCommand.ID)) (verr "id" "id is missing");
  existing ← wrap_err (storage_err "Getting preexisiting row failed: ")
               (GetSchedule cmd.(PauseScheduleCommand.TenantID) cmd.(PauseScheduleCommand.ID));
  match existing with
  | None => fail (not_found "id" "schedule not found")
  | Some existing =>
      if bool_decide (existing.(Schedule.Status) = ScheduleStatusPaused) then mret existing else
      _ ← reject_if (bool_decide (existing.(Schedule.Status) = ScheduleStatusCanceled))
            (conflict "status" "you cannot pause a canceled schedule");
      _ ← reject_if (bool_decide (existing.(Schedule.Status) = ScheduleStatusCompleted))
            (conflict "status" "you cannot pause a completed schedule");
      let updated := Schedule.set_Status ScheduleStatusPaused existing in
      let updated := Schedule.set_NextRunAt None updated in
      let updated := Schedule.set_UpdatedAt proposedAt updated in
      _ ← wrap_err (storage_err "pause: put schedule failed: ") (PutSchedule updated);
      mret updated
  end.

Definition ApplyCancelSchedule (cmd : CancelScheduleCommand) (proposedAt : Time) : M St Schedule :=
  _ ← reject_if (empty cmd.(CancelScheduleCommand.TenantID)) (verr "tenant_id" "tenant_id is missing");
  _ ← reject_if (empty cmd.(CancelScheduleCommand.ID)) (verr "id" "id is missing");
  existing ← wrap_err (storage_err "Getting preexisiting row failed: ")
               (GetSchedule cmd.(CancelScheduleCommand.TenantID) cmd.(CancelScheduleCommand.ID));
  match existing with
  | None => fail (not_found "id" "schedule not found")
  | Some existing =>
      if bool_decide (existing.(Schedule.Status) = ScheduleStatusCanceled) then mret existing else
      if bool_decide (existing.(Schedule.Status) = ScheduleStatusCompleted) then mret existing else
      let updated := Schedule.set_Status ScheduleStatusCanceled existing in
      let updated := Schedule.set_NextRunAt None updated in
      let updated := Schedule.set_UpdatedAt proposedAt updated in
      _ ← wrap_err (storage_err "schedule canceled: ") (PutSchedule updated);
      mret updated
  end.

(** The callback of [findMostRecentTerminalExecution]. *)
Definition more_recent (mostRecent : option Execution) (e : Execution)
    : option Execution * option error :=
  if negb (IsTerminal e.(Execution.Status)) then (mostRecent, None) else
  match mostRecent with
  | None => (Some e, None)
  | Some r => if After e.(Execution.ScheduledFor) r.(Execution.ScheduledFor)
              then (Some e, None) else (mostRecent, None)
  end.

(** [err := f(...); if err != nil { return nil, err }] for an iteration. *)
Definition check_iter {A} (m : M St (A * option error)) : M St A :=
  r ← m; match r with (_, Some e) => fail e | (a, None) => mret a end.

Definition findMostRecentTerminalExecution (tenantID scheduleID : string) : M St (option Execution) :=
  check_iter (ListExecutionsBySchedule tenantID scheduleID more_recent None).

Definition resume_next_run (existing : Schedule) (anchor : option Execution) (proposedAt : Time)
    : result (option Time) :=
  let rec := existing.(Schedule.Recurrence) in
  let tz := existing.(Schedule.Timezone) in
  let firstRunAt := existing.(Schedule.FirstRunAt) in
  if bool_decide (existing.(Schedule.CatchUpPolicy) = CatchUpPolicyAll) then
    match anchor with
    | None => ComputeNextRunOnOrAfter rec tz firstRunAt firstRunAt
    | Some a => ComputeNextRunAfter rec tz firstRunAt a.(Execution.ScheduledFor)
    end
  else if bool_decide (existing.(Schedule.CatchUpPolicy) = CatchUpPolicyLatestOnly) then
    nextRun ← ComputeLatestRunOnOrBefore rec tz firstRunAt proposedAt;
    Ok (match nextRun with None => Some firstRunAt | Some t => Some t end)
  else if bool_decide (existing.(Schedule.CatchUpPolicy) = CatchUpPolicySkipMissed) then
    ComputeNextRunAfter rec tz firstRunAt proposedAt
  else Ok None.

Definition ApplyResumeSchedule (cmd : ResumeScheduleCommand) (proposedAt : Time) : M St Schedule :=
  _ ← reject_if (empty cmd.(ResumeScheduleCommand.TenantID)) (verr "tenant_id" "tenant_id is missing");
  _ ← reject_if (empty cmd.(ResumeScheduleCommand.ID)) (verr "id" "id is missing");
  existing ← wrap_err (storage_err "Getting preexisiting row failed: ")
               (GetSchedule cmd.(ResumeScheduleCommand.TenantID) cmd.(ResumeScheduleCommand.ID));
  match existing with
  | None => fail (not_found "id" "schedule not found")
  | Some existing =>
      if bool_decide (existing.(Schedule.Status) = ScheduleStatusActive) then mret existing else
      _ ← reject_if (bool_decide (existing.(Schedule.Status) = ScheduleStatusCanceled))
            (conflict "status" "you cannot resume a canceled schedule");
      _ ← reject_if (bool_decide (existing.(Schedule.Status) = ScheduleStatusCompleted))
            (conflict "status" "you cannot resume a completed schedule");
      nextRun ←
        (if bool_decide (existing.(Schedule.ScheduleType) = ScheduleTypeOnce)
         then mret (Some existing.(Schedule.FirstRunAt))
         else
           anchor ← wrap_err (storage_err "Could not find the most recent terminal execution: ")
                      (findMostRecentTerminalExecution existing.(Schedule.TenantID) existing.(Schedule.ID));
           lift (resume_next_run existing anchor proposedAt));
      let updated := Schedule.set_NextRunAt nextRun existing in
      let updated := Schedule.set_Status ScheduleStatusActive updated in
      let updated := Schedule.set_UpdatedAt proposedAt updated in
      _ ← wrap_err (storage_err "resume: put schedule failed: ") (PutSchedule updated);
      mret updated
  end.

(** ** execution.go *)

(** The callback of [ApplyClaimExecution]: stop at the first execution of the
    same slot. *)
Definition find_collision (scheduledFor : Time) (existing : option Execution) (ex : Execution)
    : option Execution * option error :=
  if Equal ex.(Execution.ScheduledFor) scheduledFor then (Some ex, Some EFoundCollision)
  else (existing, None).

Definition claim_conflict (existing : Execution) : error :=
  ECommand (CommandError.mk KindConflict
    "an execution already exists for this schedule at scheduled_for" "scheduled_for"
    {[ "existing_execution_id" := existing.(Execution.ID) ]}).

Definition ApplyClaimExecution (cmd : ClaimExecutionCommand) (proposedAt : Time) : M St Execution :=
  _ ← reject_if (empty cmd.(ClaimExecutionCommand.TenantID)) (verr "tenant_id" "tenant_id is missing");
  _ ← reject_if (empty cmd.(ClaimExecutionCommand.ScheduleID)) (verr "schedule_id" "schedule_id is missing");
  _ ← reject_if (empty cmd.(ClaimExecutionCommand.ID)) (verr "id" "id is missing");
  _ ← reject_if (IsZero cmd.(ClaimExecutionCommand.ScheduledFor)) (verr "scheduled_for" "scheduled_for is zero");
  _ ← reject_if (empty cmd.(ClaimExecutionCommand.OwnerNodeID)) (verr "owner_node_id" "owner_node_id is missing");
  r ← ListExecutionsBySchedule cmd.(ClaimExecutionCommand.TenantID) cmd.(ClaimExecutionCommand.ScheduleID)
        (find_collision cmd.(ClaimExecutionCommand.ScheduledFor)) None;
  let '(existing, err) := r in
  _ ← match err with
      | Some e => reject_if (negb (isFoundCollision e)) (storage_err "list executions failed: " e)
      | None => mret ()
      end;
  match existing with
  | Some existing => fail (claim_conflict existing)
  | None =>
      let ex := Execution.mk CurrentExecutionSchemaVersion
        cmd.(ClaimExecutionCommand.ID) cmd.(ClaimExecutionCommand.TenantID)
        cmd.(ClaimExecutionCommand.ScheduleID) cmd.(ClaimExecutionCommand.ScheduledFor)
        (DeriveIdempotencyKey cmd.(ClaimExecutionCommand.ScheduleID)
           cmd.(ClaimExecutionCommand.ScheduledFor))
        cmd.(ClaimExecutionCommand.OwnerNodeID) (Some proposedAt) ExecutionStatusInFlight
        None None 0 "" None "" in
      _ ← wrap_err (storage_err "write failed: ") (PutExecution ex);
      mret ex
  end.

Definition ApplyAdoptExecution (cmd : AdoptExecutionCommand) (proposedAt : Time) : M St Execution :=
  _ ← reject_if (empty cmd.(AdoptExecutionCommand.TenantID)) (verr "tenant_id" "tenant_id is missing");
  _ ← reject_if (empty cmd.(AdoptExecutionCommand.ExecutionID)) (verr "execution_id" "execution_id is missing");
  _ ← reject_if (empty cmd.(AdoptExecutionCommand.PreviousOwner)) (verr "current_owner" "current_owner is missing");
  _ ← reject_if (empty cmd.(AdoptExecutionCommand.NewOwner)) (verr "new_owner" "new_owner is missing");
  _ ← reject_if (bool_decide (cmd.(AdoptExecutionCommand.NewOwner) = cmd.(AdoptExecutionCommand.PreviousOwner)))
        (verr "new_owner" "new_owner is the same as current owner");
  exec ← wrap_err (storage_err "get execution failed: ")
           (GetExecution cmd.(AdoptExecutionCommand.TenantID) cmd.(AdoptExecutionCommand.ExecutionID));
  match exec with
  | None => fail (not_found "" "no execution exists")
  | Some exec =>
      _ ← reject_if (bool_decide (exec.(Execution.Status) ≠ ExecutionStatusInFlight))
            (conflict "status" "status must be in flight");
      _ ← reject_if (bool_decide (exec.(Execution.OwnerNodeID) ≠ cmd.(AdoptExecutionCommand.PreviousOwner)))
            (conflict "owner_node_id" "owner node mismatch");
      let updated := Execution.set_OwnerNodeID cmd.(AdoptExecutionCommand.NewOwner) exec in
      _ ← wrap_err (storage_err "write failed: ") (PutExecution updated);
      mret updated
  end.

(** [if p == nil {...}; if p.IsZero() {...}] *)
Definition require_time (p : option Time) (field nil_msg zero_msg : string) : M St unit :=
  match p with
  | None => fail (verr field nil_msg)
  | Some t => reject_if (IsZero t) (verr field zero_msg)
  end.

Definition ApplyRecordAttempt (cmd : RecordAttemptCommand) (proposedAt : Time) : M St Attempt :=
  _ ← reject_if (empty cmd.(RecordAttemptCommand.TenantID)) (verr "tenant_id" "tenant_id is missing");
  _ ← reject_if (empty cmd.(RecordAttemptCommand.ExecutionID)) (verr "execution_id" "execution_id is missing");
  _ ← reject_if (empty cmd.(RecordAttemptCommand.ID)) (verr "id" "id is missing");
  _ ← reject_if (empty cmd.(RecordAttemptCommand.NodeID)) (verr "node_id" "node_id is missing");
  _ ← reject_if (empty cmd.(RecordAttemptCommand.Outcome)) (verr "outcome" "outcome is missing");
  _ ← require_time cmd.(RecordAttemptCommand.StartedAt) "started_at"
        "started_at is missing" "started_at is zero";
  _ ← require_time cmd.(RecordAttemptCommand.CompletedAt) "completed_at"
        "completed_at is missing" "completed_at is zero";
  _ ← reject_if (empty cmd.(RecordAttemptCommand.RequestURL)) (verr "request_url" "request_url is missing");
  _ ← reject_if (bool_decide (cmd.(RecordAttemptCommand.Outcome) = OutcomeSuccess)
                 && (cmd.(RecordAttemptCommand.ResponseStatus) =? 0))
        (verr "response_status" "response_status is missing");
  exec ← wrap_err (storage_err "get execution failed: ")
           (GetExecution cmd.(RecordAttemptCommand.TenantID) cmd.(RecordAttemptCommand.ExecutionID));
  match exec with
  | None => fail (not_found "" "no execution exists")
  | Some exec =>
      _ ← reject_if (bool_decide (exec.(Execution.Status) ≠ ExecutionStatusInFlight))
            (conflict "status" "status must be in flight");
      _ ← reject_if (bool_decide (exec.(Execution.OwnerNodeID) ≠ cmd.(RecordAttemptCommand.NodeID)))
            (conflict "owner_node_id" "owner node mismatch");
      let attempt := Attempt.mk CurrentAttemptSchemaVersion
        cmd.(RecordAttemptCommand.ID) cmd.(RecordAttemptCommand.TenantID)
        cmd.(RecordAttemptCommand.ExecutionID) cmd.(RecordAttemptCommand.NodeID)
        (wrap64 (exec.(Execution.AttemptCount) + 1))
        cmd.(RecordAttemptCommand.StartedAt) cmd.(RecordAttemptCommand.CompletedAt)
        cmd.(RecordAttemptCommand.RequestURL) cmd.(RecordAttemptCommand.RequestHeaders)
        cmd.(RecordAttemptCommand.RequestBodyHash) cmd.(RecordAttemptCommand.ResponseStatus)
        cmd.(RecordAttemptCommand.ResponseBodyExcerpt) cmd.(RecordAttemptCommand.ResponseHeaders)
        cmd.(RecordAttemptCommand.Outcome) zeroTime in
      let attempt := match cmd.(RecordAttemptCommand.RetryAt) with
                     | Some t => Attempt.set_RetryAt t attempt
                     | None => attempt
                     end in
      _ ← wrap_err (storage_err "write failed: ") (PutAttempt attempt);
      let updated := Execution.set_AttemptCount (wrap64 (exec.(Execution.AttemptCount) + 1)) exec in
      let updated := Execution.set_LastAttemptID attempt.(Attempt.ID) updated in
      let updated := Execution.set_LastRetryAt cmd.(RecordAttemptCommand.RetryAt) updated in
      _ ← wrap_err (storage_err "write failed: ") (PutExecution updated);
      mret attempt
  end.

(** Finalising an execution: status, outcome, completion time, no owner. *)
Definition finalized (exec : Execution) (status outcome : string) (proposedAt : Time) : Execution :=
  let updated := Execution.set_Status status exec in
  let updated := Execution.set_FinalOutcome outcome updated in
  let updated := Execution.set_CompletedAt (Some proposedAt) updated in
  Execution.set_OwnerNodeID "" updated.

(** What both finalisers do to the execution's schedule. *)
Definition advance_schedule (schedule : Schedule) (exec : Execution) (msg : string) : M St Schedule :=
  if bool_decide (schedule.(Schedule.ScheduleType) = ScheduleTypeRecurring) then
    if bool_decide (schedule.(Schedule.Status) = ScheduleStatusActive) then
      nextRunAt ← wrap_err (λ _, verr "recurrence" msg)
        (lift (ComputeNextRunAfter schedule.(Schedule.Recurrence) "UTC"
                 schedule.(Schedule.FirstRunAt) exec.(Execution.ScheduledFor)));
      mret (Schedule.set_NextRunAt nextRunAt schedule)
    else mret schedule
  else mret (Schedule.set_NextRunAt None (Schedule.set_Status ScheduleStatusCompleted schedule)).

Definition ApplyCompleteExecution (cmd : CompleteExecutionCommand) (proposedAt : Time) : M St Execution :=
  _ ← reject_if (empty cmd.(CompleteExecutionCommand.TenantID)) (verr "tenant_id" "tenant_id is missing");
  _ ← reject_if (empty cmd.(CompleteExecutionCommand.ExecutionID)) (verr "execution_id" "execution_id is missing");
  _ ← reject_if (empty cmd.(CompleteExecutionCommand.FinalStatus)) (verr "final_status" "final_status is missing");
  _ ← reject_if (empty cmd.(CompleteExecutionCommand.FinalOutcome)) (verr "final_outcome" "final_outcome is missing");
  _ ← reject_if (negb (IsTerminal cmd.(CompleteExecutionCommand.FinalStatus)))
        (verr "status" "final_status must be terminal");
  exec ← wrap_err (storage_err "get execution failed: ")
           (GetExecution cmd.(CompleteExecutionCommand.TenantID) cmd.(CompleteExecutionCommand.ExecutionID));
  match exec with
  | None => fail (not_found "" "no execution exists")
  | Some exec =>
      _ ← reject_if (IsTerminal exec.(Execution.Status)) (conflict "status" "execution is already terminal");
      let updated := finalized exec cmd.(CompleteExecutionCommand.FinalStatus)
                       cmd.(CompleteExecutionCommand.FinalOutcome) proposedAt in
      _ ← wrap_err (storage_err "write failed: ") (PutExecution updated);
      schedule ← wrap_err (storage_err "get schedule failed: ")
                   (GetSchedule cmd.(CompleteExecutionCommand.TenantID) exec.(Execution.ScheduleID));
      match schedule with
      | None => fail (not_found "" "no schedule exists")
      | Some schedule =>
          newSchedule ← advance_schedule schedule exec "next run at could now be found";
          _ ← wrap_err (storage_err "write failed: ") (PutSchedule newSchedule);
          mret updated
      end
  end.

Definition ApplyFailExecutionTimeout (cmd : FailExecutionTimeoutCommand) (proposedAt : Time)
    : M St Execution :=
  _ ← reject_if (empty cmd.(FailExecutionTimeoutCommand.TenantID)) (verr "tenant_id" "tenant_id is missing");
  _ ← reject_if (empty cmd.(FailExecutionTimeoutCommand.ExecutionID)) (verr "execution_id" "execution_id is missing");
  _ ← reject_if (empty cmd.(FailExecutionTimeoutCommand.FinalOutcome)) (verr "final_outcome" "final_outcome is missing");
  exec ← wrap_err (storage_err "get execution failed: ")
           (GetExecution cmd.(FailExecutionTimeoutCommand.TenantID) cmd.(FailExecutionTimeoutCommand.ExecutionID));
  match exec with
  | None => fail (not_found "" "no execution exists")
  | Some exec =>
      _ ← reject_if (IsTerminal exec.(Execution.Status)) (conflict "status" "execution is already terminal");
      let updated := finalized exec ExecutionStatusFailedMaxRetries
                       cmd.(FailExecutionTimeoutCommand.FinalOutcome) proposedAt in
      _ ← wrap_err (storage_err "write failed: ") (PutExecution updated);
      schedule ← wrap_err (storage_err "get schedule failed: ")
                   (GetSchedule cmd.(FailExecutionTimeoutCommand.TenantID) exec.(Execution.ScheduleID));
      match schedule with
      | None => fail (not_found "" "no schedule exists")
      | Some schedule =>
          newSchedule ← advance_schedule schedule exec "next run at could not be found";
          _ ← wrap_err (storage_err "write failed: ") (PutSchedule newSchedule);
          mret updated
      end
  end.
End apply.
