(* ===== verification/Dispatch.v ===== *)
(** * Dispatch: src/internal/command/command.go

    The log entry and the switch that decodes its payload and runs the handler
    of its type.  The payload bytes and their decoding are encoding/json's. *)

From S2P Require Import Prelude Go GoTime Model Storage Command.

(** A decoded command, one constructor for each type string. *)
Inductive command :=
| create_tenant (c : CreateTenantCommand)
| create_schedule (c : CreateScheduleCommand)
| update_schedule (c : UpdateScheduleCommand)
| pause_schedule (c : PauseScheduleCommand)
| cancel_schedule (c : CancelScheduleCommand)
| resume_schedule (c : ResumeScheduleCommand)
| claim_execution (c : ClaimExecutionCommand)
| adopt_execution (c : AdoptExecutionCommand)
| record_attempt (c : RecordAttemptCommand)
| complete_execution (c : CompleteExecutionCommand)
| fail_execution_timeout (c : FailExecutionTimeoutCommand).

(** The type string a command is proposed under. *)
Definition command_type (c : command) : string :=
  match c with
  | create_tenant _ => "create_tenant"
  | create_schedule _ => "create_schedule"
  | update_schedule _ => "update_schedule"
  | pause_schedule _ => "pause_schedule"
  | cancel_schedule _ => "cancel_schedule"
  | resume_schedule _ => "resume_schedule"
  | claim_execution _ => "claim_execution"
  | adopt_execution _ => "adopt_execution"
  | record_attempt _ => "record_attempt"
  | complete_execution _ => "complete_execution"
  | fail_execution_timeout _ => "fail_execution_timeout"
  end.

(** What [Dispatch] returns as [any], and the rejection [Apply] may return. *)
Inductive reply :=
| RTenant (t : Tenant)
| RSchedule (s : Schedule)
| RExecution (e : Execution)
| RAttempt (a : Attempt)
| RRejected (c : CommandError).

(** [json.Unmarshal(payload, &cmd)] for each command struct, and the decoding
    of the log entry around it. *)
Class CommandCodec := {
  RawMessage : Type;
  decode_CreateTenant : RawMessage → result CreateTenantCommand;
  decode_CreateSchedule : RawMessage → result CreateScheduleCommand;
  decode_UpdateSchedule : RawMessage → result UpdateScheduleCommand;
  decode_PauseSchedule : RawMessage → result PauseScheduleCommand;
  decode_CancelSchedule : RawMessage → result CancelScheduleCommand;
  decode_ResumeSchedule : RawMessage → result ResumeScheduleCommand;
  decode_ClaimExecution : RawMessage → result ClaimExecutionCommand;
  decode_AdoptExecution : RawMessage → result AdoptExecutionCommand;
  decode_RecordAttempt : RawMessage → result RecordAttemptCommand;
  decode_CompleteExecution : RawMessage → result CompleteExecutionCommand;
  decode_FailExecutionTimeout : RawMessage → result FailExecutionTimeoutCommand
}.

(** [%q] of a type without quotes, backslashes or control characters; the text
    only ends up in the message of a panic. *)
Definition unknown_type (cmdType : string) : error :=
  EText ("unknown log entry type: " +:+ RecurrenceCalc.quote +:+ cmdType +:+ RecurrenceCalc.quote).

Section dispatch.
Context `{!Platform, !CommandCodec} {St : Type} `{!Tx St}.

(** The handler of a decoded command. *)
Definition run_command (c : command) (proposedAt : Time) : M St reply :=
  match c with
  | create_tenant c => t ← ApplyCreateTenant c proposedAt; mret (RTenant t)
  | create_schedule c => s ← ApplyCreateSchedule c proposedAt; mret (RSchedule s)
  | update_schedule c => s ← ApplyUpdateSchedule c proposedAt; mret (RSchedule s)
  | pause_schedule c => s ← ApplyPauseSchedule c proposedAt; mret (RSchedule s)
  | cancel_schedule c => s ← ApplyCancelSchedule c proposedAt; mret (RSchedule s)
  | resume_schedule c => s ← ApplyResumeSchedule c proposedAt; mret (RSchedule s)
  | claim_execution c => e ← ApplyClaimExecution c proposedAt; mret (RExecution e)
  | adopt_execution c => e ← ApplyAdoptExecution c proposedAt; mret (RExecution e)
  | record_attempt c => a ← ApplyRecordAttempt c proposedAt; mret (RAttempt a)
  | complete_execution c => e ← ApplyCompleteExecution c proposedAt; mret (RExecution e)
  | fail_execution_timeout c => e ← ApplyFailExecutionTimeout c proposedAt; mret (RExecution e)
  end.

(** The switch on the type string with its [json.Unmarshal]. *)
Definition decode_command (cmdType : string) (payload : RawMessage) : result command :=
  if bool_decide (cmdType = "create_tenant") then create_tenant <$> decode_CreateTenant payload
  else if bool_decide (cmdType = "create_schedule") then create_schedule <$> decode_CreateSchedule payload
  else if bool_decide (cmdType = "update_schedule") then update_schedule <$> decode_UpdateSchedule payload
  else if bool_decide (cmdType = "pause_schedule") then pause_schedule <$> decode_PauseSchedule payload
  else if bool_decide (cmdType = "cancel_schedule") then cancel_schedule <$> decode_CancelSchedule payload
  else if bool_decide (cmdType = "resume_schedule") then resume_schedule <$> decode_ResumeSchedule payload
  else if bool_decide (cmdType = "claim_execution") then claim_execution <$> decode_ClaimExecution payload
  else if bool_decide (cmdType = "adopt_execution") then adopt_execution <$> decode_AdoptExecution payload
  else if bool_decide (cmdType = "record_attempt") then record_attempt <$> decode_RecordAttempt payload
  else if bool_decide (cmdType = "complete_execution") then
    complete_execution <$> decode_CompleteExecution payload
  else if bool_decide (cmdType = "fail_execution_timeout") then
    fail_execution_timeout <$> decode_FailExecutionTimeout payload
  else Err (unknown_type cmdType).

Definition Dispatch (cmdType : string) (payload : RawMessage) (proposedAt : Time) : M St reply :=
  c ← lift (decode_command cmdType payload);
  run_command c proposedAt.
End dispatch.

(** A payload that remembers the command it encodes. *)
Definition decode_as {A} (f : command → option A) (p : command) : result A :=
  match f p with
  | Some a => Ok a
  | None => Err (EText "json: cannot unmarshal command")
  end.

#[export] Instance plain_commands : CommandCodec := {|
  RawMessage := command;
  decode_CreateTenant := decode_as (λ c, match c with create_tenant c => Some c | _ => None end);
  decode_CreateSchedule := decode_as (λ c, match c with create_schedule c => Some c | _ => None end);
  decode_UpdateSchedule := decode_as (λ c, match c with update_schedule c => Some c | _ => None end);
  decode_PauseSchedule := decode_as (λ c, match c with pause_schedule c => Some c | _ => None end);
  decode_CancelSchedule := decode_as (λ c, match c with cancel_schedule c => Some c | _ => None end);
  decode_ResumeSchedule := decode_as (λ c, match c with resume_schedule c => Some c | _ => None end);
  decode_ClaimExecution := decode_as (λ c, match c with claim_execution c => Some c | _ => None end);
  decode_AdoptExecution := decode_as (λ c, match c with adopt_execution c => Some c | _ => None end);
  decode_RecordAttempt := decode_as (λ c, match c with record_attempt c => Some c | _ => None end);
  decode_CompleteExecution := decode_as (λ c, match c with complete_execution c => Some c | _ => None end);
  decode_FailExecutionTimeout :=
    decode_as (λ c, match c with fail_execution_timeout c => Some c | _ => None end)
|}.
