(* ===== verification/StateMachine.v ===== *)
(** * StateMachine: src/internal/statemachine/statemachine.go

    The replicated state machine.  Open bbolt databases are handles: the state
    machine holds one, the Raft node keeps the one it was given at start-up,
    and [Restore] closes the first and opens another. *)

From S2P Require Import Prelude Go GoTime Model Bolt Json Storage Command Dispatch.

Section statemachine.
Context `{!Platform, !CommandCodec, !Bolt, !Json}.

(** [command.LogEntry] *)
Record LogEntry := mkLogEntry { Type_ : string; ProposedAt : Time; Payload : RawMessage }.

(** [json.Unmarshal(log.Data, &envelope)]: the entry, or why it is no entry. *)
Definition LogData : Type := result LogEntry.

(** ** Handles *)

Definition handle : Type := nat.

(** The open databases; a handle that is not in the map has been closed. *)
Record World := mkWorld { open_dbs : gmap handle DB; fresh : handle }.

Record StateMachine := mkStateMachine { sm_storage : handle; sm_db : handle }.

Definition not_open : error := EText "database not open".

(** [storage.Update] and [storage.View] through a handle. *)
Definition handle_Update {A} (h : handle) (fn : M DB A) (w : World) : result A * World :=
  match open_dbs w !! h with
  | None => (Err not_open, w)
  | Some d => let '(r, d') := Update fn d in (r, mkWorld (<[h := d']> (open_dbs w)) (fresh w))
  end.

Definition handle_View {A} (h : handle) (fn : M DB A) (w : World) : result A :=
  match open_dbs w !! h with
  | None => Err not_open
  | Some d => View fn d
  end.

(** ** Apply *)

(** What [Apply] makes of the transaction's outcome: a rejection is a value,
    any other error a panic. *)
Definition apply_outcome (r : result reply) : result reply :=
  match r with
  | Ok v => Ok v
  | Err e => match asCommandErrorChain e with
             | Some c => Ok (RRejected c)
             | None => Panic (Error e)
             end
  | Panic p => Panic p
  end.

Definition Apply (sm : StateMachine) (log : LogData) (w : World) : result reply * World :=
  match log with
  | Ok envelope =>
      let '(r, w') := handle_Update (sm_storage sm)
        (Dispatch (Type_ envelope) (Payload envelope) (ProposedAt envelope)) w in
      (apply_outcome r, w')
  | Err e => (Panic (Error e), w)
  | Panic p => (Panic p, w)
  end.

(** The same on the store itself, when the handle is open. *)
Definition apply_db {St} `{!Tx St} (log : LogData) (d : St) : result reply * St :=
  match log with
  | Ok envelope =>
      let '(r, d') := Update (Dispatch (Type_ envelope) (Payload envelope) (ProposedAt envelope)) d in
      (apply_outcome r, d')
  | Err e => (Panic (Error e), d)
  | Panic p => (Panic p, d)
  end.

(** The same when bbolt's commit answers [commit_err]. *)
Definition apply_commit {St} `{!Tx St} (commit_err : option error) (log : LogData) (d : St)
    : result reply * St :=
  match log with
  | Ok envelope =>
      let '(r, d') := Update_commit commit_err
        (Dispatch (Type_ envelope) (Payload envelope) (ProposedAt envelope)) d in
      (apply_outcome r, d')
  | Err e => (Panic (Error e), d)
  | Panic p => (Panic p, d)
  end.

(** A replica applies its log in order; a panic ends the process. *)
Fixpoint replay {St} `{!Tx St} (l : list LogData) (d : St) : result (list reply) * St :=
  match l with
  | [] => (Ok [], d)
  | e :: l' =>
      match apply_db e d with
      | (Ok r, d') =>
          let '(rs, d'') := replay l' d' in
          ((λ rs, r :: rs) <$> rs, d'')
      | (Err x, d') => (Err x, d')
      | (Panic p, d') => (Panic p, d')
      end
  end.

(** ** Snapshots *)

(** A snapshot is a read transaction: the contents at the time it began. *)
Definition Snapshot (sm : StateMachine) (w : World) : result DB :=
  match open_dbs w !! sm_db sm with
  | Some d => Ok d
  | None => Err not_open
  end.

(** [FSMSnapshot.Persist]: [tx.WriteTo(sink)] may fail, and so may closing the
    sink; a failed write cancels it. *)
Definition Persist (snap : DB) (write_err close_err : option error) : result DB :=
  match write_err with
  | Some e => Err e
  | None => match close_err with Some e => Err e | None => Ok snap end
  end.

(** What the file system answers during [Restore], call by call. *)
Record RestoreIO := mkRestoreIO {
  close_db_err : option error;
  open_file_err : option error;
  copy_err : option error;
  close_file_err : option error;
  bolt_open_err : option error
}.

Definition io_ok : RestoreIO := mkRestoreIO None None None None None.

(** [Restore]: close the database, overwrite its file with the snapshot, and
    open it again under a new handle. *)
Definition Restore (sm : StateMachine) (snap : DB) (io : RestoreIO) (w : World)
    : result StateMachine * World :=
  match close_db_err io with
  | Some e => (Err e, w)
  | None =>
      let w1 := mkWorld (delete (sm_db sm) (open_dbs w)) (fresh w) in
      match open_file_err io with Some e => (Err e, w1) | None =>
      match copy_err io with Some e => (Err e, w1) | None =>
      match close_file_err io with Some e => (Err e, w1) | None =>
      match bolt_open_err io with Some e => (Err e, w1) | None =>
        let h := fresh w in
        (Ok (mkStateMachine h h), mkWorld (<[h := snap]> (open_dbs w1)) (S h))
      end end end end
  end.

(** [New]: one handle, shared by [storage] and [db]. *)
Definition New (io : OpenIO) (w : World) : result StateMachine * World :=
  match storage_New io with
  | Ok d => let h := fresh w in
            (Ok (mkStateMachine h h), mkWorld (<[h := d]> (open_dbs w)) (S h))
  | Err e => (Err e, w)
  | Panic p => (Panic p, w)
  end.

(** [Shutdown] closes the database behind [storage]. *)
Definition sm_Shutdown (sm : StateMachine) (close_err : option error) (w : World)
    : option error * World :=
  match close_err with
  | Some e => (Some e, w)
  | None => (None, mkWorld (delete (sm_storage sm) (open_dbs w)) (fresh w))
  end.
End statemachine.
