(* ===== verification/RaftNode.v ===== *)
(** * RaftNode: src/internal/raftnode/raftnode.go

    The node's reads and proposals around hashicorp/raft.  What the library
    answers during one call (is this node the leader, the term, the outcome of
    a barrier, of an apply) is the argument [RaftObs].  The node keeps the
    storage handle it was given at start-up, which is not the state machine's
    any more once [Restore] has run. *)

From S2P Require Import Prelude Go GoTime Model Bolt Json Storage Command Dispatch StateMachine.
Open Scope Z_scope.

(** What raft and the clock answer to one call. *)
Record RaftObs := mkObs {
  obs_leader : bool;
  obs_leader_addr : string;
  obs_term : Z;
  obs_barrier : option error;
  obs_now : Time
}.

(** [notifyCh]: the changes of leadership raft has sent and nobody has taken. *)
Record RaftNode := mkRaftNode {
  rn_storage : handle;
  rn_id : string;
  notifyCh : list bool;
  readyTerm : Z
}.

(** One barrier per term: [nil] at once when this term's has succeeded. *)
Definition ensureCaughtUpAsLeader (obs : RaftObs) (rn : RaftNode) : option error * RaftNode :=
  if readyTerm rn =? obs_term obs then (None, rn) else
  match obs_barrier obs with
  | Some e => (Some (ENotCaughtUp (Error e)), rn)
  | None => (None, mkRaftNode (rn_storage rn) (rn_id rn) (notifyCh rn) (obs_term obs))
  end.

Definition failed_on (what : string) (obs : RaftObs) : error :=
  EText ("failed to " +:+ what +:+ " on node " +:+ obs_leader_addr obs).

(** [xs = append(xs, x); return nil], and the callback's error as the result. *)
Definition collect {A} (xs : list A) (x : A) : list A * option error := (xs ++ [x], None).
Definition collected {St A} (m : M St (list A * option error)) : M St (list A) :=
  r ← m; match r with (_, Some e) => fail e | (xs, None) => mret xs end.

Section node.
Context `{!Bolt, !Json}.

(** The shape of every read: leader check, catch up, a read transaction. *)
Definition leader_read {A} (deny : error) (fn : M DB A) (obs : RaftObs) (rn : RaftNode) (w : World)
    : result A * RaftNode :=
  if negb (obs_leader obs) then (Err deny, rn) else
  match ensureCaughtUpAsLeader obs rn with
  | (Some e, rn') => (Err e, rn')
  | (None, rn') => (handle_View (rn_storage rn') fn w, rn')
  end.

Definition rn_GetSchedule (tenantID id : string) (obs : RaftObs) :=
  leader_read (failed_on "GetSchedule" obs) (GetSchedule tenantID id) obs.
Definition rn_ListSchedulesDue (tenantID : string) (obs : RaftObs) :=
  leader_read (failed_on "ListSchedulesDue" obs)
    (collected (ListSchedulesDue tenantID (obs_now obs) collect [])) obs.
Definition rn_GetTenant (tenantID : string) (obs : RaftObs) :=
  leader_read (EText ("not leader; current leader is " +:+ obs_leader_addr obs))
    (GetTenant tenantID) obs.
Definition rn_ListTenants (obs : RaftObs) :=
  leader_read (failed_on "ListTenants" obs) ListTenants obs.
Definition rn_ListTenantsPage (limit : Z) (cursor : string) (obs : RaftObs) :=
  leader_read (failed_on "ListTenantsPage" obs) (ListTenantsPage limit cursor) obs.
Definition rn_GetExecution (tenantID id : string) (obs : RaftObs) :=
  leader_read (failed_on "GetExecution" obs) (GetExecution tenantID id) obs.
Definition rn_GetAttempt (tenantID id : string) (obs : RaftObs) :=
  leader_read (failed_on "GetAttempt" obs) (GetAttempt tenantID id) obs.
Definition rn_ListExecutionsBySchedule (tenantID scheduleID : string) (obs : RaftObs) :=
  leader_read (failed_on "ListExecutionsBySchedule" obs)
    (collected (ListExecutionsBySchedule tenantID scheduleID collect [])) obs.
Definition rn_ListExecutionsBySchedulePage (tenantID scheduleID : string) (limit : Z)
    (cursor : string) (obs : RaftObs) :=
  leader_read (failed_on "ListExecutionsBySchedulePage" obs)
    (ListExecutionsBySchedulePage tenantID scheduleID limit cursor) obs.
Definition rn_ListExecutionsByStatus (tenantID status : string) (obs : RaftObs) :=
  leader_read (failed_on "ListExecutionsByStatus" obs)
    (collected (ListExecutionsByStatus tenantID status collect [])) obs.
Definition rn_ListExecutionsByStatusPage (tenantID status : string) (limit : Z)
    (cursor : string) (obs : RaftObs) :=
  leader_read (failed_on "ListExecutionsByStatusPage" obs)
    (ListExecutionsByStatusPage tenantID status limit cursor) obs.
Definition rn_ListAttemptsByExecution (tenantID executionID : string) (obs : RaftObs) :=
  leader_read (failed_on "ListAttemptsByExecution" obs)
    (collected (ListAttemptsByExecution tenantID executionID collect [])) obs.
Definition rn_ListAttemptsByExecutionPage (tenantID executionID : string) (limit : Z)
    (cursor : string) (obs : RaftObs) :=
  leader_read (failed_on "ListAttemptsByExecutionPage" obs)
    (ListAttemptsByExecutionPage tenantID executionID limit cursor) obs.

(** ** Proposals *)

(** [Propose]: [payload] is what [json.Marshal(cmd)] gives, [entry_err] the
    error of marshalling the entry, [raft_apply] the future of [raft.Apply]. *)
Definition Propose `{!CommandCodec} (cmdType : string) (payload : result RawMessage)
    (entry_err : option error) (raft_apply : LogEntry → result reply) (obs : RaftObs)
    : result reply :=
  match payload with
  | Err e => Err (EWrap "Error while marshalling command to json: " e)
  | Panic p => Panic p
  | Ok cmdBytes =>
      let logEntry := mkLogEntry cmdType (obs_now obs) cmdBytes in
      match entry_err with
      | Some e => Err (EWrap "Error while marshalling to json " e)
      | None => match raft_apply logEntry with
                | Err e => Err (EWrap "Could not apply " e)
                | r => r
                end
      end
  end.

Definition IsLeader (obs : RaftObs) : bool := obs_leader obs.
Definition ID (rn : RaftNode) : string := rn_id rn.
Definition LeaderAddr (obs : RaftObs) : string := obs_leader_addr obs.
Definition LeadershipCh (rn : RaftNode) : list bool := notifyCh rn.

(** [TransferLeadership] answers what raft's transfer does: [transfer] is its
    future's error. *)
Definition TransferLeadership (transfer : option error) : option error := transfer.

(** ** Start-up and shutdown *)

(** A member of the cluster, always a voter. *)
Record Server := mkServer { ServerID : string; ServerAddress : string }.

(** The configuration [New] bootstraps with: [peers] are the entries of
    [cfg.Peers], in the order [range] gives them. *)
Definition servers (peers : list (string * string)) : list Server :=
  (λ '(nodeID, addr), mkServer nodeID addr) <$> peers.

(** How the calls of [New] end, in order; bootstrapping depends on the servers. *)
Record NewIO := mkNewIO {
  logStore_err : option error;
  stableStore_err : option error;
  snapshotStore_err : option error;
  transport_err : option error;
  newRaft_err : option error;
  BootstrapCluster : list Server → option error
}.

Definition rn_New (nodeID : string) (bootstrap : bool) (peers : list (string * string)) (st : handle)
    (io : NewIO) : result RaftNode :=
  match logStore_err io with Some e => Err (EWrap "Could not create logStore : " e) | None =>
  match stableStore_err io with Some e => Err (EWrap "Could not create stableStore : " e) | None =>
  match snapshotStore_err io with Some e => Err (EWrap "Could not create snapshotStore : " e) | None =>
  match transport_err io with Some e => Err (EWrap "Could not create transport : " e) | None =>
  match newRaft_err io with Some e => Err (EWrap "Could not create raft : " e) | None =>
  match (if bootstrap then BootstrapCluster io (servers peers) else None) with
  | Some e => Err (EWrap "Could not bootstrap the cluster " e)
  | None => Ok (mkRaftNode st nodeID [] 0)
  end end end end end end.

(** [Shutdown] makes all four calls and returns the first error. *)
Definition first_error (errs : list (option error)) : option error :=
  fold_left (λ firstErr e, match firstErr with Some _ => firstErr | None => e end) errs None.

Definition rn_Shutdown (raft_err log_err stable_err transport_err : option error) : option error :=
  first_error [raft_err; log_err; stable_err; transport_err].

(** ** What a read guarantees *)

(** [served rn0 rn h]: the node [rn0] has become [rn] by serving reads of any
    kind; [h] is what raft answered to them, the last one first. *)
Inductive served (rn0 : RaftNode) : RaftNode → list RaftObs → Prop :=
| served_none : served rn0 rn0 []
| served_read rn h A (deny : error) (fn : M DB A) obs w r rn' :
    served rn0 rn h → leader_read deny fn obs rn w = (r, rn') → served rn0 rn' (obs :: h).

(** A barrier of term [term] has succeeded while the node was the leader. *)
Definition barrier_of (term : Z) (obs : RaftObs) : Prop :=
  obs_leader obs = true ∧ obs_term obs = term ∧ obs_barrier obs = None.

Lemma leader_read_node {A} deny (fn : M DB A) obs rn w r rn' :
  leader_read deny fn obs rn w = (r, rn') →
  rn_storage rn' = rn_storage rn
  ∧ (readyTerm rn' = readyTerm rn ∨ barrier_of (readyTerm rn') obs).
Proof.
  unfold leader_read, ensureCaughtUpAsLeader, barrier_of.
  destruct (obs_leader obs); simpl; [|intros [= _ <-]; by auto].
  destruct (readyTerm rn =? obs_term obs); [intros [= _ <-]; by auto|].
  destruct (obs_barrier obs); intros [= _ <-]; simpl; by auto.
Qed.

(** The term a node remembers is one whose barrier it has passed. *)
Lemma served_ready rn0 rn h :
  served rn0 rn h →
  rn_storage rn = rn_storage rn0
  ∧ (readyTerm rn = readyTerm rn0 ∨ Exists (barrier_of (readyTerm rn)) h).
Proof.
  induction 1 as [|rn h A deny fn obs w r rn' _ [IHst IHt] Hread]; [by auto|].
  apply leader_read_node in Hread as [-> Ht]. split; [done|].
  destruct Ht as [->|Ht]; [|by right; left]. destruct IHt; [by left|by right; right].
Qed.

Lemma leader_read_ok {A} deny (fn : M DB A) obs rn w a rn' :
  leader_read deny fn obs rn w = (Ok a, rn') →
  obs_leader obs = true ∧ readyTerm rn' = obs_term obs
  ∧ ∃ d, open_dbs w !! rn_storage rn = Some d ∧ View fn d = Ok a.
Proof.
  unfold leader_read, ensureCaughtUpAsLeader, handle_View. destruct (obs_leader obs); [|done]. simpl.
  destruct (Z.eqb_spec (readyTerm rn) (obs_term obs)) as [Heq|Hne];
    [|destruct (obs_barrier obs); [done|simpl]];
    destruct (open_dbs w !! rn_storage rn) as [d|]; try done; intros [= Hv <-]; eauto 10.
Qed.

Lemma rn_New_ok nodeID bootstrap peers st io rn :
  rn_New nodeID bootstrap peers st io = Ok rn → rn_storage rn = st ∧ readyTerm rn = 0.
Proof. unfold rn_New. intros Hnew. simp_all. Qed.
End node.
