(* ===== verification/Spec.v ===== *)
(** * Spec: what the storage layer promises

    The abstract store: one finite map per kind of row, keyed by tenant and
    identifier, no indexes.  Lists are the rows that satisfy a test, in the
    order of their identifiers.  [specTx] is this store as a second
    implementation of [Tx]; Refinement.v proves that [boltTx] implements it. *)

From S2P Require Import Prelude Go GoTime Model Json Storage.
Open Scope Z_scope.

Record Spec := mkSpec {
  sp_schedules : gmap (string * string) Schedule;
  sp_executions : gmap (string * string) Execution;
  sp_attempts : gmap (string * string) Attempt;
  sp_tenants : gmap string Tenant
}.

Definition emptySpec : Spec := mkSpec ∅ ∅ ∅ ∅.

(** ** Rows in the order of their identifiers *)

Section ordered.
Context {Row : Type} (idOf : Row → string).

Definition id_le (x y : Row) : Prop := ¬ str_lt (idOf y) (idOf x).

#[local] Instance id_le_dec : RelDecision id_le := λ x y, decide (¬ str_lt (idOf y) (idOf x)).

Definition sorted_rows (l : list Row) : list Row := merge_sort id_le l.

#[local] Instance id_le_total : Total id_le.
Proof.
  intros x y. unfold id_le. destruct (str_lt_total (idOf x) (idOf y)) as [H|[H|H]].
  - left. intros H'. by apply (irreflexivity str_lt (idOf x)); etrans.
  - left. rewrite H. apply irreflexivity, _.
  - right. intros H'. by apply (irreflexivity str_lt (idOf x)); etrans.
Qed.

#[local] Instance id_le_trans : Transitive id_le.
Proof.
  intros x y z Hxy Hyz Hzx. unfold id_le in *.
  destruct (str_lt_total (idOf x) (idOf y)) as [H|[H|H]]; [|rewrite H in Hzx; done|done].
  apply Hyz. by etrans.
Qed.

Lemma elem_of_sorted_rows l x : x ∈ sorted_rows l ↔ x ∈ l.
Proof. unfold sorted_rows. by rewrite merge_sort_Permutation. Qed.

(** With distinct identifiers the order is strict. *)
Lemma sorted_rows_strict l :
  NoDup (idOf <$> l) → StronglySorted (λ x y, str_lt (idOf x) (idOf y)) (sorted_rows l).
Proof.
  intros HN. assert (StronglySorted id_le (sorted_rows l)) as HS
    by apply (StronglySorted_merge_sort _).
  assert (NoDup (idOf <$> sorted_rows l)) as HN'.
  { unfold sorted_rows. by rewrite merge_sort_Permutation. }
  clear HN. induction HS as [|x k HS IH HF]; [constructor|].
  rewrite fmap_cons, NoDup_cons in HN'. destruct HN' as [Hx HN'].
  constructor; [by apply IH|]. rewrite Forall_forall in *. intros y Hy.
  destruct (str_lt_total (idOf x) (idOf y)) as [|[Heq|Hlt]]; [done| |].
  - exfalso. apply Hx. rewrite Heq. by apply list_elem_of_fmap_2.
  - exfalso. by apply (HF y Hy).
Qed.
End ordered.

(** The rows of one table that pass a test, ordered. *)
Definition rows_where {Row} (idOf : Row → string) (P : Row → bool)
    (m : gmap (string * string) Row) : list Row :=
  sorted_rows idOf (filter (λ x, P x = true) ((map_to_list m).*2)).

Lemma elem_of_rows_where {Row} (idOf : Row → string) (P : Row → bool)
    (m : gmap (string * string) Row) (x : Row) :
  x ∈ rows_where idOf P m ↔ P x = true ∧ ∃ p, m !! p = Some x.
Proof.
  unfold rows_where. rewrite elem_of_sorted_rows, list_elem_of_filter, list_elem_of_fmap.
  split.
  - intros [HP [[p y] [-> Hin]]]. simpl in *. split; [done|]. exists p. by apply elem_of_map_to_list.
  - intros [HP [p Hp]]. split; [done|]. exists (p, x). split; [done|]. by apply elem_of_map_to_list.
Qed.

(** ** Iterating over a list of rows with a callback that may stop *)

Fixpoint iter {Row A} (fn : A → Row → A * option error) (acc : A) (rows : list Row)
    : A * option error :=
  match rows with
  | [] => (acc, None)
  | x :: rows' =>
      match fn acc x with
      | (acc', Some e) => (acc', Some e)
      | (acc', None) => iter fn acc' rows'
      end
  end.

(** A page: the rows beyond the cursor, at most [limit] of them, and the last
    identifier of the page when there are more. *)
Definition page {Row} (idOf : Row → string) (limit : Z) (cursor : string) (rows : list Row)
    : list Row * string :=
  if limit <=? 0 then ([], "") else
  let rest := if bool_decide (cursor = "") then rows
              else filter (λ x, str_lt cursor (idOf x)) rows in
  let n := Z.to_nat limit in
  (take n rest, if (n <? length rest)%nat then last_id idOf (take n rest) else "").

(** ** The abstract store as a [Tx] *)

Definition in_schedule (tenantID scheduleID : string) (e : Execution) : bool :=
  bool_decide (e.(Execution.TenantID) = tenantID) && bool_decide (e.(Execution.ScheduleID) = scheduleID).
Definition in_status (tenantID status : string) (e : Execution) : bool :=
  bool_decide (e.(Execution.TenantID) = tenantID) && bool_decide (e.(Execution.Status) = status).
Definition of_execution (tenantID executionID : string) (a : Attempt) : bool :=
  bool_decide (a.(Attempt.TenantID) = tenantID) && bool_decide (a.(Attempt.ExecutionID) = executionID).
Definition due (tenantID : string) (now : Time) (s : Schedule) : bool :=
  bool_decide (s.(Schedule.TenantID) = tenantID)
  && bool_decide (s.(Schedule.Status) = ScheduleStatusActive) && negb (not_due now s).

Definition all_tenants (sp : Spec) : list Tenant :=
  sorted_rows Tenant.ID ((map_to_list (sp_tenants sp)).*2).

Section spec_tx.
Context `{!Json}.

Definition writes (upd : Spec → Spec) : M Spec unit := λ sp, (Ok (), upd sp).

(** A row is refused when it cannot be encoded. *)
Definition spec_put {Row} `{!RowCodec jbytes Row} (x : Row) (upd : Spec → Spec) : M Spec unit :=
  _ ← lift (Marshal (bytes := jbytes) x); writes upd.

Definition with_schedule (s : Schedule) (sp : Spec) : Spec :=
  mkSpec (<[(s.(Schedule.TenantID), s.(Schedule.ID)) := s]> (sp_schedules sp))
    (sp_executions sp) (sp_attempts sp) (sp_tenants sp).
Definition with_execution (e : Execution) (sp : Spec) : Spec :=
  mkSpec (sp_schedules sp)
    (<[(e.(Execution.TenantID), e.(Execution.ID)) := e]> (sp_executions sp))
    (sp_attempts sp) (sp_tenants sp).
Definition with_attempt (a : Attempt) (sp : Spec) : Spec :=
  mkSpec (sp_schedules sp) (sp_executions sp)
    (<[(a.(Attempt.TenantID), a.(Attempt.ID)) := a]> (sp_attempts sp)) (sp_tenants sp).
Definition with_tenant (t : Tenant) (sp : Spec) : Spec :=
  mkSpec (sp_schedules sp) (sp_executions sp) (sp_attempts sp)
    (<[t.(Tenant.ID) := t]> (sp_tenants sp)).

(** Reading is a function of the store. *)
Definition reads {A} (f : Spec → A) : M Spec A := λ sp, (Ok (f sp), sp).

#[export] Instance specTx : Tx Spec := {|
  GetSchedule t i := reads (λ sp, sp_schedules sp !! (t, i));
  PutSchedule s := spec_put s (with_schedule s);
  GetExecution t i := reads (λ sp, sp_executions sp !! (t, i));
  PutExecution e := spec_put e (with_execution e);
  GetAttempt t i := reads (λ sp, sp_attempts sp !! (t, i));
  PutAttempt a := spec_put a (with_attempt a);
  PutTenant t := spec_put t (with_tenant t);
  GetTenant i := reads (λ sp, sp_tenants sp !! i);
  ListTenants := reads all_tenants;
  ListExecutionsBySchedule A t s fn acc :=
    reads (λ sp, iter fn acc (rows_where Execution.ID (in_schedule t s) (sp_executions sp)));
  ListExecutionsByStatus A t s fn acc :=
    reads (λ sp, iter fn acc (rows_where Execution.ID (in_status t s) (sp_executions sp)));
  ListAttemptsByExecution A t e fn acc :=
    reads (λ sp, iter fn acc (rows_where Attempt.ID (of_execution t e) (sp_attempts sp)));
  ListSchedulesDue A t now fn acc :=
    reads (λ sp, iter fn acc (rows_where Schedule.ID (due t now) (sp_schedules sp)));
  ListTenantsPage limit cursor := reads (λ sp, page Tenant.ID limit cursor (all_tenants sp));
  ListExecutionsBySchedulePage t s limit cursor := reads (λ sp,
    page Execution.ID limit cursor (rows_where Execution.ID (in_schedule t s) (sp_executions sp)));
  ListExecutionsByStatusPage t s limit cursor := reads (λ sp,
    page Execution.ID limit cursor (rows_where Execution.ID (in_status t s) (sp_executions sp)));
  ListAttemptsByExecutionPage t e limit cursor := reads (λ sp,
    page Attempt.ID limit cursor (rows_where Attempt.ID (of_execution t e) (sp_attempts sp)))
|}.
End spec_tx.
