(* ===== verification/Lifecycle.v ===== *)
(** * Lifecycle: the abstract state machine of schedules and executions

    [spec_step at c sp r sp']: command [c], proposed at [at], takes the
    abstract store from [sp] to [sp'] with reply [r].  One rule per way a
    handler can succeed, with the facts the handler has checked.  The handlers
    run on [specTx] take exactly such steps ([run_command_step]); reachable
    states are related to the buckets by the refinement. *)

From S2P Require Import Prelude Go GoTime GoFloat Model RecurrenceCalc Json Storage Command Dispatch Spec.
Open Scope Z_scope.

(** ** The rows commands describe *)

Definition new_tenant (c : CreateTenantCommand) (at_ : Time) : Tenant :=
  Tenant.mk c.(CreateTenantCommand.ID) c.(CreateTenantCommand.Name) at_
    c.(CreateTenantCommand.APIKeyHash).

Definition new_schedule (c : CreateScheduleCommand) (nextRun : option Time) (at_ : Time) : Schedule :=
  Schedule.mk CurrentScheduleSchemaVersion
    c.(CreateScheduleCommand.ID) c.(CreateScheduleCommand.TenantID) at_ at_
    c.(CreateScheduleCommand.CreatedBy) c.(CreateScheduleCommand.CallbackURL)
    c.(CreateScheduleCommand.Payload) c.(CreateScheduleCommand.Headers)
    c.(CreateScheduleCommand.ScheduleType) c.(CreateScheduleCommand.FirstRunAt)
    c.(CreateScheduleCommand.Recurrence) c.(CreateScheduleCommand.Timezone)
    c.(CreateScheduleCommand.MaxAttempts) c.(CreateScheduleCommand.RetryBackoff)
    c.(CreateScheduleCommand.CallTimeout) c.(CreateScheduleCommand.CatchUpPolicy)
    ScheduleStatusActive nextRun.

Definition with_status (st : string) (nextRun : option Time) (at_ : Time) (s : Schedule) : Schedule :=
  Schedule.set_UpdatedAt at_ (Schedule.set_NextRunAt nextRun (Schedule.set_Status st s)).

Definition new_execution (c : ClaimExecutionCommand) (at_ : Time) : Execution :=
  Execution.mk CurrentExecutionSchemaVersion
    c.(ClaimExecutionCommand.ID) c.(ClaimExecutionCommand.TenantID)
    c.(ClaimExecutionCommand.ScheduleID) c.(ClaimExecutionCommand.ScheduledFor)
    (DeriveIdempotencyKey c.(ClaimExecutionCommand.ScheduleID) c.(ClaimExecutionCommand.ScheduledFor))
    c.(ClaimExecutionCommand.OwnerNodeID) (Some at_) ExecutionStatusInFlight
    None None 0 "" None "".

Definition new_attempt (c : RecordAttemptCommand) (count : Z) : Attempt :=
  Attempt.mk CurrentAttemptSchemaVersion
    c.(RecordAttemptCommand.ID) c.(RecordAttemptCommand.TenantID)
    c.(RecordAttemptCommand.ExecutionID) c.(RecordAttemptCommand.NodeID) (wrap64 (count + 1))
    c.(RecordAttemptCommand.StartedAt) c.(RecordAttemptCommand.CompletedAt)
    c.(RecordAttemptCommand.RequestURL) c.(RecordAttemptCommand.RequestHeaders)
    c.(RecordAttemptCommand.RequestBodyHash) c.(RecordAttemptCommand.ResponseStatus)
    c.(RecordAttemptCommand.ResponseBodyExcerpt) c.(RecordAttemptCommand.ResponseHeaders)
    c.(RecordAttemptCommand.Outcome) (default zeroTime c.(RecordAttemptCommand.RetryAt)).

Definition with_new_attempt (c : RecordAttemptCommand) (e : Execution) : Execution :=
  Execution.set_LastRetryAt c.(RecordAttemptCommand.RetryAt)
    (Execution.set_LastAttemptID c.(RecordAttemptCommand.ID)
       (Execution.set_AttemptCount (wrap64 (e.(Execution.AttemptCount) + 1)) e)).

Definition with_owner (o : string) (e : Execution) : Execution := Execution.set_OwnerNodeID o e.

(** No execution of the schedule occupies the slot. *)
Definition slot_free (sp : Spec) (t s : string) (at_ : Time) : Prop :=
  ∀ p e, sp_executions sp !! p = Some e → e.(Execution.TenantID) = t →
    e.(Execution.ScheduleID) = s → Equal e.(Execution.ScheduledFor) at_ = false.

(** The most recent terminal execution, as the scan of [findMostRecentTerminalExecution]
    finds it. *)
Definition most_recent (sp : Spec) (t s : string) : option Execution :=
  (iter more_recent None (rows_where Execution.ID (in_schedule t s) (sp_executions sp))).1.

(** What an update may change: never the identity, status or next run. *)
Definition same_lifecycle (s s' : Schedule) : Prop :=
  s'.(Schedule.TenantID) = s.(Schedule.TenantID) ∧ s'.(Schedule.ID) = s.(Schedule.ID)
  ∧ s'.(Schedule.Status) = s.(Schedule.Status) ∧ s'.(Schedule.NextRunAt) = s.(Schedule.NextRunAt)
  ∧ s'.(Schedule.ScheduleType) = s.(Schedule.ScheduleType)
  ∧ s'.(Schedule.FirstRunAt) = s.(Schedule.FirstRunAt)
  ∧ s'.(Schedule.Recurrence) = s.(Schedule.Recurrence)
  ∧ s'.(Schedule.Timezone) = s.(Schedule.Timezone)
  ∧ s'.(Schedule.CatchUpPolicy) = s.(Schedule.CatchUpPolicy)
  ∧ s'.(Schedule.CreatedAt) = s.(Schedule.CreatedAt).

Section machine.
Context `{PF : !Platform, J : !Json}.

(** The next run of a schedule that is created, and of one that is resumed. *)
Definition first_next_run (c : CreateScheduleCommand) : result (option Time) :=
  if bool_decide (c.(CreateScheduleCommand.ScheduleType) = ScheduleTypeOnce)
  then Ok (Some c.(CreateScheduleCommand.FirstRunAt))
  else ComputeNextRunOnOrAfter c.(CreateScheduleCommand.Recurrence) c.(CreateScheduleCommand.Timezone)
         c.(CreateScheduleCommand.FirstRunAt) c.(CreateScheduleCommand.FirstRunAt).

Definition resumed_next_run (sp : Spec) (s : Schedule) (at_ : Time) : result (option Time) :=
  if bool_decide (s.(Schedule.ScheduleType) = ScheduleTypeOnce)
  then Ok (Some s.(Schedule.FirstRunAt))
  else resume_next_run s (most_recent sp s.(Schedule.TenantID) s.(Schedule.ID)) at_.

(** What finalising an execution makes of its schedule. *)
Inductive advanced (e : Execution) (s : Schedule) : Schedule → Prop :=
| advanced_recurring o :
    s.(Schedule.ScheduleType) = ScheduleTypeRecurring →
    s.(Schedule.Status) = ScheduleStatusActive →
    ComputeNextRunAfter s.(Schedule.Recurrence) "UTC" s.(Schedule.FirstRunAt)
      e.(Execution.ScheduledFor) = Ok o →
    advanced e s (Schedule.set_NextRunAt o s)
| advanced_inactive :
    s.(Schedule.ScheduleType) = ScheduleTypeRecurring →
    s.(Schedule.Status) ≠ ScheduleStatusActive →
    advanced e s s
| advanced_once :
    s.(Schedule.ScheduleType) ≠ ScheduleTypeRecurring →
    advanced e s (Schedule.set_NextRunAt None (Schedule.set_Status ScheduleStatusCompleted s)).

Inductive spec_step (at_ : Time) : command → Spec → reply → Spec → Prop :=
| step_create_tenant c sp :
    c.(CreateTenantCommand.ID) ≠ "" → c.(CreateTenantCommand.APIKeyHash) ≠ "" →
    sp_tenants sp !! c.(CreateTenantCommand.ID) = None →
    spec_step at_ (create_tenant c) sp (RTenant (new_tenant c at_)) (with_tenant (new_tenant c at_) sp)
| step_create_schedule c sp nextRun :
    c.(CreateScheduleCommand.TenantID) ≠ "" → c.(CreateScheduleCommand.ID) ≠ "" →
    validateHeaders c.(CreateScheduleCommand.Headers) = None →
    sp_schedules sp !! (c.(CreateScheduleCommand.TenantID), c.(CreateScheduleCommand.ID)) = None →
    first_next_run c = Ok nextRun →
    spec_step at_ (create_schedule c) sp (RSchedule (new_schedule c nextRun at_))
      (with_schedule (new_schedule c nextRun at_) sp)
| step_update c sp s s' :
    sp_schedules sp !! (c.(UpdateScheduleCommand.TenantID), c.(UpdateScheduleCommand.ID)) = Some s →
    s.(Schedule.Status) ≠ ScheduleStatusCanceled → same_lifecycle s s' →
    spec_step at_ (update_schedule c) sp (RSchedule s') (with_schedule s' sp)
| step_pause c sp s :
    let s' := with_status ScheduleStatusPaused None at_ s in
    sp_schedules sp !! (c.(PauseScheduleCommand.TenantID), c.(PauseScheduleCommand.ID)) = Some s →
    s.(Schedule.Status) ≠ ScheduleStatusCanceled → s.(Schedule.Status) ≠ ScheduleStatusCompleted →
    spec_step at_ (pause_schedule c) sp (RSchedule s') (with_schedule s' sp)
| step_pause_again c sp s :
    sp_schedules sp !! (c.(PauseScheduleCommand.TenantID), c.(PauseScheduleCommand.ID)) = Some s →
    s.(Schedule.Status) = ScheduleStatusPaused →
    spec_step at_ (pause_schedule c) sp (RSchedule s) sp
| step_cancel c sp s :
    let s' := with_status ScheduleStatusCanceled None at_ s in
    sp_schedules sp !! (c.(CancelScheduleCommand.TenantID), c.(CancelScheduleCommand.ID)) = Some s →
    s.(Schedule.Status) ≠ ScheduleStatusCanceled → s.(Schedule.Status) ≠ ScheduleStatusCompleted →
    spec_step at_ (cancel_schedule c) sp (RSchedule s') (with_schedule s' sp)
| step_cancel_again c sp s :
    sp_schedules sp !! (c.(CancelScheduleCommand.TenantID), c.(CancelScheduleCommand.ID)) = Some s →
    s.(Schedule.Status) = ScheduleStatusCanceled ∨ s.(Schedule.Status) = ScheduleStatusCompleted →
    spec_step at_ (cancel_schedule c) sp (RSchedule s) sp
| step_resume c sp s nextRun :
    let s' := with_status ScheduleStatusActive nextRun at_ s in
    sp_schedules sp !! (c.(ResumeScheduleCommand.TenantID), c.(ResumeScheduleCommand.ID)) = Some s →
    s.(Schedule.Status) ≠ ScheduleStatusActive → s.(Schedule.Status) ≠ ScheduleStatusCanceled →
    s.(Schedule.Status) ≠ ScheduleStatusCompleted →
    resumed_next_run sp s at_ = Ok nextRun →
    spec_step at_ (resume_schedule c) sp (RSchedule s') (with_schedule s' sp)
| step_resume_again c sp s :
    sp_schedules sp !! (c.(ResumeScheduleCommand.TenantID), c.(ResumeScheduleCommand.ID)) = Some s →
    s.(Schedule.Status) = ScheduleStatusActive →
    spec_step at_ (resume_schedule c) sp (RSchedule s) sp
| step_claim c sp :
    let e := new_execution c at_ in
    c.(ClaimExecutionCommand.ID) ≠ "" → c.(ClaimExecutionCommand.OwnerNodeID) ≠ "" →
    slot_free sp c.(ClaimExecutionCommand.TenantID) c.(ClaimExecutionCommand.ScheduleID)
      c.(ClaimExecutionCommand.ScheduledFor) →
    spec_step at_ (claim_execution c) sp (RExecution e) (with_execution e sp)
| step_adopt c sp e :
    let e' := with_owner c.(AdoptExecutionCommand.NewOwner) e in
    c.(AdoptExecutionCommand.NewOwner) ≠ "" →
    c.(AdoptExecutionCommand.NewOwner) ≠ c.(AdoptExecutionCommand.PreviousOwner) →
    sp_executions sp !! (c.(AdoptExecutionCommand.TenantID), c.(AdoptExecutionCommand.ExecutionID)) = Some e →
    e.(Execution.Status) = ExecutionStatusInFlight →
    e.(Execution.OwnerNodeID) = c.(AdoptExecutionCommand.PreviousOwner) →
    spec_step at_ (adopt_execution c) sp (RExecution e') (with_execution e' sp)
| step_record c sp e :
    let a := new_attempt c e.(Execution.AttemptCount) in
    c.(RecordAttemptCommand.ID) ≠ "" →
    sp_executions sp !! (c.(RecordAttemptCommand.TenantID), c.(RecordAttemptCommand.ExecutionID)) = Some e →
    e.(Execution.Status) = ExecutionStatusInFlight →
    e.(Execution.OwnerNodeID) = c.(RecordAttemptCommand.NodeID) →
    spec_step at_ (record_attempt c) sp (RAttempt a)
      (with_execution (with_new_attempt c e) (with_attempt a sp))
| step_complete c sp e s s' :
    let e' := finalized e c.(CompleteExecutionCommand.FinalStatus)
                c.(CompleteExecutionCommand.FinalOutcome) at_ in
    IsTerminal c.(CompleteExecutionCommand.FinalStatus) = true →
    c.(CompleteExecutionCommand.FinalOutcome) ≠ "" →
    sp_executions sp !! (c.(CompleteExecutionCommand.TenantID), c.(CompleteExecutionCommand.ExecutionID)) = Some e →
    IsTerminal e.(Execution.Status) = false →
    sp_schedules sp !! (c.(CompleteExecutionCommand.TenantID), e.(Execution.ScheduleID)) = Some s →
    advanced e s s' →
    spec_step at_ (complete_execution c) sp (RExecution e') (with_schedule s' (with_execution e' sp))
| step_fail c sp e s s' :
    let e' := finalized e ExecutionStatusFailedMaxRetries
                c.(FailExecutionTimeoutCommand.FinalOutcome) at_ in
    c.(FailExecutionTimeoutCommand.FinalOutcome) ≠ "" →
    sp_executions sp !! (c.(FailExecutionTimeoutCommand.TenantID), c.(FailExecutionTimeoutCommand.ExecutionID)) = Some e →
    IsTerminal e.(Execution.Status) = false →
    sp_schedules sp !! (c.(FailExecutionTimeoutCommand.TenantID), e.(Execution.ScheduleID)) = Some s →
    advanced e s s' →
    spec_step at_ (fail_execution_timeout c) sp (RExecution e') (with_schedule s' (with_execution e' sp)).

(** ** The handlers on the abstract store take these steps *)

Lemma put_inv {Row} `{!RowCodec jbytes Row} g (x : Row) upd sp u sp' :
  wrap_err g (spec_put x upd) sp = (Ok u, sp') → sp' = upd sp.
Proof. by intros (? & ? & [_ ->]%lift_inv & [= _ <-])%wrap_err_inv%M_bind_inv. Qed.

Lemma reads_inv {A} (f : Spec → A) sp a sp' : reads f sp = (Ok a, sp') → a = f sp ∧ sp' = sp.
Proof. by intros [= <- <-]. Qed.

Lemma ret_inv {A} (a b : A) (sp sp' : Spec) : (mret a : M Spec A) sp = (Ok b, sp') → b = a ∧ sp' = sp.
Proof. by intros [= <- <-]. Qed.

Lemma fail_inv {A} e (sp : Spec) (b : A) sp' : fail e sp = (Ok b, sp') → False.
Proof. done. Qed.

Lemma empty_false s : empty s = false → s ≠ "".
Proof. unfold empty. by intros ?%bool_decide_eq_false. Qed.

(** [run_inv H]: one bind of a successful run on the abstract store. *)
Ltac run_inv H :=
  let H1 := fresh in
  apply M_bind_inv in H as (? & ? & H1 & H);
  first
  [ apply reject_if_inv in H1 as [H1 ->]; first [apply empty_false in H1 | idtac]
  | apply put_inv in H1 as ->
  | apply wrap_err_inv, reads_inv in H1 as [-> ->]
  | idtac ].

Lemma step_of_CreateTenant c at_ sp t sp' :
  ApplyCreateTenant c at_ sp = (Ok t, sp') → spec_step at_ (create_tenant c) sp (RTenant t) sp'.
Proof.
  unfold ApplyCreateTenant. intros H. do 3 run_inv H.
  destruct (sp_tenants sp !! _) eqn:E; [done|]. run_inv H. apply ret_inv in H as [-> ->].
  by apply step_create_tenant.
Qed.

(** A bind whose first part is handled by the proof itself. *)
Tactic Notation "run_bind" hyp(H) "as" ident(a) ident(sp1) ident(H1) :=
  apply M_bind_inv in H as (a & sp1 & H1 & H).

Lemma step_of_CreateSchedule c at_ sp s sp' :
  ApplyCreateSchedule c at_ sp = (Ok s, sp') → spec_step at_ (create_schedule c) sp (RSchedule s) sp'.
Proof.
  unfold ApplyCreateSchedule. intros H. do 2 run_inv H. run_bind H as u sp1 Hh.
  destruct (validateHeaders _) eqn:Eh; [done|]. apply ret_inv in Hh as [_ ->]. run_inv H.
  destruct (sp_schedules sp !! _) eqn:E; [done|].
  run_bind H as nextRun sp1 Hn. assert (first_next_run c = Ok nextRun ∧ sp1 = sp) as [Hn' ->].
  { unfold first_next_run. destruct (bool_decide _);
      [by apply ret_inv in Hn as [-> ->]|by apply lift_inv in Hn as [-> ->]]. }
  run_bind H as u' sp1 Hct. assert (sp1 = sp) as ->.
  { destruct (CreateScheduleCommand.CallTimeout c);
      [by apply reject_if_inv in Hct as [_ ->]|by apply ret_inv in Hct as [_ ->]]. }
  run_inv H. apply ret_inv in H as [-> ->]. by apply step_create_schedule.
Qed.

Lemma same_lifecycle_refl s : same_lifecycle s s.
Proof. by repeat split. Qed.

Lemma same_lifecycle_trans s1 s2 s3 :
  same_lifecycle s1 s2 → same_lifecycle s2 s3 → same_lifecycle s1 s3.
Proof. unfold same_lifecycle. intuition congruence. Qed.

Lemma set_opt_lifecycle {A} (set : A → Schedule → Schedule) v s :
  (∀ a s, same_lifecycle s (set a s)) → same_lifecycle s (set_opt set v s).
Proof. destruct v; simpl; auto using same_lifecycle_refl. Qed.

Lemma step_of_UpdateSchedule c at_ sp s sp' :
  ApplyUpdateSchedule c at_ sp = (Ok s, sp') → spec_step at_ (update_schedule c) sp (RSchedule s) sp'.
Proof.
  unfold ApplyUpdateSchedule. intros H. do 2 run_inv H. run_bind H as u sp1 Hh.
  assert (sp1 = sp) as ->.
  { destruct (UpdateScheduleCommand.Headers c) as [h|]; [|by apply ret_inv in Hh as [_ ->]].
    destruct (validateHeaders h); [done|by apply ret_inv in Hh as [_ ->]]. }
  run_inv H. destruct (sp_schedules sp !! _) as [s0|] eqn:E; [|done]. run_inv H.
  run_bind H as s6 sp1 H6.
  set (s5 := set_opt Schedule.set_MaxAttempts _ _) in *.
  assert (same_lifecycle s0 s5) as H5.
  { repeat (eapply same_lifecycle_trans; [|apply set_opt_lifecycle; by intros]).
    apply same_lifecycle_refl. }
  assert (same_lifecycle s0 s6 ∧ sp1 = sp) as [Hs6 ->].
  { clearbody s5. destruct (UpdateScheduleCommand.CallTimeout c) as [n|].
    - destruct (n =? 0); [by apply ret_inv in H6 as [-> ->]|].
      destruct (call_timeout_bad n); [done|]. by apply ret_inv in H6 as [-> ->].
    - by apply ret_inv in H6 as [-> ->]. }
  run_inv H. apply ret_inv in H as [-> ->]. bool_hyps. by eapply step_update.
Qed.

Lemma step_of_PauseSchedule c at_ sp s sp' :
  ApplyPauseSchedule c at_ sp = (Ok s, sp') → spec_step at_ (pause_schedule c) sp (RSchedule s) sp'.
Proof.
  unfold ApplyPauseSchedule. intros H. do 3 run_inv H.
  destruct (sp_schedules sp !! _) as [s0|] eqn:E; [|done].
  case_bool_decide; [apply ret_inv in H as [-> ->]; by eapply step_pause_again|].
  do 3 run_inv H. apply ret_inv in H as [-> ->]. bool_hyps. by eapply step_pause.
Qed.

Lemma step_of_CancelSchedule c at_ sp s sp' :
  ApplyCancelSchedule c at_ sp = (Ok s, sp') → spec_step at_ (cancel_schedule c) sp (RSchedule s) sp'.
Proof.
  unfold ApplyCancelSchedule. intros H. do 3 run_inv H.
  destruct (sp_schedules sp !! _) as [s0|] eqn:E; [|done].
  case_bool_decide; [apply ret_inv in H as [-> ->]; eapply step_cancel_again; eauto|].
  case_bool_decide; [apply ret_inv in H as [-> ->]; eapply step_cancel_again; eauto|].
  run_inv H. apply ret_inv in H as [-> ->]. by eapply step_cancel.
Qed.

Lemma more_recent_no_error l acc : (iter more_recent acc l).2 = None.
Proof.
  revert acc. induction l as [|e l IH]; intros acc; [done|]. simpl. unfold more_recent at 1.
  repeat case_match; simplify_eq; apply IH.
Qed.

Lemma step_of_ResumeSchedule c at_ sp s sp' :
  ApplyResumeSchedule c at_ sp = (Ok s, sp') → spec_step at_ (resume_schedule c) sp (RSchedule s) sp'.
Proof.
  unfold ApplyResumeSchedule. intros H. do 3 run_inv H.
  destruct (sp_schedules sp !! _) as [s0|] eqn:E; [|done].
  case_bool_decide; [apply ret_inv in H as [-> ->]; by eapply step_resume_again|].
  do 2 run_inv H. run_bind H as nextRun sp1 Hn.
  assert (resumed_next_run sp s0 at_ = Ok nextRun ∧ sp1 = sp) as [Hn' ->].
  { unfold resumed_next_run.
    destruct (bool_decide (Schedule.ScheduleType s0 = ScheduleTypeOnce)); [by apply ret_inv in Hn as [-> ->]|].
    run_bind Hn as anchor sp2 Ha. apply lift_inv in Hn as [Hn ->].
    apply wrap_err_inv in Ha. run_bind Ha as r sp3 Hr. apply reads_inv in Hr as [-> ->].
    unfold most_recent. destruct (iter _ _ _) as [a [e|]]; [done|].
    by apply ret_inv in Ha as [-> ->]. }
  run_inv H. apply ret_inv in H as [-> ->]. bool_hyps. by eapply step_resume.
Qed.

(** The claim's scan reports a collision exactly when the slot is taken. *)
Lemma find_collision_spec at_ l :
  match iter (find_collision at_) None l with
  | (Some e, Some EFoundCollision) => e ∈ l ∧ Equal e.(Execution.ScheduledFor) at_ = true
  | (None, None) => ∀ e, e ∈ l → Equal e.(Execution.ScheduledFor) at_ = false
  | _ => False
  end.
Proof.
  induction l as [|e l IH]; [by intros e ?%not_elem_of_nil|]. simpl. unfold find_collision at 1.
  destruct (Equal _ _) eqn:E; [split; [apply list_elem_of_here|done]|].
  destruct (iter _ _ l) as [[e'|] [[]|]]; try done.
  - destruct IH as [IH1 IH2]. split; [by apply list_elem_of_further|done].
  - intros e' [->|He']%elem_of_cons; auto.
Qed.

Lemma slot_free_rows sp t s at_ :
  (∀ e, e ∈ rows_where Execution.ID (in_schedule t s) (sp_executions sp) →
     Equal e.(Execution.ScheduledFor) at_ = false) ↔ slot_free sp t s at_.
Proof.
  unfold slot_free. split.
  - intros H p e He Ht Hs. apply H, elem_of_rows_where. split; [|by eauto].
    unfold in_schedule. by rewrite !bool_decide_true.
  - intros H e [He [p Hp]]%elem_of_rows_where. unfold in_schedule in He. bool_hyps. eauto.
Qed.

Lemma step_of_ClaimExecution c at_ sp e sp' :
  ApplyClaimExecution c at_ sp = (Ok e, sp') → spec_step at_ (claim_execution c) sp (RExecution e) sp'.
Proof.
  unfold ApplyClaimExecution. intros H. do 5 run_inv H. run_bind H as r sp1 Hr.
  apply reads_inv in Hr as [-> ->].
  pose proof (find_collision_spec c.(ClaimExecutionCommand.ScheduledFor)
    (rows_where Execution.ID (in_schedule c.(ClaimExecutionCommand.TenantID)
       c.(ClaimExecutionCommand.ScheduleID)) (sp_executions sp))) as Hf.
  destruct (iter _ _ _) as [[ex|] [[]|]]; try done.
  run_bind H as u sp1 Hu. apply ret_inv in Hu as [_ ->]. run_inv H. apply ret_inv in H as [-> ->].
  apply step_claim; [done..|]. by apply slot_free_rows.
Qed.

Lemma step_of_AdoptExecution c at_ sp e sp' :
  ApplyAdoptExecution c at_ sp = (Ok e, sp') → spec_step at_ (adopt_execution c) sp (RExecution e) sp'.
Proof.
  unfold ApplyAdoptExecution. intros H. do 6 run_inv H.
  destruct (sp_executions sp !! _) as [e0|] eqn:E; [|done]. do 3 run_inv H.
  apply ret_inv in H as [-> ->]. bool_hyps. apply step_adopt; try done.
  - by apply dec_stable.
  - by apply dec_stable.
Qed.

Lemma require_time_inv p f m1 m2 (sp : Spec) u sp' :
  require_time p f m1 m2 sp = (Ok u, sp') → sp' = sp.
Proof. destruct p; [by intros [_ ->]%reject_if_inv|done]. Qed.

Lemma step_of_RecordAttempt c at_ sp a sp' :
  ApplyRecordAttempt c at_ sp = (Ok a, sp') → spec_step at_ (record_attempt c) sp (RAttempt a) sp'.
Proof.
  unfold ApplyRecordAttempt. intros H. do 5 run_inv H.
  run_bind H as u1 sp1 H1'. apply require_time_inv in H1' as ->.
  run_bind H as u2 sp1 H2'. apply require_time_inv in H2' as ->. do 3 run_inv H.
  destruct (sp_executions sp !! _) as [e0|] eqn:E; [|done]. do 4 run_inv H.
  apply ret_inv in H as [-> ->]. bool_hyps.
  match goal with |- spec_step _ _ _ (RAttempt ?a) _ =>
    assert (a = new_attempt c e0.(Execution.AttemptCount)) as -> end.
  { unfold new_attempt. by destruct (RecordAttemptCommand.RetryAt c). }
  by apply step_record; [..| apply dec_stable| apply dec_stable].
Qed.

Lemma advance_inv s e msg (sp : Spec) s' sp' :
  advance_schedule s e msg sp = (Ok s', sp') → advanced e s s' ∧ sp' = sp.
Proof.
  unfold advance_schedule. case_bool_decide; [case_bool_decide|].
  - intros H'. run_bind H' as o sp1 Ho. apply wrap_err_inv, lift_inv in Ho as [Ho ->].
    apply ret_inv in H' as [-> ->]. split; [by apply advanced_recurring|done].
  - intros [-> ->]%ret_inv. split; [by apply advanced_inactive|done].
  - intros [-> ->]%ret_inv. split; [by apply advanced_once|done].
Qed.

Lemma step_of_CompleteExecution c at_ sp e sp' :
  ApplyCompleteExecution c at_ sp = (Ok e, sp') →
  spec_step at_ (complete_execution c) sp (RExecution e) sp'.
Proof.
  unfold ApplyCompleteExecution. intros H. do 6 run_inv H.
  destruct (sp_executions sp !! _) as [e0|] eqn:E; [|done]. do 3 run_inv H. simpl in H.
  destruct (sp_schedules sp !! _) as [s0|] eqn:Es; [|done].
  run_bind H as s' sp1 Hadv. apply advance_inv in Hadv as [Hadv ->]. run_inv H.
  apply ret_inv in H as [-> ->]. bool_hyps. by eapply step_complete.
Qed.

Lemma step_of_FailExecutionTimeout c at_ sp e sp' :
  ApplyFailExecutionTimeout c at_ sp = (Ok e, sp') →
  spec_step at_ (fail_execution_timeout c) sp (RExecution e) sp'.
Proof.
  unfold ApplyFailExecutionTimeout. intros H. do 4 run_inv H.
  destruct (sp_executions sp !! _) as [e0|] eqn:E; [|done]. do 3 run_inv H. simpl in H.
  destruct (sp_schedules sp !! _) as [s0|] eqn:Es; [|done].
  run_bind H as s' sp1 Hadv. apply advance_inv in Hadv as [Hadv ->]. run_inv H.
  apply ret_inv in H as [-> ->]. bool_hyps. by eapply step_fail.
Qed.

Lemma run_step c at_ sp r sp' : run_command c at_ sp = (Ok r, sp') → spec_step at_ c sp r sp'.
Proof.
  destruct c; simpl; intros H; run_bind H as x sp1 Hx; apply ret_inv in H as [-> ->].
  - by apply step_of_CreateTenant.
  - by apply step_of_CreateSchedule.
  - by apply step_of_UpdateSchedule.
  - by apply step_of_PauseSchedule.
  - by apply step_of_CancelSchedule.
  - by apply step_of_ResumeSchedule.
  - by apply step_of_ClaimExecution.
  - by apply step_of_AdoptExecution.
  - by apply step_of_RecordAttempt.
  - by apply step_of_CompleteExecution.
  - by apply step_of_FailExecutionTimeout.
Qed.
End machine.
