(* ===== verification/Invariants.v ===== *)
(** * Invariants: what holds of every reachable abstract state

    Rule induction over [spec_step]: rows sit under their own keys; a schedule
    that is not active has no next run; an execution is either in flight with
    an owner or final with none; one slot of a schedule has one execution;
    every attempt belongs to an execution.  And how a single step may change a
    row: identities never, final executions not at all. *)

From S2P Require Import Prelude Go GoTime GoFloat Model RecurrenceCalc Json Storage Command Dispatch.
From S2P Require Import Spec Lifecycle.
Open Scope Z_scope.

(** ** Rows *)

Definition schedule_status (st : string) : Prop :=
  st ∈ [ScheduleStatusActive; ScheduleStatusPaused; ScheduleStatusCanceled; ScheduleStatusCompleted].

(** A schedule has one of the four statuses, and a next run only when active. *)
Definition schedule_inv (s : Schedule) : Prop :=
  schedule_status s.(Schedule.Status)
  ∧ (s.(Schedule.Status) ≠ ScheduleStatusActive → s.(Schedule.NextRunAt) = None).

(** An execution is in flight and owned, or final, disowned and explained. *)
Definition execution_inv (e : Execution) : Prop :=
  e.(Execution.ID) ≠ ""
  ∧ e.(Execution.IdempotencyKey)
    = DeriveIdempotencyKey e.(Execution.ScheduleID) e.(Execution.ScheduledFor)
  ∧ is_Some e.(Execution.ClaimedAt)
  ∧ ((e.(Execution.Status) = ExecutionStatusInFlight ∧ e.(Execution.OwnerNodeID) ≠ ""
      ∧ e.(Execution.CompletedAt) = None ∧ e.(Execution.FinalOutcome) = "")
     ∨ (IsTerminal e.(Execution.Status) = true ∧ e.(Execution.OwnerNodeID) = ""
        ∧ is_Some e.(Execution.CompletedAt) ∧ e.(Execution.FinalOutcome) ≠ "")).

Lemma not_terminal_in_flight e :
  execution_inv e → IsTerminal e.(Execution.Status) = false →
  e.(Execution.Status) = ExecutionStatusInFlight.
Proof. intros (_ & _ & _ & [[? _]|[H _]]) H'; [done|congruence]. Qed.

Lemma new_execution_inv c at_ :
  c.(ClaimExecutionCommand.ID) ≠ "" → c.(ClaimExecutionCommand.OwnerNodeID) ≠ "" →
  execution_inv (new_execution c at_).
Proof. intros Hi H. split; [done|]. split; [done|]. split; [by eexists|]. by left. Qed.

Lemma with_owner_inv o e :
  o ≠ "" → e.(Execution.Status) = ExecutionStatusInFlight → execution_inv e →
  execution_inv (with_owner o e).
Proof.
  intros Ho Hs (H0 & H1 & H2 & [(?&?&?&?)|[H _]]); [|by rewrite Hs in H].
  repeat (split; [done|]). by left.
Qed.

Lemma with_new_attempt_inv c e : execution_inv e → execution_inv (with_new_attempt c e).
Proof. by intros (H0 & H1 & H2 & H3). Qed.

Lemma finalized_inv e st out at_ :
  IsTerminal st = true → out ≠ "" → execution_inv e → execution_inv (finalized e st out at_).
Proof.
  intros Hst Hout (H0 & H1 & H2 & _). repeat (split; [done|]). right. simpl.
  split; [done|]. split; [done|]. split; [by eexists|done].
Qed.

Lemma advanced_inv `{!Platform} e s s' : advanced e s s' → schedule_inv s → schedule_inv s'.
Proof.
  intros Ha [H1 H2]. destruct Ha as [o Ht Hs _|Ht Hs|Ht]; [| done|].
  - split; [done|]. intros Hn. done.
  - split; [|done]. unfold schedule_status. simpl. set_solver.
Qed.

Lemma advanced_identity `{!Platform} e s s' : advanced e s s' →
  s'.(Schedule.TenantID) = s.(Schedule.TenantID) ∧ s'.(Schedule.ID) = s.(Schedule.ID).
Proof. by intros []. Qed.

(** ** The invariant *)

Record inv (sp : Spec) : Prop := {
  inv_sched_key : ∀ p s, sp_schedules sp !! p = Some s →
    p = (s.(Schedule.TenantID), s.(Schedule.ID));
  inv_exec_key : ∀ p e, sp_executions sp !! p = Some e →
    p = (e.(Execution.TenantID), e.(Execution.ID));
  inv_schedules : ∀ p s, sp_schedules sp !! p = Some s → schedule_inv s;
  inv_executions : ∀ p e, sp_executions sp !! p = Some e → execution_inv e;
  inv_slots : ∀ p q e e', sp_executions sp !! p = Some e → sp_executions sp !! q = Some e' →
    e.(Execution.TenantID) = e'.(Execution.TenantID) →
    e.(Execution.ScheduleID) = e'.(Execution.ScheduleID) →
    Equal e.(Execution.ScheduledFor) e'.(Execution.ScheduledFor) = true → p = q;
  inv_attempts : ∀ p a, sp_attempts sp !! p = Some a → a.(Attempt.ID) ≠ "" ∧
    is_Some (sp_executions sp !! (a.(Attempt.TenantID), a.(Attempt.ExecutionID)))
}.

Lemma inv_empty : inv emptySpec.
Proof. split; intros *; simpl; by rewrite lookup_empty. Qed.

Lemma Equal_sym t u : Equal t u = Equal u t.
Proof. unfold Equal. apply Z.eqb_sym. Qed.

(** *** One lemma per kind of write *)

Lemma inv_with_tenant t sp : inv sp → inv (with_tenant t sp).
Proof. by intros [H1 H2 H3 H4 H5 H6]; split. Qed.

Lemma inv_with_schedule s sp : inv sp → schedule_inv s → inv (with_schedule s sp).
Proof.
  intros [H1 H2 H3 H4 H5 H6] Hs. split; simpl; try done.
  - intros p x [[<- <-]|[_ Hx]]%lookup_insert_Some; eauto.
  - intros p x [[<- <-]|[_ Hx]]%lookup_insert_Some; eauto.
Qed.

Lemma inv_with_attempt a sp :
  inv sp → a.(Attempt.ID) ≠ "" → is_Some (sp_executions sp !! (a.(Attempt.TenantID), a.(Attempt.ExecutionID))) →
  inv (with_attempt a sp).
Proof.
  intros [H1 H2 H3 H4 H5 H6] Hi Ha. split; simpl; try done.
  intros p x [[<- <-]|[_ Hx]]%lookup_insert_Some; eauto.
Qed.

(** An execution may be written when its slot is its own. *)
Lemma inv_with_execution e sp :
  inv sp → execution_inv e →
  (∀ q e', sp_executions sp !! q = Some e' → e'.(Execution.TenantID) = e.(Execution.TenantID) →
     e'.(Execution.ScheduleID) = e.(Execution.ScheduleID) →
     Equal e'.(Execution.ScheduledFor) e.(Execution.ScheduledFor) = true →
     q = (e.(Execution.TenantID), e.(Execution.ID))) →
  inv (with_execution e sp).
Proof.
  intros [H1 H2 H3 H4 H5 H6] He Hslot. split; simpl; try done.
  - intros p x [[<- <-]|[_ Hx]]%lookup_insert_Some; eauto.
  - intros p x [[<- <-]|[_ Hx]]%lookup_insert_Some; eauto.
  - intros p q x y [[<- <-]|[_ Hx]]%lookup_insert_Some [[<- <-]|[_ Hy]]%lookup_insert_Some Ht Hs Heq.
    + done.
    + symmetry. eapply Hslot; [done|by symmetry..|by rewrite Equal_sym].
    + by eapply Hslot.
    + by eapply H5.
  - intros p a Ha. destruct (H6 _ _ Ha) as [Hi Hx]. split; [done|]. apply lookup_insert_is_Some. destruct (decide
      ((Execution.TenantID e, Execution.ID e) = (Attempt.TenantID a, Attempt.ExecutionID a)));
      [by left|by right].
Qed.

(** The same for a new version of a stored execution. *)
Lemma inv_update_execution p e e' sp :
  inv sp → sp_executions sp !! p = Some e → execution_inv e' →
  e'.(Execution.TenantID) = e.(Execution.TenantID) → e'.(Execution.ID) = e.(Execution.ID) →
  e'.(Execution.ScheduleID) = e.(Execution.ScheduleID) →
  e'.(Execution.ScheduledFor) = e.(Execution.ScheduledFor) →
  inv (with_execution e' sp).
Proof.
  intros Hinv He He' Ht Hi Hs Hf. apply inv_with_execution; [done..|].
  intros q x Hx. rewrite Ht, Hi, Hs, Hf, <- (inv_exec_key _ Hinv _ _ He).
  intros. by eapply (inv_slots _ Hinv).
Qed.

(** [step_cases H]: the fourteen ways to step. *)
Ltac step_cases Hstep :=
  destruct Hstep as
    [c sp H1 H2 H3|c sp n H1 H2 H3 H4 H5|c sp s0 s' H1 H2 H3|c sp s0 s' H1 H2 H3|c sp s0 H1 H2
    |c sp s0 s' H1 H2 H3|c sp s0 H1 H2|c sp s0 n s' H1 H2 H3 H4 H5|c sp s0 H1 H2
    |c sp e' H0 H1 H2|c sp e0 e' H1 H2 H3 H4 H5|c sp e0 a H0 H1 H2 H3
    |c sp e0 s0 s' e' H1 H2 H3 H4 H5 H6|c sp e0 s0 s' e' H1 H2 H3 H4 H5].

Section steps.
Context `{PF : !Platform, J : !Json}.

Lemma step_inv at_ c sp r sp' : spec_step at_ c sp r sp' → inv sp → inv sp'.
Proof.
  intros Hstep Hinv.
  step_cases Hstep.
  - by apply inv_with_tenant.
  - apply inv_with_schedule; [done|]. split; [by left|done].
  - apply inv_with_schedule; [done|]. destruct (inv_schedules _ Hinv _ _ H1) as [Hs1 Hs2].
    destruct H3 as (_ & _ & Hs & Hn & _). split; [by rewrite Hs|]. rewrite Hs, Hn. done.
  - apply inv_with_schedule; [done|]. split; [|done]. unfold schedule_status. simpl. set_solver.
  - done.
  - apply inv_with_schedule; [done|]. split; [|done]. unfold schedule_status. simpl. set_solver.
  - done.
  - apply inv_with_schedule; [done|]. split; [by left|done].
  - done.
  - apply inv_with_execution; [done|by apply new_execution_inv|].
    intros q e He Ht Hs Heq. specialize (H2 _ _ He Ht Hs). unfold e' in Heq. simpl in Heq. congruence.
  - eapply inv_update_execution; try done. eapply with_owner_inv; [done..|].
    by eapply inv_executions.
  - eapply inv_update_execution; try done.
    + apply inv_with_attempt; [done..|]. simpl. by rewrite H1.
    + apply with_new_attempt_inv. by eapply inv_executions.
  - apply inv_with_schedule; [|by eapply advanced_inv, inv_schedules].
    eapply inv_update_execution; try done. apply finalized_inv; [done..|]. by eapply inv_executions.
  - apply inv_with_schedule; [|by eapply advanced_inv, inv_schedules].
    eapply inv_update_execution; try done. apply finalized_inv; [done..|]. by eapply inv_executions.
Qed.

(** ** How one step changes a row *)

(** The claim of an identifier that is already an execution's. *)
Definition reclaims (c : command) (p : string * string) : Prop :=
  match c with
  | claim_execution c => p = (c.(ClaimExecutionCommand.TenantID), c.(ClaimExecutionCommand.ID))
  | _ => False
  end.

(** A later version of an execution: same slot, and untouched once final. *)
Definition exec_evolves (e e' : Execution) : Prop :=
  e'.(Execution.TenantID) = e.(Execution.TenantID) ∧ e'.(Execution.ID) = e.(Execution.ID)
  ∧ e'.(Execution.ScheduleID) = e.(Execution.ScheduleID)
  ∧ e'.(Execution.ScheduledFor) = e.(Execution.ScheduledFor)
  ∧ e'.(Execution.IdempotencyKey) = e.(Execution.IdempotencyKey)
  ∧ (IsTerminal e.(Execution.Status) = true → e' = e).

Lemma exec_evolves_refl e : exec_evolves e e.
Proof. by repeat split. Qed.

Lemma exec_evolves_trans e1 e2 e3 : exec_evolves e1 e2 → exec_evolves e2 e3 → exec_evolves e1 e3.
Proof.
  intros (?&?&?&?&?&Ha) (?&?&?&?&?&Hb). repeat split; try congruence.
  intros Ht. rewrite Hb; [auto|]. by rewrite Ha.
Qed.

(** Writing a new version of one execution moves every execution forward. *)
Lemma with_execution_evolves sp q e0 e' p e :
  inv sp → sp_executions sp !! q = Some e0 → exec_evolves e0 e' →
  sp_executions sp !! p = Some e →
  ∃ e'', sp_executions (with_execution e' sp) !! p = Some e'' ∧ exec_evolves e e''.
Proof.
  intros Hinv Hq Hev Hp. simpl. pose proof (inv_exec_key _ Hinv _ _ Hq) as ->.
  destruct Hev as (Ht & Hi & Hev). rewrite Ht, Hi.
  destruct (decide (p = (e0.(Execution.TenantID), e0.(Execution.ID)))) as [->|Hne].
  - rewrite lookup_insert_eq. assert (e0 = e) as -> by congruence.
    exists e'. split; [done|]. unfold exec_evolves. tauto.
  - rewrite lookup_insert_ne by done. eauto using exec_evolves_refl.
Qed.

Lemma live_evolves e e' :
  IsTerminal e.(Execution.Status) = false →
  e'.(Execution.TenantID) = e.(Execution.TenantID) → e'.(Execution.ID) = e.(Execution.ID) →
  e'.(Execution.ScheduleID) = e.(Execution.ScheduleID) →
  e'.(Execution.ScheduledFor) = e.(Execution.ScheduledFor) →
  e'.(Execution.IdempotencyKey) = e.(Execution.IdempotencyKey) → exec_evolves e e'.
Proof. intros H. by repeat split; [..|rewrite H]. Qed.

Lemma step_execution at_ c sp r sp' p e :
  spec_step at_ c sp r sp' → inv sp → sp_executions sp !! p = Some e → ¬ reclaims c p →
  ∃ e', sp_executions sp' !! p = Some e' ∧ exec_evolves e e'.
Proof.
  intros Hstep Hinv Hp Hre.
  assert (∃ e', sp_executions sp !! p = Some e' ∧ exec_evolves e e') as Hsame
    by eauto using exec_evolves_refl.
  step_cases Hstep; try exact Hsame.
  - simpl in *. rewrite lookup_insert_ne by done. done.
  - eapply (with_execution_evolves _ _ e0); [done..| |done]. apply live_evolves; [by rewrite H4|done..].
  - eapply (with_execution_evolves (with_attempt a sp) _ e0); [|done| |done].
    + apply inv_with_attempt; [done..|]. simpl. by rewrite H1.
    + apply live_evolves; [by rewrite H2|done..].
  - eapply (with_execution_evolves sp _ e0); [done..| |done]. by apply live_evolves.
  - eapply (with_execution_evolves sp _ e0); [done..| |done]. by apply live_evolves.
Qed.

(** A later version of a schedule: same identity and plan; canceled and
    completed ones are not active again. *)
Definition sched_evolves (s s' : Schedule) : Prop :=
  s'.(Schedule.TenantID) = s.(Schedule.TenantID) ∧ s'.(Schedule.ID) = s.(Schedule.ID)
  ∧ s'.(Schedule.ScheduleType) = s.(Schedule.ScheduleType)
  ∧ s'.(Schedule.FirstRunAt) = s.(Schedule.FirstRunAt)
  ∧ s'.(Schedule.Recurrence) = s.(Schedule.Recurrence)
  ∧ s'.(Schedule.Timezone) = s.(Schedule.Timezone)
  ∧ s'.(Schedule.CatchUpPolicy) = s.(Schedule.CatchUpPolicy)
  ∧ s'.(Schedule.CreatedAt) = s.(Schedule.CreatedAt)
  ∧ (s.(Schedule.Status) = ScheduleStatusCompleted → s'.(Schedule.Status) = ScheduleStatusCompleted)
  ∧ (s.(Schedule.Status) = ScheduleStatusCanceled →
       s'.(Schedule.Status) = ScheduleStatusCanceled
       ∨ s'.(Schedule.Status) = ScheduleStatusCompleted
         ∧ s.(Schedule.ScheduleType) ≠ ScheduleTypeRecurring).

Lemma sched_evolves_refl s : sched_evolves s s.
Proof. repeat split; auto. Qed.

Lemma advanced_evolves e s s' : advanced e s s' → sched_evolves s s'.
Proof. intros [o Ht Hs _|Ht Hs|Ht]; repeat split; simpl; auto. Qed.

Lemma with_schedule_evolves sp q s0 s' p s :
  inv sp → sp_schedules sp !! q = Some s0 → sched_evolves s0 s' →
  sp_schedules sp !! p = Some s →
  ∃ s'', sp_schedules (with_schedule s' sp) !! p = Some s'' ∧ sched_evolves s s''.
Proof.
  intros Hinv Hq Hev Hp. simpl. pose proof (inv_sched_key _ Hinv _ _ Hq) as ->.
  pose proof Hev as (Ht & Hi & _). rewrite Ht, Hi.
  destruct (decide (p = (s0.(Schedule.TenantID), s0.(Schedule.ID)))) as [->|Hne].
  - rewrite lookup_insert_eq. assert (s0 = s) as -> by congruence. eauto.
  - rewrite lookup_insert_ne by done. eauto using sched_evolves_refl.
Qed.

Lemma step_schedule at_ c sp r sp' p s :
  spec_step at_ c sp r sp' → inv sp → sp_schedules sp !! p = Some s →
  ∃ s', sp_schedules sp' !! p = Some s' ∧ sched_evolves s s'.
Proof.
  intros Hstep Hinv Hp.
  assert (∃ s', sp_schedules sp !! p = Some s' ∧ sched_evolves s s') as Hsame
    by eauto using sched_evolves_refl.
  step_cases Hstep; try exact Hsame.
  - simpl in *. rewrite lookup_insert_ne by congruence. done.
  - eapply (with_schedule_evolves _ _ s0); [done..| |done].
    destruct H3 as (?&?&Hs&?&?&?&?&?&?&?). repeat split; try done; by rewrite Hs; auto.
  - eapply (with_schedule_evolves _ _ s0); [done..| |done]. repeat split; simpl; auto; congruence.
  - eapply (with_schedule_evolves _ _ s0); [done..| |done]. repeat split; simpl; auto; congruence.
  - eapply (with_schedule_evolves _ _ s0); [done..| |done]. repeat split; simpl; auto; congruence.
  - eapply (with_schedule_evolves (with_execution e' sp) _ s0); [|done|by eapply advanced_evolves|done].
    eapply inv_update_execution; try done. apply finalized_inv; [done..|]. by eapply inv_executions.
  - eapply (with_schedule_evolves (with_execution e' sp) _ s0); [|done|by eapply advanced_evolves|done].
    eapply inv_update_execution; try done. apply finalized_inv; [done..|]. by eapply inv_executions.
Qed.

(** ** Isolation *)

(** The tenant a command names; [create_tenant] touches no tenant's rows. *)
Definition command_tenant (c : command) : option string :=
  match c with
  | create_tenant _ => None
  | create_schedule c => Some c.(CreateScheduleCommand.TenantID)
  | update_schedule c => Some c.(UpdateScheduleCommand.TenantID)
  | pause_schedule c => Some c.(PauseScheduleCommand.TenantID)
  | cancel_schedule c => Some c.(CancelScheduleCommand.TenantID)
  | resume_schedule c => Some c.(ResumeScheduleCommand.TenantID)
  | claim_execution c => Some c.(ClaimExecutionCommand.TenantID)
  | adopt_execution c => Some c.(AdoptExecutionCommand.TenantID)
  | record_attempt c => Some c.(RecordAttemptCommand.TenantID)
  | complete_execution c => Some c.(CompleteExecutionCommand.TenantID)
  | fail_execution_timeout c => Some c.(FailExecutionTimeoutCommand.TenantID)
  end.

(** The rows of tenant [t] are the same in both stores. *)
Definition same_rows (t : string) (sp sp' : Spec) : Prop :=
  (∀ i, sp_schedules sp' !! (t, i) = sp_schedules sp !! (t, i))
  ∧ (∀ i, sp_executions sp' !! (t, i) = sp_executions sp !! (t, i))
  ∧ (∀ i, sp_attempts sp' !! (t, i) = sp_attempts sp !! (t, i)).

Lemma step_isolated at_ c sp r sp' t :
  spec_step at_ c sp r sp' → inv sp → command_tenant c ≠ Some t → same_rows t sp sp'.
Proof.
  intros Hstep Hinv Ht.
  step_cases Hstep;
    simpl in Ht; try done;
    try (match goal with H : sp_schedules _ !! _ = Some _ |- _ =>
           pose proof (inv_sched_key _ Hinv _ _ H) as Hsk end);
    try (match goal with H : sp_executions _ !! _ = Some _ |- _ =>
           pose proof (inv_exec_key _ Hinv _ _ H) as Hek end);
    try (match goal with H : advanced _ _ _ |- _ => apply advanced_identity in H as [? ?] end);
    unfold same_lifecycle in *;
    repeat split; intros i; simpl; rewrite ?lookup_insert_ne; try done;
    intros [=]; simplify_eq/=; try congruence; naive_solver congruence.
Qed.

Lemma step_tenants at_ c sp r sp' i t :
  spec_step at_ c sp r sp' → sp_tenants sp !! i = Some t → sp_tenants sp' !! i = Some t.
Proof.
  intros Hstep Ht. destruct Hstep as [c sp H1 H2 H3| | | | | | | | | | | | |]; try exact Ht.
  simpl. rewrite lookup_insert_ne; [done|]. intros <-. simpl in Ht. congruence.
Qed.
End steps.
