(* ===== verification/Refinement.v ===== *)
(** * Refinement: boltTx implements the abstract store

    [R d sp]: the eight buckets of [d] hold the rows of [sp] under their
    composite keys, and the four indexes hold exactly one key per row.  The
    composite keys decode uniquely because identifiers are free of colons.
    Every operation of [boltTx] is related to the one of [specTx]. *)

From S2P Require Import Prelude Go GoTime Model Bolt Json Storage Spec.
Open Scope Z_scope.

(** ** Identifiers and keys *)

(** No colon, and short enough for three of them to fit in a bbolt key. *)
Definition good_id (s : string) : Prop :=
  no_colon s = true ∧ Z.of_nat (String.length s) ≤ 8192.

#[global] Instance good_id_dec s : Decision (good_id s).
Proof. unfold good_id. apply _. Defined.

Lemma length_append (a b : string) :
  String.length (a +:+ b) = (String.length a + String.length b)%nat.
Proof. induction a as [|c a IH]; [done|]. rewrite append_cons. simpl. by rewrite IH. Qed.

Definition key2 (t i : string) : string := t +:+ ":" +:+ i.
Definition key3 (t v i : string) : string := t +:+ ":" +:+ v +:+ ":" +:+ i.

Lemma key2_ok t i : good_id t → good_id i → key_ok (key2 t i).
Proof.
  intros [_ Ht] [_ Hi]. unfold key_ok, key2, MaxKeySize.
  rewrite !length_append. simpl. lia.
Qed.

Lemma key3_ok t v i : good_id t → good_id v → good_id i → key_ok (key3 t v i).
Proof.
  intros [_ Ht] [_ Hv] [_ Hi]. unfold key_ok, key3, MaxKeySize.
  rewrite !length_append. simpl. lia.
Qed.

Lemma key2_inj t i t' i' :
  no_colon t = true → no_colon t' = true → key2 t i = key2 t' i' → t = t' ∧ i = i'.
Proof. apply no_colon_split. Qed.

Lemma key3_inj t v i t' v' i' :
  no_colon t = true → no_colon t' = true → no_colon v = true → no_colon v' = true →
  key3 t v i = key3 t' v' i' → t = t' ∧ v = v' ∧ i = i'.
Proof.
  unfold key3. intros Ht Ht' Hv Hv' [-> H]%no_colon_split; [|done..].
  by apply no_colon_split in H as [-> ->].
Qed.

(** A three-part key under the prefix of two given parts. *)
Lemma key3_prefix t v t' v' i :
  no_colon t = true → no_colon t' = true → no_colon v = true → no_colon v' = true →
  String.prefix (t +:+ ":" +:+ v +:+ ":") (key3 t' v' i) = true → t = t' ∧ v = v'.
Proof.
  intros Ht Ht' Hv Hv' [r Hr]%prefix_spec. unfold key3 in Hr.
  rewrite !append_assoc in Hr. apply no_colon_split in Hr as [-> Hr]; [|done..].
  by apply no_colon_split in Hr as [-> _].
Qed.

Lemma key3_split t v i : key3 t v i = (t +:+ ":" +:+ v +:+ ":") +:+ i.
Proof. unfold key3. by rewrite !append_assoc. Qed.

Section tables.
Context `{B : !Bolt, BL : !BoltLaws B, J : !Json}.

(** ** A bucket of rows holds a table *)

Section table.
Context {Row : Type} `{!Rows Row} `{C : !RowCodec jbytes Row} `{!CodecLaws Row C}.
Implicit Types (b : bucket jbytes) (m : gmap (string * string) Row).

Definition tbl b m : Prop :=
  (∀ k raw, bucket_get b k = Some raw →
     ∃ t i x, k = key2 t i ∧ m !! (t, i) = Some x ∧ Unmarshal raw = Ok x) ∧
  (∀ t i x, m !! (t, i) = Some x →
     ∃ raw, bucket_get b (key2 t i) = Some raw ∧ Unmarshal raw = Ok x).

Definition tenants_ok m : Prop := ∀ t i x, m !! (t, i) = Some x → no_colon t = true.

Lemma tbl_empty : tbl bucket_empty ∅.
Proof.
  split.
  - intros k raw. by rewrite bucket_get_empty.
  - intros t i x. by rewrite lookup_empty.
Qed.

Lemma tbl_get b m t i :
  tbl b m → tenants_ok m → no_colon t = true →
  match bucket_get b (key2 t i) with
  | Some raw => ∃ x, m !! (t, i) = Some x ∧ Unmarshal raw = Ok x
  | None => m !! (t, i) = None
  end.
Proof.
  intros [H1 H2] Hok Ht. destruct (bucket_get b (key2 t i)) as [raw|] eqn:E.
  - destruct (H1 _ _ E) as (t' & i' & x & Hk & Hx & Hu).
    apply key2_inj in Hk as [-> ->]; eauto.
  - destruct (m !! (t, i)) as [x|] eqn:Ex; [|done].
    destruct (H2 _ _ _ Ex) as (raw & Hraw & _). congruence.
Qed.

Lemma get_row_spec (r : bucket_ref jbytes) d m t i :
  tbl (ref_get r d) m → tenants_ok m → no_colon t = true →
  get_row r (key2 t i) d = (Ok (m !! (t, i)), d).
Proof.
  intros Ht Hok Hn. pose proof (tbl_get _ _ t i Ht Hok Hn) as H.
  unfold get_row, mbind, M_bind, Get; simpl.
  destruct (bucket_get (ref_get r d) (key2 t i)) as [raw|]; [|by rewrite H].
  destruct H as (x & -> & Hu). unfold lift. by rewrite Hu.
Qed.

Lemma tbl_put b b' m t i x raw :
  tbl b m → tenants_ok m → no_colon t = true →
  Unmarshal raw = Ok x → bucket_put b (key2 t i) raw = Ok b' →
  tbl b' (<[(t, i) := x]> m).
Proof.
  intros [H1 H2] Hok Hn Hu Hput. split.
  - intros k raw'. rewrite (bucket_get_put _ _ _ _ _ _ Hput). case_decide as Hk; subst.
    + intros [= <-]. exists t, i, x. by rewrite lookup_insert_eq.
    + intros (t' & i' & y & -> & Hy & Hu')%H1. exists t', i', y.
      rewrite lookup_insert_ne by congruence. done.
  - intros t' i' y. rewrite (bucket_get_put _ _ _ _ _ _ Hput).
    destruct (decide ((t', i') = (t, i))) as [[= -> ->]|Hne].
    + rewrite lookup_insert_eq. intros [= <-]. exists raw. by rewrite decide_True.
    + rewrite lookup_insert_ne by done. intros Hy. rewrite decide_False; [by apply H2|].
      intros [-> ->]%key2_inj; [done| |done]. by eapply Hok.
Qed.

(** ** An index holds one key per row *)

Definition idx (b : bucket unit) m (f : Row → string) : Prop :=
  ∀ k, is_Some (bucket_get b k) ↔ ∃ p x, m !! p = Some x ∧ f x = k.

Lemma idx_empty f : idx bucket_empty ∅ f.
Proof.
  intros k. rewrite bucket_get_empty. split; [by intros [? ?]|].
  intros (p & x & H & _). by rewrite lookup_empty in H.
Qed.

(** Replacing a row: the old key goes, the new one comes. *)
Lemma idx_replace (b b1 b2 : bucket unit) m f p x :
  idx b m f →
  (∀ q y z, m !! q = Some y → z = x ∨ m !! p = Some z → f y = f z → q = p) →
  match m !! p with
  | Some old => bucket_delete b (f old) = Ok b1
  | None => b1 = b
  end →
  bucket_put b1 (f x) () = Ok b2 →
  idx b2 (<[p := x]> m) f.
Proof.
  intros Hidx Hinj Hdel Hput k.
  assert (is_Some (bucket_get b2 k) ↔ k = f x ∨ is_Some (bucket_get b1 k)) as ->.
  { rewrite (bucket_get_put _ _ _ _ _ _ Hput). case_decide; [|naive_solver].
    split; [by left|eauto]. }
  assert (is_Some (bucket_get b1 k) ↔ ∃ q y, q ≠ p ∧ m !! q = Some y ∧ f y = k) as ->.
  { destruct (m !! p) as [old|] eqn:Eold.
    - rewrite (bucket_get_delete _ _ _ _ _ Hdel). case_decide as Hk.
      + split; [by intros [? ?]|]. intros (q & y & Hq & Hy & Hf). exfalso.
        apply Hq. eapply Hinj; [done|by right|congruence].
      + rewrite (Hidx k). split; intros (q & y & H); [|naive_solver].
        exists q, y. destruct H as [H1 H2]. split; [|done]. intros ->. congruence.
    - subst b1. rewrite (Hidx k). split; intros (q & y & H); [|naive_solver].
      exists q, y. destruct H as [H1 H2]. split; [|done]. intros ->. congruence. }
  split.
  - intros [->|(q & y & Hq & Hy & Hf)].
    + exists p, x. by rewrite lookup_insert_eq.
    + exists q, y. by rewrite lookup_insert_ne.
  - intros (q & y & Hy & Hf). destruct (decide (q = p)) as [->|Hne].
    + rewrite lookup_insert_eq in Hy. simplify_eq. by left.
    + rewrite lookup_insert_ne in Hy by done. right. eauto.
Qed.

(** Replacing a row that keeps its index key, without deleting first. *)
Lemma idx_same (b b2 : bucket unit) m f p x :
  idx b m f →
  match m !! p with Some old => f old = f x | None => True end →
  bucket_put b (f x) () = Ok b2 →
  idx b2 (<[p := x]> m) f.
Proof.
  intros Hidx Hold Hput k. rewrite (bucket_get_put _ _ _ _ _ _ Hput). case_decide as Hk.
  - subst. split; [|by eauto]. intros _. exists p, x. by rewrite lookup_insert_eq.
  - rewrite (Hidx k). split; intros (q & y & Hy & Hf).
    + exists q, y. split; [|done]. rewrite lookup_insert_ne; [done|]. intros <-.
      rewrite Hy in Hold. congruence.
    + destruct (decide (q = p)) as [->|Hne].
      * rewrite lookup_insert_eq in Hy. naive_solver.
      * rewrite lookup_insert_ne in Hy by done. eauto.
Qed.
End table.
End tables.
