(* ===== verification/RefinementScan.v ===== *)
(** * RefinementScan: prefix scans and pages list exactly the matching rows

    A three-part index keyed [tenant:value:id] is scanned under the prefix
    [tenant:value:].  The scan visits the rows of the table with that tenant
    and value, once each, in the order of their identifiers. *)

From S2P Require Import Prelude Go GoTime Model Bolt Json Storage Spec Refinement.
Open Scope Z_scope.

Section scans.
Context `{B : !Bolt, BL : !BoltLaws B, J : !Json}.
Context {Row : Type} (ten val idOf : Row → string).

Definition index_key (x : Row) : string := key3 (ten x) (val x) (idOf x).

(** Rows sit under their own tenant and identifier, free of colons. *)
Definition keyed (m : gmap (string * string) Row) : Prop :=
  ∀ p x, m !! p = Some x →
    p = (ten x, idOf x) ∧ no_colon (ten x) = true ∧ no_colon (val x) = true.

Definition matches (t v : string) (x : Row) : bool :=
  bool_decide (ten x = t) && bool_decide (val x = v).

Lemma matches_true t v x : matches t v x = true ↔ ten x = t ∧ val x = v.
Proof. unfold matches. by rewrite andb_true_iff, !bool_decide_eq_true. Qed.

Lemma rows_nodup (m : gmap (string * string) Row) t (P : Row → bool) :
  (∀ p x, m !! p = Some x → p = (ten x, idOf x)) → (∀ x, P x = true → ten x = t) →
  NoDup (idOf <$> filter (λ x, P x = true) ((map_to_list m).*2)).
Proof.
  intros Hk HP. apply NoDup_fmap_2_strong.
  - intros x y [Hx1 Hx2]%list_elem_of_filter [Hy1 Hy2]%list_elem_of_filter Heq.
    apply list_elem_of_fmap in Hx2 as ([p x'] & -> & Hx2), Hy2 as ([q y'] & -> & Hy2).
    simpl in *. apply elem_of_map_to_list in Hx2, Hy2.
    rewrite (Hk _ _ Hx2) in Hx2. rewrite (Hk _ _ Hy2) in Hy2.
    rewrite (HP _ Hx1) in Hx2. rewrite (HP _ Hy1), <- Heq in Hy2. congruence.
  - apply NoDup_filter, NoDup_fmap_2_strong; [|apply NoDup_map_to_list].
    intros [p x] [q y] Hx%elem_of_map_to_list Hy%elem_of_map_to_list; simpl in *.
    intros ->. by rewrite (Hk _ _ Hx), (Hk _ _ Hy).
Qed.

Lemma rows_where_strict m t (P : Row → bool) :
  keyed m → (∀ x, P x = true → ten x = t) →
  StronglySorted (λ x y, str_lt (idOf x) (idOf y)) (rows_where idOf P m).
Proof.
  intros Hk HP. unfold rows_where. apply sorted_rows_strict. eapply rows_nodup; [|exact HP].
  intros p x Hx. by apply Hk.
Qed.

Lemma sorted_fmap {A C} (f : A → C) (R1 : relation A) (R2 : relation C) l :
  (∀ x y, R1 x y → R2 (f x) (f y)) → StronglySorted R1 l → StronglySorted R2 (f <$> l).
Proof.
  intros HR. induction 1 as [|x l HS IH HF]; [constructor|].
  rewrite fmap_cons. constructor; [done|]. rewrite Forall_fmap.
  eapply Forall_impl; [done|]. intros y Hy. by apply HR.
Qed.

(** The keys of the index under a prefix are those of the matching rows. *)
Lemma index_keys (b : bucket unit) m t v :
  idx b m index_key → keyed m → no_colon t = true → no_colon v = true →
  (filter (λ e : string * unit, String.prefix (t +:+ ":" +:+ v +:+ ":") e.1 = true)
     (bucket_entries b)).*1
  = (λ x, (t +:+ ":" +:+ v +:+ ":") +:+ idOf x) <$> rows_where idOf (matches t v) m.
Proof.
  intros Hidx Hk Ht Hv. set (p := t +:+ ":" +:+ v +:+ ":").
  apply (sorted_ext str_lt).
  - eapply sorted_fmap; [|apply StronglySorted_filter, bucket_entries_sorted]. done.
  - eapply sorted_fmap; [|eapply (rows_where_strict m t); [done|]].
    + intros x y. apply str_lt_app.
    + intros x Hx%matches_true. by destruct Hx.
  - intros k. rewrite !list_elem_of_fmap. split.
    + intros ([k' []] & -> & [Hp He]%list_elem_of_filter). simpl in *.
      apply elem_of_bucket_entries in He.
      destruct (proj1 (Hidx k')) as (q & x & Hx & <-); [eauto|].
      destruct (Hk _ _ Hx) as (Hq & Hnt & Hnv).
      destruct (key3_prefix t v (ten x) (val x) (idOf x)) as [-> ->]; [done..|].
      exists x. split; [apply key3_split|]. apply elem_of_rows_where.
      split; [by apply matches_true|eauto].
    + intros (x & -> & [[<- <-]%matches_true [q Hx]]%elem_of_rows_where).
      destruct (proj2 (Hidx (index_key x))) as [[] He]; [eauto|].
      exists (index_key x, ()). split; [symmetry; apply key3_split|].
      apply list_elem_of_filter. split; [|by apply elem_of_bucket_entries].
      simpl. unfold index_key. rewrite key3_split. apply prefix_app.
Qed.

(** ** Unpaginated scans *)

Section iterate.
Context {A : Type} (fn : A → Row → A * option error).

Lemma scan_take p get missing (c : list (string * unit)) (acc : A) d :
  scan (Row := Row) p get missing fn c acc d
  = scan p get missing fn (take_while (λ e, String.prefix p e.1) c) acc d.
Proof.
  revert acc d. induction c as [|[k u] c IH]; intros acc d; [done|]. simpl.
  destruct (String.prefix p k) eqn:E; [|done]. simpl. rewrite E.
  destruct (get (strip_prefix p k) d) as [[[x|]|?|?] ?]; try done.
  destruct (fn acc x) as [? [?|]]; [done|]. apply IH.
Qed.

Lemma scan_rows p get missing (ks : list (string * unit)) rows (acc : A) d :
  ks.*1 = (λ x, p +:+ idOf x) <$> rows →
  (∀ x, x ∈ rows → get (idOf x) d = (Ok (Some x), d)) →
  scan p get missing fn ks acc d = (Ok (iter fn acc rows), d).
Proof.
  revert rows acc. induction ks as [|[k u] ks IH]; intros [|x rows] acc Hks Hget; try done.
  simpl in Hks. injection Hks as -> Hks. simpl. rewrite prefix_app, strip_prefix_app.
  rewrite Hget by set_solver. destruct (fn acc x) as [acc' [e|]]; [done|].
  apply IH; [done|]. intros y Hy. apply Hget. set_solver.
Qed.

Lemma scan_prefix_spec (ix : DB → bucket unit) m t v get missing (acc : A) d :
  idx (ix d) m index_key → keyed m → no_colon t = true → no_colon v = true →
  (∀ x, x ∈ rows_where idOf (matches t v) m → get (idOf x) d = (Ok (Some x), d)) →
  scan_prefix ix (t +:+ ":" +:+ v +:+ ":") get missing fn acc d
  = (Ok (iter fn acc (rows_where idOf (matches t v) m)), d).
Proof.
  intros Hidx Hk Ht Hv Hget. unfold scan_prefix, cursor_seek.
  rewrite scan_take, prefix_scan by apply bucket_entries_sorted.
  by apply scan_rows; [apply index_keys|].
Qed.
End iterate.

(** A callback that skips some rows iterates over the others. *)
Lemma iter_skip {A} (skip : Row → bool) (fn : A → Row → A * option error) acc rows :
  iter (λ acc x, if skip x then (acc, None) else fn acc x) acc rows
  = iter fn acc (filter (λ x, skip x = false) rows).
Proof.
  revert acc. induction rows as [|x rows IH]; intros acc; [done|]. rewrite filter_cons. simpl.
  destruct (skip x) eqn:E.
  - rewrite decide_False by done. apply IH.
  - rewrite decide_True by done. simpl. destruct (fn acc x) as [? [?|]]; [done|]. apply IH.
Qed.

#[local] Instance id_lt_irrefl : Irreflexive (λ x y : Row, str_lt (idOf x) (idOf y)).
Proof. intros x. apply (irreflexivity str_lt). Qed.
#[local] Instance id_lt_trans : Transitive (λ x y : Row, str_lt (idOf x) (idOf y)).
Proof. intros x y z. apply (transitivity (R := str_lt)). Qed.

(** Filtering an ordered listing is listing with the stronger test. *)
Lemma filter_rows_where m t (P Q : Row → bool) :
  keyed m → (∀ x, P x = true → ten x = t) →
  filter (λ x, Q x = true) (rows_where idOf P m) = rows_where idOf (λ x, P x && Q x) m.
Proof.
  intros Hk HP. apply (sorted_ext (λ x y, str_lt (idOf x) (idOf y))).
  - apply StronglySorted_filter. by eapply rows_where_strict.
  - eapply rows_where_strict; [done|]. intros x Hx. apply andb_true_iff in Hx as [? ?]. auto.
  - intros x. rewrite list_elem_of_filter, !elem_of_rows_where, andb_true_iff. tauto.
Qed.

(** ** Pages *)

(** The loop collects the rows its entries stand for, up to the limit. *)
Lemma page_scan_rows {V} limit inPage (get : string → V → M DB Row) c rows got d :
  Forall2 (λ e x, inPage e.1 = true ∧ get e.1 e.2 d = (Ok x, d)) c rows →
  Z.of_nat (length got) ≤ limit →
  page_scan limit inPage get idOf c got d
  = (let n := (Z.to_nat limit - length got)%nat in
     (Ok (got ++ take n rows,
          if (n <? length rows)%nat then last_id idOf (got ++ take n rows) else ""), d)).
Proof.
  intros H. revert got. induction H as [|[k v] x c rows [Hin Hget] H IH]; intros got Hlen; simpl.
  - by rewrite take_nil, app_nil_r.
  - simpl in *. rewrite Hin. destruct (Z.eqb_spec (Z.of_nat (length got)) limit) as [<-|Hne].
    + rewrite Nat2Z.id, Nat.sub_diag. simpl. by rewrite app_nil_r.
    + rewrite (M_bind_ok _ _ _ _ _ Hget), IH by (rewrite length_app; simpl; lia).
      rewrite length_app. simpl length.
      assert (Z.to_nat limit - length got = S (Z.to_nat limit - (length got + 1)))%nat as -> by lia.
      simpl. by rewrite <- !(assoc_L app).
Qed.

(** Past the key a cursor names, a sorted list continues with what exceeds it. *)
Lemma seek_after {V} (cursor s : string) (l : list (string * V)) :
  cursor ≠ "" → StronglySorted (λ x y, str_lt x.1 y.1) l →
  skip_cursor cursor s (drop_while (λ e, String.ltb e.1 s) l) = filter (λ e, str_lt s e.1) l.
Proof.
  intros Hc. induction 1 as [|[k v] l HS IH HF]; [done|].
  rewrite filter_cons. simpl. destruct (String.ltb k s) eqn:E.
  - rewrite decide_False; [done|]. intros H. apply (irreflexivity str_lt k). by etrans.
  - assert (∀ y, y ∈ l → str_lt k y.1) as Hall by (by apply Forall_forall).
    assert (filter (λ e, str_lt s e.1) l = l) as Hl.
    { apply filter_id. intros y Hy.
      destruct (str_lt_total s k) as [H|[->|H]]; [etrans; [done|]; auto|auto|].
      unfold str_lt in H. congruence. }
    simpl. case_bool_decide as Hk.
    + destruct Hk as [_ ->]. by rewrite decide_False by apply irreflexivity, _.
    + rewrite decide_True, Hl; [done|].
      destruct (str_lt_total s k) as [H|[->|H]]; [done|naive_solver|].
      unfold str_lt in H. congruence.
Qed.

Lemma filter_fst {V C} (f : C → string) (Q : string → Prop) `{!∀ k, Decision (Q k)}
    (l : list (string * V)) (rows : list C) :
  l.*1 = f <$> rows → (filter (λ e, Q e.1) l).*1 = f <$> filter (λ x, Q (f x)) rows.
Proof.
  revert rows. induction l as [|[k v] l IH]; intros [|x rows] [=]; [done|]. subst.
  rewrite !filter_cons. simpl. case_decide; [|by apply IH]. rewrite !fmap_cons. simpl.
  f_equal. by apply IH.
Qed.

Lemma page_scan_take {V} limit p (get : string → V → M DB Row) c got d :
  page_scan limit (String.prefix p) get idOf c got d
  = page_scan limit (String.prefix p) get idOf (take_while (λ e, String.prefix p e.1) c) got d.
Proof.
  revert got d. induction c as [|[k v] c IH]; intros got d; [done|]. simpl.
  destruct (String.prefix p k) eqn:E; [|done]. simpl. rewrite E.
  destruct (_ =? _); [done|]. unfold mbind, M_bind.
  destruct (get k v d) as [[x|?|?] d']; [apply IH|done..].
Qed.

(** The entries a page visits are those of the rows beyond the cursor. *)
Lemma page_entries (b : bucket unit) m t v cursor :
  let p := t +:+ ":" +:+ v +:+ ":" in
  let startKey := if bool_decide (cursor ≠ "") then p +:+ cursor else p in
  idx b m index_key → keyed m → no_colon t = true → no_colon v = true →
  (take_while (λ e, String.prefix p e.1)
     (skip_cursor cursor startKey (cursor_seek b startKey))).*1
  = (λ x, p +:+ idOf x) <$>
    (if bool_decide (cursor = "") then rows_where idOf (matches t v) m
     else filter (λ x, str_lt cursor (idOf x)) (rows_where idOf (matches t v) m)).
Proof.
  intros p startKey Hidx Hk Ht Hv.
  pose proof (index_keys b m t v Hidx Hk Ht Hv) as Hkeys. fold p in Hkeys.
  assert (StronglySorted (λ x y, str_lt x.1 y.1) (bucket_entries b)) as HS
    by apply bucket_entries_sorted.
  subst startKey. unfold cursor_seek. destruct (decide (cursor = "")) as [->|Hc].
  - rewrite bool_decide_false by naive_solver. rewrite bool_decide_true by done.
    rewrite <- Hkeys, <- prefix_scan by done.
    f_equal. f_equal. destruct (drop_while _ _) as [|[k u] c]; [done|].
    unfold skip_cursor. by rewrite bool_decide_false by naive_solver.
  - rewrite bool_decide_true by done. rewrite bool_decide_false by done.
    rewrite seek_after by done.
    assert (take_while (λ e, String.prefix p e.1)
              (filter (λ e, str_lt (p +:+ cursor) e.1) (bucket_entries b))
            = filter (λ e, String.prefix p e.1 = true)
                (filter (λ e, str_lt (p +:+ cursor) e.1) (bucket_entries b))) as ->.
    { rewrite <- prefix_scan by (by apply StronglySorted_filter). f_equal.
      rewrite drop_while_none; [done|]. intros [k u] [Hlt _]%list_elem_of_filter. simpl in *.
      apply not_true_is_false. intros H. apply (prefix_not_lt p (p +:+ cursor)).
      - apply prefix_app.
      - by etrans. }
    rewrite filter_swap, (filter_fst (λ x, p +:+ idOf x) _ _ _ Hkeys). f_equal.
    apply list_filter_iff. intros x. apply str_lt_app.
Qed.

Lemma index_page_spec (ix : DB → bucket unit) m t v get missing limit cursor d :
  idx (ix d) m index_key → keyed m → no_colon t = true → no_colon v = true →
  (∀ x, x ∈ rows_where idOf (matches t v) m → get (idOf x) d = (Ok (Some x), d)) →
  index_page ix (t +:+ ":" +:+ v +:+ ":") get missing idOf limit cursor d
  = (Ok (page idOf limit cursor (rows_where idOf (matches t v) m)), d).
Proof.
  intros Hidx Hk Ht Hv Hget. unfold index_page, page.
  destruct (Z.leb_spec limit 0) as [|Hpos]; [done|].
  rewrite page_scan_take.
  pose proof (page_entries (ix d) m t v cursor Hidx Hk Ht Hv) as Hent. simpl in Hent.
  set (rest := if bool_decide (cursor = "") then _ else _) in *.
  assert (∀ x, x ∈ rest → get (idOf x) d = (Ok (Some x), d)) as Hrest.
  { intros x Hx. apply Hget. subst rest. case_bool_decide; [done|].
    by apply list_elem_of_filter in Hx as [_ ?]. }
  erewrite page_scan_rows with (rows := rest); [|clear -Hent Hrest|simpl; lia].
  - by rewrite Nat.sub_0_r.
  - set (c := take_while _ _) in *. clearbody c rest.
    revert rest Hent Hrest. induction c as [|[k u] c IH]; intros [|x rest] [=] Hrest; [done|].
    subst. constructor; [|apply IH; [done|set_solver]]. simpl.
    rewrite prefix_app, strip_prefix_app. split; [done|].
    by rewrite (M_bind_ok _ _ _ _ _ (Hrest x ltac:(set_solver))).
Qed.

End scans.
