(* ===== verification/RefinementTx.v ===== *)
(** * RefinementTx: every operation of boltTx implements the one of specTx

    [R d sp]: the eight buckets of [d] hold the rows of [sp] and nothing else,
    and every row of [sp] sits under its own tenant and identifier.  Under [R]
    a read of [boltTx] returns what the read of [specTx] returns, and a write
    either fails as that of [specTx] does or re-establishes [R]. *)

From S2P Require Import Prelude Go GoTime Model Bolt Json Storage Spec Refinement RefinementScan.
Open Scope Z_scope.

Section invariant.
Context `{J : !Json}.

(** ** Rows the composite keys and JSON can carry *)

Record schedule_ok (s : Schedule) : Prop := {
  so_tenant : good_id s.(Schedule.TenantID);
  so_id : good_id s.(Schedule.ID);
  so_status : good_id s.(Schedule.Status);
  so_clean : clean s
}.

Record execution_ok (e : Execution) : Prop := {
  eo_tenant : good_id e.(Execution.TenantID);
  eo_id : good_id e.(Execution.ID);
  eo_schedule : good_id e.(Execution.ScheduleID);
  eo_status : good_id e.(Execution.Status);
  eo_clean : clean e
}.

Record attempt_ok (a : Attempt) : Prop := {
  ao_tenant : good_id a.(Attempt.TenantID);
  ao_id : good_id a.(Attempt.ID);
  ao_execution : good_id a.(Attempt.ExecutionID);
  ao_clean : clean a
}.

Record tenant_ok (t : Tenant) : Prop := {
  to_id : key_ok t.(Tenant.ID);
  to_clean : clean t
}.

(** Every row of the abstract store is such a row, under its own key. *)
Record wf (sp : Spec) : Prop := {
  wf_schedules : ∀ p s, sp_schedules sp !! p = Some s →
    p = (s.(Schedule.TenantID), s.(Schedule.ID)) ∧ schedule_ok s;
  wf_executions : ∀ p e, sp_executions sp !! p = Some e →
    p = (e.(Execution.TenantID), e.(Execution.ID)) ∧ execution_ok e;
  wf_attempts : ∀ p a, sp_attempts sp !! p = Some a →
    p = (a.(Attempt.TenantID), a.(Attempt.ID)) ∧ attempt_ok a;
  wf_tenants : ∀ i t, sp_tenants sp !! i = Some t → i = t.(Tenant.ID) ∧ tenant_ok t
}.
End invariant.

Section relation.
Context `{B : !Bolt, BL : !BoltLaws B, J : !Json, JL : !JsonLaws J}.

(** The tenants bucket is keyed by the identifier alone. *)
Definition ttbl (b : bucket jbytes) (m : gmap string Tenant) : Prop :=
  ∀ k, match bucket_get b k, m !! k with
       | Some raw, Some t => Unmarshal raw = Ok t
       | None, None => True
       | _, _ => False
       end.

Record R (d : DB) (sp : Spec) : Prop := {
  R_wf : wf sp;
  R_schedules : tbl (schedules d) (sp_schedules sp);
  R_executions : tbl (executions d) (sp_executions sp);
  R_attempts : tbl (attempts d) (sp_attempts sp);
  R_tenants : ttbl (tenants d) (sp_tenants sp);
  R_by_schedule : idx (executions_by_schedule d) (sp_executions sp)
    (index_key Execution.TenantID Execution.ScheduleID Execution.ID);
  R_by_status : idx (executions_by_status d) (sp_executions sp)
    (index_key Execution.TenantID Execution.Status Execution.ID);
  R_by_execution : idx (attempts_by_execution d) (sp_attempts sp)
    (index_key Attempt.TenantID Attempt.ExecutionID Attempt.ID);
  R_sched_status : idx (schedules_by_status d) (sp_schedules sp)
    (index_key Schedule.TenantID Schedule.Status Schedule.ID)
}.

Lemma wf_empty : wf emptySpec.
Proof. split; intros ?? H; simpl in H; by rewrite lookup_empty in H. Qed.

Lemma R_empty : R emptyDB emptySpec.
Proof.
  split; [apply wf_empty|apply tbl_empty|apply tbl_empty|apply tbl_empty| |apply idx_empty..].
  intros k. simpl. by rewrite bucket_get_empty, lookup_empty.
Qed.

(** What [wf] says to the lemmas on tables and scans. *)
Lemma wf_tenants_ok_schedules sp : wf sp → tenants_ok (sp_schedules sp).
Proof. intros H t i s Hs. destruct (wf_schedules _ H _ _ Hs) as [[= -> ->] [[? _] _ _ _]]. done. Qed.
Lemma wf_tenants_ok_executions sp : wf sp → tenants_ok (sp_executions sp).
Proof. intros H t i s Hs. destruct (wf_executions _ H _ _ Hs) as [[= -> ->] [[? _] _ _ _ _]]. done. Qed.
Lemma wf_tenants_ok_attempts sp : wf sp → tenants_ok (sp_attempts sp).
Proof. intros H t i s Hs. destruct (wf_attempts _ H _ _ Hs) as [[= -> ->] [[? _] _ _ _]]. done. Qed.

Lemma wf_keyed_schedule sp :
  wf sp → keyed Execution.TenantID Execution.ScheduleID Execution.ID (sp_executions sp).
Proof. intros H p e He. by destruct (wf_executions _ H _ _ He) as [-> [[? _] _ [? _] _ _]]. Qed.
Lemma wf_keyed_status sp :
  wf sp → keyed Execution.TenantID Execution.Status Execution.ID (sp_executions sp).
Proof. intros H p e He. by destruct (wf_executions _ H _ _ He) as [-> [[? _] _ _ [? _] _]]. Qed.
Lemma wf_keyed_attempts sp :
  wf sp → keyed Attempt.TenantID Attempt.ExecutionID Attempt.ID (sp_attempts sp).
Proof. intros H p e He. by destruct (wf_attempts _ H _ _ He) as [-> [[? _] _ [? _] _]]. Qed.
Lemma wf_keyed_schedules sp :
  wf sp → keyed Schedule.TenantID Schedule.Status Schedule.ID (sp_schedules sp).
Proof. intros H p e He. by destruct (wf_schedules _ H _ _ He) as [-> [[? _] _ [? _] _]]. Qed.

#[local] Hint Resolve wf_tenants_ok_schedules wf_tenants_ok_executions wf_tenants_ok_attempts
  wf_keyed_schedule wf_keyed_status wf_keyed_attempts wf_keyed_schedules
  R_wf R_schedules R_executions R_attempts R_by_schedule R_by_status R_by_execution
  R_sched_status : rb.

(** ** Reads *)

Lemma GetSchedule_R d sp t i :
  R d sp → no_colon t = true → bolt_GetSchedule t i d = (Ok (sp_schedules sp !! (t, i)), d).
Proof. intros HR Ht. apply get_row_spec; simpl; eauto with rb. Qed.

Lemma GetExecution_R d sp t i :
  R d sp → no_colon t = true → bolt_GetExecution t i d = (Ok (sp_executions sp !! (t, i)), d).
Proof. intros HR Ht. apply get_row_spec; simpl; eauto with rb. Qed.

Lemma GetAttempt_R d sp t i :
  R d sp → no_colon t = true → bolt_GetAttempt t i d = (Ok (sp_attempts sp !! (t, i)), d).
Proof. intros HR Ht. apply get_row_spec; simpl; eauto with rb. Qed.

Lemma GetTenant_R d sp i : R d sp → bolt_GetTenant i d = (Ok (sp_tenants sp !! i), d).
Proof.
  intros HR. pose proof (R_tenants _ _ HR i) as H.
  unfold bolt_GetTenant, get_row, mbind, M_bind, Get; simpl.
  destruct (bucket_get (tenants d) i) as [raw|], (sp_tenants sp !! i) as [x|]; try done.
  unfold lift. by rewrite H.
Qed.

(** A listed row is found again by the read the scan makes. *)
Lemma get_listed_execution d sp t v (val : Execution → string) e :
  R d sp → no_colon t = true →
  e ∈ rows_where Execution.ID (matches Execution.TenantID val t v) (sp_executions sp) →
  bolt_GetExecution t e.(Execution.ID) d = (Ok (Some e), d).
Proof.
  intros HR Ht [[Het _]%matches_true [p He]]%elem_of_rows_where.
  destruct (wf_executions _ (R_wf _ _ HR) _ _ He) as [-> _].
  rewrite Het in He. by rewrite (GetExecution_R _ _ _ _ HR Ht), He.
Qed.

Lemma get_listed_attempt d sp t v a :
  R d sp → no_colon t = true →
  a ∈ rows_where Attempt.ID (matches Attempt.TenantID Attempt.ExecutionID t v) (sp_attempts sp) →
  bolt_GetAttempt t a.(Attempt.ID) d = (Ok (Some a), d).
Proof.
  intros HR Ht [[Het _]%matches_true [p He]]%elem_of_rows_where.
  destruct (wf_attempts _ (R_wf _ _ HR) _ _ He) as [-> _].
  rewrite Het in He. by rewrite (GetAttempt_R _ _ _ _ HR Ht), He.
Qed.

Lemma get_listed_schedule d sp t v s :
  R d sp → no_colon t = true →
  s ∈ rows_where Schedule.ID (matches Schedule.TenantID Schedule.Status t v) (sp_schedules sp) →
  bolt_GetSchedule t s.(Schedule.ID) d = (Ok (Some s), d).
Proof.
  intros HR Ht [[Het _]%matches_true [p He]]%elem_of_rows_where.
  destruct (wf_schedules _ (R_wf _ _ HR) _ _ He) as [-> _].
  rewrite Het in He. by rewrite (GetSchedule_R _ _ _ _ HR Ht), He.
Qed.

#[local] Hint Resolve get_listed_execution get_listed_attempt get_listed_schedule : rb.

Section lists.
Context (d : DB) (sp : Spec) (HR : R d sp) (t v : string).
Context (Ht : no_colon t = true) (Hv : no_colon v = true).

Lemma ListExecutionsBySchedule_R {A} (fn : A → Execution → A * option error) acc :
  bolt_ListExecutionsBySchedule t v fn acc d
  = (Ok (iter fn acc (rows_where Execution.ID (in_schedule t v) (sp_executions sp))), d).
Proof. eapply (scan_prefix_spec Execution.TenantID Execution.ScheduleID); eauto with rb. Qed.

Lemma ListExecutionsByStatus_R {A} (fn : A → Execution → A * option error) acc :
  bolt_ListExecutionsByStatus t v fn acc d
  = (Ok (iter fn acc (rows_where Execution.ID (in_status t v) (sp_executions sp))), d).
Proof. eapply (scan_prefix_spec Execution.TenantID Execution.Status); eauto with rb. Qed.

Lemma ListAttemptsByExecution_R {A} (fn : A → Attempt → A * option error) acc :
  bolt_ListAttemptsByExecution t v fn acc d
  = (Ok (iter fn acc (rows_where Attempt.ID (of_execution t v) (sp_attempts sp))), d).
Proof. eapply (scan_prefix_spec Attempt.TenantID Attempt.ExecutionID); eauto with rb. Qed.

Lemma ListSchedulesDue_R {A} now (fn : A → Schedule → A * option error) acc :
  bolt_ListSchedulesDue t now fn acc d
  = (Ok (iter fn acc (rows_where Schedule.ID (due t now) (sp_schedules sp))), d).
Proof.
  unfold bolt_ListSchedulesDue.
  erewrite (scan_prefix_spec Schedule.TenantID Schedule.Status Schedule.ID) by eauto with rb.
  rewrite iter_skip. do 3 f_equal.
  rewrite (list_filter_iff _ (λ x, negb (not_due now x) = true))
    by (intros x; by rewrite negb_true_iff).
  eapply (filter_rows_where Schedule.TenantID Schedule.Status); [eauto with rb|].
  intros x [? _]%matches_true. done.
Qed.

Lemma ListExecutionsBySchedulePage_R limit cursor :
  bolt_ListExecutionsBySchedulePage t v limit cursor d
  = (Ok (page Execution.ID limit cursor
           (rows_where Execution.ID (in_schedule t v) (sp_executions sp))), d).
Proof. eapply (index_page_spec Execution.TenantID Execution.ScheduleID); eauto with rb. Qed.

Lemma ListExecutionsByStatusPage_R limit cursor :
  bolt_ListExecutionsByStatusPage t v limit cursor d
  = (Ok (page Execution.ID limit cursor
           (rows_where Execution.ID (in_status t v) (sp_executions sp))), d).
Proof. eapply (index_page_spec Execution.TenantID Execution.Status); eauto with rb. Qed.

Lemma ListAttemptsByExecutionPage_R limit cursor :
  bolt_ListAttemptsByExecutionPage t v limit cursor d
  = (Ok (page Attempt.ID limit cursor
           (rows_where Attempt.ID (of_execution t v) (sp_attempts sp))), d).
Proof. eapply (index_page_spec Attempt.TenantID Attempt.ExecutionID); eauto with rb. Qed.
End lists.

(** Tenants: the bucket's entries, in order, are the abstract tenants. *)
Lemma elem_of_all_tenants sp t :
  wf sp → t ∈ all_tenants sp ↔ sp_tenants sp !! t.(Tenant.ID) = Some t.
Proof.
  intros Hwf. unfold all_tenants. rewrite elem_of_sorted_rows, list_elem_of_fmap. split.
  - intros ([i t'] & -> & Hi%elem_of_map_to_list). simpl.
    by destruct (wf_tenants _ Hwf _ _ Hi) as [-> _].
  - intros Ht. exists (t.(Tenant.ID), t). split; [done|]. by apply elem_of_map_to_list.
Qed.

Lemma all_tenants_sorted sp :
  wf sp → StronglySorted (λ x y, str_lt x.(Tenant.ID) y.(Tenant.ID)) (all_tenants sp).
Proof.
  intros Hwf. apply sorted_rows_strict.
  assert (Tenant.ID <$> (map_to_list (sp_tenants sp)).*2 = (map_to_list (sp_tenants sp)).*1) as ->;
    [|apply NoDup_fst_map_to_list].
  rewrite <- list_fmap_compose. apply list_fmap_ext. intros n [i t] H%list_elem_of_lookup_2. simpl.
  apply elem_of_map_to_list in H. by destruct (wf_tenants _ Hwf _ _ H) as [-> _].
Qed.

Lemma tenant_entries d sp : R d sp →
  Forall2 (λ e x, e.1 = x.(Tenant.ID) ∧ Unmarshal e.2 = Ok x)
    (bucket_entries (tenants d)) (all_tenants sp).
Proof.
  intros HR. pose proof (R_wf _ _ HR) as Hwf.
  assert ((bucket_entries (tenants d)).*1 = Tenant.ID <$> all_tenants sp) as Hkeys.
  { apply (sorted_ext str_lt).
    - eapply sorted_fmap; [|apply bucket_entries_sorted]. done.
    - eapply sorted_fmap; [|by apply all_tenants_sorted]. done.
    - intros k. rewrite !list_elem_of_fmap. pose proof (R_tenants _ _ HR k) as Hk. split.
      + intros ([k' raw] & -> & He%elem_of_bucket_entries). simpl in *. rewrite He in Hk.
        destruct (sp_tenants sp !! k') as [t|] eqn:Et; [|done].
        destruct (wf_tenants _ Hwf _ _ Et) as [-> _]. exists t. split; [done|].
        by apply elem_of_all_tenants.
      + intros (t & -> & Ht%elem_of_all_tenants); [|done]. rewrite Ht in Hk.
        destruct (bucket_get (tenants d) (Tenant.ID t)) as [raw|] eqn:Er; [|done].
        exists (Tenant.ID t, raw). split; [done|]. by apply elem_of_bucket_entries. }
  apply Forall2_same_length_lookup. split.
  { by rewrite <- (length_fmap fst), Hkeys, length_fmap. }
  intros n [k raw] t He Ht. simpl.
  assert (k = Tenant.ID t) as ->.
  { assert ((bucket_entries (tenants d)).*1 !! n = Some k) as H1
      by (rewrite list_lookup_fmap, He; done).
    rewrite Hkeys, list_lookup_fmap, Ht in H1. by simplify_eq/=. }
  split; [done|]. apply list_elem_of_lookup_2, elem_of_bucket_entries in He.
  apply list_elem_of_lookup_2, elem_of_all_tenants in Ht; [|done].
  pose proof (R_tenants _ _ HR (Tenant.ID t)) as Hk. by rewrite He, Ht in Hk.
Qed.

Lemma ListTenants_R d sp : R d sp → bolt_ListTenants d = (Ok (all_tenants sp), d).
Proof.
  intros HR. unfold bolt_ListTenants. f_equal.
  induction (tenant_entries d sp HR) as [|[k raw] x c l [_ Hx] Hc IH]; [done|].
  simpl in *. by rewrite Hx, IH.
Qed.

Lemma ListTenantsPage_R d sp limit cursor :
  R d sp → bolt_ListTenantsPage limit cursor d
           = (Ok (page Tenant.ID limit cursor (all_tenants sp)), d).
Proof.
  intros HR. unfold bolt_ListTenantsPage, page.
  destruct (Z.leb_spec limit 0) as [|Hpos]; [done|].
  set (rest := if bool_decide (cursor = "") then all_tenants sp else _).
  erewrite page_scan_rows with (rows := rest); [by rewrite Nat.sub_0_r| |simpl; lia].
  pose proof (tenant_entries d sp HR) as Hent. subst rest. case_bool_decide as Hc.
  - eapply Forall2_impl; [done|]. intros e x [_ Hx]. unfold lift. by rewrite Hx.
  - unfold cursor_seek. rewrite seek_after by (done || apply bucket_entries_sorted).
    eapply Forall2_impl.
    + apply Forall2_filter; [|done]. intros e x [<- _]. done.
    + intros e x [_ Hx]. unfold lift. by rewrite Hx.
Qed.

(** ** Writes *)

(** Same outcome, and related states when it is a success. *)
Definition agree {A} (r1 : result A * DB) (r2 : result A * Spec) : Prop :=
  r1.1 = r2.1 ∧ ∀ a, r2.1 = Ok a → R r1.2 r2.2.

(** Distinct rows have distinct index keys. *)
Lemma index_inj {Row} (ten val idOf : Row → string) (m : gmap (string * string) Row) x :
  keyed ten val idOf m → no_colon (ten x) = true → no_colon (val x) = true →
  ∀ q y z, m !! q = Some y → z = x ∨ m !! (ten x, idOf x) = Some z →
    index_key ten val idOf y = index_key ten val idOf z → q = (ten x, idOf x).
Proof.
  intros Hk Ht Hv q y z Hy Hz Heq. destruct (Hk _ _ Hy) as (-> & Hyt & Hyv).
  assert (no_colon (ten z) = true ∧ no_colon (val z) = true ∧ (ten x, idOf x) = (ten z, idOf z))
    as (Hzt & Hzv & ->).
  { destruct Hz as [->|Hz]; [done|]. destruct (Hk _ _ Hz) as (? & ? & ?). done. }
  by apply key3_inj in Heq as (-> & _ & ->).
Qed.

Lemma Put_ok {V} (r : bucket_ref V) k v d : key_ok k →
  ∃ b, bucket_put (ref_get r d) k v = Ok b ∧ Put r k v d = (Ok (), ref_set r b d).
Proof. intros [b Hb]%(bucket_put_ok V (ref_get r d) k v). exists b. unfold Put. by rewrite Hb. Qed.

Lemma Delete_ok {V} (r : bucket_ref V) k d :
  ∃ b, bucket_delete (ref_get r d) k = Ok b ∧ Delete r k d = (Ok (), ref_set r b d).
Proof.
  destruct (bucket_delete_ok V (ref_get r d) k) as [b Hb]. exists b. unfold Delete. by rewrite Hb.
Qed.

Lemma wrap_err_ok {St A} g (m : M St A) s a s' :
  m s = (Ok a, s') → wrap_err g m s = (Ok a, s').
Proof. intros H. unfold wrap_err. by rewrite H. Qed.

(** [wf] after a write of a good row. *)
Lemma wf_with_schedule sp s : wf sp → schedule_ok s → wf (with_schedule s sp).
Proof.
  intros [H1 H2 H3 H4] Hs. split; simpl; [|done..].
  intros p x [[<- <-]|[_ Hx]]%lookup_insert_Some; eauto.
Qed.
Lemma wf_with_execution sp e : wf sp → execution_ok e → wf (with_execution e sp).
Proof.
  intros [H1 H2 H3 H4] Hs. split; simpl; [done| |done..].
  intros p x [[<- <-]|[_ Hx]]%lookup_insert_Some; eauto.
Qed.
Lemma wf_with_attempt sp a : wf sp → attempt_ok a → wf (with_attempt a sp).
Proof.
  intros [H1 H2 H3 H4] Hs. split; simpl; [done..| |done].
  intros p x [[<- <-]|[_ Hx]]%lookup_insert_Some; eauto.
Qed.
Lemma wf_with_tenant sp t : wf sp → tenant_ok t → wf (with_tenant t sp).
Proof.
  intros [H1 H2 H3 H4] Hs. split; simpl; [done..|].
  intros p x [[<- <-]|[_ Hx]]%lookup_insert_Some; eauto.
Qed.

Lemma PutTenant_R d sp t : R d sp → tenant_ok t → agree (bolt_PutTenant t d) (PutTenant t sp).
Proof.
  intros HR Ht. unfold bolt_PutTenant; simpl. unfold spec_put.
  destruct (Marshal t) as [raw|e|p] eqn:Em; [|done|by apply marshal_no_panic in Em].
  destruct (Put_ok bucketTenants (Tenant.ID t) raw d (to_id _ Ht)) as (b & Hb & Hput).
  unfold mbind, M_bind, lift. rewrite Hput. split; [done|]. intros [] _.
  destruct HR as [Hwf H1 H2 H3 H4 H5 H6 H7 H8]. split; try done; simpl.
  { by apply wf_with_tenant. }
  intros k. rewrite (bucket_get_put _ _ _ _ _ _ Hb). case_decide as Hk; subst.
  - rewrite lookup_insert_eq. apply unmarshal_marshal; [apply Ht|done].
  - rewrite lookup_insert_ne by done. apply H4.
Qed.

Lemma PutAttempt_R d sp a :
  R d sp → attempt_ok a →
  (∀ old, sp_attempts sp !! (a.(Attempt.TenantID), a.(Attempt.ID)) = Some old →
     old.(Attempt.ExecutionID) = a.(Attempt.ExecutionID)) →
  agree (bolt_PutAttempt a d) (PutAttempt a sp).
Proof.
  intros HR Ha Hold. unfold bolt_PutAttempt; simpl. unfold spec_put.
  destruct (Marshal a) as [raw|e|p] eqn:Em; [|done|by apply marshal_no_panic in Em].
  destruct Ha as [Hat Hai Hae Hac]. pose proof (key2_ok _ _ Hat Hai) as Hk2.
  pose proof (key3_ok _ _ _ Hat Hae Hai) as Hk3. rewrite !(M_bind_ok (lift (Ok raw)) _ _ raw _ eq_refl).
  destruct (Put_ok bucketAttempts _ raw d Hk2) as (b & Hb & Hput).
  rewrite (M_bind_ok _ _ _ _ _ (wrap_err_ok _ _ _ _ _ Hput)).
  destruct (Put_ok bucketAttemptsByExecution _ () (ref_set bucketAttempts b d) Hk3) as (b' & Hb' & Hput').
  rewrite (wrap_err_ok _ _ _ _ _ Hput'). split; [done|]. intros [] _.
  destruct HR as [Hwf H1 H2 H3 H4 H5 H6 H7 H8]. split; try done; simpl in *.
  - apply wf_with_attempt; [done|]. by split.
  - eapply tbl_put; [done|by apply wf_tenants_ok_attempts|apply Hat| |done].
    by apply unmarshal_marshal.
  - eapply idx_same; [done| |done]. destruct (_ !! _) as [old|] eqn:E; [|done].
    destruct (wf_attempts _ Hwf _ _ E) as [[= Ht Hi] _].
    unfold index_key. by rewrite <- Ht, <- Hi, (Hold old eq_refl).
Qed.

(** Removing the index key of the row that is about to be replaced. *)
Lemma unindex_ok {Row} (r : bucket_ref unit) g (keyOf : Row → string) (old : option Row) d :
  ref_set r (ref_get r d) d = d →
  ∃ b1, match old with Some x => wrap_err g (Delete r (keyOf x)) | None => mret () end d
        = (Ok (), ref_set r b1 d)
      ∧ match old with
        | Some x => bucket_delete (ref_get r d) (keyOf x) = Ok b1
        | None => b1 = ref_get r d
        end.
Proof.
  intros Hsame. destruct old as [x|].
  - destruct (Delete_ok r (keyOf x) d) as (b & Hb & Hdel). exists b. split; [|done].
    by apply wrap_err_ok.
  - exists (ref_get r d). by rewrite Hsame.
Qed.

Lemma PutSchedule_R d sp s :
  R d sp → schedule_ok s → agree (bolt_PutSchedule s d) (PutSchedule s sp).
Proof.
  intros HR Hs. pose proof Hs as [Hst Hsi Hss Hsc]. unfold bolt_PutSchedule.
  rewrite (M_bind_ok _ _ _ _ _
    (wrap_err_ok _ _ _ _ _ (GetSchedule_R d sp _ s.(Schedule.ID) HR (proj1 Hst)))).
  destruct (unindex_ok bucketSchedulesByStatus (EWrap "Delete was not successful ")
    (index_key Schedule.TenantID Schedule.Status Schedule.ID)
    (sp_schedules sp !! (s.(Schedule.TenantID), s.(Schedule.ID))) d)
    as (b1 & Hdel & Hb1); [by destruct d|].
  rewrite (M_bind_ok _ _ _ _ _ Hdel). simpl. unfold spec_put.
  destruct (Marshal s) as [raw|e|p] eqn:Em; [|done|by apply marshal_no_panic in Em].
  rewrite !(M_bind_ok (lift (Ok raw)) _ _ raw _ eq_refl).
  set (d1 := mkDB _ _ _ _ _ _ _ b1).
  destruct (Put_ok bucketSchedules _ raw d1 (key2_ok _ _ Hst Hsi)) as (b2 & Hb2 & Hput).
  rewrite (M_bind_ok _ _ _ _ _ (wrap_err_ok _ _ _ _ _ Hput)).
  destruct (Put_ok bucketSchedulesByStatus _ () (ref_set bucketSchedules b2 d1)
    (key3_ok _ _ _ Hst Hss Hsi)) as (b3 & Hb3 & Hput').
  rewrite (wrap_err_ok _ _ _ _ _ Hput'). split; [done|]. intros [] _.
  destruct HR as [Hwf H1 H2 H3 H4 H5 H6 H7 H8]. split; try done; simpl in *.
  - by apply wf_with_schedule.
  - eapply tbl_put; [done|by apply wf_tenants_ok_schedules|apply Hst| |done].
    by apply unmarshal_marshal.
  - eapply idx_replace; [done| |done|done].
    apply index_inj; [by apply wf_keyed_schedules|apply Hst|apply Hss].
Qed.

Lemma PutExecution_R d sp e :
  R d sp → execution_ok e →
  (∀ old, sp_executions sp !! (e.(Execution.TenantID), e.(Execution.ID)) = Some old →
     old.(Execution.ScheduleID) = e.(Execution.ScheduleID)) →
  agree (bolt_PutExecution e d) (PutExecution e sp).
Proof.
  intros HR He Hold. pose proof He as [Het Hei Hes Hest Hec]. unfold bolt_PutExecution.
  rewrite (M_bind_ok _ _ _ _ _
    (wrap_err_ok _ _ _ _ _ (GetExecution_R d sp _ e.(Execution.ID) HR (proj1 Het)))).
  destruct (unindex_ok bucketExecutionsByStatus (EWrap "Delete was not successful ")
    (index_key Execution.TenantID Execution.Status Execution.ID)
    (sp_executions sp !! (e.(Execution.TenantID), e.(Execution.ID))) d)
    as (b1 & Hdel & Hb1); [by destruct d|].
  rewrite (M_bind_ok _ _ _ _ _ Hdel). simpl. unfold spec_put.
  destruct (Marshal e) as [raw|x|p] eqn:Em; [|done|by apply marshal_no_panic in Em].
  rewrite !(M_bind_ok (lift (Ok raw)) _ _ raw _ eq_refl).
  set (d1 := mkDB _ _ _ _ _ b1 _ _).
  destruct (Put_ok bucketExecutions _ raw d1 (key2_ok _ _ Het Hei)) as (b2 & Hb2 & Hput).
  rewrite (M_bind_ok _ _ _ _ _ (wrap_err_ok _ _ _ _ _ Hput)). set (d2 := ref_set _ b2 d1).
  destruct (Put_ok bucketExecutionsByStatus _ () d2 (key3_ok _ _ _ Het Hest Hei))
    as (b3 & Hb3 & Hput3).
  rewrite (M_bind_ok _ _ _ _ _ (wrap_err_ok _ _ _ _ _ Hput3)). set (d3 := ref_set _ b3 d2).
  destruct (Put_ok bucketExecutionsBySchedule _ () d3 (key3_ok _ _ _ Het Hes Hei))
    as (b4 & Hb4 & Hput4).
  rewrite (wrap_err_ok _ _ _ _ _ Hput4). split; [done|]. intros [] _.
  destruct HR as [Hwf H1 H2 H3 H4 H5 H6 H7 H8]. split; try done; simpl in *.
  - by apply wf_with_execution.
  - eapply tbl_put; [done|by apply wf_tenants_ok_executions|apply Het| |done].
    by apply unmarshal_marshal.
  - eapply idx_same; [done| |done]. destruct (_ !! _) as [old|] eqn:E; [|done].
    destruct (wf_executions _ Hwf _ _ E) as [[= Ht Hi] _].
    unfold index_key. by rewrite <- Ht, <- Hi, (Hold old eq_refl).
  - eapply idx_replace; [done| |done|done].
    apply index_inj; [by apply wf_keyed_status|apply Het|apply Hest].
Qed.
End relation.
