(* ===== verification/CommandRefinement.v ===== *)
(** * CommandRefinement: the handlers run alike on both stores

    A handler is written once, against [Tx].  Run on [boltTx] and on [specTx]
    from related states it gives the same reply or the same rejection, and
    related states again.  What a command must satisfy for this,
    [admissible], is about its strings and times (free of colons, of bounded
    length, representable in JSON), and that it does not reuse an
    identifier of another schedule's execution or another execution's attempt. *)

From Stdlib Require Import Ascii.
From S2P Require Import Prelude Go Calendar GoTime GoFloat Model RecurrenceCalc Bolt Json Storage.
From S2P Require Import Command Dispatch Spec Lifecycle Refinement RefinementScan RefinementTx.
Open Scope Z_scope.

(** ** Text that is plain ASCII *)

Definition ascii_text (s : string) : bool := all_bytes (byte_in 0 127) s.

Lemma ascii_text_app a b : ascii_text (a +:+ b) = ascii_text a && ascii_text b.
Proof.
  induction a as [|c a IH]; [done|]. rewrite append_cons. unfold ascii_text in *. simpl.
  by rewrite IH, andb_assoc.
Qed.

Lemma ascii_text_cons c s : ascii_text (String c s) = byte_in 0 127 c && ascii_text s.
Proof. reflexivity. Qed.

Lemma digit_ascii z : byte_in 0 127 (digit z) = true.
Proof.
  unfold digit. pose proof (Z.mod_pos_bound z 10 ltac:(lia)) as H.
  destruct (z mod 10) as [|p|p] eqn:E; [done| |lia].
  do 4 (destruct p as [p|p|]; try done; try lia).
Qed.

Lemma digits_ascii n z : ascii_text (digits n z) = true.
Proof.
  revert z. induction n as [|n IH]; intros z; [done|]. cbn [digits].
  rewrite ascii_text_app, IH, ascii_text_cons, digit_ascii. reflexivity.
Qed.

Lemma ascii_text_tail c s : ascii_text (String c s) = true → ascii_text s = true.
Proof. rewrite ascii_text_cons. by intros [_ ?]%andb_true_iff. Qed.

Lemma appendInt_ascii x w : ascii_text (appendInt x w) = true.
Proof.
  unfold appendInt. rewrite ascii_text_app. apply andb_true_iff. split; [by case_match|].
  match goal with |- ascii_text (?f ?k ?s) = true => generalize k; assert (ascii_text s = true) as Hs end.
  { apply digits_ascii. }
  revert Hs. generalize (digits (Nat.max w (Z.to_nat (Z.log2 (Z.abs x)) + 1)) (Z.abs x)).
  intros s Hs k. revert s Hs. induction k as [|k IH]; intros s Hs; simpl; [done|].
  destruct s as [|[[] [] [] [] [] [] [] []] s]; try done. apply IH. by apply ascii_text_tail in Hs.
Qed.

Lemma trim_zeros_ascii s : ascii_text s = true → ascii_text (trim_zeros s) = true.
Proof.
  induction s as [|c s IH]; [done|]. intros H. pose proof (IH (ascii_text_tail _ _ H)) as Ht.
  rewrite ascii_text_cons in H. apply andb_true_iff in H as [Hc _].
  cbn [trim_zeros]. destruct (trim_zeros s) as [|c' s'].
  - destruct (Ascii.eqb c "0"); [done|]. by rewrite ascii_text_cons, Hc.
  - by rewrite ascii_text_cons, Hc, Ht.
Qed.

Lemma format_ascii t : ascii_text (FormatRFC3339Nano t) = true.
Proof.
  unfold FormatRFC3339Nano, fraction, zone_suffix.
  repeat (rewrite ascii_text_app || rewrite appendInt_ascii || case_match);
    rewrite ?trim_zeros_ascii by apply digits_ascii; done.
Qed.

(** ** The slots computed are in UTC *)

Section utc.
Context `{PF : !Platform}.

Definition in_utc (o : option Time) : Prop := match o with Some t => t_off t = 0 | None => True end.

Lemma month_search_utc fuel y m st dom clock loc ok :
  in_utc (month_search fuel y m st dom clock loc ok).
Proof. revert y m. induction fuel as [|n IH]; intros y m; simpl; [done|]. by case_match. Qed.

Lemma month_result_utc who fuel y m st dom clock loc ok o :
  month_search_result who (month_search fuel y m st dom clock loc ok) = Ok o → in_utc o.
Proof.
  pose proof (month_search_utc fuel y m st dom clock loc ok) as H.
  unfold month_search_result. destruct (month_search _ _ _ _ _ _ _ _); [|done]. by intros [= <-].
Qed.

Lemma with_recurrence_inv rec tz fi fd fw fm o (P : option Time → Prop) :
  with_recurrence rec tz fi fd fw fm = Ok o →
  (∀ s o, fi s = Ok o → P o) → (∀ l o, fd l = Ok o → P o) → (∀ l o, fw l = Ok o → P o) →
  (∀ n l o, fm n l = Ok o → P o) → P o.
Proof.
  unfold with_recurrence, mbind, result_bind. intros H Hi Hd Hw Hm.
  destruct rec as [r|]; [|done]. destruct (resolveTimezone tz); [|done..].
  repeat case_match; simplify_eq; eauto.
Qed.

Lemma utc_some t o : Ok (Some (UTC t)) = Ok o → in_utc o.
Proof. by intros [= <-]. Qed.
Lemma utc_none o : Ok None = Ok o → in_utc o.
Proof. by intros [= <-]. Qed.

Ltac utc_tac :=
  let H := fresh in intros H; eapply (with_recurrence_inv _ _ _ _ _ _ _ in_utc H); intros *;
  cbv delta [computeIntervalOnOrAfter computeDailyOnOrAfter computeWeeklyOnOrAfter
    computeMonthlyOnOrAfter computeIntervalAfter computeDailyAfter computeWeeklyAfter
    computeMonthlyAfter computeIntervalLatestOnOrBefore computeDailyLatestOnOrBefore
    computeWeeklyLatestOnOrBefore computeMonthlyLatestOnOrBefore] beta;
  match goal with |- (if ?b then _ else _) = _ → _ => destruct b end;
  first [exact (utc_some _ _) | exact (utc_none _) | apply month_result_utc].

Lemma on_or_after_utc rec tz first from o :
  ComputeNextRunOnOrAfter rec tz first from = Ok o → in_utc o.
Proof. utc_tac. Qed.
Lemma after_utc rec tz first from o :
  ComputeNextRunAfter rec tz first from = Ok o → in_utc o.
Proof. utc_tac. Qed.
Lemma latest_utc rec tz first from o :
  ComputeLatestRunOnOrBefore rec tz first from = Ok o → in_utc o.
Proof. utc_tac. Qed.
End utc.

(** ** Commands that JSON and the composite keys carry faithfully *)

#[export] Instance command_rows : Rows command := λ c,
  match c with
  | create_tenant c =>
      [AStr c.(CreateTenantCommand.ID); AStr c.(CreateTenantCommand.Name);
       AStr c.(CreateTenantCommand.APIKeyHash)]
  | create_schedule c =>
      [AStr c.(CreateScheduleCommand.ID); AStr c.(CreateScheduleCommand.TenantID);
       AStr c.(CreateScheduleCommand.CreatedBy); AStr c.(CreateScheduleCommand.CallbackURL);
       ARaw c.(CreateScheduleCommand.Payload); AStr c.(CreateScheduleCommand.ScheduleType);
       ATime c.(CreateScheduleCommand.FirstRunAt); AStr c.(CreateScheduleCommand.Timezone);
       AInt c.(CreateScheduleCommand.MaxAttempts); AStr c.(CreateScheduleCommand.CatchUpPolicy)]
      ++ map_atoms c.(CreateScheduleCommand.Headers)
      ++ opt_atoms atoms c.(CreateScheduleCommand.Recurrence)
      ++ atoms c.(CreateScheduleCommand.RetryBackoff)
      ++ opt_atoms (λ z, [AInt z]) c.(CreateScheduleCommand.CallTimeout)
  | update_schedule c =>
      opt_atoms (λ s, [AStr s]) c.(UpdateScheduleCommand.CallbackURL)
      ++ opt_atoms map_atoms c.(UpdateScheduleCommand.Headers)
      ++ opt_atoms (λ s, [ARaw s]) c.(UpdateScheduleCommand.Payload)
      ++ opt_atoms atoms c.(UpdateScheduleCommand.RetryBackoff)
      ++ opt_atoms (λ z, [AInt z]) c.(UpdateScheduleCommand.MaxAttempts)
      ++ opt_atoms (λ z, [AInt z]) c.(UpdateScheduleCommand.CallTimeout)
  | pause_schedule _ | cancel_schedule _ | resume_schedule _ => []
  | claim_execution c =>
      [AStr c.(ClaimExecutionCommand.ID); AStr c.(ClaimExecutionCommand.TenantID);
       AStr c.(ClaimExecutionCommand.ScheduleID); ATime c.(ClaimExecutionCommand.ScheduledFor);
       AStr c.(ClaimExecutionCommand.OwnerNodeID)]
  | adopt_execution c => [AStr c.(AdoptExecutionCommand.NewOwner)]
  | record_attempt c =>
      [AStr c.(RecordAttemptCommand.TenantID); AStr c.(RecordAttemptCommand.ExecutionID);
       AStr c.(RecordAttemptCommand.ID); AStr c.(RecordAttemptCommand.NodeID);
       AStr c.(RecordAttemptCommand.Outcome); AStr c.(RecordAttemptCommand.RequestURL);
       AStr c.(RecordAttemptCommand.RequestBodyHash); AInt c.(RecordAttemptCommand.ResponseStatus);
       AStr c.(RecordAttemptCommand.ResponseBodyExcerpt)]
      ++ time_atoms c.(RecordAttemptCommand.StartedAt)
      ++ time_atoms c.(RecordAttemptCommand.CompletedAt)
      ++ time_atoms c.(RecordAttemptCommand.RetryAt)
      ++ map_atoms c.(RecordAttemptCommand.RequestHeaders)
      ++ map_atoms c.(RecordAttemptCommand.ResponseHeaders)
  | complete_execution c => [AStr c.(CompleteExecutionCommand.FinalOutcome)]
  | fail_execution_timeout c => [AStr c.(FailExecutionTimeoutCommand.FinalOutcome)]
  end.

(** Identifiers that become part of a key. *)
Definition ids_good (c : command) : Prop :=
  match c with
  | create_tenant c => Z.of_nat (String.length c.(CreateTenantCommand.ID)) ≤ MaxKeySize
  | create_schedule c =>
      good_id c.(CreateScheduleCommand.TenantID) ∧ good_id c.(CreateScheduleCommand.ID)
  | update_schedule c => good_id c.(UpdateScheduleCommand.TenantID)
  | pause_schedule c => good_id c.(PauseScheduleCommand.TenantID)
  | cancel_schedule c => good_id c.(CancelScheduleCommand.TenantID)
  | resume_schedule c => good_id c.(ResumeScheduleCommand.TenantID)
  | claim_execution c =>
      good_id c.(ClaimExecutionCommand.TenantID) ∧ good_id c.(ClaimExecutionCommand.ID)
      ∧ good_id c.(ClaimExecutionCommand.ScheduleID)
  | adopt_execution c => good_id c.(AdoptExecutionCommand.TenantID)
  | record_attempt c =>
      good_id c.(RecordAttemptCommand.TenantID) ∧ good_id c.(RecordAttemptCommand.ID)
      ∧ good_id c.(RecordAttemptCommand.ExecutionID)
  | complete_execution c => good_id c.(CompleteExecutionCommand.TenantID)
  | fail_execution_timeout c => good_id c.(FailExecutionTimeoutCommand.TenantID)
  end.

(** A claim does not take over the identifier of an execution of another
    schedule, nor an attempt that of another execution: neither handler looks. *)
Definition ids_fresh (c : command) (sp : Spec) : Prop :=
  match c with
  | claim_execution c => ∀ old,
      sp_executions sp !! (c.(ClaimExecutionCommand.TenantID), c.(ClaimExecutionCommand.ID)) = Some old →
      old.(Execution.ScheduleID) = c.(ClaimExecutionCommand.ScheduleID)
  | record_attempt c => ∀ old,
      sp_attempts sp !! (c.(RecordAttemptCommand.TenantID), c.(RecordAttemptCommand.ID)) = Some old →
      old.(Attempt.ExecutionID) = c.(RecordAttemptCommand.ExecutionID)
  | _ => True
  end.

Record admissible `{!Json} (c : command) (at_ : Time) (sp : Spec) : Prop := {
  ad_clean : clean c;
  ad_time : time_clean at_ = true;
  ad_ids : ids_good c;
  ad_fresh : ids_fresh c sp
}.

(** [clean_tac]: a row is clean when its fields come from clean rows. *)
#[local] Arguments atom_clean : simpl never.
#[local] Arguments map_atoms : simpl never.
#[local] Arguments time_atoms : simpl never.
#[local] Arguments opt_atoms : simpl never.

Ltac clean_tac :=
  unfold clean in *;
  cbv delta [atoms Tenant_rows Schedule_rows Execution_rows Attempt_rows command_rows
    RetryBackoff_rows] beta iota in *;
  repeat rewrite Forall_app in *; repeat rewrite Forall_cons in *; simpl in *;
  repeat match goal with H : _ ∧ _ |- _ => destruct H end;
  repeat match goal with |- _ ∧ _ => split | |- Forall _ [] => constructor end; try done.

Section handlers.
Context `{PF : !Platform, B : !Bolt, BL : !BoltLaws B, J : !Json, JL : !JsonLaws J}.

(** ** Agreement, compositionally *)

Lemma agree_bind {A C} (m1 : M DB A) (m2 : M Spec A) (f1 : A → M DB C) (f2 : A → M Spec C) d sp :
  agree (m1 d) (m2 sp) →
  (∀ a d' sp', m2 sp = (Ok a, sp') → R d' sp' → agree (f1 a d') (f2 a sp')) →
  agree ((m1 ≫= f1) d) ((m2 ≫= f2) sp).
Proof.
  intros [H1 H2] Hf. unfold mbind, M_bind.
  destruct (m1 d) as [r1 d'], (m2 sp) as [r2 sp'] eqn:E2. simpl in *. subst r1.
  destruct r2 as [a|e|p]; [|done..]. by apply Hf; [|apply (H2 a)].
Qed.

Lemma agree_ret {A} (a : A) d sp : R d sp → agree ((mret a : M DB A) d) ((mret a : M Spec A) sp).
Proof. by intros. Qed.
Lemma agree_fail {A} e d sp : agree (A := A) (fail e d) (fail e sp).
Proof. by split. Qed.
Lemma agree_lift {A} (r : result A) d sp : R d sp → agree (lift r d) (lift r sp).
Proof. by intros. Qed.
Lemma agree_reject_if b e d sp : R d sp → agree (reject_if b e d) (reject_if b e sp).
Proof. by destruct b. Qed.
Lemma agree_reject_some e d sp : R d sp → agree (reject_some e d) (reject_some e sp).
Proof. by destruct e. Qed.
Lemma agree_wrap {A} g (m1 : M DB A) (m2 : M Spec A) d sp :
  agree (m1 d) (m2 sp) → agree (wrap_err g m1 d) (wrap_err g m2 sp).
Proof.
  unfold agree, wrap_err. destruct (m1 d) as [[]], (m2 sp) as [[]]; simpl;
    intros [[= ->] H]; split; naive_solver.
Qed.

Lemma agree_same {A} (r : result A) d sp : R d sp → agree (r, d) (r, sp).
Proof. by intros. Qed.

Lemma agree_GetTenant d sp i : R d sp → agree (GetTenant i d) (GetTenant i sp).
Proof. intros HR. simpl. rewrite (GetTenant_R _ sp) by done. by apply agree_same. Qed.
Lemma agree_GetSchedule d sp t i :
  R d sp → good_id t → agree (GetSchedule t i d) (GetSchedule t i sp).
Proof. intros HR [Ht _]. simpl. rewrite (GetSchedule_R _ sp) by done. by apply agree_same. Qed.
Lemma agree_GetExecution d sp t i :
  R d sp → good_id t → agree (GetExecution t i d) (GetExecution t i sp).
Proof. intros HR [Ht _]. simpl. rewrite (GetExecution_R _ sp) by done. by apply agree_same. Qed.
Lemma agree_ListExecutionsBySchedule {A} d sp t v (fn : A → Execution → A * option error) acc :
  R d sp → good_id t → good_id v →
  agree (ListExecutionsBySchedule t v fn acc d) (ListExecutionsBySchedule t v fn acc sp).
Proof.
  intros HR [Ht _] [Hv _]. simpl. rewrite (ListExecutionsBySchedule_R _ sp) by done.
  by apply agree_same.
Qed.

(** What the abstract reads say. *)
Lemma wrap_reads_inv {A} g (f : Spec → A) sp a sp' :
  wrap_err g (reads f) sp = (Ok a, sp') → a = f sp ∧ sp' = sp.
Proof. by intros [= <- <-]. Qed.

(** [agree_step]: one bind of a handler; what it reads is remembered. *)
Ltac agree_step :=
  eapply agree_bind;
  [ first
    [ by apply agree_ret | by apply agree_lift | by apply agree_reject_if
    | by apply agree_reject_some
    | apply agree_wrap; first
      [ by apply agree_GetTenant | by apply agree_GetSchedule | by apply agree_GetExecution
      | by apply agree_lift ]
    | idtac ] |];
  first
  [ intros [] ? ? [? ->]%reject_if_inv ?
  | intros ? ? ? [-> ->]%wrap_reads_inv ?
  | idtac ].

Lemma agree_CreateTenant c at_ d sp :
  R d sp → admissible (create_tenant c) at_ sp →
  agree (ApplyCreateTenant c at_ d) (ApplyCreateTenant c at_ sp).
Proof.
  intros HR [Hc Hat Hid _]. unfold ApplyCreateTenant.
  agree_step. agree_step. agree_step.
  destruct (sp_tenants sp !! _); [apply agree_fail|].
  eapply agree_bind; [apply agree_wrap, PutTenant_R; [done|]|].
  - split; simpl in *.
    + unfold key_ok, empty in *. destruct (CreateTenantCommand.ID c); [done|]. simpl in *. lia.
    + clean_tac.
  - intros. by apply agree_ret.
Qed.

Lemma R_schedule_ok d sp p s : R d sp → sp_schedules sp !! p = Some s → schedule_ok s.
Proof. intros HR Hs. by apply (wf_schedules _ (R_wf _ _ HR) _ _ Hs). Qed.
Lemma R_execution_ok d sp t i e : R d sp → sp_executions sp !! (t, i) = Some e →
  execution_ok e ∧ e.(Execution.TenantID) = t ∧ e.(Execution.ID) = i.
Proof. intros HR Hs. by destruct (wf_executions _ (R_wf _ _ HR) _ _ Hs) as [[= -> ->] ?]. Qed.

Lemma clean_utc o : in_utc o → Forall (λ a, atom_clean a = true) (time_atoms o).
Proof.
  destruct o as [t|]; [|constructor]. intros Ht. repeat constructor.
  unfold atom_clean, time_clean. simpl in Ht. by rewrite Ht.
Qed.

Lemma clean_wrap64 z : atom_clean (AInt (wrap64 z)) = true.
Proof.
  pose proof (wrap64_range z) as [H1 H2]. unfold atom_clean, minInt64, maxInt64.
  apply andb_true_iff. split; apply Z.leb_le; lia.
Qed.

Ltac good_const := split; [reflexivity|simpl; lia].

(** A write of a good schedule, and what follows it. *)
Lemma agree_put_schedule {A} g s (f1 : unit → M DB A) (f2 : unit → M Spec A) d sp :
  R d sp → schedule_ok s →
  (∀ d' sp', R d' sp' → agree (f1 () d') (f2 () sp')) →
  agree ((wrap_err g (PutSchedule s) ≫= f1) d) ((wrap_err g (PutSchedule s) ≫= f2) sp).
Proof.
  intros HR Hs Hf. eapply agree_bind; [by apply agree_wrap, PutSchedule_R|].
  intros [] d' sp' _ HR'. by apply Hf.
Qed.

Lemma agree_put_execution {A} g e (f1 : unit → M DB A) (f2 : unit → M Spec A) d sp :
  R d sp → execution_ok e →
  (∀ old, sp_executions sp !! (e.(Execution.TenantID), e.(Execution.ID)) = Some old →
     old.(Execution.ScheduleID) = e.(Execution.ScheduleID)) →
  (∀ d' sp', R d' sp' → agree (f1 () d') (f2 () sp')) →
  agree ((wrap_err g (PutExecution e) ≫= f1) d) ((wrap_err g (PutExecution e) ≫= f2) sp).
Proof.
  intros HR He Hold Hf. eapply agree_bind; [by apply agree_wrap, PutExecution_R|].
  intros [] d' sp' _ HR'. by apply Hf.
Qed.

Lemma agree_CreateSchedule c at_ d sp :
  R d sp → admissible (create_schedule c) at_ sp →
  agree (ApplyCreateSchedule c at_ d) (ApplyCreateSchedule c at_ sp).
Proof.
  intros HR [Hc Hat [Ht Hi] _]. unfold ApplyCreateSchedule. agree_step. agree_step.
  eapply agree_bind; [by apply agree_reject_some|]. intros [] d1 sp1 _ HR1. agree_step.
  destruct (sp_schedules sp1 !! _); [apply agree_fail|].
  eapply agree_bind; [by case_match; [apply agree_ret|apply agree_lift]|].
  intros nextRun d2 sp2 Hnext HR2.
  assert (Forall (λ a, atom_clean a = true) (time_atoms nextRun)) as Hn.
  { case_match; [|by apply lift_inv in Hnext as [?%on_or_after_utc _]; apply clean_utc].
    injection Hnext as <- _. clear -Hc. clean_tac. repeat constructor. done. }
  eapply agree_bind.
  { destruct (CreateScheduleCommand.CallTimeout c); [by apply agree_reject_if|by apply agree_ret]. }
  intros [] d3 sp3 _ HR3. apply agree_put_schedule; [done| |by intros; apply agree_ret].
  split; simpl; [done..|good_const|]. clear -Hc Hat Hn. clean_tac.
Qed.

(** The optional fields of an update keep a schedule good. *)
Lemma set_opt_ok {A} (set : A → Schedule → Schedule) (ats : A → list atom) v s :
  Forall (λ a, atom_clean a = true) (opt_atoms ats v) →
  (∀ a s, Forall (λ a, atom_clean a = true) (ats a) → schedule_ok s → schedule_ok (set a s)) →
  schedule_ok s → schedule_ok (set_opt set v s).
Proof. intros Hv Hset Hs. destruct v as [a|]; [|done]. by apply Hset. Qed.

Lemma agree_UpdateSchedule c at_ d sp :
  R d sp → admissible (update_schedule c) at_ sp →
  agree (ApplyUpdateSchedule c at_ d) (ApplyUpdateSchedule c at_ sp).
Proof.
  intros HR [Hc Hat Ht _]. simpl in Ht. unfold ApplyUpdateSchedule. agree_step. agree_step.
  eapply agree_bind.
  { destruct (UpdateScheduleCommand.Headers c); [by apply agree_reject_some|by apply agree_ret]. }
  intros [] d1 sp1 _ HR1. agree_step.
  destruct (sp_schedules sp1 !! _) as [s|] eqn:Es; [|apply agree_fail]. agree_step.
  apply (R_schedule_ok _ _ _ _ HR1) in Es as Hs. clear Es.
  set (s5 := set_opt Schedule.set_MaxAttempts _ _).
  assert (schedule_ok s5) as Hs5.
  { unfold clean in Hc. cbv delta [atoms command_rows] beta iota in Hc.
    repeat rewrite Forall_app in Hc. destruct Hc as (?&?&?&?&?&?).
    repeat (eapply set_opt_ok; [eassumption| |]); [..|done];
      intros a s' Ha [Hst Hsi Hss Hsc]; split; try done; clear -Ha Hsc; clean_tac. }
  eapply (agree_bind _ _ _ _ _ _ (C := Schedule)).
  { destruct (UpdateScheduleCommand.CallTimeout c) as [n|]; [|by apply agree_ret].
    case_match; [by apply agree_ret|]. case_match; [apply agree_fail|by apply agree_ret]. }
  intros s6 d3 sp3 Hs6 HR3. apply agree_put_schedule; [done| |by intros; apply agree_ret].
  assert (schedule_ok s6) as [Hst Hsi Hss Hsc].
  { assert (Forall (λ a, atom_clean a = true)
      (opt_atoms (λ z, [AInt z]) (UpdateScheduleCommand.CallTimeout c))) as Hct
      by (clear -Hc; clean_tac).
    destruct (UpdateScheduleCommand.CallTimeout c) as [n|]; [|by injection Hs6 as <- _].
    destruct Hs5 as [Hst Hsi Hss Hsc].
    repeat case_match; simplify_eq; injection Hs6 as <- _; split; try done;
      clear -Hct Hsc; clean_tac. }
  split; simpl; [done..|]. clear -Hsc Hat. clean_tac.
Qed.

Lemma agree_PauseSchedule c at_ d sp :
  R d sp → admissible (pause_schedule c) at_ sp →
  agree (ApplyPauseSchedule c at_ d) (ApplyPauseSchedule c at_ sp).
Proof.
  intros HR [Hc Hat Ht _]. simpl in Ht. unfold ApplyPauseSchedule. agree_step. agree_step. agree_step.
  destruct (sp_schedules sp !! _) as [s|] eqn:Es; [|apply agree_fail].
  apply (R_schedule_ok _ _ _ _ HR) in Es as [Hst Hsi Hss Hsc].
  case_bool_decide; [by apply agree_ret|]. agree_step. agree_step.
  apply agree_put_schedule; [done| |by intros; apply agree_ret].
  split; simpl; [done..|good_const|]. clear -Hsc Hat. clean_tac.
Qed.

Lemma agree_CancelSchedule c at_ d sp :
  R d sp → admissible (cancel_schedule c) at_ sp →
  agree (ApplyCancelSchedule c at_ d) (ApplyCancelSchedule c at_ sp).
Proof.
  intros HR [Hc Hat Ht _]. simpl in Ht. unfold ApplyCancelSchedule. agree_step. agree_step. agree_step.
  destruct (sp_schedules sp !! _) as [s|] eqn:Es; [|apply agree_fail].
  apply (R_schedule_ok _ _ _ _ HR) in Es as [Hst Hsi Hss Hsc].
  case_bool_decide; [by apply agree_ret|]. case_bool_decide; [by apply agree_ret|].
  apply agree_put_schedule; [done| |by intros; apply agree_ret].
  split; simpl; [done..|good_const|]. clear -Hsc Hat. clean_tac.
Qed.

Lemma agree_findMostRecent t i d sp :
  R d sp → good_id t → good_id i →
  agree (findMostRecentTerminalExecution t i d) (findMostRecentTerminalExecution t i sp).
Proof.
  intros HR Ht Hi. eapply agree_bind; [by apply agree_ListExecutionsBySchedule|].
  intros [a [e|]] d' sp' _ HR'; [apply agree_fail|by apply agree_ret].
Qed.

Lemma resume_clean s anchor at_ o :
  clean s → resume_next_run s anchor at_ = Ok o →
  Forall (λ a, atom_clean a = true) (time_atoms o).
Proof.
  intros Hs. unfold resume_next_run, mbind, result_bind.
  case_bool_decide; [destruct anchor; intros ?; eapply clean_utc; eauto using on_or_after_utc, after_utc|].
  case_bool_decide.
  - destruct (ComputeLatestRunOnOrBefore _ _ _ _) as [[t|]|?|?] eqn:E; [..|done|done]; intros [= <-].
    + by eapply clean_utc, latest_utc.
    + clear -Hs. clean_tac. repeat constructor. done.
  - case_bool_decide; [intros ?; eapply clean_utc; eauto using after_utc|].
    intros [= <-]. constructor.
Qed.

Lemma agree_ResumeSchedule c at_ d sp :
  R d sp → admissible (resume_schedule c) at_ sp →
  agree (ApplyResumeSchedule c at_ d) (ApplyResumeSchedule c at_ sp).
Proof.
  intros HR [Hc Hat Ht _]. simpl in Ht. unfold ApplyResumeSchedule. agree_step. agree_step. agree_step.
  destruct (sp_schedules sp !! _) as [s|] eqn:Es; [|apply agree_fail].
  apply (R_schedule_ok _ _ _ _ HR) in Es as [Hst Hsi Hss Hsc].
  case_bool_decide; [by apply agree_ret|]. agree_step. agree_step.
  eapply agree_bind.
  { case_match; [by apply agree_ret|]. eapply agree_bind; [by apply agree_wrap, agree_findMostRecent|].
    intros. by apply agree_lift. }
  intros nextRun d9 sp9 Hnext HR9.
  assert (Forall (λ a, atom_clean a = true) (time_atoms nextRun)) as Hn.
  { case_match.
    - injection Hnext as <- _. clear -Hsc. clean_tac. repeat constructor. done.
    - apply M_bind_inv in Hnext as (anchor & sp1 & _ & [Hr _]%lift_inv).
      by eapply resume_clean. }
  apply agree_put_schedule; [done| |by intros; apply agree_ret].
  split; simpl; [done..|good_const|]. clear -Hsc Hat Hn. clean_tac.
Qed.

Lemma new_execution_ok c at_ sp :
  admissible (claim_execution c) at_ sp → execution_ok (new_execution c at_).
Proof.
  intros [Hc Hat (Ht & Hi & Hs) _]. split; simpl; [done..|good_const|]. clear -Hc Hat. clean_tac.
  - unfold atom_clean in *. apply utf8_valid_app; [done|]. apply utf8_valid_app; [done|].
    apply all_ascii_utf8, format_ascii.
  - by repeat constructor.
Qed.

Lemma agree_ClaimExecution c at_ d sp :
  R d sp → admissible (claim_execution c) at_ sp →
  agree (ApplyClaimExecution c at_ d) (ApplyClaimExecution c at_ sp).
Proof.
  intros HR Had. pose proof Had as [Hc Hat (Ht & Hi & Hs) Hfresh]. simpl in Hfresh.
  unfold ApplyClaimExecution.
  do 5 agree_step. eapply agree_bind; [by apply agree_ListExecutionsBySchedule|].
  intros [existing err] d1 sp1 Hl HR1. injection Hl as _ <-.
  eapply agree_bind; [by destruct err; [apply agree_reject_if|apply agree_ret]|].
  intros [] d2 sp2 Hre HR2.
  assert (sp2 = sp) as -> by (by destruct err; [apply reject_if_inv in Hre as [_ ->]|injection Hre]).
  destruct existing; [apply agree_fail|].
  apply agree_put_execution; [done|by eapply new_execution_ok|done|by intros; apply agree_ret].
Qed.

Lemma agree_AdoptExecution c at_ d sp :
  R d sp → admissible (adopt_execution c) at_ sp →
  agree (ApplyAdoptExecution c at_ d) (ApplyAdoptExecution c at_ sp).
Proof.
  intros HR [Hc Hat Ht _]. simpl in Ht. unfold ApplyAdoptExecution. do 6 agree_step.
  destruct (sp_executions sp !! _) as [e|] eqn:Ee; [|apply agree_fail].
  destruct (R_execution_ok _ _ _ _ _ HR Ee) as [[Het Hei Hes Hest Hec] [Heq1 Heq2]].
  agree_step. agree_step. apply agree_put_execution; [done| | |by intros; apply agree_ret].
  - split; simpl; [done..|]. clear -Hc Hec. clean_tac.
  - simpl. rewrite Heq1, Heq2, Ee. by intros ? [= <-].
Qed.

Lemma agree_require_time p f m1 m2 d sp :
  R d sp → agree (require_time p f m1 m2 d) (require_time p f m1 m2 sp).
Proof. intros. destruct p; [by apply agree_reject_if|apply agree_fail]. Qed.

(** The attempt a record_attempt command writes. *)
Lemma attempt_clean c at_ sp n (a : Attempt) :
  admissible (record_attempt c) at_ sp →
  a = (let a := Attempt.mk CurrentAttemptSchemaVersion
        c.(RecordAttemptCommand.ID) c.(RecordAttemptCommand.TenantID)
        c.(RecordAttemptCommand.ExecutionID) c.(RecordAttemptCommand.NodeID) (wrap64 n)
        c.(RecordAttemptCommand.StartedAt) c.(RecordAttemptCommand.CompletedAt)
        c.(RecordAttemptCommand.RequestURL) c.(RecordAttemptCommand.RequestHeaders)
        c.(RecordAttemptCommand.RequestBodyHash) c.(RecordAttemptCommand.ResponseStatus)
        c.(RecordAttemptCommand.ResponseBodyExcerpt) c.(RecordAttemptCommand.ResponseHeaders)
        c.(RecordAttemptCommand.Outcome) zeroTime in
       match c.(RecordAttemptCommand.RetryAt) with
       | Some t => Attempt.set_RetryAt t a
       | None => a
       end) →
  attempt_ok a ∧ a.(Attempt.TenantID) = c.(RecordAttemptCommand.TenantID)
  ∧ a.(Attempt.ID) = c.(RecordAttemptCommand.ID)
  ∧ a.(Attempt.ExecutionID) = c.(RecordAttemptCommand.ExecutionID).
Proof.
  intros [Hc _ (Ht & Hi & He) _] ->.
  assert (Forall (λ a, atom_clean a = true) (time_atoms (RecordAttemptCommand.RetryAt c))) as Hr
    by (clear -Hc; clean_tac).
  destruct (RecordAttemptCommand.RetryAt c) as [t|] eqn:Er; (split; [|done]);
    (split; simpl; [done..|]); clear -Hc Hr Er.
  - assert (atom_clean (ATime t) = true) by (by apply Forall_inv in Hr).
    clean_tac. apply clean_wrap64.
  - clean_tac. apply clean_wrap64.
Qed.

Lemma agree_RecordAttempt c at_ d sp :
  R d sp → admissible (record_attempt c) at_ sp →
  agree (ApplyRecordAttempt c at_ d) (ApplyRecordAttempt c at_ sp).
Proof.
  intros HR Had. pose proof Had as [Hc Hat (Ht & Hi & He) Hfresh]. simpl in Hfresh.
  unfold ApplyRecordAttempt. do 5 agree_step.
  do 2 (eapply agree_bind; [by apply agree_require_time|]; intros [] ? ? ->%require_time_inv ?).
  do 3 agree_step.
  destruct (sp_executions sp !! _) as [e|] eqn:Ee; [|apply agree_fail].
  destruct (R_execution_ok _ _ _ _ _ HR Ee) as [[Het Hei Hes Hest Hec] [Heq1 Heq2]].
  agree_step. agree_step.
  match goal with |- context [PutAttempt ?x] => remember x as a eqn:Ha end.
  destruct (attempt_clean _ _ _ _ _ Had Ha) as (Hok & Ha1 & Ha2 & Ha3).
  eapply agree_bind.
  { apply agree_wrap, PutAttempt_R; [done|done|]. rewrite Ha1, Ha2, Ha3. apply Hfresh. }
  intros [] d2 sp2 Hput HR2.
  assert (sp_executions sp2 = sp_executions sp) as Hsame.
  { apply wrap_err_inv, M_bind_inv in Hput as (? & ? & [_ ->]%lift_inv & [= <-]). done. }
  apply agree_put_execution; [done| | |by intros; apply agree_ret].
  - split; simpl; [done..|]. clear -Hc Hec Hok. destruct Hok as [_ _ _ Hok]. clean_tac.
    apply clean_wrap64.
  - simpl. rewrite Hsame, Heq1, Heq2, Ee. by intros ? [= <-].
Qed.

Lemma finalized_ok e st out at_ :
  execution_ok e → good_id st → utf8_valid st = true → utf8_valid out = true →
  time_clean at_ = true → execution_ok (finalized e st out at_).
Proof.
  intros [Het Hei Hes Hest Hec] Hst Hst' Hout Hat. split; simpl; [done..|].
  clear -Hst' Hout Hat Hec. clean_tac. by repeat constructor.
Qed.

Lemma agree_advance s e msg d sp :
  R d sp → agree (advance_schedule s e msg d) (advance_schedule s e msg sp).
Proof.
  intros HR. unfold advance_schedule. repeat case_match; try by apply agree_ret.
  eapply agree_bind; [by apply agree_wrap, agree_lift|]. intros. by apply agree_ret.
Qed.

Lemma advance_ok s e msg (sp : Spec) s' sp' :
  schedule_ok s → advance_schedule s e msg sp = (Ok s', sp') → schedule_ok s'.
Proof.
  intros Hs. pose proof Hs as [Hst Hsi Hss Hsc]. unfold advance_schedule. repeat case_match.
  - intros (o & sp1 & [Ho _]%wrap_err_inv%lift_inv & [= <- _])%M_bind_inv.
    apply after_utc, clean_utc in Ho. split; simpl; [done..|]. clear -Hsc Ho. clean_tac.
  - by intros [= <- _].
  - intros [= <- _]. split; simpl; [done..|good_const|]. clear -Hsc. clean_tac.
Qed.

(** Both finalisers end alike: write the execution, then its schedule. *)
Lemma agree_finalise e updated t msg d sp :
  R d sp → good_id t → execution_ok updated →
  sp_executions sp !! (updated.(Execution.TenantID), updated.(Execution.ID)) = Some e →
  e.(Execution.ScheduleID) = updated.(Execution.ScheduleID) →
  let tail {St} `{!Tx St} : M St Execution :=
    _ ← wrap_err (storage_err "write failed: ") (PutExecution updated);
    schedule ← wrap_err (storage_err "get schedule failed: ") (GetSchedule t e.(Execution.ScheduleID));
    match schedule with
    | None => fail (not_found "" "no schedule exists")
    | Some schedule =>
        newSchedule ← advance_schedule schedule e msg;
        _ ← wrap_err (storage_err "write failed: ") (PutSchedule newSchedule);
        mret updated
    end in
  agree (tail d) (tail sp).
Proof.
  intros HR Ht Hok He Hs tail. subst tail. cbv beta.
  apply agree_put_execution; [done..|by rewrite He; intros ? [= <-]|].
  intros d1 sp1 HR1. agree_step.
  destruct (sp_schedules sp1 !! _) as [s|] eqn:Es; [|apply agree_fail].
  apply (R_schedule_ok _ _ _ _ HR1) in Es.
  eapply agree_bind; [by apply agree_advance|]. intros s' d2 sp2 Hadv HR2.
  apply agree_put_schedule; [done|by eapply advance_ok|by intros; apply agree_ret].
Qed.

Lemma terminal_good s : IsTerminal s = true → good_id s ∧ utf8_valid s = true.
Proof.
  unfold IsTerminal. rewrite !orb_true_iff, !bool_decide_eq_true.
  intros [[->| ->]| ->]; (split; [good_const|done]).
Qed.

Lemma agree_CompleteExecution c at_ d sp :
  R d sp → admissible (complete_execution c) at_ sp →
  agree (ApplyCompleteExecution c at_ d) (ApplyCompleteExecution c at_ sp).
Proof.
  intros HR [Hc Hat Ht _]. simpl in Ht. unfold ApplyCompleteExecution.
  do 4 agree_step. agree_step. agree_step. bool_hyps.
  destruct (sp_executions sp !! _) as [e|] eqn:Ee; [|apply agree_fail].
  destruct (R_execution_ok _ _ _ _ _ HR Ee) as [Hok [Heq1 Heq2]]. agree_step.
  destruct (terminal_good (CompleteExecutionCommand.FinalStatus c)) as [Hg Hu]; [done|].
  apply agree_finalise; [done..| | |done].
  - apply finalized_ok; [done..| |done]. by apply Forall_inv in Hc.
  - simpl. by rewrite Heq1, Heq2.
Qed.

Lemma agree_FailExecutionTimeout c at_ d sp :
  R d sp → admissible (fail_execution_timeout c) at_ sp →
  agree (ApplyFailExecutionTimeout c at_ d) (ApplyFailExecutionTimeout c at_ sp).
Proof.
  intros HR [Hc Hat Ht _]. simpl in Ht. unfold ApplyFailExecutionTimeout. do 4 agree_step.
  destruct (sp_executions sp !! _) as [e|] eqn:Ee; [|apply agree_fail].
  destruct (R_execution_ok _ _ _ _ _ HR Ee) as [Hok [Heq1 Heq2]]. agree_step.
  destruct (terminal_good ExecutionStatusFailedMaxRetries) as [Hg Hu]; [done|].
  apply agree_finalise; [done..| | |done].
  - apply finalized_ok; [done..| |done]. by apply Forall_inv in Hc.
  - simpl. by rewrite Heq1, Heq2.
Qed.

(** Every command. *)
Lemma agree_run_command c at_ d sp :
  R d sp → admissible c at_ sp → agree (run_command c at_ d) (run_command c at_ sp).
Proof.
  intros HR Had. destruct c; (eapply agree_bind; [|by intros; apply agree_ret]).
  - by apply agree_CreateTenant.
  - by apply agree_CreateSchedule.
  - by apply agree_UpdateSchedule.
  - by apply agree_PauseSchedule.
  - by apply agree_CancelSchedule.
  - by apply agree_ResumeSchedule.
  - by apply agree_ClaimExecution.
  - by apply agree_AdoptExecution.
  - by apply agree_RecordAttempt.
  - by apply agree_CompleteExecution.
  - by apply agree_FailExecutionTimeout.
Qed.
End handlers.
