(* ===== verification/Pages.v ===== *)
(** * Pages: following the cursor visits every row once

    A client reads a paginated listing by passing each page's [nextCursor]
    to the next call until it is empty. *)

From S2P Require Import Prelude Go GoTime Model Storage Spec.
Open Scope Z_scope.

(** The client's loop; [fuel] bounds the number of calls. *)
Fixpoint read_all {Row} (fuel : nat) (page_at : string → result (list Row * string))
    (cursor : string) : result (list Row) :=
  match fuel with
  | O => Err (EText "too many pages")
  | S fuel' =>
      p ← page_at cursor;
      if bool_decide (p.2 = "") then Ok p.1
      else more ← read_all fuel' page_at p.2; Ok (p.1 ++ more)
  end.

Section pages.
Context {Row : Type} (idOf : Row → string).
Implicit Types rows : list Row.

(** The rows beyond a cursor. *)
Definition beyond (cursor : string) rows : list Row :=
  if bool_decide (cursor = "") then rows else filter (λ x, str_lt cursor (idOf x)) rows.

Lemma last_id_app rows x : last_id idOf (rows ++ [x]) = idOf x.
Proof. unfold last_id. by rewrite last_snoc. Qed.

(** In an ordered list, what exceeds the last of the first [n] is the rest. *)
Lemma filter_past_take n rows :
  StronglySorted (λ x y, str_lt (idOf x) (idOf y)) rows → (0 < n < length rows)%nat →
  filter (λ x, str_lt (last_id idOf (take n rows)) (idOf x)) rows = drop n rows.
Proof.
  intros HS [Hn Hlen]. destruct n as [|n]; [lia|].
  destruct (lookup_lt_is_Some_2 rows n) as [x Hx]; [lia|].
  assert (take (S n) rows = take n rows ++ [x]) as Htake by (by apply take_S_r).
  rewrite Htake, last_id_app. rewrite <- (take_drop (S n) rows) in HS.
  apply StronglySorted_app in HS as (H1 & H2 & _). rewrite Htake in H1, H2.
  apply StronglySorted_app in H2 as (H2 & _ & _).
  rewrite <- (take_drop (S n) rows) at 1. rewrite filter_app, Htake.
  rewrite (filter_id _ (drop (S n) rows)) by (intros y Hy; apply H1; [set_solver|done]).
  replace (filter _ (take n rows ++ [x])) with ([] : list Row); [done|].
  symmetry. apply elem_of_nil_inv. intros y [Hlt Hy]%list_elem_of_filter.
  apply (irreflexivity str_lt (idOf x)).
  apply elem_of_app in Hy as [Hy|Hy%list_elem_of_singleton]; [|by subst].
  etrans; [done|]. apply H2; set_solver.
Qed.

Lemma filter_beyond c c' rows :
  ¬ str_lt c' c → filter (λ x, str_lt c' (idOf x)) (filter (λ x, str_lt c (idOf x)) rows)
  = filter (λ x, str_lt c' (idOf x)) rows.
Proof.
  intros H. apply list_filter_filter_l. intros x Hx.
  destruct (str_lt_total c c') as [H'|[->|?]]; [by etrans|done|done].
Qed.

Lemma page_beyond limit cursor rows :
  0 < limit →
  page idOf limit cursor rows
  = (let rest := beyond cursor rows in let n := Z.to_nat limit in
     (take n rest, if (n <? length rest)%nat then last_id idOf (take n rest) else "")).
Proof. intros H. unfold page, beyond. by destruct (Z.leb_spec limit 0); [lia|]. Qed.

(** Following the cursor from anywhere reads the rows beyond it. *)
Lemma read_all_beyond limit fuel cursor rows :
  0 < limit → StronglySorted (λ x y, str_lt (idOf x) (idOf y)) rows →
  (∀ x, x ∈ rows → idOf x ≠ "") → (length (beyond cursor rows) < fuel)%nat →
  read_all fuel (λ c, Ok (page idOf limit c rows)) cursor = Ok (beyond cursor rows).
Proof.
  intros Hlim HS Hne. revert cursor. induction fuel as [|fuel IH]; intros cursor Hf; [lia|].
  cbn [read_all]. unfold mbind at 1, result_bind at 1. rewrite page_beyond by done. cbn zeta.
  set (rest := beyond cursor rows) in *. set (n := Z.to_nat limit).
  assert (StronglySorted (λ x y, str_lt (idOf x) (idOf y)) rest) as HSr.
  { unfold rest, beyond. case_bool_decide; [done|by apply StronglySorted_filter]. }
  assert (∀ x, x ∈ rest → x ∈ rows) as Hsub.
  { unfold rest, beyond. case_bool_decide; [done|]. by intros x [_ ?]%list_elem_of_filter. }
  cbn [fst snd]. destruct (Nat.ltb_spec n (length rest)) as [Hlt|Hge].
  - assert (∃ x, x ∈ rest ∧ last_id idOf (take n rest) = idOf x) as (x & Hx & Hlast).
    { destruct (lookup_lt_is_Some_2 rest (n - 1)) as [x Hx]; [lia|]. exists x.
      split; [by eapply list_elem_of_lookup_2|].
      replace n with (S (n - 1)) by lia. by rewrite (take_S_r _ _ _ Hx), last_id_app. }
    assert (idOf x ≠ "") as Hxne by auto. rewrite Hlast, bool_decide_false by done.
    assert (beyond (idOf x) rows = drop n rest) as Hb.
    { rewrite <- (filter_past_take n rest), Hlast by (done || lia).
      unfold beyond at 1. rewrite bool_decide_false by done.
      unfold rest, beyond. case_bool_decide as Hc; [done|]. symmetry. apply filter_beyond.
      unfold rest, beyond in Hx. rewrite bool_decide_false in Hx by done.
      apply list_elem_of_filter in Hx as [Hx _]. intros H'.
      apply (irreflexivity str_lt cursor). by etrans. }
    rewrite IH by (rewrite Hb, length_drop; lia). cbn. by rewrite Hb, take_drop.
  - rewrite bool_decide_true by done. by rewrite take_ge by lia.
Qed.

Lemma read_all_page limit rows :
  0 < limit → StronglySorted (λ x y, str_lt (idOf x) (idOf y)) rows →
  (∀ x, x ∈ rows → idOf x ≠ "") →
  read_all (S (length rows)) (λ c, Ok (page idOf limit c rows)) "" = Ok rows.
Proof.
  intros H1 H2 H3. assert (beyond "" rows = rows) as Hb by reflexivity.
  rewrite read_all_beyond; rewrite ?Hb; done || lia.
Qed.

Lemma read_all_ext fuel (f g : string → result (list Row * string)) cursor :
  (∀ c, f c = g c) → read_all fuel f cursor = read_all fuel g cursor.
Proof.
  intros Hfg. revert cursor. induction fuel as [|fuel IH]; intros cursor; [done|]. simpl.
  rewrite Hfg. destruct (g cursor) as [[l c]|?|?]; simpl; [|done..].
  case_bool_decide; [done|]. by rewrite IH.
Qed.
End pages.
