(* ===== verification/Replica.v ===== *)
(** * Replica: replaying the log on bbolt implements the abstract machine

    A replica is the state machine applied to a log.  On admissible logs the
    buckets stay related to the abstract store, so the invariants of the
    abstract machine hold of what [boltTx] reads in every reachable state. *)

From S2P Require Import Prelude Go GoTime GoFloat Model RecurrenceCalc Bolt Json Storage Command.
From S2P Require Import Dispatch StateMachine Spec Refinement RefinementScan RefinementTx CommandRefinement Lifecycle.
From S2P Require Import Invariants.
Open Scope Z_scope.

Section replica.
Context `{PF : !Platform, CC : !CommandCodec, B : !Bolt, BL : !BoltLaws B, J : !Json, JL : !JsonLaws J}.

(** [Apply] on an open handle. *)
Lemma Apply_open sm e w d :
  open_dbs w !! sm_storage sm = Some d →
  Apply sm e w = ((apply_db e d).1,
    mkWorld (<[sm_storage sm := (apply_db e d).2]> (open_dbs w)) (fresh w)).
Proof.
  intros Hd. unfold Apply, apply_db, handle_Update. rewrite Hd.
  destruct e as [env|x|p]; [by destruct (Update _ d)| |];
    simpl; rewrite insert_id by done; by destruct w.
Qed.

(** ** Admissible logs *)

(** The command an entry carries, when it decodes. *)
Definition entry_command (e : LogData) : option (command * Time) :=
  match e with
  | Ok env => match decode_command (Type_ env) (Payload env) with
              | Ok c => Some (c, ProposedAt env)
              | _ => None
              end
  | _ => None
  end.

Definition entry_admissible (e : LogData) (sp : Spec) : Prop :=
  match entry_command e with Some (c, at_) => admissible c at_ sp | None => True end.

(** Every entry is admissible in the state it is applied to. *)
Fixpoint admissible_log (l : list LogData) (sp : Spec) : Prop :=
  match l with
  | [] => True
  | e :: l' => entry_admissible e sp ∧ admissible_log l' (apply_db e sp).2
  end.

(** ** One entry *)

Lemma Update_agree {A} (m1 : M DB A) (m2 : M Spec A) d sp :
  R d sp → agree (m1 d) (m2 sp) →
  (Update m1 d).1 = (Update m2 sp).1 ∧ R (Update m1 d).2 (Update m2 sp).2.
Proof.
  intros HR [H1 H2]. unfold Update. destruct (m1 d) as [r1 d'], (m2 sp) as [r2 sp'].
  simpl in *. subst r1. destruct r2 as [a|e|p]; simpl; [|done..]. split; [done|]. by apply (H2 a).
Qed.

Lemma dispatch_agree env d sp :
  R d sp → entry_admissible (Ok env) sp →
  agree (Dispatch (Type_ env) (Payload env) (ProposedAt env) d)
        (Dispatch (Type_ env) (Payload env) (ProposedAt env) sp).
Proof.
  intros HR Had. unfold Dispatch. eapply agree_bind; [by apply agree_lift|].
  intros c d' sp' [Hc ->]%lift_inv HR'. apply agree_run_command; [done|].
  unfold entry_admissible, entry_command in Had. by rewrite Hc in Had.
Qed.

Lemma apply_agree e d sp :
  R d sp → entry_admissible e sp →
  (apply_db e d).1 = (apply_db e sp).1 ∧ R (apply_db e d).2 (apply_db e sp).2.
Proof.
  intros HR Had. destruct e as [env|e|p]; [|done..]. unfold apply_db.
  destruct (Update_agree _ _ d sp HR (dispatch_agree env d sp HR Had)) as [H1 H2].
  destruct (Update _ d) as [r1 d'], (Update _ sp) as [r2 sp']. simpl in *. by subst.
Qed.

(** A successful entry is a step of the abstract machine, any other leaves it. *)
Lemma apply_spec_cases e (sp : Spec) r sp' :
  apply_db e sp = (r, sp') →
  (∃ c at_ v, entry_command e = Some (c, at_) ∧ r = Ok v ∧ spec_step at_ c sp v sp')
  ∨ sp' = sp.
Proof.
  destruct e as [env|e|p]; [|by intros [= _ <-]; right..]. unfold apply_db, Update, Dispatch.
  unfold entry_command. destruct (decode_command _ _) as [c|x|p] eqn:Ec; simpl.
  - rewrite (M_bind_ok (lift (Ok c)) _ _ c _ eq_refl).
    destruct (run_command c (ProposedAt env) sp) as [[v|x|p] sp1] eqn:Er; intros [= <- <-];
      [|by right..].
    left. exists c, (ProposedAt env), v. split; [done|]. split; [done|]. by apply run_step.
  - intros [= _ <-]. by right.
  - intros [= _ <-]. by right.
Qed.

(** An entry that is answered is a step, or a rejection that changes nothing. *)
Lemma apply_answered e c at_ (sp : Spec) v sp' :
  entry_command e = Some (c, at_) → apply_db e sp = (Ok v, sp') →
  spec_step at_ c sp v sp' ∨ ((∃ ce, v = RRejected ce) ∧ sp' = sp).
Proof.
  destruct e as [en|x|p]; [|done..]. unfold entry_command, apply_db, Update, Dispatch.
  destruct (decode_command _ _) as [c0|x|p]; [|done..]. intros [= -> <-].
  rewrite (M_bind_ok (lift (Ok c)) _ _ c _ eq_refl).
  destruct (run_command c (ProposedAt en) sp) as [[v0|x|p] sp1] eqn:Er; simpl; intros [= Hv <-].
  - subst. left. by apply run_step.
  - right. destruct (asCommandErrorChain x); [|done]. injection Hv as <-. eauto.
Qed.

(** No handler answers with a rejection of its own. *)
Lemma run_command_reply {St} `{!Tx St} c at_ (d : St) ce d' :
  run_command c at_ d ≠ (Ok (RRejected ce), d').
Proof. by destruct c; intros (? & ? & _ & [=])%M_bind_inv. Qed.

(** An entry that is not accepted changes nothing: the transaction is rolled back. *)
Lemma apply_rolled_back {St} `{!Tx St} e (d : St) r d' :
  apply_db e d = (r, d') → (∀ v, r = Ok v → ∃ ce, v = RRejected ce) → d' = d.
Proof.
  destruct e as [env|e|p]; [|by intros [= _ <-]..]. unfold apply_db, Update.
  destruct (Dispatch _ _ _ d) as [[v|e|p] d1] eqn:Edis; intros [= <- <-]; [|done..].
  intros Hv. destruct (Hv v eq_refl) as [ce ->]. exfalso.
  unfold Dispatch in Edis. apply M_bind_inv in Edis as (c & s1 & _ & Hrun). by eapply run_command_reply.
Qed.

Lemma apply_spec_inv e sp : inv sp → inv (apply_db e sp).2.
Proof.
  intros Hinv. destruct (apply_db e sp) as [r sp'] eqn:E. simpl.
  apply apply_spec_cases in E as [(c & at_ & v & _ & _ & Hs)| ->]; [|done]. by eapply step_inv.
Qed.

(** ** The log *)

Lemma replay_agree l d sp :
  R d sp → admissible_log l sp →
  (replay l d).1 = (replay l sp).1 ∧ R (replay l d).2 (replay l sp).2.
Proof.
  revert d sp. induction l as [|e l IH]; intros d sp HR Had; [done|].
  destruct Had as [He Hl]. destruct (apply_agree e d sp HR He) as [H1 H2]. simpl.
  destruct (apply_db e d) as [r1 d1], (apply_db e sp) as [r2 sp1]. simpl in *. subst r1.
  destruct r2 as [v|x|p]; [|done..]. destruct (IH d1 sp1 H2 Hl) as [H3 H4].
  destruct (replay l d1) as [rs1 d2], (replay l sp1) as [rs2 sp2]. simpl in *. by subst.
Qed.

Lemma replay_spec_inv l sp : inv sp → inv (replay l sp).2.
Proof.
  revert sp. induction l as [|e l IH]; intros sp Hinv; [done|]. simpl.
  pose proof (apply_spec_inv e sp Hinv) as Hi. destruct (apply_db e sp) as [[v|x|p] sp1]; [|done..].
  specialize (IH sp1 Hi). by destruct (replay l sp1).
Qed.

(** The states a replica reaches from empty buckets on admissible logs. *)
Definition reachable (d : DB) : Prop :=
  ∃ l, admissible_log l emptySpec ∧ d = (replay l emptyDB).2.

Lemma reachable_consistent d : reachable d → ∃ sp, R d sp ∧ inv sp.
Proof.
  intros (l & Hl & ->). exists (replay l emptySpec).2. split.
  - by apply replay_agree; [apply R_empty|].
  - apply replay_spec_inv, inv_empty.
Qed.

(** What a read of a consistent state tells of the abstract one. *)
Lemma view_execution d sp t i e :
  R d sp → no_colon t = true →
  View (GetExecution t i) d = Ok (Some e) ↔ sp_executions sp !! (t, i) = Some e.
Proof.
  intros HR Ht. unfold View. simpl. rewrite (GetExecution_R d sp) by done. simpl.
  split; [by intros [= ->]|by intros ->].
Qed.

Lemma view_schedule d sp t i s :
  R d sp → no_colon t = true →
  View (GetSchedule t i) d = Ok (Some s) ↔ sp_schedules sp !! (t, i) = Some s.
Proof.
  intros HR Ht. unfold View. simpl. rewrite (GetSchedule_R d sp) by done. simpl.
  split; [by intros [= ->]|by intros ->].
Qed.

(** ** Rows along a log *)

(** No entry claims the identifier [p] again. *)
Definition no_reclaim (p : string * string) (l : list LogData) : Prop :=
  Forall (λ e, match entry_command e with Some (c, _) => ¬ reclaims c p | None => True end) l.

(** A relation between versions of a row that one step respects holds along
    a log. *)
Lemma replay_rows {Row} (get : Spec → gmap (string * string) Row) (evolves : Row → Row → Prop)
    (ok : LogData → Prop) p l sp x :
  (∀ x, evolves x x) → (∀ x y z, evolves x y → evolves y z → evolves x z) →
  (∀ e c at_ v sp sp' x, ok e → entry_command e = Some (c, at_) → spec_step at_ c sp v sp' →
     inv sp → get sp !! p = Some x → ∃ x', get sp' !! p = Some x' ∧ evolves x x') →
  inv sp → Forall ok l → get sp !! p = Some x →
  ∃ x', get (replay l sp).2 !! p = Some x' ∧ evolves x x'.
Proof.
  intros Hrefl Htrans Hstep. revert sp x. induction l as [|e l IH]; intros sp x Hinv Hok Hx; [eauto|].
  apply Forall_cons in Hok as [He Hok]. simpl. pose proof (apply_spec_inv e sp Hinv) as Hi.
  destruct (apply_db e sp) as [r sp1] eqn:E. simpl in Hi.
  assert (∃ x', get sp1 !! p = Some x' ∧ evolves x x') as (x1 & Hx1 & Hev).
  { apply apply_spec_cases in E as [(c & at_ & v & Hc & _ & Hs)| ->]; eauto. }
  destruct r as [v|er|pn]; [|by eauto..].
  destruct (IH sp1 x1 Hi Hok Hx1) as (x2 & Hx2 & Hev2). destruct (replay l sp1). eauto.
Qed.

Lemma replay_execution p l sp e :
  inv sp → no_reclaim p l → sp_executions sp !! p = Some e →
  ∃ e', sp_executions (replay l sp).2 !! p = Some e' ∧ exec_evolves e e'.
Proof.
  intros Hinv Hno He.
  eapply (replay_rows sp_executions exec_evolves); [..|exact Hinv|exact Hno|exact He].
  - apply exec_evolves_refl.
  - apply exec_evolves_trans.
  - intros en c at_ v sp0 sp' x Hok Hc Hs Hi Hx. cbv beta in Hok. rewrite Hc in Hok. by eapply step_execution.
Qed.

Lemma sched_evolves_trans s1 s2 s3 : sched_evolves s1 s2 → sched_evolves s2 s3 → sched_evolves s1 s3.
Proof.
  intros (?&?&?&?&?&?&?&?&Ha1&Ha2) (?&?&?&?&?&?&?&?&Hb1&Hb2).
  repeat split; try congruence; [by auto|].
  intros [H'|[H' ?]]%Ha2; [destruct (Hb2 H') as [?|[? ?]]; [by left|right]|right].
  - split; [done|congruence].
  - split; [by apply Hb1|done].
Qed.

Lemma replay_schedule p l sp s :
  inv sp → sp_schedules sp !! p = Some s →
  ∃ s', sp_schedules (replay l sp).2 !! p = Some s' ∧ sched_evolves s s'.
Proof.
  intros Hinv Hs.
  eapply (replay_rows sp_schedules sched_evolves (λ _, True)); [..|exact Hinv| |exact Hs].
  - apply sched_evolves_refl.
  - apply sched_evolves_trans.
  - intros. by eapply step_schedule.
  - by apply Forall_true.
Qed.
End replica.
