(* ===== verification/Robust.v ===== *)
(** * Robust: which errors handlers return, and when they panic

    Every error a handler returns on [boltTx] is a [*CommandError], so [Apply]
    turns it into a reply; the only way a handler panics is a recurrence that
    lacks the field its cadence needs. *)

From S2P Require Import Prelude Go Calendar GoTime GoFloat Model RecurrenceCalc Bolt Json Storage.
From S2P Require Import Command Dispatch StateMachine Spec Lifecycle Invariants Refinement RefinementScan RefinementTx.
From S2P Require Import CommandRefinement Replica.
Open Scope Z_scope.

(** ** Typed errors *)

Definition is_typed (e : error) : Prop := ∃ c, e = ECommand c.

Definition typed {St A} (m : M St A) : Prop := ∀ s e s', m s = (Err e, s') → is_typed e.

Lemma is_typed_cmd k f m : is_typed (cmd_error k f m).
Proof. by eexists. Qed.

Section typed_rules.
Context {St : Type}.

Lemma typed_bind {A C} (m : M St A) (f : A → M St C) :
  typed m → (∀ a, typed (f a)) → typed (m ≫= f).
Proof.
  intros Hm Hf s e s'. unfold mbind, M_bind.
  destruct (m s) as [[a|x|p] s1] eqn:E; [apply Hf| |done]. intros [= <- _]. by eapply Hm.
Qed.
Lemma typed_ret {A} (a : A) : typed (mret a : M St A).
Proof. done. Qed.
Lemma typed_fail {A} e : is_typed e → typed (fail e : M St A).
Proof. by intros H s e' s' [= <- _]. Qed.
Lemma typed_lift {A} (r : result A) : (∀ e, r = Err e → is_typed e) → typed (lift r : M St A).
Proof. intros H s e s' [= -> _]. eauto. Qed.
Lemma typed_reject_if b e : is_typed e → typed (reject_if (St := St) b e).
Proof. intros H. destruct b; [by apply typed_fail|apply typed_ret]. Qed.
Lemma typed_wrap {A} g (m : M St A) : (∀ e, is_typed (g e)) → typed (wrap_err g m).
Proof.
  intros Hg s e s'. unfold wrap_err. destruct (m s) as [[a|x|p] s1]; [done| |done].
  intros [= <- _]. apply Hg.
Qed.
End typed_rules.

Section typed_compute.
Context `{PF : !Platform}.

Lemma resolve_typed tz e : resolveTimezone tz = Err e → is_typed e.
Proof.
  unfold resolveTimezone. case_bool_decide; [by intros [= <-]; eexists|].
  destruct (LoadLocation _ _); [done| |done]. intros [= <-]. by eexists.
Qed.

Lemma with_recurrence_typed rec tz fi fd fw fm e :
  with_recurrence rec tz fi fd fw fm = Err e →
  (∀ s e, fi s = Err e → is_typed e) → (∀ l e, fd l = Err e → is_typed e) →
  (∀ l e, fw l = Err e → is_typed e) → (∀ n l e, fm n l = Err e → is_typed e) → is_typed e.
Proof.
  unfold with_recurrence, mbind, result_bind. intros H Hi Hd Hw Hm.
  destruct rec as [r|]; [|injection H as <-; by eexists].
  destruct (resolveTimezone tz) as [loc|x|p] eqn:Er; [|injection H as <-; by eapply resolve_typed|done].
  case_bool_decide; [destruct (Recurrence.Seconds r); simpl in H; [by eapply Hi|done]|].
  case_bool_decide; [by eapply Hd|]. case_bool_decide; [by eapply Hw|].
  case_bool_decide; [destruct (Recurrence.DayOfMonth r); simpl in H; [by eapply Hm|done]|].
  injection H as <-. by eexists.
Qed.

Lemma month_typed who r e : month_search_result who r = Err e → is_typed e.
Proof. destruct r; [done|]. intros [= <-]. by eexists. Qed.

Ltac no_error := match goal with |- (if ?b then _ else _) = _ → _ => destruct b end;
  first [by apply month_typed | discriminate].
Ltac compute_typed := let H := fresh in
  intros H; eapply (with_recurrence_typed _ _ _ _ _ _ _ H); intros *;
  cbv delta [computeIntervalOnOrAfter computeDailyOnOrAfter computeWeeklyOnOrAfter
    computeMonthlyOnOrAfter computeIntervalAfter computeDailyAfter computeWeeklyAfter
    computeMonthlyAfter computeIntervalLatestOnOrBefore computeDailyLatestOnOrBefore
    computeWeeklyLatestOnOrBefore computeMonthlyLatestOnOrBefore] beta; no_error.

Lemma on_or_after_typed rec tz f t e : ComputeNextRunOnOrAfter rec tz f t = Err e → is_typed e.
Proof. compute_typed. Qed.
Lemma after_typed rec tz f t e : ComputeNextRunAfter rec tz f t = Err e → is_typed e.
Proof. compute_typed. Qed.
Lemma latest_typed rec tz f t e : ComputeLatestRunOnOrBefore rec tz f t = Err e → is_typed e.
Proof. compute_typed. Qed.

Lemma resume_typed s a t e : resume_next_run s a t = Err e → is_typed e.
Proof.
  unfold resume_next_run, mbind, result_bind.
  case_bool_decide; [destruct a; eauto using on_or_after_typed, after_typed|].
  case_bool_decide; [|case_bool_decide; [apply after_typed|done]].
  destruct (ComputeLatestRunOnOrBefore _ _ _ _) eqn:E; [done| |done].
  intros [= <-]. by eapply latest_typed.
Qed.

Lemma validateHeaders_typed h e : validateHeaders h = Some e → is_typed e.
Proof. unfold validateHeaders. case_match; [done|]. intros [= <-]. by eexists. Qed.
End typed_compute.

Section typed_handlers.
Context `{PF : !Platform, B : !Bolt, J : !Json}.

Lemma typed_reject_some (e : option error) :
  (∀ x, e = Some x → is_typed x) → typed (reject_some (St := DB) e).
Proof. destruct e; intros H; [by apply typed_fail, H|apply typed_ret]. Qed.

(** A scan reports its failure in its value, so it does not fail itself. *)
Lemma scan_no_err {Row A} p (get : string → M DB (option Row)) missing
    (fn : A → Row → A * option error) c acc : typed (scan p get missing fn c acc).
Proof.
  revert acc. induction c as [|[k u] c IH]; intros acc s e s'; simpl; [done|].
  destruct (String.prefix p k); [|done].
  destruct (get (strip_prefix p k) s) as [[[x|]|?|?] s1]; try done.
  destruct (fn acc x) as [acc' [er|]]; [done|]. apply IH.
Qed.

Ltac typed_step :=
  match goal with
  | |- typed (_ ≫= _) => apply typed_bind; [|intros]
  | |- typed (mret _) => apply typed_ret
  | |- typed (fail _) => apply typed_fail; by eexists
  | |- typed (reject_if _ _) => apply typed_reject_if; by eexists
  | |- typed (wrap_err (storage_err _) _) => apply typed_wrap; intros; apply is_typed_cmd
  | |- typed (wrap_err (λ _, verr _ _) _) => apply typed_wrap; intros; apply is_typed_cmd
  | |- typed (reject_some _) => apply typed_reject_some; intros *; apply validateHeaders_typed
  | |- typed (lift _) => apply typed_lift; intros *;
      first [apply on_or_after_typed | apply after_typed | apply resume_typed]
  | |- typed (ListExecutionsBySchedule _ _ _ _) => intros s0 e0 s1; apply scan_no_err
  | |- typed (require_time _ _ _ _) => unfold require_time
  | |- typed (advance_schedule _ _ _) => unfold advance_schedule
  | |- typed (match ?x with _ => _ end) => destruct x
  end.

Lemma run_typed (c : command) (at_ : Time) : typed (run_command (St := DB) c at_).
Proof.
  destruct c; unfold run_command, ApplyCreateTenant, ApplyCreateSchedule, ApplyUpdateSchedule,
    ApplyPauseSchedule, ApplyCancelSchedule, ApplyResumeSchedule, ApplyClaimExecution,
    ApplyAdoptExecution, ApplyRecordAttempt, ApplyCompleteExecution, ApplyFailExecutionTimeout;
    repeat typed_step.
Qed.
End typed_handlers.

(** ** Panics *)

(** The recurrence has the field its cadence reads. *)
Definition complete (rec : option Recurrence) : Prop :=
  match rec with
  | None => True
  | Some r => (r.(Recurrence.Cadence) = CadenceInterval → is_Some r.(Recurrence.Seconds))
              ∧ (r.(Recurrence.Cadence) = CadenceMonthly → is_Some r.(Recurrence.DayOfMonth))
  end.

Definition panics {A} (r : result A) : Prop := ∃ p, r = Panic p.

Lemma ok_no_panic {A} (a : A) : ¬ panics (Ok a).
Proof. by intros [p ?]. Qed.
Lemma err_no_panic {A} e : ¬ panics (A := A) (Err e).
Proof. by intros [p ?]. Qed.

Section panic_compute.
Context `{PF : !Platform}.

Lemma LoadLocation_no_panic tz name : ¬ panics (LoadLocation tz name).
Proof. unfold LoadLocation. repeat case_match; auto using ok_no_panic, err_no_panic. Qed.

Lemma with_recurrence_no_panic rec tz fi fd fw fm :
  complete rec → (∀ s, ¬ panics (fi s)) → (∀ l, ¬ panics (fd l)) → (∀ l, ¬ panics (fw l)) →
  (∀ n l, ¬ panics (fm n l)) → ¬ panics (with_recurrence rec tz fi fd fw fm).
Proof.
  intros Hc Hi Hd Hw Hm. unfold with_recurrence, mbind, result_bind.
  destruct rec as [r|]; [|apply err_no_panic]. destruct Hc as [Hs Hdm].
  destruct (resolveTimezone tz) as [loc|x|p] eqn:Er; [|apply err_no_panic|].
  - case_bool_decide as H; [destruct (Hs H) as [n ->]; apply Hi|]. case_bool_decide; [apply Hd|].
    case_bool_decide; [apply Hw|]. case_bool_decide as H'; [destruct (Hdm H') as [n ->]; apply Hm|].
    apply err_no_panic.
  - exfalso. unfold resolveTimezone in Er. case_bool_decide; [done|].
    pose proof (LoadLocation_no_panic tzdb tz) as Hl. destruct (LoadLocation tzdb tz); try done.
    apply Hl. by eexists.
Qed.

Lemma month_no_panic who r : ¬ panics (month_search_result who r).
Proof. destruct r; [apply ok_no_panic|apply err_no_panic]. Qed.

Ltac compute_calm := intros Hc; apply with_recurrence_no_panic; [done|intros *..];
  cbv delta [computeIntervalOnOrAfter computeDailyOnOrAfter computeWeeklyOnOrAfter
    computeMonthlyOnOrAfter computeIntervalAfter computeDailyAfter computeWeeklyAfter
    computeMonthlyAfter computeIntervalLatestOnOrBefore computeDailyLatestOnOrBefore
    computeWeeklyLatestOnOrBefore computeMonthlyLatestOnOrBefore] beta;
  match goal with |- ¬ panics (if ?b then _ else _) => destruct b end;
  first [apply ok_no_panic | apply month_no_panic].

Lemma on_or_after_calm rec tz f t : complete rec → ¬ panics (ComputeNextRunOnOrAfter rec tz f t).
Proof. compute_calm. Qed.
Lemma after_calm rec tz f t : complete rec → ¬ panics (ComputeNextRunAfter rec tz f t).
Proof. compute_calm. Qed.
Lemma latest_calm rec tz f t : complete rec → ¬ panics (ComputeLatestRunOnOrBefore rec tz f t).
Proof. compute_calm. Qed.

Lemma resume_calm s a t : complete s.(Schedule.Recurrence) → ¬ panics (resume_next_run s a t).
Proof.
  intros Hc. unfold resume_next_run, mbind, result_bind.
  case_bool_decide; [destruct a; auto using on_or_after_calm, after_calm|].
  case_bool_decide; [|case_bool_decide; auto using after_calm, ok_no_panic].
  pose proof (latest_calm s.(Schedule.Recurrence) s.(Schedule.Timezone) s.(Schedule.FirstRunAt) t Hc) as H'.
  destruct (ComputeLatestRunOnOrBefore _ _ _ _); [apply ok_no_panic|apply err_no_panic|].
  exfalso. apply H'. by eexists.
Qed.
End panic_compute.

Section panic_handlers.
Context `{PF : !Platform, J : !Json, JL : !JsonLaws J}.

(** A computation on the abstract store that does not panic from [sp]. *)
Definition calm {A} (m : M Spec A) (sp : Spec) : Prop := ¬ panics (m sp).1.

Lemma calm_bind {A C} (m : M Spec A) (f : A → M Spec C) sp :
  calm m sp → (∀ a sp', m sp = (Ok a, sp') → calm (f a) sp') → calm (m ≫= f) sp.
Proof.
  unfold calm, mbind, M_bind. destruct (m sp) as [[a|e|p] sp1]; intros Hm Hf; [by apply Hf|apply err_no_panic|].
  exfalso. apply Hm. by eexists.
Qed.
Lemma calm_ret {A} (a : A) sp : calm (mret a) sp.
Proof. apply ok_no_panic. Qed.
Lemma calm_fail {A} e sp : calm (fail e : M Spec A) sp.
Proof. apply err_no_panic. Qed.
Lemma calm_lift {A} (r : result A) sp : ¬ panics r → calm (lift r) sp.
Proof. done. Qed.
Lemma calm_reject_if b e sp : calm (reject_if b e) sp.
Proof. destruct b; [apply calm_fail|apply calm_ret]. Qed.
Lemma calm_reject_some e sp : calm (reject_some e) sp.
Proof. destruct e; [apply calm_fail|apply calm_ret]. Qed.
Lemma calm_wrap {A} g (m : M Spec A) sp : calm m sp → calm (wrap_err g m) sp.
Proof.
  unfold calm, wrap_err. destruct (m sp) as [[a|e|p] sp1]; simpl; auto using err_no_panic.
Qed.
Lemma calm_reads {A} (f : Spec → A) sp : calm (reads f) sp.
Proof. apply ok_no_panic. Qed.
Lemma calm_put {Row} `{!Rows Row, C : !RowCodec jbytes Row, !CodecLaws Row C} (x : Row) upd sp :
  calm (spec_put x upd) sp.
Proof.
  apply calm_bind; [|intros; apply ok_no_panic]. apply calm_lift. intros [p Hp].
  by apply marshal_no_panic in Hp.
Qed.

Ltac calm_step :=
  match goal with
  | |- calm (_ ≫= _) _ => apply calm_bind; [|intros]
  | |- calm (mret _) _ => apply calm_ret
  | |- calm (fail _) _ => apply calm_fail
  | |- calm (reject_if _ _) _ => apply calm_reject_if
  | |- calm (reject_some _) _ => apply calm_reject_some
  | |- calm (wrap_err _ _) _ => apply calm_wrap
  | |- calm (GetTenant _) _ => apply calm_reads
  | |- calm (GetSchedule _ _) _ => apply calm_reads
  | |- calm (GetExecution _ _) _ => apply calm_reads
  | |- calm (ListExecutionsBySchedule _ _ _ _) _ => apply calm_reads
  | |- calm (spec_put _ _) _ => apply calm_put
  | |- calm (PutTenant _) _ => apply calm_put
  | |- calm (PutSchedule _) _ => apply calm_put
  | |- calm (PutExecution _) _ => apply calm_put
  | |- calm (PutAttempt _) _ => apply calm_put
  | |- calm (require_time _ _ _ _) _ => unfold require_time
  | |- calm (findMostRecentTerminalExecution _ _) _ =>
      unfold findMostRecentTerminalExecution, check_iter
  | |- calm (match ?x with _ => _ end) _ => destruct x eqn:?
  end.

(** The recurrences a command makes the handler read. *)
Definition plans_complete (sp : Spec) : Prop :=
  ∀ p s, sp_schedules sp !! p = Some s → complete s.(Schedule.Recurrence).

Definition create_complete (c : command) : Prop :=
  match c with create_schedule c => complete c.(CreateScheduleCommand.Recurrence) | _ => True end.

Lemma calm_advance s e msg sp : complete s.(Schedule.Recurrence) → calm (advance_schedule s e msg) sp.
Proof.
  intros Hc. unfold advance_schedule. repeat calm_step. apply calm_lift. by apply after_calm.
Qed.

(** Both finalisers: the schedule read after the write is one of the store's. *)
Lemma calm_finalise e updated t msg sp :
  plans_complete sp →
  calm (_ ← wrap_err (storage_err "write failed: ") (PutExecution updated);
    schedule ← wrap_err (storage_err "get schedule failed: ") (GetSchedule t e.(Execution.ScheduleID));
    match schedule with
    | None => fail (not_found "" "no schedule exists")
    | Some schedule =>
        newSchedule ← advance_schedule schedule e msg;
        _ ← wrap_err (storage_err "write failed: ") (PutSchedule newSchedule);
        mret updated
    end) sp.
Proof.
  intros Hpl. apply calm_bind; [apply calm_wrap, calm_put|]. intros [] sp1 ->%put_inv.
  apply calm_bind; [apply calm_wrap, calm_reads|]. intros o sp1 [-> ->]%wrap_err_inv%reads_inv.
  simpl. destruct (sp_schedules sp !! _) as [s|] eqn:Es; [|apply calm_fail].
  apply calm_bind; [eapply calm_advance, Hpl, Es|]. intros. repeat calm_step.
Qed.

Lemma run_calm c at_ sp : plans_complete sp → create_complete c → calm (run_command c at_) sp.
Proof.
  intros Hpl Hc. destruct c; (apply calm_bind; [|intros; apply calm_ret]);
    unfold ApplyCreateTenant, ApplyCreateSchedule, ApplyUpdateSchedule,
    ApplyPauseSchedule, ApplyCancelSchedule, ApplyClaimExecution,
    ApplyAdoptExecution, ApplyRecordAttempt; try (by repeat calm_step).
  - repeat calm_step. apply calm_lift. by apply on_or_after_calm.
  - unfold ApplyResumeSchedule. do 2 (apply calm_bind; [apply calm_reject_if|];
      intros [] ? [_ ->]%reject_if_inv).
    apply calm_bind; [apply calm_wrap, calm_reads|]. intros o sp1 [-> ->]%wrap_err_inv%reads_inv.
    destruct (sp_schedules sp !! _) as [s|] eqn:Es; [|apply calm_fail].
    repeat calm_step. apply calm_lift. eapply resume_calm, Hpl, Es.
  - unfold ApplyCompleteExecution. do 5 (apply calm_bind; [apply calm_reject_if|];
      intros [] ? [_ ->]%reject_if_inv).
    apply calm_bind; [apply calm_wrap, calm_reads|]. intros o sp1 [-> ->]%wrap_err_inv%reads_inv.
    destruct (sp_executions sp !! _) as [e|]; [|apply calm_fail].
    apply calm_bind; [apply calm_reject_if|]. intros [] ? [_ ->]%reject_if_inv.
    by apply calm_finalise.
  - unfold ApplyFailExecutionTimeout. do 3 (apply calm_bind; [apply calm_reject_if|];
      intros [] ? [_ ->]%reject_if_inv).
    apply calm_bind; [apply calm_wrap, calm_reads|]. intros o sp1 [-> ->]%wrap_err_inv%reads_inv.
    destruct (sp_executions sp !! _) as [e|]; [|apply calm_fail].
    apply calm_bind; [apply calm_reject_if|]. intros [] ? [_ ->]%reject_if_inv.
    by apply calm_finalise.
Qed.

(** Complete recurrences stay complete: no step changes a recurrence. *)
Lemma step_plans at_ c sp r sp' :
  spec_step at_ c sp r sp' → plans_complete sp → create_complete c → plans_complete sp'.
Proof.
  intros Hstep Hpl Hc p x. step_cases Hstep; simpl in *;
    try (intros Hx; by eapply Hpl);
    intros [[_ <-]|[_ Hx]]%lookup_insert_Some; try (by eapply Hpl); simpl in *;
    try done; try exact (Hpl _ _ H1).
  - destruct H3 as (_&_&_&_&_&_&Hr&_). rewrite Hr. by eapply Hpl.
  - destruct H6; exact (Hpl _ _ H5).
  - destruct H5; exact (Hpl _ _ H4).
Qed.
End panic_handlers.

(** ** Logs *)

Section logs.
Context `{PF : !Platform, CC : !CommandCodec, B : !Bolt, BL : !BoltLaws B, J : !Json, JL : !JsonLaws J}.

(** The entry decodes, and a schedule it creates has a complete recurrence. *)
Definition entry_sound (e : LogData) : Prop :=
  match entry_command e with Some (c, _) => create_complete c | None => False end.

(** What [Apply] answers to a decoded entry: the handler's outcome. *)
Lemma apply_decoded {St} `{!Tx St} env c (s : St) :
  decode_command (Type_ env) (Payload env) = Ok c →
  apply_db (Ok env) s
  = match run_command c (ProposedAt env) s with
    | (Ok v, s') => (Ok v, s')
    | (Err e, _) => (apply_outcome (Err e), s)
    | (Panic p, _) => (Panic p, s)
    end.
Proof.
  intros Hc. unfold apply_db, Update, Dispatch. rewrite Hc.
  rewrite (M_bind_ok (lift (Ok c)) _ _ c _ eq_refl).
  by destruct (run_command c (ProposedAt env) s) as [[v|e|p] s'].
Qed.

Lemma apply_replies e d sp :
  R d sp → entry_admissible e sp → plans_complete sp → entry_sound e →
  ∃ v, (apply_db e d).1 = Ok v ∧ plans_complete (apply_db e sp).2.
Proof.
  intros HR Had Hpl Hs. unfold entry_admissible, entry_sound, entry_command in *.
  destruct e as [env|?|?]; [|done..].
  destruct (decode_command (Type_ env) (Payload env)) as [c|?|?] eqn:Ec; [|done..].
  rewrite !(apply_decoded _ c _ Ec).
  pose proof (run_calm c (ProposedAt env) sp Hpl Hs) as Hcalm.
  destruct (agree_run_command c (ProposedAt env) d sp HR Had) as [Hag _].
  destruct (run_command c _ d) as [r1 d1] eqn:Ed, (run_command c _ sp) as [r2 sp1] eqn:Es.
  simpl in Hag. subst r2. destruct r1 as [v|x|p].
  - exists v. split; [done|]. apply run_step in Es. by eapply step_plans.
  - destruct (run_typed _ _ _ _ _ Ed) as [ce ->]. by exists (RRejected ce).
  - exfalso. apply Hcalm. rewrite Es. by eexists.
Qed.

Lemma replay_replies l d sp :
  R d sp → admissible_log l sp → plans_complete sp → Forall entry_sound l →
  ∃ rs, (replay l d).1 = Ok rs ∧ length rs = length l.
Proof.
  revert d sp. induction l as [|e l IH]; intros d sp HR Had Hpl Hs; [by exists []|].
  destruct Had as [He Hl]. apply Forall_cons in Hs as [Hse Hsl].
  destruct (apply_replies e d sp HR He Hpl Hse) as (v & Hv & Hpl').
  destruct (apply_agree e d sp HR He) as [_ HR']. simpl.
  destruct (apply_db e d) as [r d1]. simpl in *. subst r.
  destruct (IH d1 _ HR' Hl Hpl' Hsl) as (rs & Hrs & Hlen).
  destruct (replay l d1) as [r d2]. simpl in *. subst r. exists (v :: rs). simpl. by rewrite Hlen.
Qed.
End logs.
