(* ===== verification/Attempts.v ===== *)
(** * Attempts: an execution counts the attempts recorded for it

    Holds of logs that never reuse an attempt's or an execution's identifier. *)

From S2P Require Import Prelude Go GoTime Model Json Storage Command Dispatch StateMachine Spec.
From S2P Require Import Lifecycle Invariants Refinement RefinementScan RefinementTx CommandRefinement Replica.
Open Scope Z_scope.

Definition attempts_of (sp : Spec) (t i : string) : list Attempt :=
  rows_where Attempt.ID (of_execution t i) (sp_attempts sp).

(** [AttemptCount] is the number of attempt rows, in 64-bit arithmetic. *)
Definition counted (sp : Spec) : Prop :=
  ∀ t i e, sp_executions sp !! (t, i) = Some e →
    e.(Execution.AttemptCount) = wrap64 (Z.of_nat (length (attempts_of sp t i))).

(** The identifier a command introduces is new. *)
Definition id_unused (c : command) (sp : Spec) : Prop :=
  match c with
  | claim_execution c =>
      sp_executions sp !! (c.(ClaimExecutionCommand.TenantID), c.(ClaimExecutionCommand.ID)) = None
  | record_attempt c =>
      sp_attempts sp !! (c.(RecordAttemptCommand.TenantID), c.(RecordAttemptCommand.ID)) = None
  | _ => True
  end.

#[export] Instance id_unused_dec c sp : Decision (id_unused c sp).
Proof. destruct c; simpl; apply _. Defined.

Lemma rows_where_length {Row} (idOf : Row → string) (P : Row → bool) (m : gmap (string * string) Row) :
  length (rows_where idOf P m) = length (filter (λ x, P x = true) (map_to_list m).*2).
Proof. apply Permutation_length. apply merge_sort_Permutation. Qed.

Lemma rows_where_insert_length {Row} (idOf : Row → string) (P : Row → bool)
    (m : gmap (string * string) Row) p x :
  m !! p = None →
  length (rows_where idOf P (<[p := x]> m))
  = ((if P x then 1 else 0) + length (rows_where idOf P m))%nat.
Proof.
  intros Hp. rewrite !rows_where_length.
  rewrite (Permutation_length (filter_Permutation _ _ _
    (fmap_Permutation snd _ _ (map_to_list_insert m p x Hp)))).
  rewrite fmap_cons, filter_cons. simpl. by destruct (P x).
Qed.

Lemma wrap64_succ n : wrap64 (wrap64 n + 1) = wrap64 (n + 1).
Proof.
  unfold wrap64. f_equal.
  replace ((n + 2 ^ 63) mod 2 ^ 64 - 2 ^ 63 + 1 + 2 ^ 63) with ((n + 2 ^ 63) mod 2 ^ 64 + 1) by lia.
  rewrite Zplus_mod_idemp_l. f_equal. lia.
Qed.

(** An execution that keeps its key and its count keeps the invariant. *)
Lemma counted_update sp p e e' :
  inv sp → counted sp → sp_executions sp !! p = Some e →
  e'.(Execution.TenantID) = e.(Execution.TenantID) → e'.(Execution.ID) = e.(Execution.ID) →
  e'.(Execution.AttemptCount) = e.(Execution.AttemptCount) → counted (with_execution e' sp).
Proof.
  intros Hinv Hc He Ht Hi Hn t i x. simpl. rewrite Ht, Hi, <- (inv_exec_key _ Hinv _ _ He).
  intros [[-> <-]|[_ Hx]]%lookup_insert_Some; [rewrite Hn|]; by apply Hc.
Qed.

Section steps.
Context `{PF : !Platform, J : !Json}.

Lemma step_counted at_ c sp r sp' :
  spec_step at_ c sp r sp' → inv sp → counted sp → id_unused c sp → counted sp'.
Proof.
  intros Hstep Hinv Hc Hnew. step_cases Hstep; try exact Hc.
  - intros t i x. simpl in *. intros [[[= <- <-] <-]|[_ Hx]]%lookup_insert_Some; [|by apply Hc].
    assert (attempts_of sp c.(ClaimExecutionCommand.TenantID) c.(ClaimExecutionCommand.ID) = []) as Hnil.
    { apply elem_of_nil_inv. intros a [Ha [p Hp]]%elem_of_rows_where. unfold of_execution in Ha.
      bool_hyps. destruct (inv_attempts _ Hinv _ _ Hp) as [_ [x Hx]]. congruence. }
    unfold attempts_of in *. simpl. by rewrite Hnil.
  - by eapply counted_update.
  - intros t i x. simpl in *. unfold attempts_of. simpl.
    rewrite rows_where_insert_length by done.
    assert (of_execution t i a = bool_decide ((t, i)
      = (c.(RecordAttemptCommand.TenantID), c.(RecordAttemptCommand.ExecutionID)))) as ->.
    { unfold of_execution. simpl. repeat case_bool_decide; naive_solver. }
    pose proof (inv_exec_key _ Hinv _ _ H1) as Hk. rewrite <- Hk.
    intros [[[= <- <-] <-]|[Hne Hx]]%lookup_insert_Some.
    + rewrite bool_decide_true by done.
      change (Execution.AttemptCount (with_new_attempt c e0))
        with (wrap64 (e0.(Execution.AttemptCount) + 1)).
      rewrite (Hc _ _ _ H1), wrap64_succ, Nat2Z.inj_add. unfold attempts_of. f_equal. lia.
    + rewrite bool_decide_false by done. by apply Hc.
  - eapply (counted_update sp); done.
  - eapply (counted_update sp); done.
Qed.
End steps.

Section logs.
Context `{PF : !Platform, CC : !CommandCodec, B : !Bolt, BL : !BoltLaws B, J : !Json, JL : !JsonLaws J}.

(** Every entry introduces a new identifier in the state it is applied to. *)
Fixpoint fresh_log (l : list LogData) (sp : Spec) : Prop :=
  match l with
  | [] => True
  | e :: l' =>
      match entry_command e with Some (c, _) => id_unused c sp | None => True end
      ∧ fresh_log l' (apply_db e sp).2
  end.

Lemma replay_counted l sp : inv sp → counted sp → fresh_log l sp → counted (replay l sp).2.
Proof.
  revert sp. induction l as [|e l IH]; intros sp Hinv Hc Hl; [done|]. destruct Hl as [He Hl].
  simpl. pose proof (apply_spec_inv e sp Hinv) as Hi.
  destruct (apply_db e sp) as [r sp1] eqn:E. simpl in *.
  assert (counted sp1) as Hc1.
  { apply apply_spec_cases in E as [(c & at_ & v & Hec & _ & Hs)| ->]; [|done].
    rewrite Hec in He. by eapply step_counted. }
  destruct r as [v|x|p]; [|done..]. specialize (IH sp1 Hi Hc1 Hl). by destruct (replay l sp1).
Qed.
End logs.
