(* ===== verification/Sample.v ===== *)
(** * Sample: one concrete replica

    A platform, a handful of commands and the log they make: a tenant, a daily
    schedule, one execution claimed, attempted and completed.  The theorems of
    the other files are exercised on it. *)

From S2P Require Import Prelude Go Calendar GoTime GoFloat Model RecurrenceCalc Bolt Json Storage.
From S2P Require Import Command Dispatch StateMachine Spec Refinement RefinementScan RefinementTx CommandRefinement.
From S2P Require Import Lifecycle Invariants Replica.
Open Scope Z_scope.

(** Brazil's last summer time began at midnight of 2018-11-04, when the clocks
    went from 00:00 to 01:00. *)
Definition sao_paulo : Location :=
  loc_of_transitions (-10800) [(1541300400, -7200); (1550368800, -10800)].

(** New York around the summer time of 2026, from 2026-03-08 07:00 to 2026-11-01
    06:00 UTC. *)
Definition new_york : Location :=
  loc_of_transitions (-18000) [(1772953200, -14400); (1793512800, -18000)].

(** amd64's out-of-range conversion, and four zones. *)
#[export] Instance sample_platform : Platform := {|
  cvt_out_of_range _ := minInt64;
  tzdb name :=
    if bool_decide (name = "Asia/Kolkata") then Some (FixedZone 19800)
    else if bool_decide (name = "America/Bogota") then Some (FixedZone (-18000))
    else if bool_decide (name = "America/Sao_Paulo") then Some sao_paulo
    else if bool_decide (name = "America/New_York") then Some new_york
    else None
|}.

(** ** Admissibility is decidable *)

#[export] Instance ids_good_dec c : Decision (ids_good c).
Proof. destruct c; simpl; apply _. Defined.

Lemma all_some_dec {A} (P : A → Prop) `{!∀ a, Decision (P a)} (o : option A) :
  Decision (∀ a, o = Some a → P a).
Proof.
  destruct o as [a|]; [destruct (decide (P a)) as [Ha|Ha]|].
  - left. by intros ? [= <-].
  - right. intros Hall. by apply Ha, Hall.
  - by left.
Defined.

#[export] Instance ids_fresh_dec c sp : Decision (ids_fresh c sp).
Proof. destruct c; simpl; try (by left); apply all_some_dec; apply _. Defined.

#[export] Instance admissible_dec c at_ sp : Decision (admissible c at_ sp).
Proof.
  refine (cast_if (decide (clean c ∧ time_clean at_ = true ∧ ids_good c ∧ ids_fresh c sp))).
  - destruct a as (?&?&?&?). by split.
  - intros [????]. by apply n.
Defined.

#[export] Instance entry_admissible_dec e sp : Decision (entry_admissible e sp).
Proof. unfold entry_admissible. destruct (entry_command e) as [[c at_]|]; apply _. Defined.

#[export] Instance admissible_log_dec l sp : Decision (admissible_log l sp).
Proof.
  revert sp. induction l as [|e l IH]; intros sp; simpl; [by left|]. apply _.
Defined.

(** ** The log *)

Definition noon : Time := utc_date 2024 3 1 12 0 0.
Definition next_noon : Time := utc_date 2024 3 2 12 0 0.

Definition no_backoff : RetryBackoff := RetryBackoff.mk (30 * second_ns) f64_one (300 * second_ns).
Definition daily : Recurrence := Recurrence.mk CadenceDaily None None None.

Definition c_tenant : command :=
  create_tenant (CreateTenantCommand.mk "acme" "Acme Corp" "5e884898da28047151d0e56f8dc62927").
Definition create_cmd : CreateScheduleCommand := CreateScheduleCommand.mk "s1" "acme" "ops"
  "https://acme.example/hook" "{}" ∅ ScheduleTypeRecurring noon (Some daily) "UTC" 3
  no_backoff None CatchUpPolicyAll.
Definition claim_cmd (id : string) (slot : Time) : ClaimExecutionCommand :=
  ClaimExecutionCommand.mk id "acme" "s1" slot "node-1".
Definition record_cmd : RecordAttemptCommand := RecordAttemptCommand.mk "acme" "e1" "a1" "node-1"
  (Some noon) (Some noon) OutcomeSuccess None "https://acme.example/hook" ∅ "cafe" 200 "ok" ∅.
Definition complete_cmd : CompleteExecutionCommand :=
  CompleteExecutionCommand.mk "acme" "e1" ExecutionStatusSucceeded "delivered" None.

Definition entry (c : command) (at_ : Time) : LogData :=
  Ok (mkLogEntry (command_type c) at_ c).

Definition sample_log : list LogData :=
  [entry c_tenant noon; entry (create_schedule create_cmd) noon;
   entry (claim_execution (claim_cmd "e1" noon)) noon].
Definition sample_rest : list LogData :=
  [entry (record_attempt record_cmd) noon; entry (complete_execution complete_cmd) noon].

Definition sample_spec : Spec := (replay sample_log emptySpec).2.
Definition sample_db : DB := (replay sample_log emptyDB).2.

Lemma sample_admissible : admissible_log sample_log emptySpec.
Proof. apply (bool_decide_unpack _). vm_compute. exact I. Qed.

Lemma sample_rest_admissible : admissible_log sample_rest sample_spec.
Proof. apply (bool_decide_unpack _). vm_compute. exact I. Qed.

Lemma sample_reachable : reachable sample_db.
Proof. exists sample_log. split; [apply sample_admissible|done]. Qed.

Lemma sample_R : R sample_db sample_spec.
Proof. apply (replay_agree sample_log emptyDB emptySpec); [apply R_empty|apply sample_admissible]. Qed.

Lemma sample_inv : inv sample_spec.
Proof. apply replay_spec_inv, inv_empty. Qed.

Definition e1 : Execution := new_execution (claim_cmd "e1" noon) noon.
Definition e1_done : Execution :=
  finalized (with_new_attempt record_cmd e1) ExecutionStatusSucceeded "delivered" noon.

Lemma sample_executions : sp_executions sample_spec = {[ ("acme", "e1") := e1 ]}.
Proof. vm_compute. reflexivity. Qed.

Example sample_e1 : View (GetExecution "acme" "e1") sample_db = Ok (Some e1).
Proof. vm_compute. reflexivity. Qed.

Example sample_finishes :
  View (GetExecution "acme" "e1") (replay sample_rest sample_db).2 = Ok (Some e1_done).
Proof. vm_compute. reflexivity. Qed.

Example sample_next_run : ∃ s,
  View (GetSchedule "acme" "s1") (replay sample_rest sample_db).2 = Ok (Some s)
  ∧ s.(Schedule.Status) = ScheduleStatusActive ∧ s.(Schedule.NextRunAt) = Some next_noon.
Proof. eexists. split; [vm_compute; reflexivity|]. split; reflexivity. Qed.
