(* ===== verification/Safety.v ===== *)
(** * Safety: what every replica guarantees

    The theorems about the replicated state machine as it runs on bbolt, each
    with the sample log as its witness. *)

From S2P Require Import Prelude Go Calendar GoTime GoFloat Model RecurrenceCalc Bolt Json Storage.
From S2P Require Import Command Dispatch StateMachine Spec Refinement RefinementScan RefinementTx CommandRefinement Pages.
From S2P Require Import Lifecycle Invariants Replica Robust Attempts Sample.
Open Scope Z_scope.

Section replica.
Context `{PF : !Platform, CC : !CommandCodec, B : !Bolt, BL : !BoltLaws B, J : !Json, JL : !JsonLaws J}.

(** C1: replaying an admissible log on the eight bbolt buckets gives, entry for
    entry, the replies, rejections and panics of the abstract store of plain
    finite maps, and leaves the buckets related to it: every row under its
    composite key, every index with exactly one key per row. *)
Theorem replay_refines (l : list LogData) (d : DB) (sp : Spec) :
  R d sp → admissible_log l sp →
  (replay l d).1 = (replay l sp).1 ∧ R (replay l d).2 (replay l sp).2.
Proof. apply replay_agree. Qed.

(** C3: a schedule never has two executions for the same slot: executions of
    one tenant and schedule scheduled for the same instant are the same row. *)
Theorem one_execution_per_slot (d : DB) (t i j : string) (e e' : Execution) :
  reachable d → no_colon t = true →
  View (GetExecution t i) d = Ok (Some e) → View (GetExecution t j) d = Ok (Some e') →
  e.(Execution.ScheduleID) = e'.(Execution.ScheduleID) →
  Equal e.(Execution.ScheduledFor) e'.(Execution.ScheduledFor) = true →
  i = j ∧ e = e'.
Proof.
  intros (sp & HR & Hinv)%reachable_consistent Ht He He' Hs Heq.
  apply (view_execution _ _ _ _ _ HR Ht) in He, He'.
  pose proof (inv_exec_key _ Hinv _ _ He) as [= Ht1 _].
  pose proof (inv_exec_key _ Hinv _ _ He') as [= Ht2 _].
  pose proof (inv_slots _ Hinv _ _ _ _ He He') as Hij.
  assert ((t, i) = (t, j)) as [= ->] by (apply Hij; congruence). split; congruence.
Qed.

(** The fields a claim must carry. *)
Definition claim_valid (c : ClaimExecutionCommand) : Prop :=
  c.(ClaimExecutionCommand.TenantID) ≠ "" ∧ c.(ClaimExecutionCommand.ScheduleID) ≠ ""
  ∧ c.(ClaimExecutionCommand.ID) ≠ "" ∧ IsZero c.(ClaimExecutionCommand.ScheduledFor) = false
  ∧ c.(ClaimExecutionCommand.OwnerNodeID) ≠ "".

(** A valid claim gets as far as its scan. *)
Lemma claim_scan c at_ d sp :
  R d sp → claim_valid c →
  no_colon c.(ClaimExecutionCommand.TenantID) = true →
  no_colon c.(ClaimExecutionCommand.ScheduleID) = true →
  ApplyClaimExecution c at_ d
  = match (iter (find_collision c.(ClaimExecutionCommand.ScheduledFor)) None
             (rows_where Execution.ID (in_schedule c.(ClaimExecutionCommand.TenantID)
                c.(ClaimExecutionCommand.ScheduleID)) (sp_executions sp))).1 with
    | Some e => (Err (claim_conflict e), d)
    | None => (_ ← wrap_err (storage_err "write failed: ") (PutExecution (new_execution c at_));
               mret (new_execution c at_)) d
    end.
Proof.
  intros HR (H1 & H2 & H3 & H4 & H5) Ht Hs. unfold ApplyClaimExecution.
  assert (∀ s, s ≠ "" → empty s = false) as Hne by (intros; by apply bool_decide_eq_false).
  rewrite !reject_pass by auto.
  erewrite M_bind_ok by (apply (ListExecutionsBySchedule_R d sp); done).
  pose proof (find_collision_spec c.(ClaimExecutionCommand.ScheduledFor)
    (rows_where Execution.ID (in_schedule c.(ClaimExecutionCommand.TenantID)
       c.(ClaimExecutionCommand.ScheduleID)) (sp_executions sp))) as Hf.
  by destruct (iter _ _ _) as [[ex|] [[]|]].
Qed.

(** C16: a claim for a slot that is already taken is refused with a conflict
    that names the existing execution, and nothing is written. *)
Theorem claim_taken_slot (d : DB) (c : ClaimExecutionCommand) (at_ : Time) (i : string)
    (e : Execution) :
  reachable d → claim_valid c → no_colon c.(ClaimExecutionCommand.TenantID) = true →
  View (GetExecution c.(ClaimExecutionCommand.TenantID) i) d = Ok (Some e) →
  e.(Execution.ScheduleID) = c.(ClaimExecutionCommand.ScheduleID) →
  Equal e.(Execution.ScheduledFor) c.(ClaimExecutionCommand.ScheduledFor) = true →
  Update (ApplyClaimExecution c at_) d = (Err (claim_conflict e), d).
Proof.
  intros (sp & HR & Hinv)%reachable_consistent Hv Ht He Hs Heq.
  apply (view_execution _ _ _ _ _ HR Ht) in He.
  destruct (wf_executions _ (R_wf _ _ HR) _ _ He) as [[= Het Hei] Hok].
  assert (no_colon c.(ClaimExecutionCommand.ScheduleID) = true) as Hns.
  { rewrite <- Hs. apply Hok. }
  unfold Update. rewrite (claim_scan c at_ d sp) by done.
  pose proof (find_collision_spec c.(ClaimExecutionCommand.ScheduledFor)
    (rows_where Execution.ID (in_schedule c.(ClaimExecutionCommand.TenantID)
       c.(ClaimExecutionCommand.ScheduleID)) (sp_executions sp))) as Hf.
  destruct (iter _ _ _) as [[ex|] [[]|]]; simpl in *; try done.
  - destruct Hf as [[Hin [p Hp]]%elem_of_rows_where Heq']. unfold in_schedule in Hin. bool_hyps.
    assert (p = (c.(ClaimExecutionCommand.TenantID), i)) as ->; [|congruence].
    eapply (inv_slots _ Hinv); [done|done|congruence|congruence|].
    unfold Equal in *. apply Z.eqb_eq in Heq, Heq'. apply Z.eqb_eq. congruence.
  - rewrite slot_free_rows in Hf. rewrite (Hf _ _ He) in Heq; done.
Qed.

(** C17: a claim for a free slot succeeds: the reply is a new execution in
    flight, owned by the claiming node, and it is what a read then finds. *)
Theorem claim_free_slot (d : DB) (sp : Spec) (c : ClaimExecutionCommand) (at_ : Time) :
  R d sp → claim_valid c → admissible (claim_execution c) at_ sp →
  encodable (new_execution c at_) →
  (∀ i e, View (GetExecution c.(ClaimExecutionCommand.TenantID) i) d = Ok (Some e) →
     e.(Execution.ScheduleID) = c.(ClaimExecutionCommand.ScheduleID) →
     Equal e.(Execution.ScheduledFor) c.(ClaimExecutionCommand.ScheduledFor) = false) →
  ∃ d', Update (ApplyClaimExecution c at_) d = (Ok (new_execution c at_), d')
    ∧ View (GetExecution c.(ClaimExecutionCommand.TenantID) c.(ClaimExecutionCommand.ID)) d'
      = Ok (Some (new_execution c at_)).
Proof.
  intros HR Hv Had Henc Hfree. pose proof Had as [Hc Hat ([Ht _] & Hi & [Hs _]) Hfresh].
  pose proof (new_execution_ok _ _ _ Had) as Hok.
  destruct (marshal_ok (new_execution c at_) (eo_clean _ Hok) Henc) as [raw Hraw].
  destruct (PutExecution_R d sp _ HR Hok Hfresh) as [Hput1 Hput2]. simpl in Hput1, Hput2.
  unfold spec_put in Hput1, Hput2. rewrite Hraw in Hput1, Hput2.
  rewrite (M_bind_ok (lift (Ok raw)) _ _ raw sp eq_refl) in Hput1, Hput2. simpl in Hput1, Hput2.
  unfold Update. rewrite (claim_scan c at_ d sp) by done.
  pose proof (find_collision_spec c.(ClaimExecutionCommand.ScheduledFor)
    (rows_where Execution.ID (in_schedule c.(ClaimExecutionCommand.TenantID)
       c.(ClaimExecutionCommand.ScheduleID)) (sp_executions sp))) as Hf.
  destruct (iter _ _ _) as [[ex|] [[]|]]; simpl in *; try done.
  - exfalso. destruct Hf as [[Hin [p Hp]]%elem_of_rows_where Heq']. unfold in_schedule in Hin.
    bool_hyps. destruct (wf_executions _ (R_wf _ _ HR) _ _ Hp) as [-> _].
    rewrite (Hfree ex.(Execution.ID) ex) in Heq'; [done| |done].
    apply (view_execution _ _ _ _ _ HR Ht). congruence.
  - destruct (bolt_PutExecution _ d) as [r d'] eqn:Ep. simpl in *. subst r. exists d'.
    unfold mbind, M_bind, wrap_err. rewrite Ep. split; [done|].
    specialize (Hput2 () eq_refl). apply (view_execution _ _ _ _ _ Hput2 Ht).
    apply lookup_insert_eq.
Qed.

(** C14: in every reachable state an execution is either in flight, with an
    owner and no outcome, or in a terminal status, with no owner, a completion
    time and an outcome; and its idempotency key is that of its slot. *)
Theorem execution_well_formed (d : DB) (t i : string) (e : Execution) :
  reachable d → no_colon t = true → View (GetExecution t i) d = Ok (Some e) → execution_inv e.
Proof.
  intros (sp & HR & Hinv)%reachable_consistent Ht He.
  apply (view_execution _ _ _ _ _ HR Ht) in He. by eapply inv_executions.
Qed.

(** C15: in every reachable state a schedule has one of the four statuses, and
    one that is not active has no next run, so it is never due. *)
Theorem schedule_well_formed (d : DB) (t i : string) (s : Schedule) :
  reachable d → no_colon t = true → View (GetSchedule t i) d = Ok (Some s) → schedule_inv s.
Proof.
  intros (sp & HR & Hinv)%reachable_consistent Ht Hs.
  apply (view_schedule _ _ _ _ _ HR Ht) in Hs. by eapply inv_schedules.
Qed.

(** C5: whatever is replayed, an execution never disappears and keeps its
    tenant, schedule, slot and idempotency key; once its status is terminal the
    row does not change at all (as long as no later claim reuses its identifier,
    which the handler does not check). *)
Theorem executions_are_final (d : DB) (sp : Spec) (l : list LogData) (t i : string) (e : Execution) :
  R d sp → inv sp → admissible_log l sp → no_reclaim (t, i) l → no_colon t = true →
  View (GetExecution t i) d = Ok (Some e) →
  ∃ e', View (GetExecution t i) (replay l d).2 = Ok (Some e') ∧ exec_evolves e e'.
Proof.
  intros HR Hinv Hl Hno Ht He. apply (view_execution _ _ _ _ _ HR Ht) in He.
  destruct (replay_execution _ l _ _ Hinv Hno He) as (e' & He' & Hev).
  destruct (replay_agree l d sp HR Hl) as [_ HR'].
  exists e'. split; [|done]. by apply (view_execution _ _ _ _ _ HR' Ht).
Qed.

(** C13: whatever is replayed, a schedule never disappears and keeps its
    identity and its plan; a completed schedule stays completed, and a canceled
    one is never active or paused again. *)
Theorem schedules_are_durable (d : DB) (sp : Spec) (l : list LogData) (t i : string) (s : Schedule) :
  R d sp → inv sp → admissible_log l sp → no_colon t = true →
  View (GetSchedule t i) d = Ok (Some s) →
  ∃ s', View (GetSchedule t i) (replay l d).2 = Ok (Some s') ∧ sched_evolves s s'.
Proof.
  intros HR Hinv Hl Ht Hs. apply (view_schedule _ _ _ _ _ HR Ht) in Hs.
  destruct (replay_schedule _ l _ _ Hinv Hs) as (s' & Hs' & Hev).
  destruct (replay_agree l d sp HR Hl) as [_ HR'].
  exists s'. split; [|done]. by apply (view_schedule _ _ _ _ _ HR' Ht).
Qed.

(** An entry of another tenant leaves the rows of [t], and so what it reads. *)
Lemma apply_isolated e (sp : Spec) t :
  inv sp → (∀ c at_, entry_command e = Some (c, at_) → command_tenant c ≠ Some t) →
  same_rows t sp (apply_db e sp).2.
Proof.
  intros Hinv Hother. destruct (apply_db e sp) as [r sp'] eqn:E.
  apply apply_spec_cases in E as [(c & at_ & v & Hc & _ & Hs)| ->]; [|by repeat split].
  eapply step_isolated; [done..|]. by eapply Hother.
Qed.

Definition same_view (t : string) (d d' : DB) : Prop := ∀ i,
  View (GetSchedule t i) d' = View (GetSchedule t i) d
  ∧ View (GetExecution t i) d' = View (GetExecution t i) d
  ∧ View (GetAttempt t i) d' = View (GetAttempt t i) d.

Lemma same_rows_view d d' sp sp' t :
  R d sp → R d' sp' → no_colon t = true → same_rows t sp sp' → same_view t d d'.
Proof.
  intros HR HR' Ht (H1 & H2 & H3) i. unfold View; simpl.
  rewrite (GetSchedule_R _ _ _ _ HR' Ht), (GetSchedule_R _ _ _ _ HR Ht),
    (GetExecution_R _ _ _ _ HR' Ht), (GetExecution_R _ _ _ _ HR Ht),
    (GetAttempt_R _ _ _ _ HR' Ht), (GetAttempt_R _ _ _ _ HR Ht), H1, H2, H3. done.
Qed.

(** A command changes only rows of the tenant it names: for any other
    tenant every schedule, execution and attempt reads as before. *)
Theorem tenant_isolation (d : DB) (sp : Spec) (e : LogData) (t : string) :
  R d sp → inv sp → entry_admissible e sp → no_colon t = true →
  (∀ c at_, entry_command e = Some (c, at_) → command_tenant c ≠ Some t) →
  ∀ i, View (GetSchedule t i) (apply_db e d).2 = View (GetSchedule t i) d
     ∧ View (GetExecution t i) (apply_db e d).2 = View (GetExecution t i) d
     ∧ View (GetAttempt t i) (apply_db e d).2 = View (GetAttempt t i) d.
Proof.
  intros HR Hinv Hadm Ht Hother. destruct (apply_agree e d sp HR Hadm) as [_ HR'].
  by apply (same_rows_view _ _ _ _ _ HR HR' Ht), apply_isolated.
Qed.

(** C19: a replica answers every entry of a log whose payloads decode and whose
    created schedules have the field their cadence needs: it never panics. *)
Theorem replay_never_panics (l : list LogData) :
  admissible_log l emptySpec → Forall entry_sound l →
  ∃ rs, (replay l emptyDB).1 = Ok rs ∧ length rs = length l.
Proof.
  intros Hl Hs. eapply replay_replies; [apply R_empty|done| |done].
  intros p s. simpl. by rewrite lookup_empty.
Qed.

(** C20: every error a handler returns on bbolt, from any state of the buckets
    (failed reads and writes included), is a [*CommandError], so that
    [StateMachine.Apply] answers with a rejection and does not panic. *)
Theorem handler_errors_are_rejections (env : LogEntry) (c : command) (d : DB) (e : error) (d' : DB) :
  decode_command (Type_ env) (Payload env) = Ok c →
  run_command c (ProposedAt env) d = (Err e, d') →
  ∃ ce, e = ECommand ce ∧ apply_db (Ok env) d = (Ok (RRejected ce), d).
Proof.
  intros Hc He. destruct (run_typed _ _ _ _ _ He) as [ce ->]. exists ce. split; [done|].
  by rewrite (apply_decoded _ c _ Hc), He.
Qed.

(** A commit that fails, with an error of bbolt's own: an entry the handler
    accepts makes [Apply] panic, every other one is answered as ever, and the
    database is as it was. *)
Theorem failed_commit_panics (log : LogData) (d : DB) (e : error) :
  asCommandErrorChain e = None →
  (apply_commit (Some e) log d).2 = d
  ∧ (apply_commit (Some e) log d).1
    = match (apply_db log d).1 with
      | Ok (RRejected ce) => Ok (RRejected ce)
      | Ok _ => Panic (Error e)
      | r => r
      end.
Proof.
  intros He. destruct log as [env|x|p]; [|done..]. unfold apply_commit, apply_db, Update_commit, Update.
  destruct (Dispatch _ _ _ d) as [[v|x|p] d'] eqn:Ed; simpl; [|by destruct (asCommandErrorChain x)|done].
  rewrite He. split; [done|]. destruct v; try done. exfalso.
  unfold Dispatch in Ed. apply M_bind_inv in Ed as (cmd & s1 & _ & Hrun). by eapply run_command_reply.
Qed.

(** A rejected or panicking entry changes nothing: the transaction is
    rolled back and every open database is as it was. *)
Theorem rejection_changes_nothing (sm : StateMachine) (log : LogData) (w : World) (r : result reply)
    (w' : World) :
  Apply sm log w = (r, w') →
  (∃ ce, r = Ok (RRejected ce)) ∨ (∃ p, r = Panic p) → w' = w.
Proof.
  destruct log as [env|e|p]; [|by intros [= _ <-]..].
  destruct (open_dbs w !! sm_storage sm) as [d|] eqn:Ed; [|unfold Apply, handle_Update; rewrite Ed; by intros [= _ <-]].
  rewrite (Apply_open _ _ _ _ Ed). destruct (apply_db (Ok env) d) as [o d'] eqn:E. intros [= <- <-] Ho.
  assert (d' = d) as ->.
  { eapply apply_rolled_back; [exact E|]. intros v ->. destruct Ho as [[ce [= ->]]|[p [=]]]. by exists ce. }
  simpl. rewrite insert_id by done. by destruct w.
Qed.

(** C27: following the cursors of a paginated listing from the first page on,
    with any positive page size, reads every execution of the schedule exactly
    once, in the order of identifiers, and ends. *)
Theorem execution_pages_are_exhaustive (d : DB) (t s : string) (limit : Z) :
  reachable d → no_colon t = true → no_colon s = true → 0 < limit →
  ∃ rows, read_all (S (length rows))
      (λ cursor, View (ListExecutionsBySchedulePage t s limit cursor) d) "" = Ok rows
    ∧ StronglySorted (λ x y, str_lt x.(Execution.ID) y.(Execution.ID)) rows
    ∧ ∀ e, e ∈ rows ↔ e.(Execution.ScheduleID) = s
        ∧ View (GetExecution t e.(Execution.ID)) d = Ok (Some e).
Proof.
  intros (sp & HR & Hinv)%reachable_consistent Ht Hs Hlim. pose proof (R_wf _ _ HR) as Hwf.
  set (rows := rows_where Execution.ID (in_schedule t s) (sp_executions sp)). exists rows.
  assert (StronglySorted (λ x y, str_lt x.(Execution.ID) y.(Execution.ID)) rows) as HS.
  { eapply (rows_where_strict Execution.TenantID Execution.ScheduleID Execution.ID _ t);
      [by apply wf_keyed_schedule|]. intros x Hx. unfold in_schedule in Hx. by bool_hyps. }
  split; [|split; [done|]].
  - rewrite (read_all_ext _ _ (λ c, Ok (page Execution.ID limit c rows))).
    + apply read_all_page; [done..|]. intros x [_ [p Hp]]%elem_of_rows_where.
      by apply (inv_executions _ Hinv _ _ Hp).
    + intros c. unfold View. simpl. by rewrite (ListExecutionsBySchedulePage_R d sp).
  - intros e. subst rows. rewrite elem_of_rows_where, (view_execution _ _ _ _ _ HR Ht).
    unfold in_schedule. split.
    + intros [He [p Hp]]. bool_hyps. destruct (wf_executions _ Hwf _ _ Hp) as [-> _]. naive_solver.
    + intros [Hes Hp]. destruct (wf_executions _ Hwf _ _ Hp) as [[= Het] _].
      rewrite !bool_decide_true by done. eauto.
Qed.

(** C26: the unpaginated listings visit exactly the matching rows in the order
    of their identifiers: a callback folded over the scan of an index equals
    the callback folded over those rows of the abstract store.  A schedule is
    due when it is active and its next run is not after now. *)
Theorem listings_are_exact (d : DB) (sp : Spec) (t v : string) (now : Time) (A : Type) (acc : A)
    (fe : A → Execution → A * option error) (fa : A → Attempt → A * option error)
    (fs : A → Schedule → A * option error) :
  R d sp → no_colon t = true → no_colon v = true →
  View (ListExecutionsBySchedule t v fe acc) d
    = Ok (iter fe acc (rows_where Execution.ID (in_schedule t v) (sp_executions sp)))
  ∧ View (ListExecutionsByStatus t v fe acc) d
    = Ok (iter fe acc (rows_where Execution.ID (in_status t v) (sp_executions sp)))
  ∧ View (ListAttemptsByExecution t v fa acc) d
    = Ok (iter fa acc (rows_where Attempt.ID (of_execution t v) (sp_attempts sp)))
  ∧ View (ListSchedulesDue t now fs acc) d
    = Ok (iter fs acc (rows_where Schedule.ID (due t now) (sp_schedules sp)))
  ∧ View ListTenants d = Ok (all_tenants sp).
Proof.
  intros HR Ht Hv. pose proof (ListTenants_R d sp HR) as Hten. unfold View.
  change (ListTenants d) with (bolt_ListTenants d). rewrite Hten. simpl.
  by rewrite (ListExecutionsBySchedule_R d sp), (ListExecutionsByStatus_R d sp),
    (ListAttemptsByExecution_R d sp), (ListSchedulesDue_R d sp).
Qed.

(** C2: a successful command on bbolt is a step of the abstract state machine
    of schedules and executions, from a related state to a related state, with
    the same reply: every rule's guard has been checked and nothing else has
    been written. *)
Theorem commands_take_steps (d d' : DB) (sp : Spec) (c : command) (at_ : Time) (r : reply) :
  R d sp → admissible c at_ sp → run_command c at_ d = (Ok r, d') →
  ∃ sp', spec_step at_ c sp r sp' ∧ R d' sp'.
Proof.
  intros HR Had Hrun. destruct (agree_run_command c at_ d sp HR Had) as [H1 H2].
  rewrite Hrun in H1, H2. simpl in *. destruct (run_command c at_ sp) as [r2 sp'] eqn:E.
  simpl in *. subst r2. exists sp'. split; [by apply run_step|by apply (H2 r)].
Qed.

(** C25: on logs that never reuse an identifier, the attempt count of an
    execution is the number of attempt rows recorded for it. *)
Theorem attempts_are_counted (l : list LogData) (t i : string) (e : Execution) :
  admissible_log l emptySpec → fresh_log l emptySpec →
  no_colon t = true → no_colon i = true →
  View (GetExecution t i) (replay l emptyDB).2 = Ok (Some e) →
  ∃ rows, View (ListAttemptsByExecution t i (λ rows a, (rows ++ [a], None)) []) (replay l emptyDB).2
      = Ok (rows, None)
    ∧ e.(Execution.AttemptCount) = wrap64 (Z.of_nat (length rows)).
Proof.
  intros Hl Hf Ht Hi He. destruct (replay_agree l emptyDB emptySpec R_empty Hl) as [_ HR].
  apply (view_execution _ _ _ _ _ HR Ht) in He.
  exists (attempts_of (replay l emptySpec).2 t i). split.
  - unfold View. simpl. rewrite (ListAttemptsByExecution_R _ _ HR t i) by done. simpl. f_equal.
    unfold attempts_of. generalize (rows_where Attempt.ID (of_execution t i)
      (sp_attempts (replay l emptySpec).2)) as rows. intros rows.
    assert (∀ acc, iter (λ rows a, (rows ++ [a], None)) acc rows = (acc ++ rows, None : option error))
      as Hiter; [|by rewrite Hiter].
    induction rows as [|a rows IH]; intros acc; simpl; [by rewrite app_nil_r|].
    rewrite IH. by rewrite <- (assoc_L app).
  - apply (replay_counted l emptySpec); [apply inv_empty| |done|done].
    intros t' i' e' H'. simpl in H'. by rewrite lookup_empty in H'.
Qed.

(** C28: what is put is what is read: a good execution is stored under its
    tenant and identifier, read back unchanged, and no other execution,
    schedule or attempt reads differently; a row JSON cannot encode is refused
    with the encoder's error. *)
Theorem put_execution_roundtrip (d : DB) (sp : Spec) (e : Execution) :
  R d sp → execution_ok e →
  (∀ old, sp_executions sp !! (e.(Execution.TenantID), e.(Execution.ID)) = Some old →
     old.(Execution.ScheduleID) = e.(Execution.ScheduleID)) →
  match Marshal (bytes := jbytes) e with
  | Ok _ => ∃ d', PutExecution e d = (Ok (), d')
      ∧ ∀ t i, no_colon t = true →
          View (GetExecution t i) d'
            = (if decide ((t, i) = (e.(Execution.TenantID), e.(Execution.ID))) then Ok (Some e)
               else View (GetExecution t i) d)
          ∧ View (GetSchedule t i) d' = View (GetSchedule t i) d
          ∧ View (GetAttempt t i) d' = View (GetAttempt t i) d
  | Err x => (PutExecution e d).1 = Err x
  | Panic _ => False
  end.
Proof.
  intros HR Hok Hold. destruct (PutExecution_R d sp e HR Hok Hold) as [H1 H2]. simpl in *.
  unfold spec_put in *. destruct (Marshal e) as [raw|x|p] eqn:Em;
    [|done|by apply marshal_no_panic in Em].
  rewrite (M_bind_ok (lift (Ok raw)) _ _ raw sp eq_refl) in H1, H2. simpl in *.
  specialize (H2 () eq_refl). destruct (bolt_PutExecution e d) as [r d']. simpl in *. subst r.
  exists d'. split; [done|]. intros t i Ht. unfold View. simpl.
  rewrite (GetExecution_R _ _ _ _ H2 Ht), (GetExecution_R _ _ _ _ HR Ht),
    (GetSchedule_R _ _ _ _ H2 Ht), (GetSchedule_R _ _ _ _ HR Ht),
    (GetAttempt_R _ _ _ _ H2 Ht), (GetAttempt_R _ _ _ _ HR Ht). simpl.
  split; [|done]. case_decide as Hd.
  - by rewrite Hd, lookup_insert_eq.
  - by rewrite lookup_insert_ne by congruence.
Qed.
End replica.

(** ** The sample replica *)

Lemma replay_refines_witness :
  (replay sample_log emptyDB).1 = (replay sample_log emptySpec).1.
Proof. apply (replay_refines sample_log emptyDB emptySpec); [apply R_empty|apply sample_admissible]. Defined.

Lemma one_execution_per_slot_witness : e1 = e1 ∧ reachable sample_db.
Proof.
  split; [|apply sample_reachable].
  apply (one_execution_per_slot sample_db "acme" "e1" "e1" e1 e1);
    [apply sample_reachable|reflexivity|apply sample_e1|apply sample_e1|reflexivity|reflexivity].
Defined.

Lemma claim_valid_sample id slot : id ≠ "" → IsZero slot = false → claim_valid (claim_cmd id slot).
Proof. intros. by repeat split. Qed.

Lemma claim_taken_slot_witness :
  Update (ApplyClaimExecution (claim_cmd "e2" noon) noon) sample_db
  = (Err (claim_conflict e1), sample_db).
Proof.
  apply (claim_taken_slot sample_db (claim_cmd "e2" noon) noon "e1" e1);
    [apply sample_reachable|by apply claim_valid_sample|reflexivity|apply sample_e1|reflexivity|reflexivity].
Defined.

Lemma claim_free_slot_witness : ∃ d',
  Update (ApplyClaimExecution (claim_cmd "e2" next_noon) noon) sample_db
    = (Ok (new_execution (claim_cmd "e2" next_noon) noon), d').
Proof.
  destruct (claim_free_slot sample_db sample_spec (claim_cmd "e2" next_noon) noon) as (d' & H & _);
    [apply sample_R|by apply claim_valid_sample| | | |by exists d'].
  - apply (bool_decide_unpack _). vm_compute. exact I.
  - apply (bool_decide_unpack _). vm_compute. exact I.
  - intros i e He _. apply (view_execution _ _ "acme" i e sample_R eq_refl) in He.
    rewrite sample_executions in He. apply lookup_singleton_Some in He as [_ <-].
    vm_compute. reflexivity.
Defined.

Lemma execution_well_formed_witness : execution_inv e1.
Proof.
  apply (execution_well_formed sample_db "acme" "e1");
    [apply sample_reachable|reflexivity|apply sample_e1].
Defined.

Definition s1 : Schedule := new_schedule create_cmd (Some noon) noon.

Lemma sample_s1 : View (GetSchedule "acme" "s1") sample_db = Ok (Some s1).
Proof. vm_compute. reflexivity. Qed.

Lemma schedule_well_formed_witness : schedule_inv s1.
Proof.
  apply (schedule_well_formed sample_db "acme" "s1");
    [apply sample_reachable|reflexivity|apply sample_s1].
Defined.

Lemma executions_are_final_witness : ∃ e',
  View (GetExecution "acme" "e1") (replay sample_rest sample_db).2 = Ok (Some e') ∧ exec_evolves e1 e'.
Proof.
  apply (executions_are_final sample_db sample_spec sample_rest "acme" "e1" e1);
    [apply sample_R|apply sample_inv|apply sample_rest_admissible| |reflexivity|apply sample_e1].
  repeat constructor; intros [].
Defined.

Lemma schedules_are_durable_witness : ∃ s',
  View (GetSchedule "acme" "s1") (replay sample_rest sample_db).2 = Ok (Some s') ∧ sched_evolves s1 s'.
Proof.
  apply (schedules_are_durable sample_db sample_spec sample_rest "acme" "s1" s1);
    [apply sample_R|apply sample_inv|apply sample_rest_admissible|reflexivity|apply sample_s1].
Defined.

Lemma tenant_isolation_witness :
  View (GetExecution "globex" "e1") (apply_db (entry (record_attempt record_cmd) noon) sample_db).2
  = View (GetExecution "globex" "e1") sample_db.
Proof.
  apply (tenant_isolation sample_db sample_spec (entry (record_attempt record_cmd) noon) "globex");
    [exact sample_R|exact sample_inv|exact (proj1 sample_rest_admissible)|reflexivity|].
  intros c at_ Hc. injection Hc as <- _. discriminate.
Defined.

Lemma replay_never_panics_witness : ∃ rs,
  (replay (sample_log ++ sample_rest) emptyDB).1 = Ok rs ∧ length rs = 5%nat.
Proof.
  apply (replay_never_panics (sample_log ++ sample_rest)).
  - apply (bool_decide_unpack _). vm_compute. exact I.
  - repeat constructor; discriminate.
Defined.

(** Claiming the taken slot again: the error and the rejection it becomes. *)
Lemma handler_errors_witness : ∃ ce,
  apply_db (entry (claim_execution (claim_cmd "e2" noon)) noon) sample_db
  = (Ok (RRejected ce), sample_db).
Proof.
  assert ((run_command (claim_execution (claim_cmd "e2" noon)) noon sample_db).1
    = Err (claim_conflict e1)) as Hr by (vm_compute; reflexivity).
  destruct (run_command (claim_execution (claim_cmd "e2" noon)) noon sample_db) as [r d'] eqn:Hd'.
  simpl in Hr. subst r.
  destruct (handler_errors_are_rejections
    (@mkLogEntry plain_commands "claim_execution" noon (claim_execution (claim_cmd "e2" noon)))
    (claim_execution (claim_cmd "e2" noon)) sample_db (claim_conflict e1) d') as (ce & _ & H);
    [reflexivity|exact Hd'|]. exists ce. exact H.
Defined.

Lemma rejection_changes_nothing_witness :
  let w := mkWorld {[ 0%nat := sample_db ]} 1%nat in
  (Apply (mkStateMachine 0%nat 0%nat) (entry (claim_execution (claim_cmd "e2" noon)) noon) w).2 = w.
Proof.
  intros w. destruct (Apply (mkStateMachine 0%nat 0%nat) _ w) as [r w'] eqn:E. simpl.
  apply (rejection_changes_nothing (mkStateMachine 0%nat 0%nat)
    (entry (claim_execution (claim_cmd "e2" noon)) noon) w r w' E).
  left. assert (r = (Apply (mkStateMachine 0%nat 0%nat)
    (entry (claim_execution (claim_cmd "e2" noon)) noon) w).1) as -> by (by rewrite E).
  eexists. vm_compute. reflexivity.
Defined.

Lemma execution_pages_witness : ∃ rows,
  read_all (S (length rows)) (λ cursor, View (ListExecutionsBySchedulePage "acme" "s1" 1 cursor) sample_db) ""
  = Ok rows ∧ e1 ∈ rows.
Proof.
  destruct (execution_pages_are_exhaustive sample_db "acme" "s1" 1) as (rows & H1 & _ & H2);
    [apply sample_reachable|reflexivity|reflexivity|lia|].
  exists rows. split; [exact H1|]. apply H2. split; [reflexivity|apply sample_e1].
Defined.

Lemma listings_are_exact_witness :
  View (ListTenants) sample_db = Ok (all_tenants sample_spec).
Proof.
  apply (listings_are_exact sample_db sample_spec "acme" "s1" noon unit ()
    (λ _ _, ((), None)) (λ _ _, ((), None)) (λ _ _, ((), None)));
    [apply sample_R|reflexivity|reflexivity].
Defined.

Lemma commands_take_steps_witness : ∃ sp',
  spec_step noon (adopt_execution (AdoptExecutionCommand.mk "acme" "e1" "node-1" "node-2"))
    sample_spec (RExecution (with_owner "node-2" e1)) sp'.
Proof.
  assert ((run_command (adopt_execution (AdoptExecutionCommand.mk "acme" "e1" "node-1" "node-2"))
    noon sample_db).1 = Ok (RExecution (with_owner "node-2" e1))) as Hr by (vm_compute; reflexivity).
  destruct (run_command (adopt_execution (AdoptExecutionCommand.mk "acme" "e1" "node-1" "node-2"))
    noon sample_db) as [r d'] eqn:Hd'. simpl in Hr. subst r.
  destruct (commands_take_steps sample_db d' sample_spec
    (adopt_execution (AdoptExecutionCommand.mk "acme" "e1" "node-1" "node-2")) noon
    (RExecution (with_owner "node-2" e1))) as (sp' & H & _); [apply sample_R| |exact Hd'|by exists sp'].
  apply (bool_decide_unpack _). vm_compute. exact I.
Defined.

Lemma attempts_are_counted_witness : ∃ rows,
  View (ListAttemptsByExecution "acme" "e1" (λ rows a, (rows ++ [a], None)) [])
    (replay (sample_log ++ sample_rest) emptyDB).2 = Ok (rows, None)
  ∧ e1_done.(Execution.AttemptCount) = wrap64 (Z.of_nat (length rows)).
Proof.
  apply (attempts_are_counted (sample_log ++ sample_rest) "acme" "e1" e1_done);
    [apply (bool_decide_unpack _); vm_compute; exact I| |reflexivity|reflexivity|vm_compute; reflexivity].
  vm_compute. repeat split.
Defined.

Lemma put_execution_roundtrip_witness : ∃ d', PutExecution e1_done sample_db = (Ok (), d').
Proof.
  pose proof (put_execution_roundtrip sample_db sample_spec e1_done sample_R) as H.
  assert (∃ raw, Marshal (bytes := jbytes) e1_done = Ok raw) as [raw Hraw]
    by (eexists; vm_compute; reflexivity).
  rewrite Hraw in H. destruct H as (d' & Hd' & _); [| |by exists d'].
  - split; [by apply (bool_decide_unpack _)..|]. apply (bool_decide_unpack _). vm_compute. exact I.
  - rewrite sample_executions. intros old Ho. vm_compute in Ho. by injection Ho as <-.
Defined.
