(* ===== verification/RecurrenceSpec.v ===== *)
(** * RecurrenceSpec: the slots recurrence.go computes are the right ones

    A daily slot is an instant at which the clocks of the schedule's location
    show the first run's time of day, to the second; a weekly slot is one that
    also falls on the first run's weekday there.  In locations where the time of
    day comes once every day and the date never goes back ([steady]; summer time
    is allowed), the functions return the least slot on or after, the least
    slot after and the greatest on or before a given instant. *)

From Stdlib Require Import Ascii.
From S2P Require Import Prelude Go Calendar GoTime GoFloat Model RecurrenceCalc.
Open Scope Z_scope.

(** Far from the ends of 64-bit seconds; JSON carries the years 0 to 9999. *)
Definition representable (t : Time) : Prop := Z.abs (Unix t) ≤ 2 ^ 60.

#[export] Instance representable_dec t : Decision (representable t).
Proof. unfold representable. apply _. Defined.

(** [t] is the least instant of [P] that passes [ok], or the greatest. *)
Definition least (P : Time → Prop) (ok : Time → Prop) (t : Time) : Prop :=
  P t ∧ ok t ∧ ∀ t', P t' → ok t' → t_ns t ≤ t_ns t'.
Definition greatest (P : Time → Prop) (ok : Time → Prop) (t : Time) : Prop :=
  P t ∧ ok t ∧ ∀ t', P t' → ok t' → t_ns t' ≤ t_ns t.

#[export] Instance least_proper :
  Proper (pointwise_relation Time iff ==> eq ==> eq ==> iff) least.
Proof. intros P Q HPQ ok ? <- t ? <-. unfold least. by setoid_rewrite HPQ. Qed.
#[export] Instance greatest_proper :
  Proper (pointwise_relation Time iff ==> eq ==> eq ==> iff) greatest.
Proof. intros P Q HPQ ok ? <- t ? <-. unfold greatest. by setoid_rewrite HPQ. Qed.

(** ** Slots, as the clocks and calendars of a location show them *)

Definition same_clock (t u : Time) : Prop :=
  Hour t = Hour u ∧ Minute t = Minute u ∧ Second t = Second u.

Definition daily_slot (loc : Location) (firstRunAt t : Time) : Prop :=
  same_clock (In_loc t loc) (In_loc firstRunAt loc) ∧ Nanosecond t = 0.

Definition weekly_slot (loc : Location) (firstRunAt t : Time) : Prop :=
  daily_slot loc firstRunAt t ∧ Weekday (In_loc t loc) = Weekday (In_loc firstRunAt loc).

(** ** Locations *)

(** What the clocks show at Unix time [x], as seconds and as a day; the Unix
    time [time.Date] names for second [c] of day [D]. *)
Definition wall (loc : Location) (x : Z) : Z := x + zs_offset (lookup_zone loc x).
Definition day_of (loc : Location) (x : Z) : Z := wall loc x / day_secs.
Definition date_secs (loc : Location) (D c : Z) : Z := zone_adjust loc (D * day_secs + c).

(** Second [c] of the day comes once on every day, and [time.Date] names it; the
    date never goes back. *)
Record steady (loc : Location) (c : Z) : Prop := {
  sd_offset : ∀ x, Z.abs (zs_offset (lookup_zone loc x)) < day_secs;
  sd_once : ∀ D x, Z.abs D ≤ 2 ^ 44 → wall loc x = D * day_secs + c ↔ x = date_secs loc D c;
  sd_forward : ∀ x y, x ≤ y → day_of loc x ≤ day_of loc y
}.

(** The time of day of an instant, in seconds. *)
Definition tod (loc : Location) (t : Time) : Z := local_secs (In_loc t loc) mod day_secs.

(** A location with one offset, UTC among them, is steady at all times of day. *)
Lemma steady_fixed off t : Z.abs off < day_secs → steady (FixedZone off) (tod (FixedZone off) t).
Proof.
  intros Hoff. pose proof (Z.mod_pos_bound (local_secs (In_loc t (FixedZone off))) day_secs) as Hc.
  unfold tod, day_secs in *. specialize (Hc ltac:(lia)).
  set (c := local_secs _ mod _) in *. clearbody c. split.
  - intros x. done.
  - intros D x HD. unfold wall, date_secs, day_secs in *. simpl.
    rewrite zone_adjust_fixed by (unfold minInt64, maxInt64; lia). lia.
  - intros x y Hxy. unfold day_of, wall, day_secs. simpl. apply Z.div_le_mono; lia.
Qed.

Lemma same_clock_tod t u :
  same_clock t u ↔ local_secs t mod day_secs = local_secs u mod day_secs.
Proof.
  split.
  - intros (Hh & Hm & Hs). by rewrite <- !clock_secs, Hh, Hm, Hs.
  - intros H. unfold same_clock, Hour, Minute, Second. rewrite H. split; [done|].
    unfold day_secs in H. revert H. generalize (local_secs t) (local_secs u). intros a b H.
    split; [|Z.div_mod_to_equations; lia].
    replace (a mod 3600) with (b mod 3600); [done|]. Z.div_mod_to_equations. lia.
Qed.

Section slots.
Context (loc : Location) (firstRunAt : Time).
Notation c := (tod loc firstRunAt).
Context (Hloc : steady loc c).

Lemma tod_range t : 0 ≤ tod loc t < day_secs.
Proof. apply Z.mod_pos_bound. done. Qed.

Lemma wall_date D : Z.abs D ≤ 2 ^ 44 → wall loc (date_secs loc D c) = D * day_secs + c.
Proof. intros HD. by apply (sd_once _ _ Hloc). Qed.

Lemma day_date D : Z.abs D ≤ 2 ^ 44 → day_of loc (date_secs loc D c) = D.
Proof.
  intros HD. unfold day_of. rewrite wall_date by done. pose proof (tod_range firstRunAt).
  rewrite Z.div_add_l by done. rewrite Z.div_small; lia.
Qed.

(** Earlier days have earlier slots. *)
Lemma date_after D x : Z.abs D ≤ 2 ^ 44 → day_of loc x < D → x < date_secs loc D c.
Proof.
  intros HD Hlt. destruct (Z.lt_ge_cases x (date_secs loc D c)) as [|Hge]; [done|].
  pose proof (sd_forward _ _ Hloc _ _ Hge) as Hf. rewrite day_date in Hf by done. lia.
Qed.

Lemma date_before D x : Z.abs D ≤ 2 ^ 44 → D < day_of loc x → date_secs loc D c < x.
Proof.
  intros HD Hlt. destruct (Z.lt_ge_cases (date_secs loc D c) x) as [|Hge]; [done|].
  pose proof (sd_forward _ _ Hloc _ _ Hge) as Hf. rewrite day_date in Hf by done. lia.
Qed.

(** The slot of a day. *)
Definition slot_time (D : Z) : Time :=
  mkTime (date_secs loc D c * second_ns) (zs_offset (lookup_zone loc (date_secs loc D c))).

Lemma unix_slot D : Unix (slot_time D) = date_secs loc D c.
Proof. unfold Unix. simpl. by rewrite Z.div_mul. Qed.

Lemma nanosecond_slot D : Nanosecond (slot_time D) = 0.
Proof. unfold Nanosecond. simpl. by rewrite Z.mod_mul. Qed.

Lemma local_slot D : Z.abs D ≤ 2 ^ 44 → local_secs (In_loc (slot_time D) loc) = D * day_secs + c.
Proof.
  intros HD. change (local_secs (In_loc (slot_time D) loc)) with (wall loc (Unix (slot_time D))).
  rewrite unix_slot. by apply wall_date.
Qed.

Lemma slot_time_daily D : Z.abs D ≤ 2 ^ 44 → daily_slot loc firstRunAt (UTC (slot_time D)).
Proof.
  intros HD. split; [|apply (nanosecond_slot D)].
  apply same_clock_tod. change (In_loc (UTC (slot_time D)) loc) with (In_loc (slot_time D) loc).
  rewrite local_slot by done. fold c. pose proof (tod_range firstRunAt).
  rewrite Z.add_comm, Z.mod_add by done. by apply Z.mod_small.
Qed.

(** A daily slot is the slot of its day. *)
Lemma daily_slot_of t :
  daily_slot loc firstRunAt t → Z.abs (day_of loc (Unix t)) ≤ 2 ^ 44 →
  t_ns t = t_ns (slot_time (day_of loc (Unix t))).
Proof.
  intros [Hc Hn] HD. rewrite (unix_ns t), Hn, Z.add_0_r. simpl. f_equal.
  apply (sd_once _ _ Hloc); [done|]. apply same_clock_tod in Hc.
  unfold day_of. change (local_secs (In_loc t loc)) with (wall loc (Unix t)) in Hc.
  unfold tod. rewrite <- Hc. pose proof (Z.div_mod (wall loc (Unix t)) day_secs ltac:(done)). lia.
Qed.

(** ** [time.Date] and [AddDate] on slots *)

Lemma Date_slot y m d h mi s D :
  date_days y m d - unix_epoch_days = D → h * 3600 + mi * 60 + s = c →
  Date y m d h mi s 0 loc = slot_time D.
Proof.
  intros HD Hc. unfold Date, slot_time, date_secs. cbn zeta. rewrite HD.
  replace (D * day_secs + h * 3600 + mi * 60 + s) with (D * day_secs + c) by lia.
  f_equal. lia.
Qed.

Lemma at_clock_slot base k :
  at_clock_of (In_loc base loc) k (In_loc firstRunAt loc) loc = slot_time (day_of loc (Unix base) + k).
Proof.
  unfold at_clock_of. apply Date_slot; [|apply clock_secs].
  rewrite date_days_local. unfold local_days. change (local_secs (In_loc base loc)) with (wall loc (Unix base)).
  unfold day_of. lia.
Qed.

Lemma AddDate_slot D k : Z.abs D ≤ 2 ^ 44 → AddDate loc (slot_time D) 0 0 k = slot_time (D + k).
Proof.
  intros HD. unfold AddDate. rewrite !Z.add_0_r, nanosecond_slot.
  assert (local_secs (slot_time D) = D * day_secs + c) as Hl
    by (unfold local_secs; rewrite unix_slot; by apply wall_date).
  pose proof (tod_range firstRunAt). apply Date_slot.
  - rewrite date_days_local. unfold local_days. rewrite Hl, Z.div_add_l by done.
    rewrite Z.div_small; lia.
  - rewrite clock_secs, Hl, Z.add_comm, Z.mod_add by done. by apply Z.mod_small.
Qed.

(** ** Choosing between two days *)

Section choice.
Context (from : Time) (Hfrom : representable from).
Notation today := (day_of loc (Unix from)).

Lemma today_range : Z.abs today ≤ 2 ^ 44 - 100.
Proof.
  pose proof (sd_offset _ _ Hloc (Unix from)). unfold day_of, wall, representable, day_secs in *.
  Z.div_mod_to_equations. lia.
Qed.

(** Slots with a further condition on their day. *)
Context (days : Z → Prop).
Definition slot_in (t : Time) : Prop := daily_slot loc firstRunAt t ∧ days (day_of loc (Unix t)).

Lemma slot_time_in D : Z.abs D ≤ 2 ^ 44 → days D → slot_in (UTC (slot_time D)).
Proof.
  intros HD Hd. split; [by apply slot_time_daily|].
  change (Unix (UTC (slot_time D))) with (Unix (slot_time D)). by rewrite unix_slot, day_date.
Qed.

(** Instants in order have their days in order. *)
Lemma day_mono t u : t_ns t ≤ t_ns u → day_of loc (Unix t) ≤ day_of loc (Unix u).
Proof. intros H. apply (sd_forward _ _ Hloc). unfold Unix. by apply Z.div_le_mono. Qed.

Lemma slot_time_after D : Z.abs D ≤ 2 ^ 44 → today < D → t_ns from < t_ns (slot_time D).
Proof.
  intros HD H%date_after; [|done]. pose proof (nanosecond_range from).
  rewrite (unix_ns from). simpl. unfold second_ns in *. nia.
Qed.

Lemma slot_time_before D : Z.abs D ≤ 2 ^ 44 → D < today → t_ns (slot_time D) < t_ns from.
Proof.
  intros HD H%date_before; [|done]. pose proof (nanosecond_range from).
  rewrite (unix_ns from). simpl. unfold second_ns in *. nia.
Qed.

Lemma day_slot_time D : Z.abs D ≤ 2 ^ 44 → day_of loc (Unix (slot_time D)) = D.
Proof. intros HD. by rewrite unix_slot, day_date. Qed.

Lemma day_le_slot t D :
  Z.abs D ≤ 2 ^ 44 → t_ns t ≤ t_ns (slot_time D) → day_of loc (Unix t) ≤ D.
Proof. intros HD H%day_mono. by rewrite (day_slot_time D HD) in H. Qed.

Lemma slot_le_day t D :
  Z.abs D ≤ 2 ^ 44 → t_ns (slot_time D) ≤ t_ns t → D ≤ day_of loc (Unix t).
Proof. intros HD H%day_mono. by rewrite (day_slot_time D HD) in H. Qed.

(** A slot on the day of another is the other. *)
Lemma same_day_slot t D :
  daily_slot loc firstRunAt t → Z.abs D ≤ 2 ^ 44 → day_of loc (Unix t) = D → t_ns t = t_ns (slot_time D).
Proof. intros Hs HD <-. by apply daily_slot_of. Qed.

(** [D0] and [D1] follow each other among the days, the days before [D0] are
    over and [D1] is still to come. *)
Lemma choose_next D0 D1 (strict b : bool) :
  days D0 → days D1 → Z.abs D0 ≤ 2 ^ 44 → Z.abs D1 ≤ 2 ^ 44 →
  (∀ D, days D → today ≤ D → D < D1 → D = D0) → D0 < D1 → today < D1 →
  b = (if strict then t_ns from <? t_ns (slot_time D0) else t_ns from <=? t_ns (slot_time D0)) →
  least slot_in (λ t, if strict then t_ns from < t_ns t else t_ns from ≤ t_ns t)
    (UTC (if b then slot_time D0 else slot_time D1)).
Proof.
  intros Hd0 Hd1 HD0 HD1 Hnext H01 Hto Hb. pose proof (slot_time_after D1 HD1 Hto) as H1.
  split; [destruct b; by apply slot_time_in|]. split; [cbn; destruct b, strict; lia|].
  intros t' [Hs' Hd'] Hok. apply Z.nlt_ge. intros Hlt.
  assert (today ≤ day_of loc (Unix t')) as Hge by (apply day_mono; destruct strict; lia).
  destruct (decide (day_of loc (Unix t') < D1)) as [Hl1|Hl1].
  - pose proof (same_day_slot t' D0 Hs' HD0 (Hnext _ Hd' Hge Hl1)). destruct b, strict; cbn in *; lia.
  - pose proof (day_le_slot t' D1 HD1) as Hm1. pose proof (day_le_slot t' D0 HD0) as Hm0.
    destruct b; cbn in *; [lia|].
    pose proof (same_day_slot t' D1 Hs' HD1 ltac:(lia)). cbn in *. lia.
Qed.

Lemma choose_latest D0 D1 (b : bool) :
  days D0 → days D1 → Z.abs D0 ≤ 2 ^ 44 → Z.abs D1 ≤ 2 ^ 44 →
  (∀ D, days D → D ≤ today → D1 < D → D = D0) → D1 < D0 → D1 < today →
  b = (t_ns (slot_time D0) <=? t_ns from) →
  greatest slot_in (λ t, t_ns t ≤ t_ns from) (UTC (if b then slot_time D0 else slot_time D1)).
Proof.
  intros Hd0 Hd1 HD0 HD1 Hnext H01 Hto Hb. pose proof (slot_time_before D1 HD1 Hto) as H1.
  split; [destruct b; by apply slot_time_in|]. split; [cbn; destruct b; lia|].
  intros t' [Hs' Hd'] Hok. apply Z.nlt_ge. intros Hlt.
  assert (day_of loc (Unix t') ≤ today) as Hge by (apply day_mono; exact Hok).
  destruct (decide (D1 < day_of loc (Unix t'))) as [Hl1|Hl1].
  - pose proof (same_day_slot t' D0 Hs' HD0 (Hnext _ Hd' Hge Hl1)). destruct b; cbn in *; lia.
  - pose proof (slot_le_day t' D1 HD1) as Hm1. pose proof (slot_le_day t' D0 HD0) as Hm0.
    destruct b; cbn in *; [lia|].
    pose proof (same_day_slot t' D1 Hs' HD1 ltac:(lia)). cbn in *. lia.
Qed.
End choice.

(** ** Daily *)

Context (from : Time) (Hfrom : representable from) (Hstart : Before from firstRunAt = false).
Notation today := (day_of loc (Unix from)).

Lemma daily_slot_in : pointwise_relation Time iff (daily_slot loc firstRunAt) (slot_in (λ _, True)).
Proof. intros t. unfold slot_in. tauto. Qed.

Lemma not_before t : negb (Before t from) = (t_ns from <=? t_ns t).
Proof. unfold Before. by rewrite Z.leb_antisym. Qed.
Lemma not_after t : negb (After t from) = (t_ns t <=? t_ns from).
Proof. unfold After. by rewrite Z.leb_antisym. Qed.

(** [if_negb]: the test of an [if] the other way round. *)
Lemma if_negb {A} (b : bool) (x y : A) : (if b then x else y) = (if negb b then y else x).
Proof. by destruct b. Qed.

Lemma daily_on_or_after : ∃ t,
  computeDailyOnOrAfter firstRunAt from loc = Ok (Some t) ∧ t_off t = 0
  ∧ least (daily_slot loc firstRunAt) (λ t, t_ns from ≤ t_ns t) t.
Proof.
  pose proof (today_range from Hfrom). unfold computeDailyOnOrAfter.
  rewrite Hstart, at_clock_slot, Z.add_0_r, AddDate_slot by lia. cbn zeta. rewrite if_negb, not_before.
  eexists. split; [reflexivity|]. split; [done|]. rewrite daily_slot_in.
  apply (choose_next from (λ _, True) today (today + 1) false); lia || done.
Qed.

Lemma daily_after : ∃ t,
  computeDailyAfter firstRunAt from loc = Ok (Some t) ∧ t_off t = 0
  ∧ least (daily_slot loc firstRunAt) (λ t, t_ns from < t_ns t) t.
Proof.
  pose proof (today_range from Hfrom). unfold computeDailyAfter.
  rewrite Hstart, at_clock_slot, Z.add_0_r, AddDate_slot by lia. cbn zeta. rewrite <- if_negb.
  eexists. split; [reflexivity|]. split; [done|]. rewrite daily_slot_in.
  apply (choose_next from (λ _, True) today (today + 1) true); lia || done.
Qed.

Lemma daily_latest : ∃ t,
  computeDailyLatestOnOrBefore firstRunAt from loc = Ok (Some t) ∧ t_off t = 0
  ∧ greatest (daily_slot loc firstRunAt) (λ t, t_ns t ≤ t_ns from) t.
Proof.
  pose proof (today_range from Hfrom). unfold computeDailyLatestOnOrBefore.
  rewrite Hstart, at_clock_slot, Z.add_0_r, AddDate_slot by lia. cbn zeta. rewrite if_negb, not_after.
  eexists. split; [reflexivity|]. split; [done|]. rewrite daily_slot_in.
  apply (choose_latest from (λ _, True) today (today + -1)); lia || done.
Qed.

(** ** Weekly *)

(** The days of one weekday. *)
Definition weekdays (D0 D : Z) : Prop := D mod 7 = D0 mod 7.

Lemma Weekday_of t : Weekday (In_loc t loc) = (day_of loc (Unix t) + unix_epoch_days + 1) mod 7.
Proof. reflexivity. Qed.

Lemma weekday_iff a b :
  (a + unix_epoch_days + 1) mod 7 = (b + unix_epoch_days + 1) mod 7 ↔ weekdays b a.
Proof. unfold weekdays, unix_epoch_days. split; intros; Z.div_mod_to_equations; lia. Qed.

(** Slots on the weekday of an instant. *)
Lemma weekday_slot_in u :
  pointwise_relation Time iff
    (λ t, daily_slot loc firstRunAt t ∧ Weekday (In_loc t loc) = Weekday (In_loc u loc))
    (slot_in (weekdays (day_of loc (Unix u)))).
Proof. intros t. unfold slot_in. by rewrite !Weekday_of, weekday_iff. Qed.

Lemma weekday_step k u :
  Z.rem (Weekday (In_loc u loc) - Weekday (In_loc from loc) + 7) 7 = k →
  0 ≤ k < 7 ∧ weekdays (day_of loc (Unix u)) (today + k).
Proof.
  rewrite !Weekday_of. set (a := _ mod 7). set (b := (today + _ + _) mod 7). intros Hk.
  pose proof (Z.mod_pos_bound (day_of loc (Unix u) + unix_epoch_days + 1) 7) as Ha.
  pose proof (Z.mod_pos_bound (today + unix_epoch_days + 1) 7) as Hb. fold a in Ha. fold b in Hb.
  rewrite Z.rem_mod_nonneg in Hk by lia. subst a b k. unfold weekdays, unix_epoch_days in *.
  clear. generalize (day_of loc (Unix u)) (day_of loc (Unix from)). intros x y.
  split; Z.div_mod_to_equations; lia.
Qed.

Lemma weekday_step_back k u :
  Z.rem (Weekday (In_loc from loc) - Weekday (In_loc u loc) + 7) 7 = k →
  0 ≤ k < 7 ∧ weekdays (day_of loc (Unix u)) (today + - k).
Proof.
  rewrite !Weekday_of. set (a := _ mod 7). set (b := (day_of loc (Unix u) + _ + _) mod 7). intros Hk.
  pose proof (Z.mod_pos_bound (day_of loc (Unix u) + unix_epoch_days + 1) 7) as Hb.
  pose proof (Z.mod_pos_bound (today + unix_epoch_days + 1) 7) as Ha. fold a in Ha. fold b in Hb.
  rewrite Z.rem_mod_nonneg in Hk by lia. subst a b k. unfold weekdays, unix_epoch_days in *.
  clear. generalize (day_of loc (Unix u)) (day_of loc (Unix from)). intros x y.
  split; Z.div_mod_to_equations; lia.
Qed.

Lemma weekly_on_or_after : ∃ t,
  computeWeeklyOnOrAfter firstRunAt from loc = Ok (Some t) ∧ t_off t = 0
  ∧ least (weekly_slot loc firstRunAt) (λ t, t_ns from ≤ t_ns t) t.
Proof.
  pose proof (today_range from Hfrom). unfold computeWeeklyOnOrAfter. cbn zeta.
  destruct (weekday_step _ firstRunAt eq_refl) as [Hk Hd]. set (k := Z.rem _ 7) in *.
  rewrite Hstart, at_clock_slot, AddDate_slot by lia. rewrite if_negb, not_before.
  eexists. split; [reflexivity|]. split; [done|]. unfold weekly_slot. rewrite (weekday_slot_in firstRunAt).
  apply (choose_next from _ (today + k) (today + k + 7) false); try lia; try done;
    unfold weekdays in *; intros; Z.div_mod_to_equations; lia.
Qed.

Lemma weekly_latest : ∃ t,
  computeWeeklyLatestOnOrBefore firstRunAt from loc = Ok (Some t) ∧ t_off t = 0
  ∧ greatest (weekly_slot loc firstRunAt) (λ t, t_ns t ≤ t_ns from) t.
Proof.
  pose proof (today_range from Hfrom). unfold computeWeeklyLatestOnOrBefore. cbn zeta.
  destruct (weekday_step_back _ firstRunAt eq_refl) as [Hk Hd]. set (k := Z.rem _ 7) in *.
  rewrite Hstart, at_clock_slot, AddDate_slot by lia. rewrite if_negb, not_after.
  eexists. split; [reflexivity|]. split; [done|]. unfold weekly_slot. rewrite (weekday_slot_in firstRunAt).
  apply (choose_latest from _ (today + - k) (today + - k + -7)); try lia; try done;
    unfold weekdays in *; intros; Z.div_mod_to_equations; lia.
Qed.

(** The code's next weekly run stays on the weekday of [from]. *)
Lemma weekly_after : ∃ t,
  computeWeeklyAfter firstRunAt from loc = Ok (Some t) ∧ t_off t = 0
  ∧ least (λ t, daily_slot loc firstRunAt t ∧ Weekday (In_loc t loc) = Weekday (In_loc from loc))
      (λ t, t_ns from < t_ns t) t
  ∧ (weekly_slot loc firstRunAt t ↔ Weekday (In_loc from loc) = Weekday (In_loc firstRunAt loc)).
Proof.
  pose proof (today_range from Hfrom). unfold computeWeeklyAfter. cbn zeta.
  rewrite Hstart, at_clock_slot, Z.add_0_r, AddDate_slot by lia. rewrite <- if_negb.
  eexists. split; [reflexivity|]. split; [done|].
  assert (∀ t, least (λ t, daily_slot loc firstRunAt t ∧ Weekday (In_loc t loc) = Weekday (In_loc from loc))
    (λ t, t_ns from < t_ns t) t →
    weekly_slot loc firstRunAt t ↔ Weekday (In_loc from loc) = Weekday (In_loc firstRunAt loc)) as Hiff.
  { intros t [[Hs Hw] _]. unfold weekly_slot. rewrite Hw. tauto. }
  match goal with |- least ?P ?ok ?t ∧ _ => assert (least P ok t) as Hl; [|split; [done|by apply Hiff]] end.
  rewrite (weekday_slot_in from).
  apply (choose_next from _ today (today + 7) true); try lia; try done;
    unfold weekdays in *; intros; Z.div_mod_to_equations; lia.
Qed.
End slots.
