(* ===== verification/MonthlySpec.v ===== *)
(** * MonthlySpec: monthly slots, the last day of short months included

    A monthly slot is a daily slot on the [dayOfMonth]-th day of a month of the
    location's calendar, or on the last day of a month that is shorter.  The
    120-month search stops within two months. *)

From S2P Require Import Prelude Go Calendar GoTime GoFloat Model RecurrenceCalc RecurrenceSpec.
Open Scope Z_scope.

(** ** Months in sequence: month [i] is month [i mod 12 + 1] of year [i / 12] *)

Definition month_start (i : Z) : Z := days_of_civil (i / 12) (i mod 12 + 1) 1.
Definition length_of (i : Z) : Z := month_len (isLeap (i / 12)) (i mod 12 + 1).
Definition month_index (y m : Z) : Z := 12 * y + (m - 1).

Lemma month_index_year y m : 1 ≤ m ≤ 12 → month_index y m / 12 = y.
Proof. unfold month_index. intros. Z.div_mod_to_equations. lia. Qed.
Lemma month_index_month y m : 1 ≤ m ≤ 12 → month_index y m mod 12 + 1 = m.
Proof. unfold month_index. intros. Z.div_mod_to_equations. lia. Qed.
Lemma month_index_of i : month_index (i / 12) (i mod 12 + 1) = i.
Proof. unfold month_index. pose proof (Z.div_mod i 12). lia. Qed.
Lemma index_month_range i : 1 ≤ i mod 12 + 1 ≤ 12.
Proof. pose proof (Z.mod_pos_bound i 12). lia. Qed.

Lemma date_days_index y m d : date_days y m d = month_start (month_index y m) + (d - 1).
Proof.
  unfold date_days, month_start, month_index.
  replace ((12 * y + (m - 1)) / 12) with (y + (m - 1) / 12) by (Z.div_mod_to_equations; lia).
  replace ((12 * y + (m - 1)) mod 12) with ((m - 1) mod 12) by (Z.div_mod_to_equations; lia).
  done.
Qed.

Lemma month_start_succ i : month_start (i + 1) = month_start i + length_of i.
Proof.
  pose proof (date_days_next_month (i / 12) (i mod 12 + 1) (index_month_range i)) as H.
  rewrite date_days_index in H. unfold length_of.
  replace (month_index (i / 12) (i mod 12 + 1 + 1)) with (i + 1) in H.
  - unfold month_start at 2. lia.
  - unfold month_index. pose proof (Z.div_mod i 12). lia.
Qed.

Lemma length_of_range i : 28 ≤ length_of i ≤ 31.
Proof. apply month_len_range, index_month_range. Qed.

Lemma month_start_mono i j : i ≤ j → month_start i ≤ month_start j.
Proof.
  intros H. replace j with (i + Z.of_nat (Z.to_nat (j - i))) by lia.
  generalize (Z.to_nat (j - i)) as n. clear. intros n. induction n as [|n IH]; [by rewrite Z.add_0_r|].
  replace (i + Z.of_nat (S n)) with (i + Z.of_nat n + 1) by lia.
  rewrite month_start_succ. pose proof (length_of_range (i + Z.of_nat n)). lia.
Qed.

(** The month a day falls in. *)
Lemma month_of_day n y m d :
  civil_of_days n = (y, m, d) →
  1 ≤ m ≤ 12 ∧ month_start (month_index y m) ≤ n < month_start (month_index y m + 1).
Proof.
  intros [[Hm Hd] Hn]%civil_of_days_valid. split; [done|].
  rewrite month_start_succ. unfold length_of.
  assert (month_start (month_index y m) = days_of_civil y m 1) as ->.
  { unfold month_start. by rewrite month_index_year, month_index_month. }
  rewrite month_index_year, month_index_month by done. unfold days_of_civil in *. lia.
Qed.

Lemma civil_of_month_start i : civil_of_days (month_start i) = (i / 12, i mod 12 + 1, 1).
Proof.
  apply civil_of_days_of_civil. split; [apply index_month_range|].
  pose proof (length_of_range i). unfold length_of in *. lia.
Qed.

(** ** The UTC dates the search steps with *)

Lemma Date_UTC_day y m d :
  local_days (Date y m d 0 0 0 0 loc_UTC) = date_days y m d.
Proof.
  unfold local_days, local_secs, Date. rewrite zone_adjust_UTC. cbn [t_off zs_offset lookup_zone loc_UTC].
  rewrite unix_mk by (unfold second_ns; lia).
  replace ((date_days y m d - unix_epoch_days) * day_secs + 0 * 3600 + 0 * 60 + 0 + 0)
    with ((date_days y m d - unix_epoch_days) * day_secs) by lia.
  rewrite Z.div_mul by done. lia.
Qed.

Lemma next_month y m step :
  let next := Date y (m + step) 1 0 0 0 0 loc_UTC in
  Year next = (month_index y m + step) / 12 ∧ Month next = (month_index y m + step) mod 12 + 1.
Proof.
  simpl. unfold Year, Month. rewrite Date_UTC_day, date_days_index, Z.add_0_r.
  replace (month_index y (m + step)) with (month_index y m + step) by (unfold month_index; lia).
  by rewrite civil_of_month_start.
Qed.

Lemma lastDayOf_length i : lastDayOf (i / 12) (i mod 12 + 1) = length_of i.
Proof.
  unfold lastDayOf, Day. rewrite Date_UTC_day, date_days_index.
  replace (month_index (i / 12) (i mod 12 + 1 + 1)) with (i + 1)
    by (unfold month_index; pose proof (Z.div_mod i 12); lia).
  rewrite month_start_succ.
  assert (month_start i + length_of i + (0 - 1) = days_of_civil (i / 12) (i mod 12 + 1) (length_of i)) as ->.
  { unfold month_start, days_of_civil. lia. }
  rewrite civil_of_days_of_civil; [done|]. split; [apply index_month_range|].
  pose proof (length_of_range i). unfold length_of in *. lia.
Qed.

(** ** Slots *)

Definition monthly_slot (loc : Location) (dom : Z) (firstRunAt t : Time) : Prop :=
  let l := In_loc t loc in
  daily_slot loc firstRunAt t ∧ Day l = Z.min dom (month_len (isLeap (Year l)) (Month l)).

Section slots.
Context (loc : Location) (firstRunAt : Time) (Hloc : steady loc (tod loc firstRunAt)).
Context (dom : Z) (Hdom : 1 ≤ dom) (from : Time) (Hfrom : representable from).
Notation slot_time := (slot_time loc firstRunAt).
Notation today := (day_of loc (Unix from)).

(** The day of the slot of month [i], since the first of January of year 1 and
    since the epoch. *)
Definition slot_day (i : Z) : Z := month_start i + (Z.min dom (length_of i) - 1).
Definition month_slot_day (i : Z) : Z := slot_day i - unix_epoch_days.
Definition month_days (D : Z) : Prop := ∃ i, D = month_slot_day i.

Lemma slot_day_in_month i : month_start i ≤ slot_day i < month_start (i + 1).
Proof. rewrite month_start_succ. unfold slot_day. pose proof (length_of_range i). lia. Qed.

(** Later months have later slots. *)
Lemma slot_day_mono i j : i < j → slot_day i < slot_day j.
Proof.
  intros H. pose proof (slot_day_in_month i). pose proof (slot_day_in_month j).
  pose proof (month_start_mono (i + 1) j). lia.
Qed.

Lemma slot_day_civil y m : 1 ≤ m ≤ 12 →
  slot_day (month_index y m) = days_of_civil y m (Z.min dom (month_len (isLeap y) m)).
Proof.
  intros Hm. unfold slot_day, month_start, length_of.
  rewrite month_index_year, month_index_month by done. unfold days_of_civil. lia.
Qed.

(** The calendar's reading of a slot's day. *)
Lemma month_days_civil t :
  (let l := In_loc t loc in Day l = Z.min dom (month_len (isLeap (Year l)) (Month l)))
  ↔ month_days (day_of loc (Unix t)).
Proof.
  cbn zeta. pose proof (civil_local (In_loc t loc)) as Hc.
  assert (day_of loc (Unix t) = local_days (In_loc t loc) - unix_epoch_days) as ->.
  { unfold local_days. change (local_secs (In_loc t loc)) with (wall loc (Unix t)). unfold day_of. lia. }
  destruct (civil_of_days_valid _ _ _ _ Hc) as [[Hm Hd] Hn].
  revert Hc Hm Hd Hn. generalize (Year (In_loc t loc)) (Month (In_loc t loc)) (Day (In_loc t loc)).
  intros y m d Hc Hm Hd Hn. split.
  - intros ->. exists (month_index y m). unfold month_slot_day. rewrite slot_day_civil by done. lia.
  - intros [i Hi]. unfold month_slot_day in Hi.
    destruct (month_of_day _ _ _ _ Hc) as [_ Hr]. pose proof (slot_day_in_month i) as Hs.
    assert (i = month_index y m) as ->.
    { destruct (Z.lt_trichotomy i (month_index y m)) as [Hl|[|Hg]]; [|done|].
      - pose proof (month_start_mono (i + 1) (month_index y m)). lia.
      - pose proof (month_start_mono (month_index y m + 1) i). lia. }
    rewrite slot_day_civil in Hi by done. unfold days_of_civil in *. lia.
Qed.

Lemma monthly_slot_in :
  pointwise_relation Time iff (monthly_slot loc dom firstRunAt) (slot_in loc firstRunAt month_days).
Proof. intros t. unfold monthly_slot, slot_in. cbn zeta. by rewrite <- month_days_civil. Qed.

(** The month of [from]. *)
Let i0 := month_index (Year (In_loc from loc)) (Month (In_loc from loc)).

Lemma from_month :
  1 ≤ Month (In_loc from loc) ≤ 12
  ∧ month_start i0 ≤ today + unix_epoch_days < month_start (i0 + 1).
Proof. apply (month_of_day _ _ _ (Day (In_loc from loc))). exact (civil_local (In_loc from loc)). Qed.

Lemma month_slot_day_near i : i0 - 1 ≤ i ≤ i0 + 1 → Z.abs (month_slot_day i) ≤ 2 ^ 44.
Proof.
  intros Hi. destruct from_month as [_ Hm]. pose proof (slot_day_in_month i).
  pose proof (length_of_range (i0 - 1)). pose proof (length_of_range i0).
  pose proof (length_of_range (i0 + 1)). pose proof (length_of_range i).
  pose proof (month_start_succ (i0 - 1)) as Hs. replace (i0 - 1 + 1) with i0 in Hs by lia.
  pose proof (month_start_succ i0). pose proof (month_start_succ i).
  pose proof (today_range _ _ Hloc from Hfrom) as Hw. unfold month_slot_day.
  assert (i = i0 - 1 ∨ i = i0 ∨ i = i0 + 1) as Hcases by lia.
  destruct Hcases as [->|[->| ->]]; unfold unix_epoch_days in *; lia.
Qed.

Lemma month_slot_time i :
  month_slot (i / 12) (i mod 12 + 1) dom (In_loc firstRunAt loc) loc = slot_time (month_slot_day i).
Proof.
  unfold month_slot. rewrite lastDayOf_length. apply Date_slot; [|apply clock_secs].
  by rewrite date_days_index, month_index_of.
Qed.

(** The search ends in [from]'s month or the one after (before) it. *)
Lemma search_stops fuel step ok :
  ok (slot_time (month_slot_day (i0 + step))) = true →
  month_search (S (S fuel)) (Year (In_loc from loc)) (Month (In_loc from loc)) step dom
    (In_loc firstRunAt loc) loc ok
  = Some (UTC (if ok (slot_time (month_slot_day i0)) then slot_time (month_slot_day i0)
               else slot_time (month_slot_day (i0 + step)))).
Proof.
  intros Hok. destruct from_month as [Hm _].
  pose proof (month_index_year (Year (In_loc from loc)) _ Hm) as Hy.
  pose proof (month_index_month (Year (In_loc from loc)) _ Hm) as Hmo. fold i0 in Hy, Hmo.
  assert (month_slot (Year (In_loc from loc)) (Month (In_loc from loc)) dom (In_loc firstRunAt loc) loc
    = slot_time (month_slot_day i0)) as H0.
  { rewrite <- Hy, <- Hmo. apply month_slot_time. }
  cbn [month_search]. rewrite H0. destruct (ok (slot_time (month_slot_day i0))); [done|].
  destruct (next_month (Year (In_loc from loc)) (Month (In_loc from loc)) step) as [-> ->].
  fold i0. rewrite month_slot_time. by rewrite Hok.
Qed.

(** No slot lies between those of two months that follow each other. *)
Lemma no_month_between i D : month_days D → month_slot_day i < D → D < month_slot_day (i + 1) → False.
Proof.
  intros [j ->]. unfold month_slot_day. intros H1 H2.
  destruct (Z.le_gt_cases j i) as [Hj|Hj].
  - destruct (decide (j = i)) as [->|]; [lia|]. pose proof (slot_day_mono j i). lia.
  - destruct (decide (j = i + 1)) as [->|]; [lia|]. pose proof (slot_day_mono (i + 1) j). lia.
Qed.

(** The months around [from]'s. *)
Lemma months_around :
  month_slot_day (i0 - 1) < today < month_slot_day (i0 + 1)
  ∧ month_slot_day (i0 - 1) < month_slot_day i0 < month_slot_day (i0 + 1).
Proof.
  destruct from_month as [_ Hm]. pose proof (slot_day_in_month (i0 - 1)) as Hp.
  pose proof (slot_day_in_month (i0 + 1)). replace (i0 - 1 + 1) with i0 in Hp by lia.
  pose proof (slot_day_in_month i0). unfold month_slot_day. lia.
Qed.

Lemma monthly_next (strict b : bool) :
  b = (if strict then t_ns from <? t_ns (slot_time (month_slot_day i0))
       else t_ns from <=? t_ns (slot_time (month_slot_day i0))) →
  least (monthly_slot loc dom firstRunAt) (λ t, if strict then t_ns from < t_ns t else t_ns from ≤ t_ns t)
    (UTC (if b then slot_time (month_slot_day i0) else slot_time (month_slot_day (i0 + 1)))).
Proof.
  intros Hb. rewrite monthly_slot_in. destruct months_around as [Hto Hm].
  apply (choose_next loc firstRunAt Hloc from month_days _ _ strict b);
    try (eexists; done); try (apply month_slot_day_near; lia); try lia; try done.
  intros D Hd H1 H2. pose proof (no_month_between i0 D Hd) as Hn.
  pose proof (no_month_between (i0 - 1) D Hd) as Hp. replace (i0 - 1 + 1) with i0 in Hp by lia. lia.
Qed.

Lemma monthly_previous (b : bool) :
  b = (t_ns (slot_time (month_slot_day i0)) <=? t_ns from) →
  greatest (monthly_slot loc dom firstRunAt) (λ t, t_ns t ≤ t_ns from)
    (UTC (if b then slot_time (month_slot_day i0) else slot_time (month_slot_day (i0 - 1)))).
Proof.
  intros Hb. rewrite monthly_slot_in. destruct months_around as [Hto Hm].
  apply (choose_latest loc firstRunAt Hloc from month_days _ _ b);
    try (eexists; done); try (apply month_slot_day_near; lia); try lia; try done.
  intros D Hd H1 H2. pose proof (no_month_between i0 D Hd) as Hn.
  pose proof (no_month_between (i0 - 1) D Hd) as Hp. replace (i0 - 1 + 1) with i0 in Hp by lia. lia.
Qed.

Context (Hstart : Before from firstRunAt = false).

Lemma slot_after_from : t_ns from < t_ns (slot_time (month_slot_day (i0 + 1))).
Proof.
  destruct months_around as [Hto _].
  apply (slot_time_after loc firstRunAt Hloc from); [apply month_slot_day_near|]; lia.
Qed.

Lemma slot_before_from : t_ns (slot_time (month_slot_day (i0 - 1))) < t_ns from.
Proof.
  destruct months_around as [Hto _].
  apply (slot_time_before loc firstRunAt Hloc from); [apply month_slot_day_near|]; lia.
Qed.

Lemma monthly_on_or_after : ∃ t,
  computeMonthlyOnOrAfter firstRunAt dom from loc = Ok (Some t) ∧ t_off t = 0
  ∧ least (monthly_slot loc dom firstRunAt) (λ t, t_ns from ≤ t_ns t) t.
Proof.
  unfold computeMonthlyOnOrAfter. rewrite Hstart. cbn zeta. pose proof slot_after_from.
  rewrite (search_stops 118 1) by (rewrite not_before; apply Z.leb_le; lia).
  eexists. split; [reflexivity|]. split; [done|]. rewrite not_before. by apply (monthly_next false).
Qed.

Lemma monthly_after : ∃ t,
  computeMonthlyAfter firstRunAt dom from loc = Ok (Some t) ∧ t_off t = 0
  ∧ least (monthly_slot loc dom firstRunAt) (λ t, t_ns from < t_ns t) t.
Proof.
  unfold computeMonthlyAfter. rewrite Hstart. cbn zeta.
  rewrite (search_stops 118 1) by (apply Z.ltb_lt, slot_after_from).
  eexists. split; [reflexivity|]. split; [done|]. by apply (monthly_next true).
Qed.

Lemma monthly_latest : ∃ t,
  computeMonthlyLatestOnOrBefore firstRunAt dom from loc = Ok (Some t) ∧ t_off t = 0
  ∧ greatest (monthly_slot loc dom firstRunAt) (λ t, t_ns t ≤ t_ns from) t.
Proof.
  unfold computeMonthlyLatestOnOrBefore. rewrite Hstart. cbn zeta. pose proof slot_before_from.
  rewrite (search_stops 118 (-1)) by (rewrite not_after; apply Z.leb_le; change (i0 + -1) with (i0 - 1); lia).
  eexists. split; [reflexivity|]. split; [done|]. rewrite not_after. by apply monthly_previous.
Qed.
End slots.
