(* ===== verification/Recurrences.v ===== *)
(** * Recurrences: the exported functions of recurrence.go

    [ComputeNextRunOnOrAfter], [ComputeNextRunAfter] and
    [ComputeLatestRunOnOrBefore] on every cadence, in time zones with or without
    summer time, and what they do before the first run. *)

From S2P Require Import Prelude Go Calendar GoTime GoFloat Model RecurrenceCalc RecurrenceSpec MonthlySpec.
From S2P Require Import Bolt Json Storage Command Dispatch StateMachine Spec Lifecycle Invariants.
From S2P Require Import Refinement RefinementScan RefinementTx CommandRefinement Replica Sample.
Open Scope Z_scope.

Section recurrences.
Context `{PF : !Platform}.

(** The three functions, once the time zone and the cadence are known. *)
Lemma with_daily r tz loc fi fd fw fm :
  resolveTimezone tz = Ok loc → r.(Recurrence.Cadence) = CadenceDaily →
  with_recurrence (Some r) tz fi fd fw fm = fd loc.
Proof. intros Hl Hc. unfold with_recurrence. rewrite Hl, Hc. done. Qed.
Lemma with_weekly r tz loc fi fd fw fm :
  resolveTimezone tz = Ok loc → r.(Recurrence.Cadence) = CadenceWeekly →
  with_recurrence (Some r) tz fi fd fw fm = fw loc.
Proof. intros Hl Hc. unfold with_recurrence. rewrite Hl, Hc. done. Qed.
Lemma with_monthly r tz loc dom fi fd fw fm :
  resolveTimezone tz = Ok loc → r.(Recurrence.Cadence) = CadenceMonthly →
  r.(Recurrence.DayOfMonth) = Some dom →
  with_recurrence (Some r) tz fi fd fw fm = fm dom loc.
Proof. intros Hl Hc Hd. unfold with_recurrence. rewrite Hl, Hc, Hd. done. Qed.
Lemma with_interval r tz loc secs fi fd fw fm :
  resolveTimezone tz = Ok loc → r.(Recurrence.Cadence) = CadenceInterval →
  r.(Recurrence.Seconds) = Some secs →
  with_recurrence (Some r) tz fi fd fw fm = fi secs.
Proof. intros Hl Hc Hd. unfold with_recurrence. rewrite Hl, Hc, Hd. done. Qed.

(** C35: a daily schedule runs when the clocks of its time zone show the first
    run's time of day.  Where that time of day comes once every day and the date
    never goes back (zones with one offset, and zones with summer time whose
    changes stay clear of the time of day), from any instant not before the first
    run and within 2^60 seconds of the epoch, the three functions return the
    least such slot on or after it, the least strictly after it and the greatest
    on or before it, in UTC. *)
Theorem daily_slots (r : Recurrence) (tz : string) (loc : Location) (firstRunAt from : Time) :
  resolveTimezone tz = Ok loc → steady loc (tod loc firstRunAt) → representable from →
  Before from firstRunAt = false → r.(Recurrence.Cadence) = CadenceDaily →
  (∃ t, ComputeNextRunOnOrAfter (Some r) tz firstRunAt from = Ok (Some t) ∧ t_off t = 0
     ∧ least (daily_slot loc firstRunAt) (λ t, t_ns from ≤ t_ns t) t)
  ∧ (∃ t, ComputeNextRunAfter (Some r) tz firstRunAt from = Ok (Some t) ∧ t_off t = 0
     ∧ least (daily_slot loc firstRunAt) (λ t, t_ns from < t_ns t) t)
  ∧ (∃ t, ComputeLatestRunOnOrBefore (Some r) tz firstRunAt from = Ok (Some t) ∧ t_off t = 0
     ∧ greatest (daily_slot loc firstRunAt) (λ t, t_ns t ≤ t_ns from) t).
Proof.
  intros Hl Hs Hf Hb Hc. unfold ComputeNextRunOnOrAfter, ComputeNextRunAfter,
    ComputeLatestRunOnOrBefore. rewrite !(with_daily _ _ _ _ _ _ _ Hl Hc).
  auto using daily_on_or_after, daily_after, daily_latest.
Qed.

(** C34: a weekly schedule runs when the clocks of its time zone show the first
    run's time of day on the first run's weekday, as its calendar has it.  Where
    the time of day comes once every day and the date never goes back, from any
    instant not before the first run and within 2^60 seconds of the epoch, two
    functions return the least such slot on or after it and the greatest on or
    before it, in UTC.  (The third is [weekly_after_keeps_from_weekday]'s.) *)
Theorem weekly_slots (r : Recurrence) (tz : string) (loc : Location) (firstRunAt from : Time) :
  resolveTimezone tz = Ok loc → steady loc (tod loc firstRunAt) → representable from →
  Before from firstRunAt = false → r.(Recurrence.Cadence) = CadenceWeekly →
  (∃ t, ComputeNextRunOnOrAfter (Some r) tz firstRunAt from = Ok (Some t) ∧ t_off t = 0
     ∧ least (weekly_slot loc firstRunAt) (λ t, t_ns from ≤ t_ns t) t)
  ∧ (∃ t, ComputeLatestRunOnOrBefore (Some r) tz firstRunAt from = Ok (Some t) ∧ t_off t = 0
     ∧ greatest (weekly_slot loc firstRunAt) (λ t, t_ns t ≤ t_ns from) t).
Proof.
  intros Hl Hs Hf Hb Hc. unfold ComputeNextRunOnOrAfter, ComputeLatestRunOnOrBefore.
  rewrite !(with_weekly _ _ _ _ _ _ _ Hl Hc).
  auto using weekly_on_or_after, weekly_latest.
Qed.

(** C33: a monthly schedule runs when the clocks of its time zone show the first
    run's time of day on its day of the month, or on the last day of months that
    are too short.  Where the time of day comes once every day and the date never
    goes back, for a day of the month from 1 on and from any instant not before
    the first run and within 2^60 seconds of the epoch, the three functions find
    the least such slot on or after it, the least after it and the greatest on or
    before it, in UTC; the 120-month bound is never reached. *)
Theorem monthly_slots (r : Recurrence) (tz : string) (loc : Location) (dom : Z)
    (firstRunAt from : Time) :
  resolveTimezone tz = Ok loc → steady loc (tod loc firstRunAt) → representable from →
  Before from firstRunAt = false → r.(Recurrence.Cadence) = CadenceMonthly →
  r.(Recurrence.DayOfMonth) = Some dom → 1 ≤ dom →
  (∃ t, ComputeNextRunOnOrAfter (Some r) tz firstRunAt from = Ok (Some t) ∧ t_off t = 0
     ∧ least (monthly_slot loc dom firstRunAt) (λ t, t_ns from ≤ t_ns t) t)
  ∧ (∃ t, ComputeNextRunAfter (Some r) tz firstRunAt from = Ok (Some t) ∧ t_off t = 0
     ∧ least (monthly_slot loc dom firstRunAt) (λ t, t_ns from < t_ns t) t)
  ∧ (∃ t, ComputeLatestRunOnOrBefore (Some r) tz firstRunAt from = Ok (Some t) ∧ t_off t = 0
     ∧ greatest (monthly_slot loc dom firstRunAt) (λ t, t_ns t ≤ t_ns from) t).
Proof.
  intros Hl Hs Hf Hb Hc Hd Hdom. unfold ComputeNextRunOnOrAfter, ComputeNextRunAfter,
    ComputeLatestRunOnOrBefore. rewrite !(with_monthly _ _ _ _ _ _ _ _ Hl Hc Hd).
  auto using monthly_on_or_after, monthly_after, monthly_latest.
Qed.

(** Before the first run every cadence, in any time zone that resolves,
    answers the first run itself (in UTC) for both "next" functions and none for
    the latest one. *)
Theorem before_first_run (r : Recurrence) (tz : string) (loc : Location) (firstRunAt from : Time) :
  resolveTimezone tz = Ok loc → Before from firstRunAt = true →
  r.(Recurrence.Cadence) ∈ [CadenceInterval; CadenceDaily; CadenceWeekly; CadenceMonthly] →
  (r.(Recurrence.Cadence) = CadenceInterval → is_Some r.(Recurrence.Seconds)) →
  (r.(Recurrence.Cadence) = CadenceMonthly → is_Some r.(Recurrence.DayOfMonth)) →
  ComputeNextRunOnOrAfter (Some r) tz firstRunAt from = Ok (Some (UTC firstRunAt))
  ∧ ComputeNextRunAfter (Some r) tz firstRunAt from = Ok (Some (UTC firstRunAt))
  ∧ ComputeLatestRunOnOrBefore (Some r) tz firstRunAt from = Ok None.
Proof.
  intros Hl Hb Hc Hs Hd. unfold ComputeNextRunOnOrAfter, ComputeNextRunAfter,
    ComputeLatestRunOnOrBefore.
  repeat (apply elem_of_cons in Hc as [Hc|Hc]); [..|by apply not_elem_of_nil in Hc].
  - destruct (Hs Hc) as [n Hn]. rewrite !(with_interval _ _ _ n _ _ _ _ Hl Hc Hn).
    unfold computeIntervalOnOrAfter, computeIntervalAfter, computeIntervalLatestOnOrBefore.
    by rewrite Hb.
  - rewrite !(with_daily _ _ _ _ _ _ _ Hl Hc).
    unfold computeDailyOnOrAfter, computeDailyAfter, computeDailyLatestOnOrBefore. by rewrite Hb.
  - rewrite !(with_weekly _ _ _ _ _ _ _ Hl Hc).
    unfold computeWeeklyOnOrAfter, computeWeeklyAfter, computeWeeklyLatestOnOrBefore. by rewrite Hb.
  - destruct (Hd Hc) as [n Hn]. rewrite !(with_monthly _ _ _ n _ _ _ _ Hl Hc Hn).
    unfold computeMonthlyOnOrAfter, computeMonthlyAfter, computeMonthlyLatestOnOrBefore. by rewrite Hb.
Qed.

(** [computeWeeklyAfter] looks at the weekday of the instant it is given,
    not at the first run's: it returns the least instant strictly after [from]
    that is at the first run's time of day and on the weekday [from] has in the
    time zone.  That is the next weekly slot exactly when [from] falls on the
    first run's weekday. *)
Theorem weekly_after_keeps_from_weekday (r : Recurrence) (tz : string) (loc : Location)
    (firstRunAt from : Time) :
  resolveTimezone tz = Ok loc → steady loc (tod loc firstRunAt) → representable from →
  Before from firstRunAt = false → r.(Recurrence.Cadence) = CadenceWeekly →
  ∃ t, ComputeNextRunAfter (Some r) tz firstRunAt from = Ok (Some t) ∧ t_off t = 0
    ∧ least (λ t, daily_slot loc firstRunAt t ∧ Weekday (In_loc t loc) = Weekday (In_loc from loc))
        (λ t, t_ns from < t_ns t) t
    ∧ (weekly_slot loc firstRunAt t ↔ Weekday (In_loc from loc) = Weekday (In_loc firstRunAt loc)).
Proof.
  intros Hl Hs Hf Hb Hc. unfold ComputeNextRunAfter. rewrite (with_weekly _ _ _ _ _ _ _ Hl Hc).
  by apply weekly_after.
Qed.
End recurrences.

(** ** On concrete schedules *)

(** Nine o'clock, 14:00 UTC in winter, is clear of New York's changes at two in
    the morning. *)
Definition new_years_day : Time := utc_date 2026 1 1 14 0 0.

Lemma new_york_offset x :
  lookup_zone new_york x
  = if x <? 1772953200 then mkSpan (-18000) minInt64 1772953200
    else if x <? 1793512800 then mkSpan (-14400) 1772953200 1793512800
    else mkSpan (-18000) 1793512800 maxInt64.
Proof. done. Qed.

Lemma new_york_date D :
  Z.abs D ≤ 2 ^ 44 →
  date_secs new_york D 32400
  = D * day_secs + 32400 + (if (20520 <=? D) && (D <? 20758) then 14400 else 18000).
Proof.
  intros HD. unfold date_secs, zone_adjust. rewrite !new_york_offset. unfold day_secs, minInt64, maxInt64.
  repeat case_match; simpl in *; bool_hyps; lia.
Qed.

Lemma new_york_steady : steady new_york 32400.
Proof.
  split.
  - intros x. rewrite new_york_offset. unfold day_secs. repeat case_match; simpl; lia.
  - intros D x HD. rewrite new_york_date by done. unfold wall. rewrite new_york_offset. unfold day_secs.
    repeat case_match; simpl; lia.
  - intros x y Hxy. unfold day_of, wall. rewrite !new_york_offset. unfold day_secs.
    repeat case_match; simpl; Z.div_mod_to_equations; lia.
Qed.

Lemma nine_in_new_york : steady new_york (tod new_york new_years_day).
Proof. vm_compute (tod _ _). exact new_york_steady. Qed.

Lemma noon_in_utc : steady loc_UTC (tod loc_UTC noon).
Proof. exact (steady_fixed 0 noon eq_refl). Qed.

(** In July the nine o'clock run is at 13:00 UTC. *)
Lemma daily_slots_witness :
  ComputeNextRunOnOrAfter (Some daily) "America/New_York" new_years_day (utc_date 2026 7 15 0 0 0)
    = Ok (Some (utc_date 2026 7 15 13 0 0))
  ∧ least (daily_slot new_york new_years_day) (λ t, t_ns (utc_date 2026 7 15 0 0 0) ≤ t_ns t)
      (utc_date 2026 7 15 13 0 0).
Proof.
  destruct (daily_slots daily "America/New_York" new_york new_years_day (utc_date 2026 7 15 0 0 0))
    as ((t & Ht & _ & Hl) & _);
    [reflexivity|exact nine_in_new_york|by apply (bool_decide_unpack _)|reflexivity..|].
  split; [vm_compute; reflexivity|]. vm_compute in Ht. injection Ht as <-. exact Hl.
Defined.

Definition weekly : Recurrence := Recurrence.mk CadenceWeekly None None None.
Definition monthly (dom : Z) : Recurrence := Recurrence.mk CadenceMonthly (Some dom) None None.

(** New Year's Day is a Thursday; from Monday 2026-03-09, the day after the
    clocks went forward, the next slot is Thursday the 12th, at 13:00 UTC. *)
Lemma weekly_slots_witness :
  ComputeNextRunOnOrAfter (Some weekly) "America/New_York" new_years_day (utc_date 2026 3 9 8 0 0)
    = Ok (Some (utc_date 2026 3 12 13 0 0))
  ∧ least (weekly_slot new_york new_years_day) (λ t, t_ns (utc_date 2026 3 9 8 0 0) ≤ t_ns t)
      (utc_date 2026 3 12 13 0 0).
Proof.
  destruct (weekly_slots weekly "America/New_York" new_york new_years_day (utc_date 2026 3 9 8 0 0))
    as ((t & Ht & _ & Hl) & _);
    [reflexivity|exact nine_in_new_york|by apply (bool_decide_unpack _)|reflexivity..|].
  split; [vm_compute; reflexivity|]. vm_compute in Ht. injection Ht as <-. exact Hl.
Defined.

(** The 31st of a month: after February's last day, the last of March, in summer
    time. *)
Lemma monthly_slots_witness :
  ComputeNextRunAfter (Some (monthly 31)) "America/New_York" new_years_day (utc_date 2026 2 28 14 0 0)
    = Ok (Some (utc_date 2026 3 31 13 0 0))
  ∧ least (monthly_slot new_york 31 new_years_day) (λ t, t_ns (utc_date 2026 2 28 14 0 0) < t_ns t)
      (utc_date 2026 3 31 13 0 0).
Proof.
  destruct (monthly_slots (monthly 31) "America/New_York" new_york 31 new_years_day
    (utc_date 2026 2 28 14 0 0)) as (_ & (t & Ht & _ & Hl) & _);
    [reflexivity|exact nine_in_new_york|by apply (bool_decide_unpack _)|reflexivity..|lia|].
  split; [vm_compute; reflexivity|]. vm_compute in Ht. injection Ht as <-. exact Hl.
Defined.

Lemma before_first_run_witness :
  ComputeNextRunAfter (Some daily) "UTC" next_noon noon = Ok (Some (UTC next_noon)).
Proof.
  apply (before_first_run daily "UTC" loc_UTC next_noon noon);
    [vm_compute; reflexivity|vm_compute; reflexivity| |discriminate|discriminate].
  apply (bool_decide_unpack _). vm_compute. exact I.
Defined.

(** From Sunday the 3rd the code's next run of a Friday schedule is that Sunday. *)
Lemma weekly_after_witness :
  ComputeNextRunAfter (Some weekly) "UTC" noon (utc_date 2024 3 3 8 0 0)
    = Ok (Some (utc_date 2024 3 3 12 0 0))
  ∧ ¬ weekly_slot loc_UTC noon (utc_date 2024 3 3 12 0 0).
Proof.
  destruct (weekly_after_keeps_from_weekday weekly "UTC" loc_UTC noon (utc_date 2024 3 3 8 0 0))
    as (t & Ht & _ & _ & Hiff);
    [vm_compute; reflexivity|exact noon_in_utc|by apply (bool_decide_unpack _)|reflexivity..|].
  vm_compute in Ht. injection Ht as <-. split; [vm_compute; reflexivity|].
  intros Hs. apply Hiff in Hs. vm_compute in Hs. discriminate Hs.
Defined.
