(* ===== verification/Intervals.v ===== *)
(** * Intervals: the slots of an interval schedule

    [computeIntervalOnOrAfter], [computeIntervalAfter] and
    [computeIntervalLatestOnOrBefore] divide with float64.  From every instant
    that is on a slot, or away from all slots by a [2^-51]th of its distance to
    the first run, they return the exact slot; inside that margin they may not. *)

From Stdlib Require Import SpecFloat QArith Lqa.
From S2P Require Import Prelude Go Calendar GoTime GoFloat FloatLaws Model RecurrenceCalc RecurrenceSpec MonthlySpec Recurrences.
From S2P Require Import Bolt Json Storage Command Dispatch StateMachine Spec Lifecycle Invariants.
From S2P Require Import Refinement RefinementScan RefinementTx CommandRefinement Replica Sample.
Open Scope Z_scope.

(** The instants a whole number of intervals after the first run. *)
Definition interval_slot (s : Z) (firstRunAt t : Time) : Prop :=
  ∃ k, 0 ≤ k ∧ t_ns t = t_ns firstRunAt + k * (s * second_ns).

(** [d] nanoseconds after the first run is on a slot, or not within the
    rounding error of the division of one. *)
Definition clear_of_slots (s d : Z) : Prop :=
  (∃ k, d = k * (s * second_ns)) ∨ ∀ k, d ≤ 2 ^ 51 * Z.abs (d - k * (s * second_ns)).

Section interval.
Context (s d : Z) (Hs : 0 < s) (Hd : 0 < d) (Hmax : d + s * second_ns ≤ maxInt64).
Notation step := (s * second_ns).
Notation k := (d / step).
Notation quotient := (f64_div (Seconds d) (f64_of_int s)).

Lemma step_pos : 0 < step.
Proof. unfold second_ns. lia. Qed.

Lemma index_bounds : 0 ≤ k ∧ k * step ≤ d < (k + 1) * step ∧ k < 2 ^ 40 ∧ s < 2 ^ 40.
Proof.
  pose proof step_pos as Hst. pose proof (Z.div_mod d step ltac:(lia)).
  pose proof (Z.mod_pos_bound d step Hst). assert (0 ≤ k) by (apply Z.div_pos; lia).
  unfold maxInt64, second_ns in *. split_and!; nia.
Qed.

Lemma quotient_on_slot : d = k * step → is_int k quotient.
Proof.
  intros Hk. destruct index_bounds as (Hk0 & _ & Hk40 & Hs40).
  assert (Hkp : 0 < k) by (pose proof step_pos; nia).
  unfold Seconds. rewrite Z.quot_div_nonneg, Z.rem_mod_nonneg by (unfold second_ns; lia).
  rewrite Z.mul_assoc in Hk.
  assert (Hq : d / second_ns = k * s) by (rewrite Hk at 1; by apply Z.div_mul).
  assert (Hr : d mod second_ns = 0) by (rewrite Hk; by apply Z.mod_mul).
  assert (k * s < 2 ^ 52) by (unfold second_ns, maxInt64 in *; nia).
  assert (Hks : is_int (k * s) (f64_of_int (k * s))) by (apply f64_of_int_is_int; lia).
  rewrite Hq, Hr. change (f64_of_int 0) with (S754_zero false).
  rewrite (f64_div_zero second_ns), (f64_add_zero_r _ _ Hks) by (try apply f64_of_int_is_int; done).
  apply (f64_div_exact k s); [lia|done|done|]. apply f64_of_int_is_int. lia.
Qed.

Lemma quotient_between : (∀ j, d ≤ 2 ^ 51 * Z.abs (d - j * step)) →
  ∃ m e, quotient = S754_finite false m e ∧ (inject_Z k < fval m e < inject_Z (k + 1))%Q.
Proof.
  intros Hc. pose proof step_pos as Hst. destruct index_bounds as (_ & Hk & _).
  assert (H1 : d ≤ 2 ^ 51 * (d - k * step)) by (specialize (Hc k); lia).
  assert (H2 : d ≤ 2 ^ 51 * ((k + 1) * step - d)) by (specialize (Hc (k + 1)); lia).
  destruct (quotient_near d s) as (m & e & Hq & _ & _ & Hv); [lia|done|lia|].
  exists m, e. split; [done|].
  assert (HS : (0 < inject_Z step)%Q) by (by apply inject_pos).
  assert (Hdq : (0 < inject_Z d)%Q) by (by apply inject_pos).
  set (y := (inject_Z d / inject_Z step)%Q) in *.
  assert (Hy : (inject_Z d == y * inject_Z step)%Q) by (unfold y; field; lra).
  assert (Hy0 : (0 < y)%Q) by (unfold y; by apply Qlt_shift_div_l; [|lra]).
  apply inject_le in H1, H2. inject_in H1. inject_in H2. rewrite (inject_Z_plus k 1).
  set (K := inject_Z k) in *. change (inject_Z (2 ^ 51)) with 2251799813685248%Q in *.
  change (inject_Z 1) with 1%Q in *.
  rewrite <- (inject_Z_mult s second_ns) in H1, H2. set (S := inject_Z step) in *.
  assert (Hlo : (y <= 2251799813685248 * (y - K))%Q) by (apply (Qmult_le_r _ _ S); [done|lra]).
  assert (Hhi : (y <= 2251799813685248 * (K + 1 - y))%Q) by (apply (Qmult_le_r _ _ S); [done|lra]).
  destruct three_small as [_ H3]. apply (Qmult_lt_r _ _ y) in H3; [|done]. lra.
Qed.
End interval.

Lemma Floor_int z f : 0 ≤ z < 2 ^ 52 → is_int z f → is_int z (Floor f).
Proof.
  intros Hz [[-> ->]|[Hz0 Hf]]; [by left|].
  destruct (is_int_finite z f) as (m & e & -> & _ & _ & Hv); [done|by right|].
  rewrite (Floor_of _ _ z); [by apply f64_of_int_is_int|lia|].
  rewrite Hv, inject_Z_plus. change (inject_Z 1) with 1%Q. split; lra.
Qed.

Lemma Ceil_int z f : 0 ≤ z < 2 ^ 52 → is_int z f → is_int z (Ceil f).
Proof.
  intros Hz [[-> ->]|[Hz0 Hf]]; [by left|].
  destruct (is_int_finite z f) as (m & e & -> & _ & _ & Hv); [done|by right|].
  rewrite (Ceil_of _ _ z); [by apply f64_of_int_is_int|lia|].
  unfold Z.sub. rewrite Hv, inject_Z_plus. change (inject_Z (-(1))) with (-(1))%Q. split; lra.
Qed.

(** ** The slot numbers *)

Section indices.
Context (s d : Z) (Hs : 0 < s) (Hd : 0 ≤ d) (Hmax : d + s * second_ns ≤ maxInt64)
  (Hc : clear_of_slots s d).
Notation step := (s * second_ns).
Notation quotient := (f64_div (Seconds d) (f64_of_int s)).

Lemma index_small : 0 ≤ d / step < 2 ^ 40.
Proof.
  pose proof (step_pos s Hs). destruct (decide (d = 0)) as [->|]; [rewrite Z.div_0_l; lia|].
  destruct (index_bounds s d) as (? & _ & ? & _); lia.
Qed.

(** On a slot the quotient is its number; elsewhere it is strictly between
    the numbers of the slots around. *)
Lemma quotient_cases :
  d = d / step * step ∧ is_int (d / step) quotient
  ∨ d / step * step < d ∧ ∃ m e, quotient = S754_finite false m e
      ∧ (inject_Z (d / step) < fval m e < inject_Z (d / step + 1))%Q.
Proof.
  pose proof (step_pos s Hs) as Hst. pose proof (Z.mul_div_le d step Hst).
  destruct Hc as [[k Hk]|Hclear].
  - left. assert (Hkd : d / step = k) by (rewrite Hk; apply Z.div_mul; lia). rewrite Hkd at 1.
    split; [done|]. destruct (decide (d = 0)) as [->|].
    + left. rewrite Z.div_0_l by lia. split; [done|]. change (Seconds 0) with (S754_zero false).
      apply (f64_div_zero s); [done|]. apply f64_of_int_is_int. unfold maxInt64, second_ns in *. lia.
    + apply quotient_on_slot; first [lia|by rewrite Hkd].
  - destruct (decide (d = 0)) as [->|].
    + specialize (Hclear 0). left. rewrite Z.div_0_l by lia. split; [done|]. left. split; [done|].
      change (Seconds 0) with (S754_zero false).
      apply (f64_div_zero s); [done|]. apply f64_of_int_is_int. unfold maxInt64, second_ns in *. lia.
    + right. split; [|by apply quotient_between; [done|lia|..]].
      specialize (Hclear (d / step)). lia.
Qed.

Lemma floor_index : is_int (d / step) (Floor quotient).
Proof.
  pose proof index_small. destruct quotient_cases as [[_ Hq]|(_ & m & e & -> & Hv)].
  - by apply Floor_int; [lia|].
  - rewrite (Floor_of _ _ (d / step)); [apply f64_of_int_is_int; lia|lia|split; lra].
Qed.

Lemma ceil_index : ∃ n, is_int n (Ceil quotient) ∧ d ≤ n * step < d + step ∧ 0 ≤ n.
Proof.
  pose proof index_small. pose proof (step_pos s Hs) as Hst.
  pose proof (Z.mul_succ_div_gt d step Hst).
  destruct quotient_cases as [[Hk Hq]|(Hk & m & e & -> & Hv)].
  - exists (d / step). split; [by apply Ceil_int; [lia|]|lia].
  - exists (d / step + 1). rewrite (Ceil_of _ _ (d / step + 1)); [|lia|].
    + split; [apply f64_of_int_is_int; lia|lia].
    + replace (d / step + 1 - 1) with (d / step) by lia. split; lra.
Qed.
End indices.

Section slots.
Context `{PF : !Platform}.
Context (s : Z) (firstRunAt from : Time).
Notation d := (t_ns from - t_ns firstRunAt).
Notation step := (s * second_ns).
Context (Hs : 0 < s) (Hd : 0 ≤ d) (Hmax : d + step ≤ maxInt64) (Hc : clear_of_slots s d).

Lemma slot_offset_int n f : is_int n f → 0 ≤ n → n * step ≤ maxInt64 → slot_offset f s = n * step.
Proof.
  intros Hf Hn Hm. unfold slot_offset, maxInt64, second_ns in *.
  rewrite (int_of_is_int _ n) by (done || unfold maxInt64; nia).
  rewrite (wrap64_id (n * s)) by (unfold in_int64; nia).
  rewrite wrap64_id by (unfold in_int64; nia). lia.
Qed.

Lemma Sub_exact : Sub from firstRunAt = d.
Proof. unfold Sub, minInt64, maxInt64, second_ns in *. lia. Qed.

Lemma slot_at n : 0 ≤ n → interval_slot s firstRunAt (UTC (Add firstRunAt (n * step))).
Proof. intros Hn. by exists n. Qed.

Lemma interval_on_or_after : ∃ t, computeIntervalOnOrAfter firstRunAt s from = Ok (Some t)
  ∧ t_off t = 0 ∧ least (interval_slot s firstRunAt) (λ t, t_ns from ≤ t_ns t) t.
Proof.
  pose proof (step_pos s Hs) as Hst. unfold computeIntervalOnOrAfter.
  destruct (Before from firstRunAt || Equal from firstRunAt) eqn:Hb.
  - eexists. split; [done|]. split; [done|]. unfold Before, Equal in Hb. simpl.
    split; [exists 0; simpl; lia|]. split; [simpl; lia|]. intros t [j [Hj Ht]] _. simpl. nia.
  - rewrite Sub_exact. destruct (ceil_index s d) as (n & Hn & Hw & Hn0); [done..|].
    rewrite (slot_offset_int n) by (done || lia).
    eexists. split; [done|]. split; [done|]. split; [by apply slot_at|]. split; [simpl; lia|].
    intros t [j [Hj Ht]] Hle. simpl. rewrite Ht in *. assert (n ≤ j) by nia. nia.
Qed.

Lemma interval_after : ∃ t, computeIntervalAfter firstRunAt s from = Ok (Some t)
  ∧ t_off t = 0 ∧ least (interval_slot s firstRunAt) (λ t, t_ns from < t_ns t) t.
Proof.
  pose proof (step_pos s Hs) as Hst. unfold computeIntervalAfter.
  destruct (Before from firstRunAt) eqn:Hb; [unfold Before in Hb; lia|].
  rewrite Sub_exact. pose proof (index_small s d Hs Hd Hmax Hc).
  pose proof (Z.mul_succ_div_gt d step Hst). pose proof (Z.mul_div_le d step Hst).
  rewrite (slot_offset_int (d / step + 1))
    by (lia || (apply f64_add_one; [lia|by apply floor_index])).
  eexists. split; [done|]. split; [done|]. split; [apply slot_at; lia|]. split; [simpl; lia|].
  intros t [j [Hj Ht]] Hle. simpl. rewrite Ht in *. assert (d / step < j) by nia. nia.
Qed.

Lemma interval_latest : ∃ t, computeIntervalLatestOnOrBefore firstRunAt s from = Ok (Some t)
  ∧ t_off t = 0 ∧ greatest (interval_slot s firstRunAt) (λ t, t_ns t ≤ t_ns from) t.
Proof.
  pose proof (step_pos s Hs) as Hst. unfold computeIntervalLatestOnOrBefore.
  destruct (Before from firstRunAt) eqn:Hb; [unfold Before in Hb; lia|].
  rewrite Sub_exact. pose proof (index_small s d Hs Hd Hmax Hc).
  pose proof (Z.mul_succ_div_gt d step Hst). pose proof (Z.mul_div_le d step Hst).
  rewrite (slot_offset_int (d / step)) by (lia || by apply floor_index).
  eexists. split; [done|]. split; [done|]. split; [apply slot_at; lia|]. split; [simpl; lia|].
  intros t [j [Hj Ht]] Hle. simpl. rewrite Ht in *. assert (j ≤ d / step) by nia. nia.
Qed.
End slots.

(** C32: an interval schedule runs every [s] seconds from its first run on.
    From an instant on a slot, or away from every slot by at least a [2^-51]th
    of its distance to the first run, and as long as the next slot is within
    the 292 years a [time.Duration] spans, the three functions return the least
    slot on or after it, the least strictly after it and the greatest on or
    before it, although they divide with float64. *)
Theorem interval_slots `{PF : !Platform} (r : Recurrence) (tz : string) (loc : Location) (s : Z)
    (firstRunAt from : Time) :
  resolveTimezone tz = Ok loc → r.(Recurrence.Cadence) = CadenceInterval →
  r.(Recurrence.Seconds) = Some s → 0 < s → Before from firstRunAt = false →
  t_ns from + s * second_ns ≤ t_ns firstRunAt + maxInt64 →
  clear_of_slots s (t_ns from - t_ns firstRunAt) →
  (∃ t, ComputeNextRunOnOrAfter (Some r) tz firstRunAt from = Ok (Some t) ∧ t_off t = 0
     ∧ least (interval_slot s firstRunAt) (λ t, t_ns from ≤ t_ns t) t)
  ∧ (∃ t, ComputeNextRunAfter (Some r) tz firstRunAt from = Ok (Some t) ∧ t_off t = 0
     ∧ least (interval_slot s firstRunAt) (λ t, t_ns from < t_ns t) t)
  ∧ (∃ t, ComputeLatestRunOnOrBefore (Some r) tz firstRunAt from = Ok (Some t) ∧ t_off t = 0
     ∧ greatest (interval_slot s firstRunAt) (λ t, t_ns t ≤ t_ns from) t).
Proof.
  intros Hl Hc Hr Hs Hb Hmax Hclear. unfold Before in Hb. unfold ComputeNextRunOnOrAfter,
    ComputeNextRunAfter, ComputeLatestRunOnOrBefore. rewrite !(with_interval _ _ _ _ _ _ _ _ Hl Hc Hr).
  split; [|split]; [apply interval_on_or_after|apply interval_after|apply interval_latest];
    (done || lia).
Qed.

(** Whole seconds after the first run are always clear of the slots. *)
Lemma whole_seconds_clear s D : 0 < s → 0 ≤ D * second_ns ≤ maxInt64 →
  clear_of_slots s (D * second_ns).
Proof.
  intros Hs HD. destruct (decide (D mod s = 0)) as [Hm|Hm].
  - left. exists (D / s). rewrite (Z.div_mod D s) at 1 by lia. lia.
  - right. intros k. assert (D - k * s ≠ 0).
    { intros H. apply Hm. replace D with (k * s) by lia. apply Z.mod_mul. lia. }
    unfold maxInt64, second_ns in *. lia.
Qed.

Definition every (s : Z) : Recurrence := Recurrence.mk CadenceInterval None None (Some s).

(** Every 90 minutes from noon on the 1st; from 10:00 on the 3rd. *)
Lemma interval_slots_witness :
  least (interval_slot 5400 noon) (λ t, t_ns (utc_date 2024 3 3 10 0 0) < t_ns t)
    (utc_date 2024 3 3 10 30 0).
Proof.
  destruct (interval_slots (every 5400) "UTC" loc_UTC 5400 noon (utc_date 2024 3 3 10 0 0))
    as (_ & (t & Ht & _ & Hl) & _);
    [vm_compute; reflexivity|reflexivity|reflexivity|lia|vm_compute; reflexivity
    |vm_compute; discriminate| |].
  - change (t_ns _ - t_ns _) with (165600 * second_ns). apply whole_seconds_clear; [lia|].
    split; vm_compute; discriminate.
  - vm_compute in Ht. injection Ht as <-. exact Hl.
Defined.

(** Inside the margin the division rounds to the slot: one nanosecond before a
    slot a year away, a minute-by-minute schedule's next run skips that slot,
    and the latest run on or before the instant is after it. *)
Definition just_before_slot : Time := mkTime (t_ns noon + 525600 * 60 * second_ns - 1) 0.

Theorem near_slot_rounds :
  ComputeNextRunAfter (Some (every 60)) "UTC" noon just_before_slot
    = Ok (Some (mkTime (t_ns noon + 525601 * 60 * second_ns) 0))
  ∧ interval_slot 60 noon (mkTime (t_ns noon + 525600 * 60 * second_ns) 0)
  ∧ ComputeLatestRunOnOrBefore (Some (every 60)) "UTC" noon just_before_slot
    = Ok (Some (mkTime (t_ns just_before_slot + 1) 0)).
Proof.
  split; [vm_compute; reflexivity|]. split; [by exists 525600|vm_compute; reflexivity].
Qed.
