(* ===== verification/IdempotencyKey.v ===== *)
(** * IdempotencyKey: distinct slots have distinct keys

    The RFC 3339 text of a UTC time of the years 0 to 9999 determines the
    instant to the nanosecond, and so does the idempotency key the schedule and
    the slot. *)

From Stdlib Require Import Ascii.
From S2P Require Import Prelude Go Calendar GoTime GoFloat Model Refinement.
Open Scope Z_scope.

(** ** Strings of known length *)

Lemma append_split (a b x y : string) :
  String.length a = String.length b → a +:+ x = b +:+ y → a = b ∧ x = y.
Proof.
  revert b. induction a as [|c a IH]; intros [|c' b] Hl Heq; try done.
  rewrite !append_cons in Heq. injection Heq as -> Heq. injection Hl as Hl.
  by destruct (IH b Hl Heq) as [-> ->].
Qed.

Lemma append_inj_r (a b x : string) : a +:+ x = b +:+ x → a = b.
Proof.
  intros H. apply (append_split a b x x); [|done].
  assert (String.length (a +:+ x) = String.length (b +:+ x)) as Hl by (by rewrite H).
  rewrite !length_append in Hl. lia.
Qed.

(** ** Decimal digits *)

Lemma digit_nat z : nat_of_ascii (digit z) = (48 + Z.to_nat (z mod 10))%nat.
Proof.
  unfold digit. apply nat_ascii_embedding. pose proof (Z.mod_pos_bound z 10). lia.
Qed.

Lemma digit_inj x y : digit x = digit y → x mod 10 = y mod 10.
Proof.
  intros H. assert (nat_of_ascii (digit x) = nat_of_ascii (digit y)) as Hn by (by rewrite H).
  rewrite !digit_nat in Hn. pose proof (Z.mod_pos_bound x 10). pose proof (Z.mod_pos_bound y 10). lia.
Qed.

Lemma digits_length n z : String.length (digits n z) = n.
Proof.
  revert z. induction n as [|n IH]; intros z; [done|]. cbn [digits].
  rewrite length_append, IH. simpl. lia.
Qed.

Lemma pow10_succ n : 10 ^ Z.of_nat (S n) = 10 * 10 ^ Z.of_nat n.
Proof. rewrite Nat2Z.inj_succ, Z.pow_succ_r; lia. Qed.

Lemma digits_inj n x y :
  0 ≤ x < 10 ^ Z.of_nat n → 0 ≤ y < 10 ^ Z.of_nat n → digits n x = digits n y → x = y.
Proof.
  revert x y. induction n as [|n IH]; intros x y Hx Hy H; [simpl in *; lia|].
  rewrite pow10_succ in Hx, Hy. cbn [digits] in H.
  apply append_split in H as [H1 H2]; [|by rewrite !digits_length].
  injection H2 as H2%digit_inj.
  apply IH in H1; [|Z.div_mod_to_equations; lia..]. Z.div_mod_to_equations. lia.
Qed.

Lemma digits_zero_prefix n z :
  0 ≤ z < 10 ^ Z.of_nat n → digits (S n) z = String "0" (digits n z).
Proof.
  revert z. induction n as [|n IH]; intros z Hz.
  - assert (z = 0) as -> by (simpl in Hz; lia). reflexivity.
  - cbn [digits]. cbn [digits] in IH. rewrite pow10_succ in Hz.
    rewrite (IH (z / 10)) by (Z.div_mod_to_equations; lia). by rewrite append_cons.
Qed.

(** Within its width, [appendInt] prints exactly the padded digits. *)
Lemma appendInt_digits x w : 0 ≤ x < 10 ^ Z.of_nat w → appendInt x w = digits w x.
Proof.
  intros Hx. unfold appendInt. rewrite (proj2 (Z.ltb_ge x 0)), append_nil_l, Z.abs_eq by lia.
  remember (Nat.max w (Z.to_nat (Z.log2 x) + 1)) as k eqn:Ek.
  assert (w ≤ k)%nat as Hk by lia. clear Ek. remember (k - w)%nat as j eqn:Ej.
  assert (k = j + w)%nat as -> by lia. clear Ej Hk.
  induction j as [|j IH]; [done|].
  cbn [Nat.add]. rewrite digits_zero_prefix; [exact IH|].
  assert (10 ^ Z.of_nat w ≤ 10 ^ Z.of_nat (j + w)) by (apply Z.pow_le_mono_r; lia). lia.
Qed.

(** ** Fractions *)

Fixpoint zeros (n : nat) : string := match n with O => "" | S n => String "0" (zeros n) end.

Lemma trim_zeros_pad s : ∃ n, s = trim_zeros s +:+ zeros n ∧ String.length s
  = (String.length (trim_zeros s) + n)%nat.
Proof.
  induction s as [|c s (n & Hs & Hl)]; [by exists 0%nat|]. cbn [trim_zeros].
  destruct (trim_zeros s) as [|c' s'] eqn:E.
  - rewrite append_nil_l in Hs. simpl in Hl. destruct (Ascii.eqb_spec c "0"%char) as [->|Hne].
    + exists (S n). rewrite append_nil_l. simpl. by rewrite Hs at 1; rewrite Hl.
    + exists n. rewrite append_cons, append_nil_l. simpl. split; [by rewrite Hs at 1|by rewrite Hl].
  - exists n. rewrite append_cons. split; [by rewrite Hs at 1|]. simpl in *. by rewrite Hl.
Qed.

Lemma trim_zeros_inj s s' :
  String.length s = String.length s' → trim_zeros s = trim_zeros s' → s = s'.
Proof.
  intros Hl Ht. destruct (trim_zeros_pad s) as (n & Hs & Hn), (trim_zeros_pad s') as (n' & Hs' & Hn').
  rewrite Hs, Hs', Ht. f_equal. f_equal. rewrite Ht in Hn. lia.
Qed.

Lemma fraction_inj n n' :
  0 ≤ n < second_ns → 0 ≤ n' < second_ns → fraction n = fraction n' → n = n'.
Proof.
  intros Hn Hn'. unfold fraction.
  destruct (Z.eqb_spec n 0) as [->|], (Z.eqb_spec n' 0) as [->|]; try done.
  intros H%append_inj_l. apply trim_zeros_inj in H; [|by rewrite !digits_length].
  by apply digits_inj in H.
Qed.

(** ** Times *)

Definition json_utc (t : Time) : Prop := t_off t = 0 ∧ 0 ≤ Year t ≤ 9999.

Lemma time_of_fields t :
  t_off t = 0 →
  t_ns t = ((days_of_civil (Year t) (Month t) (Day t) - unix_epoch_days) * day_secs
            + (Hour t * 3600 + Minute t * 60 + Second t)) * second_ns + Nanosecond t.
Proof.
  intros Ho. rewrite clock_secs.
  destruct (civil_of_days_valid _ _ _ _ (civil_local t)) as [_ ->].
  rewrite <- local_secs_split. unfold local_secs. rewrite Ho, Z.add_0_r. apply unix_ns.
Qed.

Lemma field_ranges t :
  1 ≤ Month t ≤ 12 ∧ 1 ≤ Day t ≤ 31 ∧ 0 ≤ Hour t < 24 ∧ 0 ≤ Minute t < 60 ∧ 0 ≤ Second t < 60.
Proof.
  destruct (valid_civil_local t) as [Hm Hd]. pose proof (month_len_range (isLeap (Year t)) _ Hm).
  unfold Hour, Minute, Second, day_secs. repeat split; try lia; Z.div_mod_to_equations; lia.
Qed.

(** One zero-padded field and its separator. *)
Lemma field_split n sep x y a b :
  digits n x +:+ sep +:+ a = digits n y +:+ sep +:+ b →
  0 ≤ x < 10 ^ Z.of_nat n → 0 ≤ y < 10 ^ Z.of_nat n → x = y ∧ a = b.
Proof.
  intros H Hx Hy. apply append_split in H as [H1 H2]; [|by rewrite !digits_length].
  apply append_inj_l in H2. by apply digits_inj in H1.
Qed.

Lemma format_inj t t' :
  json_utc t → json_utc t' → FormatRFC3339Nano t = FormatRFC3339Nano t' → t_ns t = t_ns t'.
Proof.
  intros [Ho Hy] [Ho' Hy']. unfold FormatRFC3339Nano. rewrite Ho, Ho'.
  destruct (field_ranges t) as (Hm & Hd & Hh & Hmi & Hs).
  destruct (field_ranges t') as (Hm' & Hd' & Hh' & Hmi' & Hs').
  rewrite !appendInt_digits by (simpl; lia).
  intros H. do 5 (apply field_split in H as [? H]; [|simpl; lia..]).
  rewrite <- (append_nil_l (fraction _ +:+ _)) in H.
  rewrite <- (append_nil_l (fraction (Nanosecond t') +:+ _)) in H.
  apply field_split in H as [? H]; [|simpl; lia..].
  apply append_inj_r, fraction_inj in H; [|apply nanosecond_range..].
  rewrite (time_of_fields t), (time_of_fields t') by done. congruence.
Qed.

(** C36: the idempotency key identifies the slot: two colon-free schedule
    identifiers and two UTC times of the years 0 to 9999 give the same key only
    when the schedules and the instants are the same, to the nanosecond. *)
Theorem idempotency_key_injective (s s' : string) (t t' : Time) :
  no_colon s = true → no_colon s' = true → json_utc t → json_utc t' →
  DeriveIdempotencyKey s t = DeriveIdempotencyKey s' t' → s = s' ∧ Equal t t' = true.
Proof.
  intros Hs Hs' Ht Ht'. unfold DeriveIdempotencyKey. intros [-> H]%no_colon_split; [|done..].
  split; [done|]. apply Z.eqb_eq. by apply format_inj.
Qed.

Lemma idempotency_key_injective_witness :
  DeriveIdempotencyKey "s1" (utc_date 2024 3 1 12 0 0)
    ≠ DeriveIdempotencyKey "s1" (utc_date 2024 3 1 12 0 1)
  ∧ no_colon "s1" = true ∧ json_utc (utc_date 2024 3 1 12 0 0).
Proof.
  assert (json_utc (utc_date 2024 3 1 12 0 0) ∧ json_utc (utc_date 2024 3 1 12 0 1)) as [H0 H1]
    by (vm_compute; split; split; [done|split; discriminate|done|split; discriminate]).
  split; [|by split]. intros H.
  destruct (idempotency_key_injective "s1" "s1" _ _ eq_refl eq_refl H0 H1 H) as [_ He].
  vm_compute in He. discriminate He.
Defined.
