(* ===== verification/Headers.v ===== *)
(** * Headers: which header names a schedule may carry

    The reserved names are compared in canonical form, so the case of a name
    does not matter. *)

From Stdlib Require Import Ascii.
From S2P Require Import Prelude Go Calendar GoTime GoFloat Model RecurrenceCalc Storage Command.
Open Scope Z_scope.

(** ** The canonical form forgets case *)

Lemma to_lower_idem c : to_lower (to_lower c) = to_lower c.
Proof. destruct c as [[] [] [] [] [] [] [] []]; reflexivity. Qed.
Lemma to_upper_lower c : to_upper (to_lower c) = to_upper c.
Proof. destruct c as [[] [] [] [] [] [] [] []]; reflexivity. Qed.
Lemma to_lower_upper c : to_lower (to_upper c) = to_lower c.
Proof. destruct c as [[] [] [] [] [] [] [] []]; reflexivity. Qed.
Lemma valid_lower c : validHeaderFieldByte (to_lower c) = validHeaderFieldByte c.
Proof. destruct c as [[] [] [] [] [] [] [] []]; reflexivity. Qed.

Lemma all_valid_lower s :
  all_bytes validHeaderFieldByte (lower_string s) = all_bytes validHeaderFieldByte s.
Proof. induction s as [|c s IH]; [done|]. cbn [lower_string all_bytes]. by rewrite valid_lower, IH. Qed.

Lemma canonical_lower b s : canonical_case b (lower_string s) = canonical_case b s.
Proof.
  revert b. induction s as [|c s IH]; intros b; [done|]. cbn [lower_string canonical_case].
  destruct b; rewrite ?to_upper_lower, ?to_lower_idem, IH; done.
Qed.

Lemma lower_canonical b s : lower_string (canonical_case b s) = lower_string s.
Proof.
  revert b. induction s as [|c s IH]; intros b; [done|]. cbn [lower_string canonical_case].
  destruct b; rewrite IH, ?to_lower_upper, ?to_lower_idem; done.
Qed.

Lemma lower_mime s : lower_string (CanonicalMIMEHeaderKey s) = lower_string s.
Proof. unfold CanonicalMIMEHeaderKey. case_match; [apply lower_canonical|done]. Qed.

(** Two names with the same lower-case form are canonically the same, when
    one of them is a token. *)
Lemma mime_of_lower s s' :
  all_bytes validHeaderFieldByte s' = true → lower_string s = lower_string s' →
  CanonicalMIMEHeaderKey s = CanonicalMIMEHeaderKey s'.
Proof.
  intros Hv Hl. unfold CanonicalMIMEHeaderKey.
  rewrite <- (all_valid_lower s), Hl, all_valid_lower, Hv.
  by rewrite <- (canonical_lower true s), Hl, canonical_lower.
Qed.

Definition reserved_names : list string := ["Content-Type"; HeaderIdempotencyKey; HeaderAttemptID].

Lemma elem_of_reserved k :
  CanonicalMIMEHeaderKey k ∈ ReservedHeaderKeys
  ↔ ∃ name, name ∈ reserved_names ∧ lower_string k = lower_string name.
Proof.
  unfold ReservedHeaderKeys, reserved_names. rewrite !elem_of_union, !elem_of_singleton. split.
  - assert (∀ name, CanonicalMIMEHeaderKey k = CanonicalMIMEHeaderKey name →
      lower_string k = lower_string name) as H'.
    { intros name Hn. by rewrite <- lower_mime, Hn, lower_mime. }
    intros [[H|H]|H]; apply H' in H; eexists; (split; [|exact H]); set_solver.
  - intros (name & Hn & Hl). repeat (apply elem_of_cons in Hn as [->|Hn]).
    + left; left. by apply mime_of_lower.
    + left; right. by apply mime_of_lower.
    + right. by apply mime_of_lower.
    + by apply not_elem_of_nil in Hn.
Qed.

(** Headers are accepted exactly when none of their names equals, whatever
    its case, one of the three names the scheduler sets itself. *)
Theorem headers_accepted (headers : gmap string string) :
  validateHeaders headers = None
  ↔ ∀ k v name, headers !! k = Some v → name ∈ reserved_names →
      lower_string k ≠ lower_string name.
Proof.
  assert (validateHeaders headers = None ↔ reserved_in headers = []) as ->.
  { unfold validateHeaders. by destruct (reserved_in headers). }
  unfold reserved_in. split.
  - intros Hnil k v name Hk Hn Heq.
    assert (CanonicalMIMEHeaderKey k ∈ filter (λ k, k ∈ ReservedHeaderKeys)
      ((λ kv : string * string, CanonicalMIMEHeaderKey kv.1) <$> map_to_list headers)) as Hin.
    { apply list_elem_of_filter. split; [apply elem_of_reserved; eauto|].
      apply list_elem_of_fmap. exists (k, v). split; [done|]. by apply elem_of_map_to_list. }
    rewrite Hnil in Hin. by apply not_elem_of_nil in Hin.
  - intros Hno. apply elem_of_nil_inv. intros c [Hr Hc]%list_elem_of_filter.
    apply list_elem_of_fmap in Hc as ([k v] & -> & Hkv%elem_of_map_to_list). simpl in Hr.
    apply elem_of_reserved in Hr as (name & Hn & Hl). by eapply Hno.
Qed.
