(* ===== verification/Backoff.v ===== *)
(** * Backoff: the delays of RetryBackoff.DelayForAttempt

    [float64(Initial) * math.Pow(Multiplier, n-1)] goes through the squaring loop
    of package math and a truncation.  For multipliers that are integers or
    binary fractions (2, 3, 1.5, 1.25) every step of it is exact as long as the
    digits fit, so the delay is the one the formula means: the initial delay
    times the multiplier to the power of the attempts already made. *)

From Stdlib Require Import SpecFloat QArith Qpower Lqa.
From S2P Require Import Prelude Go GoFloat Model Sample FloatLaws.
Open Scope Z_scope.

(** ** Exact floats *)

(** [f] is the number [c * 2^s], without rounding. *)
Definition exactly (c s : Z) (f : f64) : Prop :=
  ∃ m e, f = S754_finite false m e ∧ 2 ^ 52 ≤ Zpos m < 2 ^ 53 ∧ (fval m e == inject_Z c * pow2 s)%Q.

Definition value (c s : Z) : Q := inject_Z c * pow2 s.

Lemma value_mul c1 s1 c2 s2 : (value c1 s1 * value c2 s2 == value (c1 * c2) (s1 + s2))%Q.
Proof. unfold value. rewrite inject_Z_mult, pow2_add. lra. Qed.

Lemma value_pos c s : 0 < c → (0 < value c s)%Q.
Proof. intros Hc. apply Qmult_lt_0_compat; [by apply inject_pos|apply pow2_pos]. Qed.

Lemma pow2_sub a b : (pow2 a == pow2 (a - b) * pow2 b)%Q.
Proof. rewrite <- pow2_add. by replace (a - b + b) with a by lia. Qed.

(** A number with at most 52 significant bits is its own nearest float. *)
Lemma rounds_exactly c s f : 0 < c < 2 ^ 52 → rounds (value c s) f → exactly c s f.
Proof.
  intros Hc (m & e & -> & Hm & Hv1 & Hv2). exists m, e. split; [done|]. split; [done|].
  pose proof (pow2_pos s) as Hs. unfold fval, value in *.
  destruct (Z.lt_ge_cases s e) as [He|He].
  - exfalso.
    rewrite (pow2_sub e s), <- (pow2_Z (e - s)) in Hv1, Hv2 by lia.
    assert (HP : 2 ≤ 2 ^ (e - s)).
    { change 2 with (2 ^ 1) at 1. apply Z.pow_le_mono_r; lia. }
    set (P := 2 ^ (e - s)) in *.
    assert (Hw : (2 * (inject_Z (Zpos m) * inject_Z P - inject_Z c) * pow2 s <= inject_Z P * pow2 s)%Q) by lra.
    apply Qmult_le_r in Hw; [|done].
    assert (Hz : P < 2 * (Zpos m * P - c)) by nia. apply inject_lt in Hz. inject_in Hz. lra.
  - rewrite (pow2_sub s e), <- (pow2_Z (s - e)) in Hv1, Hv2 |- * by lia. pose proof (pow2_pos e) as Hpe.
    set (P := 2 ^ (s - e)) in *.
    assert (Hw1 : (- (1) * pow2 e <= 2 * (inject_Z (Zpos m) - inject_Z c * inject_Z P) * pow2 e)%Q) by lra.
    assert (Hw2 : (2 * (inject_Z (Zpos m) - inject_Z c * inject_Z P) * pow2 e <= 1 * pow2 e)%Q) by lra.
    apply Qmult_le_r in Hw1, Hw2; [|done..].
    assert (-1 ≤ 2 * (Zpos m - c * P) ≤ 1) as Hz.
    { split; apply inject_le; unfold Z.sub; rewrite inject_Z_mult, inject_Z_plus, inject_Z_opp, inject_Z_mult;
        [change (inject_Z (-1)) with (-(1))%Q|change (inject_Z 1) with 1%Q];
        change (inject_Z 2) with 2%Q; lra. }
    assert (Zpos m = c * P) as -> by lia. rewrite inject_Z_mult. lra.
Qed.

Lemma f64_mul_rounds m1 e1 m2 e2 :
  2 ^ 52 ≤ Zpos m1 < 2 ^ 53 → 2 ^ 52 ≤ Zpos m2 < 2 ^ 53 → in_range (fval m1 e1 * fval m2 e2)%Q →
  rounds (fval m1 e1 * fval m2 e2)%Q (f64_mul (S754_finite false m1 e1) (S754_finite false m2 e2)).
Proof.
  intros H1 H2 Hr. unfold f64_mul, SFmul. simpl xorb.
  apply (round_aux_in_range _ (Zpos (m1 * m2)) 1); [lia|lia|simpl; lia| | |done].
  - assert (2 ^ 104 ≤ Zpos (m1 * m2)) as Hle by nia. apply Z.log2_le_mono in Hle.
    change (Z.log2 (2 ^ 104)) with 104 in Hle. lia.
  - unfold fval. rewrite Pos2Z.inj_mul, inject_Z_mult, pow2_add. field.
Qed.

(** ** Products, sums and scalings that stay exact *)

Lemma mul_exactly c1 s1 c2 s2 f g :
  exactly c1 s1 f → exactly c2 s2 g → 0 < c1 * c2 < 2 ^ 52 → in_range (value (c1 * c2) (s1 + s2)) →
  exactly (c1 * c2) (s1 + s2) (f64_mul f g).
Proof.
  intros (m1 & e1 & -> & H1 & V1) (m2 & e2 & -> & H2 & V2) Hc Hr. apply rounds_exactly; [done|].
  fold (value c1 s1) in V1. fold (value c2 s2) in V2.
  rewrite <- value_mul, <- V1, <- V2 in Hr |- *. by apply f64_mul_rounds.
Qed.

Lemma double_exactly c s f :
  exactly c s f → 0 < c < 2 ^ 52 → in_range (value c (s + 1)) → exactly c (s + 1) (f64_add f f).
Proof.
  intros (m & e & -> & H & V) Hc Hr. apply rounds_exactly; [done|].
  assert (HV : (value c (s + 1) == fval m e + fval m e)%Q).
  { rewrite V. unfold value. rewrite pow2_succ. lra. }
  rewrite HV in Hr |- *. by apply f64_add_rounds.
Qed.

Lemma ldexp_exactly c s f k :
  exactly c s f → 0 < c < 2 ^ 52 → in_range (value c (s + k)) →
  exactly c (s + k) (SFldexp 53 1024 f k).
Proof.
  intros (m & e & -> & H & V) Hc Hr. apply rounds_exactly; [done|].
  assert (HV : (value c (s + k) == fval m (e + k))%Q).
  { unfold value, fval in *. rewrite !pow2_add, Qmult_assoc, Qmult_assoc, V. reflexivity. }
  rewrite HV in Hr |- *. by apply binary_round_rounds.
Qed.

Lemma int_exactly z : 0 < z < 2 ^ 52 → exactly z 0 (f64_of_int z).
Proof.
  intros Hz. destruct (is_int_finite z (f64_of_int z)) as (m & e & Hf & Hm & _ & Hv);
    [lia|apply f64_of_int_is_int; lia|].
  exists m, e. split; [done|]. split; [done|]. rewrite Hv. change (pow2 0) with 1%Q. lra.
Qed.

Lemma exactly_value c s c' s' f :
  (value c s == value c' s')%Q → exactly c s f → exactly c' s' f.
Proof. intros HV (m & e & -> & H & V). exists m, e. split; [done|]. split; [done|]. by rewrite V. Qed.

Lemma compare_cont_Eq p q : Pos.compare_cont Eq p q = Pos.compare p q.
Proof. reflexivity. Qed.

(** The comparison with one half. *)
Lemma half_test c s f : exactly c s f →
  if f64_ltb f f64_half then (value c s < 1 # 2)%Q else (1 # 2 <= value c s)%Q.
Proof.
  intros (m & e & -> & Hm & V). fold (value c s) in V.
  pose proof (fval_log2 m e) as [L1 L2]. rewrite (Z.log2_unique _ 52) in L1, L2 by lia.
  rewrite V in L1, L2. unfold f64_ltb, SFltb, SFcompare, f64_half.
  change (1 # 2)%Q with (pow2 (-1)).
  destruct (Z.compare_spec e (-53)) as [->|Hlt|Hgt].
  - change (52 + -53) with (-1) in L1. rewrite compare_cont_Eq.
    destruct (Pos.compare_spec m 4503599627370496) as [_|Hl|_]; [exact L1|exfalso; apply (proj1 (Z.le_ngt _ _) (proj1 Hm)); exact Hl|exact L1].
  - apply (Qlt_le_trans _ _ _ L2). apply pow2_le. lia.
  - apply (Qle_trans _ (pow2 (52 + e))); [apply pow2_le; lia|done].
Qed.

(** ** math.Pow *)

(** At least a half and below one, as [math.Frexp] normalises. *)
Definition frac_part (q : Q) : Prop := (1 # 2 <= q)%Q ∧ (q < 1)%Q.

Lemma value_le_pow2 c s : 0 < c → (pow2 s <= value c s)%Q.
Proof.
  intros Hc. unfold value. pose proof (pow2_pos s). assert (H1 : 1 ≤ c) by lia. apply inject_le in H1.
  change (inject_Z 1) with 1%Q in H1. rewrite <- (Qmult_1_l (pow2 s)) at 1.
  apply Qmult_le_compat_r; [done|lra].
Qed.

Lemma value_lt_pow2 c s : c < 2 ^ 52 → (value c s < pow2 (52 + s))%Q.
Proof.
  intros Hc. unfold value. rewrite pow2_add. apply inject_lt in Hc.
  by apply Qmult_lt_compat_r; [apply pow2_pos|].
Qed.

Lemma frac_exponent c s : 0 < c < 2 ^ 52 → frac_part (value c s) → -53 < s < 0.
Proof.
  intros [Hc Hc'] [H1 H2]. apply (value_le_pow2 c s) in Hc. apply (value_lt_pow2 c s) in Hc'.
  split.
  - assert (-1 < 52 + s); [|lia]. apply pow2_lt_inv. change (pow2 (-1)) with (1 # 2)%Q. lra.
  - apply pow2_lt_inv. change (pow2 0) with 1%Q. lra.
Qed.

(** Products of two numbers up to one, one of them at least a half. *)
Lemma product_range t p q :
  (pow2 (- t) <= p)%Q → (p <= 1)%Q → frac_part q → (pow2 (- (t + 1)) <= p * q)%Q ∧ (p * q <= 1)%Q.
Proof.
  intros H1 H2 [H3 H4]. pose proof (pow2_pos (- t)) as Ht.
  replace (- (t + 1)) with (- t + -1) by lia. rewrite pow2_add. change (pow2 (-1)) with (1 # 2)%Q.
  split.
  - apply (Qle_trans _ (p * (1 # 2))); [lra|]. rewrite !(Qmult_comm p). apply Qmult_le_compat_r; lra.
  - apply (Qle_trans _ (1 * q)); [|lra]. apply Qmult_le_compat_r; lra.
Qed.

Lemma small_in_range t q : t ≤ 300 → (pow2 (- t) <= q)%Q → (q <= 1)%Q → in_range q.
Proof.
  intros Ht H1 H2. split; [apply (Qle_trans _ (pow2 (- t))); [apply pow2_le; lia|done]|].
  apply (Qle_trans _ 1); [done|]. by vm_compute.
Qed.

Lemma pow_square_exactly X sx x1 xe :
  exactly X sx x1 → 0 < X → X * X < 2 ^ 52 → frac_part (value X sx) →
  ∃ x' xe' sx', pow_square x1 xe = (x', xe') ∧ exactly (X * X) sx' x'
    ∧ sx' + xe' = 2 * (sx + xe) ∧ frac_part (value (X * X) sx').
Proof.
  intros Hx HX HX2 Hf. assert (0 < X * X) as HX0 by lia.
  destruct (product_range 1 (value X sx) (value X sx)) as [P1 P2]; [apply Hf|destruct Hf; lra|done|].
  rewrite value_mul in P1, P2. assert (Hr : in_range (value (X * X) (sx + sx))) by (by apply (small_in_range 2)).
  pose proof (mul_exactly _ _ _ _ _ _ Hx Hx (conj HX0 HX2) Hr) as Hm.
  pose proof (half_test _ _ _ Hm) as Ht. unfold pow_square.
  destruct (f64_ltb (f64_mul x1 x1) f64_half).
  - assert (HD : (value (X * X) (sx + sx + 1) == 2 * value (X * X) (sx + sx))%Q).
    { unfold value. rewrite pow2_succ. lra. }
    change (pow2 (- (1 + 1))) with (1 # 4)%Q in P1.
    eexists _, _, (sx + sx + 1). split; [done|]. split; [|split; [lia|]].
    + apply double_exactly; [done..|]. rewrite HD. apply (small_in_range 1); [lia| |lra].
      change (pow2 (- (1))) with (1 # 2)%Q. lra.
    + split; rewrite HD; lra.
  - eexists _, _, (sx + sx). split; [done|]. split; [done|]. split; [lia|]. split; [done|].
    destruct Hf as [F1 F2]. rewrite <- value_mul.
    apply (Qle_lt_trans _ (1 * value X sx)); [apply Qmult_le_compat_r; lra|lra].
Qed.

(** What the loop keeps of its answer [a1]: positive, up to one, and not too
    small after [t] multiplications. *)
Definition answer (A sa t : Z) (a1 : f64) : Prop :=
  exactly A sa a1 ∧ 0 < A ∧ (pow2 (- t) <= value A sa)%Q ∧ (value A sa <= 1)%Q.

Lemma answer_mul A sa t a1 X sx x1 :
  answer A sa t a1 → exactly X sx x1 → 0 < X → A * X < 2 ^ 52 → frac_part (value X sx) → t ≤ 250 →
  answer (A * X) (sa + sx) (t + 1) (f64_mul a1 x1).
Proof.
  intros (Ha & HA & Hlo & Hhi) Hx HX Hfit Hf Ht.
  destruct (product_range t (value A sa) (value X sx)) as [P1 P2]; [done..|].
  rewrite value_mul in P1, P2. split; [|split; [nia|done]].
  apply mul_exactly; [done|done|nia|]. apply (small_in_range (t + 1)); [lia|done|done].
Qed.

Lemma fits_below A X n k : 0 < A → 0 < X → A * X ^ n < 2 ^ 52 → 0 ≤ k ≤ n → A * X ^ k < 2 ^ 52.
Proof.
  intros HA HX Hfit Hk. assert (X ^ k ≤ X ^ n) by (apply Z.pow_le_mono_r; lia). nia.
Qed.

Lemma no_give_up X sx xe n :
  0 < X < 2 ^ 52 → frac_part (value X sx) → 1 ≤ n → Z.abs (sx + xe) * n ≤ 1000 →
  (xe <? -4096) || (4096 <? xe) = false.
Proof.
  intros HX Hf Hn He. pose proof (frac_exponent X sx HX Hf).
  assert (Z.abs (sx + xe) ≤ 1000) by nia.
  apply orb_false_iff. split; apply Z.ltb_ge; lia.
Qed.

(** The loop multiplies the answer by the base to the power [i]. *)
Lemma pow_loop_exactly i : ∀ A sa a1 ae X sx x1 xe t,
  answer A sa t a1 → exactly X sx x1 → 0 < X → A * X ^ Zpos i < 2 ^ 52 → frac_part (value X sx) →
  t + Zpos i ≤ 250 → Z.abs (sx + xe) * Zpos i ≤ 1000 →
  ∃ a' ae' s', pow_loop i a1 ae x1 xe = (a', ae') ∧ exactly (A * X ^ Zpos i) s' a'
    ∧ s' + ae' = sa + ae + Zpos i * (sx + xe).
Proof.
  induction i as [i IH|i IH|]; intros A sa a1 ae X sx x1 xe t Ha Hx HX Hfit Hf Ht He;
    pose proof (proj1 (proj2 Ha)) as HA.
  - assert (A * (X * X) < 2 ^ 52) as HX2.
    { rewrite <- Z.pow_2_r. eapply fits_below; [done..|lia]. }
    cbn [pow_loop]. rewrite (no_give_up X sx xe (Zpos i~1)) by (done || nia).
    destruct (pow_square_exactly X sx x1 xe) as (x' & xe' & sx' & -> & Hx' & Hs' & Hf'); [done|done|nia|done|].
    assert (A * X * (X * X) ^ Zpos i = A * X ^ Zpos i~1) as Hp.
    { rewrite <- Z.pow_2_r, <- Z.pow_mul_r, Pos2Z.inj_xI, Z.pow_add_r by lia. lia. }
    destruct (IH (A * X) (sa + sx) (f64_mul a1 x1) (ae + xe) (X * X) sx' x' xe' (t + 1))
      as (a' & ae' & s' & -> & Ha' & Hs);
      [apply answer_mul; done || nia|done|nia|by rewrite Hp|done|lia|nia|].
    exists a', ae', s'. rewrite <- Hp. split; [done|]. split; [done|]. nia.
  - assert (A * (X * X) < 2 ^ 52) as HX2.
    { rewrite <- Z.pow_2_r. eapply fits_below; [done..|lia]. }
    cbn [pow_loop]. rewrite (no_give_up X sx xe (Zpos i~0)) by (done || nia).
    destruct (pow_square_exactly X sx x1 xe) as (x' & xe' & sx' & -> & Hx' & Hs' & Hf'); [done|done|nia|done|].
    assert ((X * X) ^ Zpos i = X ^ Zpos i~0) as Hp.
    { by rewrite <- Z.pow_2_r, <- Z.pow_mul_r by lia. }
    destruct (IH A sa a1 ae (X * X) sx' x' xe' t) as (a' & ae' & s' & -> & Ha' & Hs);
      [done|done|nia|by rewrite Hp|done|lia|nia|].
    exists a', ae', s'. rewrite <- Hp. split; [done|]. split; [done|]. nia.
  - rewrite Z.pow_1_r in *. cbn [pow_loop]. rewrite (no_give_up X sx xe 1) by (done || nia).
    exists (f64_mul a1 x1), (ae + xe), (sa + sx). split; [done|]. split; [|lia].
    apply (answer_mul A sa t a1); try done; lia.
Qed.

Lemma exact_in_range c s : 0 < c < 2 ^ 52 → -300 ≤ s ≤ 200 → in_range (value c s).
Proof.
  intros [H1 H2] Hs. split.
  - apply (Qle_trans _ (pow2 s)); [apply pow2_le; lia|by apply value_le_pow2].
  - apply (Qle_trans _ (pow2 (52 + s))); [by apply Qlt_le_weak, value_lt_pow2|apply pow2_le; lia].
Qed.

Lemma one_mantissa m e : 2 ^ 52 ≤ Zpos m < 2 ^ 53 →
  f64_eqb (S754_finite false m e) f64_one = true ↔ (fval m e == 1)%Q.
Proof.
  intros Hm. change f64_one with (S754_finite false 4503599627370496 (-52)).
  unfold f64_eqb, SFeqb, SFcompare. rewrite compare_cont_Eq. split.
  - destruct (Z.compare_spec e (-52)) as [->|_|_]; [|done..].
    destruct (Pos.compare_spec m 4503599627370496) as [->|_|_]; [|done..]. intros _. reflexivity.
  - intros Hv. pose proof (fval_log2 m e) as [L1 L2]. rewrite (Z.log2_unique _ 52) in L1, L2 by lia.
    rewrite Hv in L1, L2. assert (0 < 52 + e + 1) by (by apply pow2_lt_inv).
    assert (52 + e < 1).
    { apply pow2_lt_inv. apply (Qle_lt_trans _ 1); [done|reflexivity]. }
    assert (e = -52) as -> by lia. unfold fval in Hv.
    assert (inject_Z (Zpos m) == inject_Z 4503599627370496)%Q as Hz.
    { change (inject_Z 4503599627370496) with 4503599627370496%Q.
      change (pow2 (-52)) with (1 # 4503599627370496)%Q in Hv. lra. }
    apply (proj1 (inject_Z_injective _ _)) in Hz. injection Hz as ->. reflexivity.
Qed.

Lemma value_pow k s p : 0 ≤ p → (value (k ^ p) (s * p) == value k s ^ p)%Q.
Proof.
  intros Hp. revert p Hp. apply natlike_ind; [by rewrite Z.mul_0_r|].
  intros p Hp IH. rewrite Z.pow_succ_r, Z.mul_succ_r by done.
  rewrite (Z.mul_comm k), <- value_mul, IH. rewrite <- Z.add_1_r.
  destruct (Qeq_dec (value k s) 0) as [H0|H0]; [|by rewrite Qpower_plus, Qpower_1_r].
  rewrite Qpower_plus' by lia. by rewrite Qpower_1_r.
Qed.

(** A base other than one has few powers that fit. *)
Lemma few_powers k s p :
  0 < k → 1 ≤ p → k ^ p < 2 ^ 52 → Z.abs s * p ≤ 200 → k ≠ 1 ∨ s ≠ 0 → p ≤ 200.
Proof.
  intros Hk Hp Hfit Hsp [H1|H0]; [|nia].
  assert (2 ^ p ≤ k ^ p) by (apply Z.pow_le_mono_l; lia).
  assert (p < 52); [|lia]. apply (Z.pow_lt_mono_r_iff 2); lia.
Qed.

Lemma frexp_exactly m e k s : 2 ^ 52 ≤ Zpos m < 2 ^ 53 → (fval m e == value k s)%Q →
  SFfrexp 53 1024 (S754_finite false m e) = (S754_finite false m (-53), e + 53)
  ∧ exactly k (s - e - 53) (S754_finite false m (-53))
  ∧ frac_part (value k (s - e - 53)).
Proof.
  intros Hm Hv. split.
  - unfold SFfrexp. by rewrite digits2_log2, (Z.log2_unique _ 52) by lia.
  - assert (HV : (fval m (-53) == value k (s - e - 53))%Q).
    { unfold value. replace (s - e - 53) with (s + (- e - 53)) by lia.
      rewrite pow2_add, Qmult_assoc. fold (value k s). rewrite <- Hv. unfold fval.
      rewrite <- Qmult_assoc, <- pow2_add. by replace (e + (- e - 53)) with (-53) by lia. }
    split; [by exists m, (-53)|]. unfold frac_part. rewrite <- HV.
    pose proof (fval_log2 m (-53)) as [L1 L2]. rewrite (Z.log2_unique _ 52) in L1, L2 by lia. done.
Qed.

(** [math.Pow] of [k * 2^s] to an integer power is exact. *)
Lemma Pow_exactly x k s p :
  exactly k s x → 0 < k → 0 ≤ p → k ^ p < 2 ^ 52 → Z.abs s * p ≤ 200 →
  exactly (k ^ p) (s * p) (Pow x p).
Proof.
  intros Hx Hk Hp Hfit Hsp. pose proof (int_exactly 1 ltac:(done)) as H1.
  unfold Pow. destruct (Z.eqb_spec p 0) as [->|Hp0]; [by rewrite Z.mul_0_r|]. cbn [orb].
  destruct Hx as (m & e & -> & Hm & Hv). fold (value k s) in Hv.
  destruct (f64_eqb _ f64_one) eqn:E1.
  { apply one_mantissa in E1; [|done]. rewrite Hv in E1.
    apply (exactly_value 1 0); [|done]. rewrite value_pow, E1, Qpower_1 by done. by vm_compute. }
  destruct (Z.eqb_spec p 1) as [->|Hp1].
  { rewrite Z.pow_1_r, Z.mul_1_r. by exists m, e. }
  assert (p ≤ 200) as Hp200.
  { apply (few_powers k s); try done; [lia|]. destruct (decide (k = 1)) as [->|]; [|by left]. right. intros ->.
    rewrite (proj2 (one_mantissa m e Hm)) in E1; [done|]. by rewrite Hv. }
  destruct (Z.leb_spec (2 ^ 63) p); [lia|].
  destruct (frexp_exactly m e k s Hm Hv) as (-> & Hx1 & Hf).
  destruct (pow_loop_exactly (Z.to_pos p) 1 0 f64_one 0 k (s - e - 53) (S754_finite false m (-53)) (e + 53) 0)
    as (a' & ae' & s' & -> & Ha' & Hs); rewrite ?Z2Pos.id, ?Z.mul_1_l by lia; try done; try nia.
  rewrite Z2Pos.id, Z.mul_1_l in * by lia. assert (s' + ae' = s * p) as Hsum by nia.
  rewrite <- Hsum. apply ldexp_exactly; [done|nia|]. apply exact_in_range; nia.
Qed.

(** ** From the product to a duration *)

(** Truncating [c * 2^s]. *)
Lemma int_of_exactly oor c s f :
  exactly c s f → 0 < c → Z.shiftl c s ≤ maxInt64 → int_of_f64 oor f = Z.shiftl c s.
Proof.
  intros (m & e & -> & Hm & Hv) Hc Hmax. assert (0 ≤ Z.shiftl c s) by (apply Z.shiftl_nonneg; lia).
  unfold int_of_f64, trunc_Z. rewrite (floor_of _ _ (Z.shiftl c s)).
  { by rewrite (proj2 (Z.leb_le minInt64 _)), (proj2 (Z.leb_le _ maxInt64)) by (unfold minInt64; lia). }
  fold (fval m e). rewrite Hv. destruct (Z.le_gt_cases 0 s) as [Hs|Hs].
  - rewrite Z.shiftl_mul_pow2, inject_Z_plus, inject_Z_mult, pow2_Z by done.
    change (inject_Z 1) with 1%Q. split; lra.
  - replace s with (- - s) at 1 4 by lia. rewrite <- Z.shiftr_opp_r, Z.shiftr_div_pow2, Z.opp_involutive by lia.
    pose proof (Z.div_mod c (2 ^ (- s)) ltac:(lia)) as Hdm.
    pose proof (Z.mod_pos_bound c (2 ^ (- s)) ltac:(lia)) as Hmb. set (d := c / 2 ^ (- s)) in *.
    assert (H1 : d * 2 ^ (- s) ≤ c) by lia. assert (H2 : c < (d + 1) * 2 ^ (- s)) by lia.
    apply inject_le in H1. apply inject_lt in H2.
    rewrite inject_Z_mult, pow2_Z in H1, H2 by lia. pose proof (pow2_pos s) as Hp.
    pose proof (pow2_opp s) as Ho. split.
    + apply (Qmult_le_compat_r _ _ (pow2 s)) in H1; [|lra].
      rewrite <- Qmult_assoc, (Qmult_comm (pow2 (- s))), Ho in H1. lra.
    + apply (Qmult_lt_compat_r _ _ (pow2 s)) in H2; [|done].
      rewrite <- Qmult_assoc, (Qmult_comm (pow2 (- s))), Ho in H2. lra.
Qed.

Lemma f64_int_value_exact z : 0 ≤ z < 2 ^ 52 → f64_int_value z = z.
Proof.
  intros Hz. unfold f64_int_value. pose proof (f64_of_int_is_int z Hz) as Hi.
  pose proof (int_of_is_int (λ _, 0) z _ Hi ltac:(unfold maxInt64; lia)) as Hv.
  destruct (f64_of_int z) as [| | |sg m e]; [by destruct Hi as [[-> _]|(_ & ? & ? & ? & _)]..|].
  destruct Hi as [[_ ?]|(_ & m' & e' & [= -> -> ->] & Hm & He & Hme)]; [done|].
  unfold trunc_Z. apply floor_of. fold (fval m' e').
  destruct (is_int_fval z m' e') as [-> _]; [right; split; [lia|]; by exists m', e'|].
  rewrite inject_Z_plus. change (inject_Z 1) with 1%Q. split; lra.
Qed.

(** The power of the multiplier, for any attempt. *)
Lemma multiplier_power x k s p :
  exactly k s x → 0 < k → 0 ≤ p → k ^ p < 2 ^ 52 → Z.abs s * p ≤ 200 →
  exactly (k ^ p) (s * p) (Pow x (f64_int_value p)).
Proof.
  intros Hx Hk Hp Hfit Hsp. destruct (decide (p < 2 ^ 52)) as [Hp52|Hp52].
  { rewrite f64_int_value_exact by lia. by apply Pow_exactly. }
  assert (k = 1 ∧ s = 0) as [-> ->].
  { destruct (decide (k = 1 ∧ s = 0)); [done|]. exfalso. apply Hp52.
    assert (p ≤ 200); [|lia]. apply (few_powers k s); try done; [lia|]. lia. }
  rewrite Z.pow_1_l, Z.mul_0_l by done. destruct Hx as (m & e & -> & Hm & Hv).
  assert (f64_eqb (S754_finite false m e) f64_one = true) as He
    by (apply one_mantissa; [done|by rewrite Hv]).
  unfold Pow. rewrite He, orb_true_r. by apply (int_exactly 1).
Qed.

Section delays.
Context `{!Platform} (rb : RetryBackoff).

(** A positive [Max] bounds every delay. *)
Lemma delay_capped n : 0 < rb.(RetryBackoff.Max) → DelayForAttempt rb n ≤ rb.(RetryBackoff.Max).
Proof.
  intros Hm. unfold DelayForAttempt. rewrite (proj2 (Z.ltb_lt 0 _) Hm). cbn [andb].
  match goal with |- context [if (?m <? ?d) then _ else _] => destruct (Z.ltb_spec m d) end; lia.
Qed.

(** C37: the delay after attempt [n] is the initial delay times the multiplier
    to the power [n - 1] (attempts below 1 count as the first), rounded down to
    a nanosecond, and [Max] when that is positive and less.  It holds for
    multipliers [k * 2^s], that is all integers and binary fractions, while
    [Initial * k^(n-1)] has at most 52 bits, [s * (n-1)] at most 200 either way,
    and the delay fits a [Duration]: for doubling from 30 seconds, up to the 29th
    attempt. *)
Theorem retry_delays (k s n : Z) :
  let p := Z.max n 1 - 1 in
  let delay := Z.shiftl (rb.(RetryBackoff.Initial) * k ^ p) (s * p) in
  exactly k s rb.(RetryBackoff.Multiplier) → 0 < k → 0 < rb.(RetryBackoff.Initial) →
  rb.(RetryBackoff.Initial) * k ^ p < 2 ^ 52 → Z.abs s * p ≤ 200 → delay ≤ maxInt64 →
  DelayForAttempt rb n
  = if (0 <? rb.(RetryBackoff.Max)) then Z.min rb.(RetryBackoff.Max) delay else delay.
Proof.
  intros p delay Hx Hk HI Hfit Hsp Hmax.
  assert (0 ≤ p) as Hp by lia. assert (0 < k ^ p) as Hkp by (apply Z.pow_pos_nonneg; lia).
  assert ((if n <? 1 then 1 else n) - 1 = p) as Hn by (unfold p; destruct (Z.ltb_spec n 1); lia).
  assert (k ^ p < 2 ^ 52) as Hfit' by nia.
  set (I := RetryBackoff.Initial rb) in *. assert (0 < I * k ^ p < 2 ^ 52) as HIk by nia.
  assert (-300 ≤ 0 + s * p ≤ 200) as Hr by nia.
  pose proof (int_exactly I ltac:(nia)) as HIx.
  pose proof (multiplier_power _ k s p Hx Hk Hp Hfit' Hsp) as HP.
  pose proof (mul_exactly _ _ _ _ _ _ HIx HP HIk (exact_in_range _ _ HIk Hr)) as HM.
  unfold DelayForAttempt. rewrite Z.add_0_l in HM.
  rewrite Hn, (int_of_exactly _ _ _ _ HM); [|lia|done]. fold delay. destruct (0 <? RetryBackoff.Max rb); [|done]. cbn [andb].
  destruct (Z.ltb_spec (RetryBackoff.Max rb) delay); lia.
Qed.
End delays.

(** ** Concrete back-offs *)

Definition doubling : RetryBackoff := RetryBackoff.mk (30 * second_ns) (f64_of_int 2) (300 * second_ns).
Definition one_and_a_half : RetryBackoff :=
  RetryBackoff.mk (30 * second_ns) (f64_div (f64_of_int 3) (f64_of_int 2)) 0.

Lemma doubling_exactly : exactly 1 1 (f64_of_int 2).
Proof. by eexists _, _; split; [vm_compute; reflexivity|]. Qed.

Lemma one_and_a_half_exactly : exactly 3 (-1) (f64_div (f64_of_int 3) (f64_of_int 2)).
Proof. by eexists _, _; split; [vm_compute; reflexivity|]. Qed.

(** Doubling from 30 seconds: 4 minutes after the fourth attempt, then the
    maximum of 5; half as much again: 67.5 seconds after the third. *)
Lemma retry_delays_witness :
  DelayForAttempt doubling 4 = 240 * second_ns
  ∧ DelayForAttempt doubling 5 = 300 * second_ns
  ∧ DelayForAttempt one_and_a_half 3 = 67500000000.
Proof.
  split; [|split].
  - rewrite (retry_delays doubling 1 1 4); [reflexivity|exact doubling_exactly|..]; done.
  - rewrite (retry_delays doubling 1 1 5); [reflexivity|exact doubling_exactly|..]; done.
  - rewrite (retry_delays one_and_a_half 3 (-1) 3); [reflexivity|exact one_and_a_half_exactly|..]; done.
Defined.
