(* ===== verification/Restart.v ===== *)
(** * Restart: snapshots, restore and the reads of the Raft node

    A replica restored from a snapshot goes on exactly as the one the snapshot
    was taken of.  The Raft node's own handle does not survive a restore. *)

From S2P Require Import Prelude Go Calendar GoTime GoFloat Model RecurrenceCalc Bolt Json Storage.
From S2P Require Import Command Dispatch StateMachine RaftNode Spec Lifecycle Invariants Refinement RefinementScan.
From S2P Require Import RefinementTx CommandRefinement Replica Sample.
Open Scope Z_scope.

Section restart.
Context `{PF : !Platform, CC : !CommandCodec, B : !Bolt, J : !Json}.

(** The state machine applying a log through its handle. *)
Fixpoint apply_log (sm : StateMachine) (l : list LogData) (w : World)
    : result (list reply) * World :=
  match l with
  | [] => (Ok [], w)
  | e :: l' =>
      match Apply sm e w with
      | (Ok r, w') => let '(rs, w'') := apply_log sm l' w' in ((λ rs, r :: rs) <$> rs, w'')
      | (Err x, w') => (Err x, w')
      | (Panic p, w') => (Panic p, w')
      end
  end.

Lemma apply_log_open sm l w d :
  open_dbs w !! sm_storage sm = Some d →
  apply_log sm l w = ((replay l d).1,
    mkWorld (<[sm_storage sm := (replay l d).2]> (open_dbs w)) (fresh w)).
Proof.
  revert w d. induction l as [|e l IH]; intros w d Hd; simpl.
  { rewrite insert_id by done. by destruct w. }
  rewrite (Apply_open _ _ _ _ Hd). destruct (apply_db e d) as [r d1]. simpl.
  destruct r as [v|x|p]; simpl; [|done..].
  rewrite (IH _ d1) by apply lookup_insert_eq. simpl. rewrite insert_insert_eq.
  by destruct (replay l d1).
Qed.

(** C29: a snapshot that is persisted and restored elsewhere carries the whole
    state: the restored state machine answers every further log exactly as the
    state machine the snapshot was taken of, and ends in the same database. *)
Theorem restored_replica_continues (sm sm2 : StateMachine) (w w2 : World) (d snap : DB)
    (l : list LogData) :
  sm_storage sm = sm_db sm → Snapshot sm w = Ok d → Persist d None None = Ok snap →
  ∃ sm' w', Restore sm2 snap io_ok w2 = (Ok sm', w')
    ∧ (apply_log sm' l w').1 = (apply_log sm l w).1
    ∧ open_dbs (apply_log sm' l w').2 !! sm_storage sm'
      = open_dbs (apply_log sm l w).2 !! sm_storage sm.
Proof.
  intros Hsame Hsnap Hper. injection Hper as <-. unfold Snapshot in Hsnap. rewrite <- Hsame in Hsnap.
  destruct (open_dbs w !! sm_storage sm) as [d0|] eqn:Ed; [|done]. injection Hsnap as ->.
  unfold Restore. simpl. eexists _, _. split; [reflexivity|].
  rewrite (apply_log_open _ _ _ _ Ed).
  erewrite (apply_log_open (mkStateMachine (fresh w2) (fresh w2)) l) by apply lookup_insert_eq.
  simpl. by rewrite !lookup_insert_eq.
Qed.

(** C30: whatever reads a node has served since it was started, it answers a
    read only as the leader, only when a barrier of the current term (terms start
    at 1) has succeeded during this read or an earlier one, and from the database
    it was started on. *)
Theorem reads_are_gated {A} (nodeID : string) (bootstrap : bool) (peers : list (string * string))
    (st : handle) (io : NewIO) (rn0 rn rn' : RaftNode) (h : list RaftObs) (deny : error) (fn : M DB A) (obs : RaftObs)
    (w : World) (a : A) :
  rn_New nodeID bootstrap peers st io = Ok rn0 → served rn0 rn h → obs_term obs ≠ 0 →
  leader_read deny fn obs rn w = (Ok a, rn') →
  obs_leader obs = true ∧ Exists (barrier_of (obs_term obs)) (obs :: h)
  ∧ ∃ d, open_dbs w !! st = Some d ∧ View fn d = Ok a.
Proof.
  intros [Hst Hzero]%rn_New_ok Hserved Hterm Hread.
  destruct (served_ready _ _ _ (served_read _ _ _ _ _ _ _ _ _ _ Hserved Hread)) as [_ Hready].
  destruct (served_ready _ _ _ Hserved) as [Hst' _].
  destruct (leader_read_ok _ _ _ _ _ _ _ Hread) as (Hl & Ht & Hd).
  rewrite Ht, Hzero in Hready. rewrite Hst', Hst in Hd.
  split; [done|]. split; [|done]. by destruct Hready.
Qed.

(** The Raft node keeps the handle of the database that [Restore] closes:
    after a restore every read of the node fails with "database not open",
    while the state machine itself reads the restored data. *)
Theorem reads_fail_after_restore {A} (sm sm' : StateMachine) (snap : DB) (w w' : World)
    (rn : RaftNode) (obs : RaftObs) (deny : error) (fn : M DB A) :
  sm_storage sm = sm_db sm → sm_db sm ≠ fresh w →
  Restore sm snap io_ok w = (Ok sm', w') →
  rn_storage rn = sm_storage sm → obs_leader obs = true → obs_barrier obs = None →
  (leader_read deny fn obs rn w').1 = Err not_open
  ∧ handle_View (sm_storage sm') fn w' = View fn snap.
Proof.
  intros Hsame Hne Hres Hrn Hl Hb. unfold Restore in Hres. simpl in Hres. injection Hres as <- <-.
  unfold leader_read, ensureCaughtUpAsLeader, handle_View. rewrite Hl, Hb. simpl.
  rewrite lookup_insert_eq. split; [|done].
  destruct (readyTerm rn =? obs_term obs); simpl; rewrite Hrn, Hsame;
    by rewrite lookup_insert_ne, lookup_delete_eq.
Qed.
End restart.

(** ** On the sample *)

Definition sample_world : World := mkWorld {[ 0%nat := sample_db ]} 1%nat.
Definition sample_sm : StateMachine := mkStateMachine 0%nat 0%nat.
Definition sample_node : RaftNode := mkRaftNode 0%nat "node-1" [] 3.
Definition sample_obs : RaftObs := mkObs true "node-1:7000" 4 None noon.

Lemma restored_replica_witness : ∃ sm' w',
  Restore sample_sm sample_db io_ok sample_world = (Ok sm', w')
  ∧ (apply_log sm' sample_rest w').1 = (apply_log sample_sm sample_rest sample_world).1.
Proof.
  destruct (restored_replica_continues sample_sm sample_sm sample_world sample_world sample_db
    sample_db sample_rest) as (sm' & w' & H1 & H2 & _); [reflexivity..|].
  exists sm', w'. split; [exact H1|exact H2].
Defined.

(** The second read of a term needs no barrier of its own. *)
Definition later_obs : RaftObs := mkObs true "node-1:7000" 4 (Some (EText "timeout")) noon.

Lemma reads_are_gated_witness : Exists (barrier_of 4) [later_obs; sample_obs].
Proof.
  destruct (reads_are_gated "node-1" false [] 0%nat (mkNewIO None None None None None (λ _, None))
    (mkRaftNode 0%nat "node-1" [] 0) (mkRaftNode 0%nat "node-1" [] 4) (mkRaftNode 0%nat "node-1" [] 4)
    [sample_obs] (failed_on "GetExecution" later_obs) (GetExecution "acme" "e1") later_obs
    sample_world (Some e1)) as (_ & H & _).
  - reflexivity.
  - eapply (served_read _ (mkRaftNode 0%nat "node-1" [] 0) [] _ (failed_on "GetTenant" sample_obs)
      (GetTenant "acme") sample_obs sample_world); [constructor|vm_compute; reflexivity].
  - discriminate.
  - vm_compute. reflexivity.
  - exact H.
Defined.

Lemma reads_fail_after_restore_witness :
  (rn_GetExecution "acme" "e1" sample_obs sample_node
     (Restore sample_sm sample_db io_ok sample_world).2).1 = Err not_open.
Proof.
  eapply (reads_fail_after_restore sample_sm (mkStateMachine 1%nat 1%nat) sample_db sample_world _ sample_node
    sample_obs (failed_on "GetExecution" sample_obs) (GetExecution "acme" "e1"));
    [reflexivity|discriminate|reflexivity|reflexivity|reflexivity|reflexivity].
Defined.
