(* ===== verification/Sha256.v ===== *)
(** * Sha256: crypto/sha256, encoding/hex and encoding/base64

    The standard-library functions behind request body hashes and API keys:
    SHA-256 of a byte string, lower-case hexadecimal, and unpadded URL-safe
    base64. *)

From Stdlib Require Import Ascii.
From S2P Require Import Prelude.
Open Scope Z_scope.

(** ** 32-bit words *)

Definition w32 (z : Z) : Z := z mod 2 ^ 32.
Definition add32 (a b : Z) : Z := w32 (a + b).
Definition rotr (n x : Z) : Z := Z.lor (Z.shiftr x n) (w32 (Z.shiftl x (32 - n))).
Definition not32 (x : Z) : Z := Z.lxor x (2 ^ 32 - 1).

Definition Ch (x y z : Z) : Z := Z.lxor (Z.land x y) (Z.land (not32 x) z).
Definition Maj (x y z : Z) : Z := Z.lxor (Z.lxor (Z.land x y) (Z.land x z)) (Z.land y z).
Definition Sigma0 (x : Z) : Z := Z.lxor (Z.lxor (rotr 2 x) (rotr 13 x)) (rotr 22 x).
Definition Sigma1 (x : Z) : Z := Z.lxor (Z.lxor (rotr 6 x) (rotr 11 x)) (rotr 25 x).
Definition sigma0 (x : Z) : Z := Z.lxor (Z.lxor (rotr 7 x) (rotr 18 x)) (Z.shiftr x 3).
Definition sigma1 (x : Z) : Z := Z.lxor (Z.lxor (rotr 17 x) (rotr 19 x)) (Z.shiftr x 10).

(** *** The constants: roots of primes *)

Definition is_prime (n : Z) : bool :=
  (1 <? n) && forallb (λ d, negb (n mod Z.of_nat d =? 0)) (seq 2 (Z.to_nat (Z.sqrt n) - 1)).
Definition primes_below (n : nat) : list Z := filter (λ p, is_prime p = true) (Z.of_nat <$> seq 0 n).

(** The greatest [x < acc + 2 ^ n] above [acc] whose cube is at most [z]. *)
Fixpoint cube_root (n : nat) (acc z : Z) : Z :=
  match n with
  | O => acc
  | S n' => let x := acc + 2 ^ Z.of_nat n' in
            cube_root n' (if x * x * x <=? z then x else acc) z
  end.

(** The first 32 bits of the fractional parts of the cube roots of the first 64
    primes, and of the square roots of the first eight. *)
Definition sha_K : list Z := Eval vm_compute in
  (λ p, w32 (cube_root 40 0 (p * 2 ^ 96))) <$> primes_below 312.
Definition sha_H0 : list Z := Eval vm_compute in
  (λ p, w32 (Z.sqrt (p * 2 ^ 64))) <$> primes_below 20.

Example sha_constants :
  length sha_K = 64%nat ∧ length sha_H0 = 8%nat
  ∧ hd 0 sha_K = 0x428a2f98 ∧ List.last sha_K 0 = 0xc67178f2 ∧ hd 0 sha_H0 = 0x6a09e667.
Proof. by vm_compute. Qed.

(** ** Bytes and padding *)

Fixpoint bytes_of (s : string) : list Z :=
  match s with
  | EmptyString => []
  | String c s' => Z.of_nat (nat_of_ascii c) :: bytes_of s'
  end.

(** The [n] bytes of [x], most significant first. *)
Fixpoint be_bytes (n : nat) (x : Z) : list Z :=
  match n with
  | O => []
  | S n' => be_bytes n' (x / 256) ++ [x mod 256]
  end.

Definition sha_pad (msg : list Z) : list Z :=
  let n := Z.of_nat (length msg) in
  let zeros := Z.to_nat ((55 - n) mod 64) in
  msg ++ [128] ++ replicate zeros 0 ++ be_bytes 8 (8 * n).

Fixpoint be_words (l : list Z) : list Z :=
  match l with
  | a :: b :: c :: d :: l' => (((a * 256 + b) * 256 + c) * 256 + d) :: be_words l'
  | _ => []
  end.

(** ** Compression *)

(** The message schedule; [acc] holds the words so far, the last one first. *)
Fixpoint sha_extend (n : nat) (acc : list Z) : list Z :=
  match n with
  | O => rev acc
  | S n' =>
      let w k := nth (k - 1) acc 0 in
      sha_extend n' (w32 (sigma1 (w 2%nat) + w 7%nat + sigma0 (w 15%nat) + w 16%nat) :: acc)
  end.

Definition sha_round (st : list Z) (kw : Z * Z) : list Z :=
  match st with
  | [a; b; c; d; e; f; g; h] =>
      let t1 := w32 (h + Sigma1 e + Ch e f g + kw.1 + kw.2) in
      let t2 := add32 (Sigma0 a) (Maj a b c) in
      [add32 t1 t2; a; b; c; add32 d t1; e; f; g]
  | _ => st
  end.

Definition sha_block (st : list Z) (block : list Z) : list Z :=
  let w := sha_extend 48 (rev block) in
  zip_with add32 st (foldl sha_round st (zip sha_K w)).

Fixpoint sha_blocks (n : nat) (st words : list Z) : list Z :=
  match n with
  | O => st
  | S n' => sha_blocks n' (sha_block st (take 16 words)) (drop 16 words)
  end.

(** [sha256.Sum256] *)
Definition Sum256 (msg : string) : list Z :=
  let words := be_words (sha_pad (bytes_of msg)) in
  flat_map (be_bytes 4) (sha_blocks (length words / 16) sha_H0 words).

(** ** Text encodings *)

Definition hex_digit (z : Z) : ascii :=
  ascii_of_nat (Z.to_nat (if z <? 10 then 48 + z else 87 + z)).

(** [hex.EncodeToString] *)
Fixpoint hex_encode (l : list Z) : string :=
  match l with
  | [] => ""
  | b :: l' => String (hex_digit (b / 16)) (String (hex_digit (b mod 16)) (hex_encode l'))
  end.

Definition base64url_digit (z : Z) : ascii :=
  ascii_of_nat (Z.to_nat
    (if z <? 26 then 65 + z else if z <? 52 then 71 + z else if z <? 62 then z - 4
     else if z =? 62 then 45 else 95)).

(** [base64.RawURLEncoding.EncodeToString] *)
Fixpoint base64url_encode (l : list Z) : string :=
  match l with
  | a :: b :: c :: l' =>
      String (base64url_digit (a / 4))
        (String (base64url_digit (a mod 4 * 16 + b / 16))
           (String (base64url_digit (b mod 16 * 4 + c / 64))
              (String (base64url_digit (c mod 64)) (base64url_encode l'))))
  | [a; b] =>
      String (base64url_digit (a / 4))
        (String (base64url_digit (a mod 4 * 16 + b / 16))
           (String (base64url_digit (b mod 16 * 4)) ""))
  | [a] => String (base64url_digit (a / 4)) (String (base64url_digit (a mod 4 * 16)) "")
  | [] => ""
  end.

(** ** Test vectors *)

Example sha256_empty : hex_encode (Sum256 "")
  = "e3b0c44298fc1c149afbf4c8996fb92427ae41e4649b934ca495991b7852b855".
Proof. vm_compute. reflexivity. Qed.

Example sha256_abc : hex_encode (Sum256 "abc")
  = "ba7816bf8f01cfea414140de5dae2223b00361a396177a9cb410ff61f20015ad".
Proof. vm_compute. reflexivity. Qed.

(** Two blocks. *)
Example sha256_two_blocks :
  hex_encode (Sum256 "abcdbcdecdefdefgefghfghighijhijkijkljklmklmnlmnomnopnopq")
  = "248d6a61d20638b8e5c026930c3e6039a33ce45964ff2167f6ecedd419db06c1".
Proof. vm_compute. reflexivity. Qed.

Example base64url_abcd : base64url_encode (bytes_of "ab~?cd") = "YWJ-P2Nk".
Proof. vm_compute. reflexivity. Qed.
