(* ===== verification/Prog.v ===== *)
(** * Prog: programs that act on their surroundings

    The scheduler's goroutines are sequences of calls: reads of the Raft node,
    proposals, HTTP requests, the clock.  [prog A] is such a program, a tree
    whose nodes are the [action]s it performs and whose branches are the
    [answer]s it may get.  What the surroundings answer is decided by whoever
    runs the program: Quiet.v runs it alone on a store, Cluster.v interleaves
    it with everything else. *)

From S2P Require Import Prelude Go GoTime Model Storage Command Dispatch.
Open Scope Z_scope.

(** ** net/http *)

(** [http.Header]: canonical names, each with its values. *)
Notation Header := (gmap string (list string)).

(** [h.Set(k, v)] *)
Definition Header_Set (k v : string) (h : Header) : Header :=
  <[CanonicalMIMEHeaderKey k := [v]]> h.

Record Request := mkRequest {
  rq_URL : string;
  rq_Header : Header;
  rq_Body : string
}.

(** [resp_Body] is what reading the body yields before its end or an error. *)
Record Response := mkResponse {
  resp_StatusCode : Z;
  resp_Header : Header;
  resp_Body : string
}.

(** The error of [httpClient.Do]: is it [context.Canceled]? *)
Record DoErr := mkDoErr { is_canceled : bool; do_error : error }.

(** ** Tasks of the worker's queue *)

Record freshFireTask := mkFreshFire {
  ff_schedule : Schedule;
  ff_exec : Execution;
  ff_nodeID : string;
  ff_defaultCallTimeout : Z
}.

(** [if_proposerID] is what [t.proposer.ID()] returns. *)
Record inFlightTask := mkInFlight {
  if_exec : Execution;
  if_schedule : option Schedule;
  if_kind : string;
  if_proposerID : string;
  if_defaultCallTimeout : Z
}.

Inductive Task :=
| TFresh (t : freshFireTask)
| TInFlight (t : inFlightTask).

(** ** Actions and programs *)

Inductive action :=
| ACtxErr                                   (* ctx.Err() *)
| ANow                                      (* time.Now() *)
| AULID                                     (* ulid.Make().String() *)
| AListTenants
| AListSchedulesDue (tenantID : string)
| AGetSchedule (tenantID id : string)
| AListExecutionsByStatus (tenantID status : string)
| AListAttemptsByExecution (tenantID executionID : string)
| APropose (c : command)                    (* proposer.Propose(command_type c, c, proposeTimeout) *)
| ARange (m : gmap string string)           (* the order in which range visits a map *)
| ANewRequest (url : string)                (* does http.NewRequestWithContext fail? *)
| ADo (timeout : Z) (req : Request)         (* httpClient.Do(req) under context.WithTimeout *)
| AEnqueue (t : Task)                       (* w.wg.Add(1); w.taskCh <- t *)
| AWaitTasks                                (* w.wg.Wait() *)
| ASelectTick                               (* select: true for the ticker, false for ctx.Done() *)
| AClosePool.                               (* close(w.taskCh); poolWg.Wait() *)

Definition answer (a : action) : Type :=
  match a with
  | ACtxErr => option error
  | ANow => Time
  | AULID => string
  | AListTenants => result (list Tenant)
  | AListSchedulesDue _ => result (list Schedule)
  | AGetSchedule _ _ => result (option Schedule)
  | AListExecutionsByStatus _ _ => result (list Execution)
  | AListAttemptsByExecution _ _ => result (list Attempt)
  | APropose _ => result reply
  | ARange _ => list (string * string)
  | ANewRequest _ => option error
  | ADo _ _ => option Response * option DoErr
  | AEnqueue _ | AWaitTasks | AClosePool => unit
  | ASelectTick => bool
  end.

Inductive prog (A : Type) : Type :=
| Ret (a : A)
| Act (a : action) (k : answer a → prog A).
Arguments Ret {A} _.
Arguments Act {A} _ _.

Fixpoint prog_bind {A B} (f : A → prog B) (p : prog A) : prog B :=
  match p with
  | Ret a => f a
  | Act a k => Act a (λ r, prog_bind f (k r))
  end.

#[export] Instance prog_ret : MRet prog := @Ret.
#[export] Instance prog_mbind : MBind prog := λ A B f p, prog_bind f p.

Definition act (a : action) : prog (answer a) := Act a Ret.

(** A read or a proposal: its value, or the error a Go call returns.  The calls
    of the worker do not panic; a panic would end the task. *)
Definition on_result {A B} (r : result A) (err : error → prog B) (ok : A → prog B) : prog B :=
  match r with
  | Ok a => ok a
  | Err e => err e
  | Panic p => err (EText p)
  end.

(** [if err := e; err != nil { return err }; p] *)
Definition unless {A} (e : option error) (p : prog (option A)) (wrap : error → A) : prog (option A) :=
  match e with Some e => Ret (Some (wrap e)) | None => p end.

(** A [for range] loop whose body continues ([None]) or returns an error. *)
Fixpoint for_each {A} (f : A → prog (option error)) (l : list A) : prog (option error) :=
  match l with
  | [] => Ret None
  | x :: l' => r ← f x; match r with Some e => Ret (Some e) | None => for_each f l' end
  end.

(** ** Running a program step by step *)

(** [performs p a k]: the next thing [p] does is [a], going on as [k]. *)
Definition next_action {A} (p : prog A) : option action :=
  match p with Ret _ => None | Act a _ => Some a end.

Lemma prog_bind_act {A B} a (k : answer a → prog A) (f : A → prog B) :
  (Act a k ≫= f) = Act a (λ r, k r ≫= f).
Proof. reflexivity. Qed.

Lemma prog_bind_ret {A B} (a : A) (f : A → prog B) : (Ret a ≫= f) = f a.
Proof. reflexivity. Qed.
