(* ===== verification/Worker.v ===== *)
(** * Worker: src/internal/scheduler/worker.go

    The leader's worker: recovery of executions left in flight, the tick that
    claims due schedules and finds executions to retry or finalise, and the
    tasks its pool runs.  Log messages are left out; everything else a goroutine
    does is an action of its [prog]. *)

From S2P Require Import Prelude Go GoTime GoFloat Model RecurrenceCalc Storage Command Dispatch Sha256 Prog.
Open Scope Z_scope.

Definition BucketNoAttempts : string := "no_attempts".
Definition BucketSuccess : string := "success".
Definition BucketTerminalFailure : string := "terminal_failure".
Definition BucketRetryElapsed : string := "retry_elapsed".
Definition BucketRetryPending : string := "retry_pending".

Definition responseExcerptLimit : nat := 4096.
Definition defaultPoolSize : nat := 8.
Definition defaultTickInterval : Z := 5 * second_ns.
Definition taskChCapacity : nat := 256.

Definition KindRetry : string := "retry".
Definition KindTimeout : string := "timeout".
Definition KindFinalize : string := "finalize".

(** [result.( *command.CommandError)] *)
Definition asCommandError (r : reply) : option CommandError :=
  match r with RRejected c => Some c | _ => None end.

(** ** Classification *)

Definition classifyAttemptOutcome (status : Z) (doErr : option DoErr)
    (attemptNumber maxAttempts : Z) : string :=
  if bool_decide (doErr = None) && (200 <=? status) && (status <? 300) then OutcomeSuccess
  else if (0 <? maxAttempts) && (maxAttempts <=? attemptNumber) then OutcomeTerminalFailure
  else OutcomeRetry.

(** The first value of every header that has one. *)
Definition flattenHeaders (h : Header) : gmap string string := omap head h.

Definition classifyOne (attempts : list Attempt) (now : Time) : result string :=
  match last attempts with
  | None => Ok BucketNoAttempts
  | Some a =>
      if bool_decide (a.(Attempt.Outcome) = OutcomeSuccess) then Ok BucketSuccess
      else if bool_decide (a.(Attempt.Outcome) = OutcomeTerminalFailure) then Ok BucketTerminalFailure
      else if bool_decide (a.(Attempt.Outcome) = OutcomeRetry) then
        if negb (Before now a.(Attempt.RetryAt)) then Ok BucketRetryElapsed else Ok BucketRetryPending
      else Err (EText ("unknown outcome value: " +:+ a.(Attempt.Outcome)))
  end.

(** ** The worker *)

Record Worker := mkWorker {
  w_nodeID : string;
  w_tickInterval : Z;
  w_poolSize : nat;
  w_defaultCallTimeout : Z
}.

(** [id] is what [proposer.ID()] returns. *)
Definition NewWorker (id : string) : Worker :=
  mkWorker id defaultTickInterval defaultPoolSize DefaultCallTimeout.

(** ** Dispatching a callback *)

(** The operator's headers in the order [range] visits them, then the
    scheduler's own. *)
Definition request_headers (order : list (string * string)) (idempotencyKey attemptID : string)
    : Header :=
  let h := foldl (λ h kv, Header_Set kv.1 kv.2 h) ∅ order in
  let h := Header_Set "Content-Type" "application/json" h in
  let h := Header_Set HeaderIdempotencyKey idempotencyKey h in
  Header_Set HeaderAttemptID attemptID h.

Definition wrap_exec (before execID after : string) : error → error :=
  EWrap (before +:+ execID +:+ after).

(** [if cmdErr := asCommandError(result); cmdErr != nil {...}]: a conflict ends
    the task quietly, any other rejection is its error. *)
Definition settle (rejected : error → error) (result : reply) (continue : prog (option error))
    : prog (option error) :=
  match asCommandError result with
  | Some c => if bool_decide (CommandError.Kind c = KindConflict) then Ret None
              else Ret (Some (rejected (ECommand c)))
  | None => continue
  end.

(** Propose [complete_execution]. *)
Definition propose_complete (tenantID execID finalStatus finalOutcome : string) : prog (option error) :=
  result ← act (APropose (complete_execution
             (CompleteExecutionCommand.mk tenantID execID finalStatus finalOutcome None)));
  on_result result (λ e, Ret (Some (wrap_exec "propose complete for execution " execID ": " e)))
    (λ r, settle (wrap_exec "complete execution rejected for execution " execID ": ") r (Ret None)).

(** The attempt a call amounts to: status, headers and excerpt of the response
    if there is one, the outcome, and when to retry. *)
Definition attempt_command `{!Platform} (exec : Execution) (schedule : Schedule)
    (nodeID attemptID : string) (attemptNumber : Z) (startedAt completedAt : Time)
    (resp : option Response) (doErr : option DoErr) : RecordAttemptCommand :=
  let respStatus := match resp with Some r => resp_StatusCode r | None => 0 end in
  let respHeaders := match resp with Some r => flattenHeaders (resp_Header r) | None => ∅ end in
  let respExcerpt := match resp with
                     | Some r => String.substring 0 responseExcerptLimit (resp_Body r)
                     | None => ""
                     end in
  let outcome := classifyAttemptOutcome respStatus doErr attemptNumber
                   schedule.(Schedule.MaxAttempts) in
  let retryAt := if bool_decide (outcome = OutcomeRetry)
                 then Some (Add completedAt
                        (DelayForAttempt schedule.(Schedule.RetryBackoff) attemptNumber))
                 else None in
  RecordAttemptCommand.mk schedule.(Schedule.TenantID) exec.(Execution.ID) attemptID nodeID
    (Some startedAt) (Some completedAt) outcome retryAt schedule.(Schedule.CallbackURL)
    schedule.(Schedule.Headers) (hex_encode (Sum256 schedule.(Schedule.Payload)))
    respStatus respExcerpt respHeaders.

Definition finalStatus (outcome : string) : string :=
  if bool_decide (outcome = OutcomeTerminalFailure)
  then ExecutionStatusFailedTerminal else ExecutionStatusSucceeded.

(** The common part of [freshFireTask.run] and [runRetry], from the attempt
    identifier on. *)
Definition dispatch `{!Platform} (exec : Execution) (schedule : Schedule) (nodeID : string)
    (defaultCallTimeout attemptNumber : Z) : prog (option error) :=
  let execID := exec.(Execution.ID) in
  attemptID ← act AULID;
  startedAt ← act ANow;
  let callTimeout := default defaultCallTimeout schedule.(Schedule.CallTimeout) in
  err ← act (ANewRequest schedule.(Schedule.CallbackURL));
  unless err (
    order ← act (ARange schedule.(Schedule.Headers));
    let req := mkRequest schedule.(Schedule.CallbackURL)
                 (request_headers order exec.(Execution.IdempotencyKey) attemptID)
                 schedule.(Schedule.Payload) in
    '(resp, doErr) ← act (ADo callTimeout req);
    if match doErr with Some d => is_canceled d | None => false end then act ACtxErr else
    completedAt ← act ANow;
    let recordCmd := attempt_command exec schedule nodeID attemptID attemptNumber
                       startedAt completedAt resp doErr in
    let outcome := recordCmd.(RecordAttemptCommand.Outcome) in
    result ← act (APropose (record_attempt recordCmd));
    on_result result (λ e, Ret (Some (wrap_exec "callback for execution " execID
      " was dispatched but record_attempt failed to commit (relying on receiver-side idempotency-key dedup for correctness): " e)))
    (λ r, settle (wrap_exec "record attempt rejected for execution " execID ": ") r (
      err ← act ACtxErr;
      unless err (
        if bool_decide (outcome ≠ OutcomeRetry)
        then propose_complete schedule.(Schedule.TenantID) execID (finalStatus outcome) outcome
        else Ret None) id)))
  (wrap_exec "build request for execution " execID ": ").

(** The schedule is read again before the call; only an active one is dispatched. *)
Definition with_active_schedule (exec : Execution) (go : Schedule → prog (option error))
    : prog (option error) :=
  schedule ← act (AGetSchedule exec.(Execution.TenantID) exec.(Execution.ScheduleID));
  on_result schedule
    (λ e, Ret (Some (wrap_exec "get schedule for execution " exec.(Execution.ID) ": " e)))
    (λ s, match s with
          | None => Ret None
          | Some s => if bool_decide (s.(Schedule.Status) ≠ ScheduleStatusActive) then Ret None else go s
          end).

Section tasks.
Context `{!Platform}.

Definition freshFireTask_run (t : freshFireTask) : prog (option error) :=
  err ← act ACtxErr;
  unless err (
    with_active_schedule (ff_exec t) (λ schedule,
      dispatch (ff_exec t) schedule (ff_nodeID t) (ff_defaultCallTimeout t) 1)) id.

Definition runRetry (t : inFlightTask) : prog (option error) :=
  with_active_schedule (if_exec t) (λ schedule,
    dispatch (if_exec t) schedule (if_proposerID t) (if_defaultCallTimeout t)
      (wrap64 ((if_exec t).(Execution.AttemptCount) + 1))).

Definition runTimeout (t : inFlightTask) : prog (option error) :=
  let execID := (if_exec t).(Execution.ID) in
  result ← act (APropose (fail_execution_timeout
             (FailExecutionTimeoutCommand.mk (if_exec t).(Execution.TenantID) execID FinalOutcomeTimedOut)));
  on_result result
    (λ e, Ret (Some (wrap_exec "propose fail execution timeout for execution " execID ": " e)))
    (λ r, settle (wrap_exec "fail execution timeout rejected for execution " execID ": ") r (Ret None)).

Definition runFinalize (t : inFlightTask) : prog (option error) :=
  let execID := (if_exec t).(Execution.ID) in
  attempts ← act (AListAttemptsByExecution (if_exec t).(Execution.TenantID) execID);
  on_result attempts
    (λ e, Ret (Some (wrap_exec "list attempts for execution " execID ": " e)))
    (λ attempts,
      match last attempts with
      | None => Ret None
      | Some a =>
          let lastOutcome := a.(Attempt.Outcome) in
          if bool_decide (lastOutcome = OutcomeSuccess) then
            propose_complete (if_exec t).(Execution.TenantID) execID ExecutionStatusSucceeded OutcomeSuccess
          else if bool_decide (lastOutcome = OutcomeTerminalFailure) then
            propose_complete (if_exec t).(Execution.TenantID) execID ExecutionStatusFailedTerminal
              OutcomeTerminalFailure
          else Ret None
      end).

Definition inFlightTask_run (t : inFlightTask) : prog (option error) :=
  err ← act ACtxErr;
  unless err (
    if bool_decide (if_kind t = KindRetry) then runRetry t
    else if bool_decide (if_kind t = KindTimeout) then runTimeout t
    else if bool_decide (if_kind t = KindFinalize) then runFinalize t
    else Ret (Some (EText ("inFlightTask: unhandled kind " +:+ quote +:+ if_kind t
           +:+ quote +:+ " for execution " +:+ (if_exec t).(Execution.ID))))) id.

Definition task_run (t : Task) : prog (option error) :=
  match t with TFresh t => freshFireTask_run t | TInFlight t => inFlightTask_run t end.

(** [runTask]: the error is logged, the task is done. *)
Definition runTask (t : Task) : prog unit := _ ← task_run t; Ret ().
End tasks.

(** ** Recovery *)

Section worker.
Context `{!Platform} (w : Worker).

Definition adoptOrComplete (tenant : Tenant) (exec : Execution) (bucket : string)
    : prog (option error) :=
  let execID := exec.(Execution.ID) in
  err ← act ACtxErr;
  unless err (
    if bool_decide (bucket ∈ [BucketNoAttempts; BucketRetryElapsed; BucketRetryPending]) then
      if bool_decide (exec.(Execution.OwnerNodeID) = w_nodeID w) then Ret None else
      result ← act (APropose (adopt_execution
                 (AdoptExecutionCommand.mk tenant.(Tenant.ID) execID
                    exec.(Execution.OwnerNodeID) (w_nodeID w))));
      on_result result
        (λ e, Ret (Some (wrap_exec "propose adopt for execution " execID ": " e)))
        (λ r, settle (wrap_exec "adopt execution rejected for execution " execID ": ") r (Ret None))
    else if bool_decide (bucket = BucketSuccess) then
      propose_complete tenant.(Tenant.ID) execID ExecutionStatusSucceeded OutcomeSuccess
    else if bool_decide (bucket = BucketTerminalFailure) then
      propose_complete tenant.(Tenant.ID) execID ExecutionStatusFailedTerminal OutcomeTerminalFailure
    else Ret (Some (EText ("adoptOrComplete: unhandled bucket " +:+ quote +:+ bucket +:+ quote)))) id.

Definition recover_execution (tenant : Tenant) (exec : Execution) : prog (option error) :=
  let execID := exec.(Execution.ID) in
  err ← act ACtxErr;
  unless err (
    attempts ← act (AListAttemptsByExecution tenant.(Tenant.ID) execID);
    on_result attempts
      (λ e, Ret (Some (wrap_exec "read attempts for execution " execID ": " e)))
      (λ attempts,
        now ← act ANow;
        on_result (classifyOne attempts now)
          (λ e, Ret (Some (wrap_exec "classify for execution " execID ": " e)))
          (λ bucket,
            err ← adoptOrComplete tenant exec bucket;
            unless err (Ret None) (wrap_exec "adopt or complete for execution " execID ": ")))) id.

Definition recover_tenant (tenant : Tenant) : prog (option error) :=
  err ← act ACtxErr;
  unless err (
    execs ← act (AListExecutionsByStatus tenant.(Tenant.ID) ExecutionStatusInFlight);
    on_result execs
      (λ e, Ret (Some (wrap_exec "list in-flight for tenant " tenant.(Tenant.ID) ": " e)))
      (for_each (recover_execution tenant))) id.

Definition runRecover : prog (option error) :=
  tenants ← act AListTenants;
  on_result tenants (λ e, Ret (Some (EWrap "list tenants: " e))) (for_each recover_tenant).

(** ** The tick *)

(** One due schedule: claim its slot and queue the dispatch.  Failures are
    logged and the loop goes on. *)
Definition tick_schedule (tenant : Tenant) (schedule : Schedule) : prog (option error) :=
  err ← act ACtxErr;
  unless err (
    match schedule.(Schedule.NextRunAt) with
    | None => Ret None
    | Some scheduledFor =>
        execID ← act AULID;
        result ← act (APropose (claim_execution
                   (ClaimExecutionCommand.mk execID tenant.(Tenant.ID) schedule.(Schedule.ID)
                      scheduledFor (w_nodeID w))));
        on_result result (λ _, Ret None) (λ r,
          match r with
          | RExecution claimedExec =>
              _ ← act (AEnqueue (TFresh
                    (mkFreshFire schedule claimedExec (w_nodeID w) (w_defaultCallTimeout w))));
              Ret None
          | _ => Ret None
          end)
    end) id.

(** One execution in flight: finalise it, retry it, or leave it. *)
Definition tick_execution (tenant : Tenant) (exec : Execution) : prog (option error) :=
  err ← act ACtxErr;
  unless err (
    if bool_decide (exec.(Execution.LastAttemptID) ≠ "" ∧ exec.(Execution.LastRetryAt) = None) then
      _ ← act (AEnqueue (TInFlight (mkInFlight exec None KindFinalize (w_nodeID w) 0)));
      Ret None
    else match exec.(Execution.LastRetryAt) with
    | None => Ret None
    | Some lastRetryAt =>
        now ← act ANow;
        if After lastRetryAt now then Ret None else
        schedule ← act (AGetSchedule tenant.(Tenant.ID) exec.(Execution.ScheduleID));
        on_result schedule (λ _, Ret None) (λ schedule,
          _ ← act (AEnqueue (TInFlight
                (mkInFlight exec schedule KindRetry (w_nodeID w) (w_defaultCallTimeout w))));
          Ret None)
    end) id.

Definition tick_tenant (tenant : Tenant) : prog (option error) :=
  err ← act ACtxErr;
  unless err (
    schedules ← act (AListSchedulesDue tenant.(Tenant.ID));
    on_result schedules (λ _, Ret None) (λ schedules,
      err ← for_each (tick_schedule tenant) schedules;
      unless err (
        executions ← act (AListExecutionsByStatus tenant.(Tenant.ID) ExecutionStatusInFlight);
        on_result executions (λ _, Ret None) (for_each (tick_execution tenant))) id)) id.

Definition runTick : prog (option error) :=
  tenants ← act AListTenants;
  on_result tenants (λ e, Ret (Some (EWrap "list tenants: " e))) (λ tenants,
    err ← for_each tick_tenant tenants;
    unless err (_ ← act AWaitTasks; Ret None) id).

(** ** The loop *)

(** How a run of at most [fuel] rounds ends. *)
Inductive run_end :=
| OutOfFuel
| Returned (err : option error).

Fixpoint steadyState (fuel : nat) : prog run_end :=
  match fuel with
  | O => Ret OutOfFuel
  | S fuel' =>
      tick ← act ASelectTick;
      if tick : bool then
        err ← runTick;
        match err with
        | Some e => Ret (Returned (Some (EWrap "run tick: " e)))
        | None => steadyState fuel'
        end
      else
        err ← act ACtxErr; Ret (Returned err)
  end.

Definition Run (fuel : nat) : prog run_end :=
  err ← runRecover;
  match err with
  | Some e => Ret (Returned (Some e))
  | None =>
      r ← steadyState fuel;
      match r with
      | OutOfFuel => Ret OutOfFuel
      | Returned err => _ ← act AClosePool; Ret (Returned err)
      end
  end.
End worker.
