(* ===== verification/WorkerSafe.v ===== *)
(** * WorkerSafe: what the worker's programs are allowed to do

    A small program logic for [prog].  Facts about the store that no later
    command can undo ([later]) are what a goroutine may rely on between its
    actions: an attempt that is recorded, an execution that exists.  [safe]
    says that every action of a program is [permitted] by what the program has
    learnt, whatever [plausible] answers it gets and however far the store has
    moved on meanwhile.  Every program of Worker.v is safe: it completes an
    execution only after an attempt with that outcome has been recorded, and it
    calls back only with the key of an execution that exists. *)

From S2P Require Import Prelude Go GoTime GoFloat Model RecurrenceCalc Json Storage Command Dispatch.
From S2P Require Import RaftNode Spec Lifecycle Invariants Refinement Attempts Sha256 Prog Worker.
Open Scope Z_scope.

(** ** Reads that collect rows *)

Lemma collected_rows {St A} (s : St) (m : M St (list A * option error)) rows :
  m s = (Ok (iter collect [] rows), s) → View (collected m) s = Ok rows.
Proof.
  intros Hm. assert (∀ acc, iter collect acc rows = (acc ++ rows, None)) as Hi.
  { clear. induction rows as [|x l IH]; intros acc; simpl; [by rewrite app_nil_r|].
    by rewrite IH, <- (assoc_L _). }
  unfold View, collected. rewrite (M_bind_ok m _ _ _ _ Hm), Hi. done.
Qed.

(** ** Facts that last *)

(** Executions move forward only, attempts stay. *)
Definition later (sp sp' : Spec) : Prop :=
  (∀ p e, sp_executions sp !! p = Some e →
     ∃ e', sp_executions sp' !! p = Some e' ∧ exec_evolves e e')
  ∧ (∀ p a, sp_attempts sp !! p = Some a → sp_attempts sp' !! p = Some a).

#[export] Instance later_preorder : PreOrder later.
Proof.
  split.
  - intros sp. split; [eauto using exec_evolves_refl|done].
  - intros sp1 sp2 sp3 [He Ha] [He' Ha']. split; [|by eauto].
    intros p e Hp. destruct (He _ _ Hp) as (e1 & Hp1 & Hev1).
    destruct (He' _ _ Hp1) as (e2 & Hp2 & Hev2). eauto using exec_evolves_trans.
Qed.

Section steps.
Context `{PF : !Platform, J : !Json}.

Lemma step_attempts at_ c sp r sp' p row :
  spec_step at_ c sp r sp' → id_unused c sp →
  sp_attempts sp !! p = Some row → sp_attempts sp' !! p = Some row.
Proof.
  intros Hstep Hnew Ha. step_cases Hstep; try exact Ha. simpl in *.
  rewrite lookup_insert_ne; [done|]. intros <-. congruence.
Qed.

Lemma step_later at_ c sp r sp' :
  spec_step at_ c sp r sp' → inv sp → id_unused c sp → later sp sp'.
Proof.
  intros Hstep Hinv Hnew. split.
  - intros p e Hp. apply (step_execution at_ c sp r sp' p e Hstep Hinv Hp).
    destruct c; try by intros []. simpl in *. intros Heq. congruence.
  - intros p a. by apply (step_attempts at_ c sp r).
Qed.

End steps.

(** An attempt of execution [e] with outcome [o] is on record. *)
Definition recorded (sp : Spec) (t e o : string) : Prop :=
  ∃ a i, sp_attempts sp !! (t, i) = Some a ∧ a.(Attempt.ExecutionID) = e ∧ a.(Attempt.Outcome) = o.

(** [e] is a version of an execution that exists. *)
Definition known (sp : Spec) (e : Execution) : Prop :=
  good_id e.(Execution.TenantID) ∧ good_id e.(Execution.ID)
  ∧ ∃ e', sp_executions sp !! (e.(Execution.TenantID), e.(Execution.ID)) = Some e' ∧ exec_evolves e e'.

Lemma recorded_later sp sp' t e o : later sp sp' → recorded sp t e o → recorded sp' t e o.
Proof. intros [_ Ha] (a & i & Hp & ?). exists a, i. eauto. Qed.

Lemma known_later sp sp' e : later sp sp' → known sp e → known sp' e.
Proof.
  intros [He _] (? & ? & e1 & Hp & Hev). split; [done|]. split; [done|].
  destruct (He _ _ Hp) as (e2 & Hp2 & Hev2). eauto using exec_evolves_trans.
Qed.

#[export] Hint Resolve recorded_later known_later : rb.

(** ** Permitted actions, plausible answers *)

(** A completion says what a recorded attempt says; time-outs are not proposed. *)
Definition justified (c : command) (sp : Spec) : Prop :=
  match c with
  | complete_execution c =>
      let t := c.(CompleteExecutionCommand.TenantID) in
      let e := c.(CompleteExecutionCommand.ExecutionID) in
      (c.(CompleteExecutionCommand.FinalStatus) = ExecutionStatusSucceeded
       ∧ recorded sp t e OutcomeSuccess)
      ∨ (c.(CompleteExecutionCommand.FinalStatus) = ExecutionStatusFailedTerminal
         ∧ recorded sp t e OutcomeTerminalFailure)
  | fail_execution_timeout _ => False
  | _ => True
  end.

(** The request carries the key of an execution that exists. *)
Definition carries_key (sp : Spec) (req : Request) : Prop :=
  ∃ e, known sp e
    ∧ rq_Header req !! HeaderIdempotencyKey = Some [e.(Execution.IdempotencyKey)].

Definition task_ok (sp : Spec) (t : Task) : Prop :=
  match t with
  | TFresh t => known sp (ff_exec t)
  | TInFlight t => known sp (if_exec t) ∧ if_kind t ≠ KindTimeout
  end.

Definition permitted (a : action) (sp : Spec) : Prop :=
  match a with
  | AListSchedulesDue t | AGetSchedule t _ => no_colon t = true
  | AListExecutionsByStatus t s => no_colon t = true ∧ no_colon s = true
  | AListAttemptsByExecution t e => no_colon t = true ∧ no_colon e = true
  | APropose c => justified c sp
  | ADo _ req => carries_key sp req
  | AEnqueue t => task_ok sp t
  | _ => True
  end.

(** What a successful proposal tells the proposer. *)
Definition committed (c : command) (v : reply) (sp : Spec) : Prop :=
  match c, v with
  | record_attempt c, RAttempt _ =>
      recorded sp c.(RecordAttemptCommand.TenantID) c.(RecordAttemptCommand.ExecutionID)
        c.(RecordAttemptCommand.Outcome)
  | record_attempt _, RRejected _ => True
  | record_attempt _, _ => False
  | claim_execution _, RExecution e => known sp e
  | _, _ => True
  end.

Definition plausible (a : action) : answer a → Spec → Prop :=
  match a with
  | AListTenants => λ r _, ∀ l, r = Ok l → Forall (λ t, no_colon t.(Tenant.ID) = true) l
  | AListExecutionsByStatus t s => λ r sp, ∀ l, r = Ok l →
      Forall (λ e, known sp e ∧ e.(Execution.TenantID) = t ∧ e.(Execution.Status) = s) l
  | AListAttemptsByExecution t e => λ r sp, ∀ l, r = Ok l →
      Forall (λ a, recorded sp t e a.(Attempt.Outcome)) l
  | APropose c => λ r sp, ∀ v, r = Ok v → committed c v sp
  | ARange m => λ r _, r ≡ₚ map_to_list m
  | _ => λ _ _, True
  end.

Lemma justified_later c sp sp' : later sp sp' → justified c sp → justified c sp'.
Proof. intros Hl. destruct c; simpl; try done. intros [[? ?]|[? ?]]; eauto with rb. Qed.

Lemma task_ok_later t sp sp' : later sp sp' → task_ok sp t → task_ok sp' t.
Proof. intros Hl. destruct t; simpl; [|intros [? ?]; split]; eauto with rb. Qed.

Lemma carries_key_later req sp sp' : later sp sp' → carries_key sp req → carries_key sp' req.
Proof. intros Hl (e & He & ?). exists e. eauto with rb. Qed.

Lemma permitted_later a sp sp' : later sp sp' → permitted a sp → permitted a sp'.
Proof.
  intros Hl. destruct a; simpl; eauto using justified_later, task_ok_later, carries_key_later.
Qed.

(** ** Safe programs *)

Fixpoint safe {A} (Q : A → Spec → Prop) (p : prog A) (sp : Spec) : Prop :=
  match p with
  | Ret a => Q a sp
  | Act a k => permitted a sp ∧
      ∀ r sp', later sp sp' → plausible a r sp' → safe Q (k r) sp'
  end.

(** Nothing is promised about how the program ends. *)
Definition any {A} (_ : A) (_ : Spec) : Prop := True.

Lemma safe_later {A} (p : prog A) sp sp' : later sp sp' → safe any p sp → safe any p sp'.
Proof.
  destruct p as [a|a k]; simpl; [done|]. intros Hl [Hp Hk]. split; [by eapply permitted_later|].
  intros r sp'' Hl'. apply Hk. by etrans.
Qed.

Lemma safe_bind {A B} (Q : B → Spec → Prop) (p : prog A) (f : A → prog B) sp :
  safe (λ a sp, safe Q (f a) sp) p sp → safe Q (p ≫= f) sp.
Proof.
  revert sp. induction p as [a|a k IH]; simpl; intros sp; [done|]. intros [Hp Hk].
  split; [done|]. intros r sp' Hl Hr. apply IH. by apply Hk.
Qed.

Lemma safe_weaken {A} (Q1 Q2 : A → Spec → Prop) (p : prog A) sp :
  (∀ a sp', later sp sp' → Q1 a sp' → Q2 a sp') → safe Q1 p sp → safe Q2 p sp.
Proof.
  revert sp. induction p as [a|a k IH]; simpl; intros sp HQ.
  - intros Ha. apply HQ; [reflexivity|done].
  - intros [Hp Hk]. split; [done|]. intros r sp' Hl Hr. apply IH; [|by apply Hk].
    intros b sp'' Hl'. apply HQ. by etrans.
Qed.

(** A bind whose first part promises nothing. *)
Lemma safe_bind_any {A B} (p : prog A) (f : A → prog B) sp :
  safe any p sp → (∀ a sp', later sp sp' → safe any (f a) sp') → safe any (p ≫= f) sp.
Proof.
  intros Hp Hf. apply safe_bind. eapply safe_weaken; [|exact Hp]. intros a sp' Hl _. by apply Hf.
Qed.

(** One action and what follows. *)
Lemma safe_act {A} a (k : answer a → prog A) sp :
  permitted a sp → (∀ r sp', later sp sp' → plausible a r sp' → safe any (k r) sp') →
  safe any (act a ≫= k) sp.
Proof. done. Qed.

Lemma safe_unless {A} e (p : prog (option A)) wrap sp : safe any p sp → safe any (unless e p wrap) sp.
Proof. by destruct e. Qed.

Lemma safe_on_result {A B} (r : result A) (err : error → prog B) ok sp :
  (∀ e, safe any (err e) sp) → (∀ a, r = Ok a → safe any (ok a) sp) → safe any (on_result r err ok) sp.
Proof. intros He Ho. destruct r; simpl; auto. Qed.

(** A loop over elements of which something lasting is known. *)
Lemma safe_for_each {A} (P : A → Spec → Prop) (f : A → prog (option error)) l sp :
  (∀ x sp sp', later sp sp' → P x sp → P x sp') →
  (∀ x sp', later sp sp' → P x sp' → safe any (f x) sp') →
  Forall (λ x, P x sp) l → safe any (for_each f l) sp.
Proof.
  intros HP. revert sp. induction l as [|x l IH]; simpl; intros sp Hf Hl; [done|].
  apply Forall_cons in Hl as [Hx Hl]. apply safe_bind_any; [by apply Hf; [reflexivity|]|].
  intros [e|] sp' Hlat; [done|]. apply IH.
  - intros y sp'' Hlat'. apply Hf. by etrans.
  - eapply Forall_impl; [exact Hl|]. intros y. by apply HP.
Qed.

(** ** The worker's programs *)

(** [safe_tac]: walk through the actions of a program. *)
Ltac safe_tac :=
  repeat first
  [ done
  | apply safe_unless
  | apply safe_act; [by simpl; eauto with rb|];
    let r := fresh "ans" in let s := fresh "spn" in let L := fresh "Lat" in let P := fresh "Pl" in
    intros r s L P
  | apply safe_on_result;
    [let e := fresh "er" in intros e|let v := fresh "val" in let E := fresh "Ev" in intros v E] ].

(** [ctx_tac]: the [ctx.Err()] check programs begin with. *)
Ltac ctx_tac :=
  apply safe_act; [done|];
  let r := fresh "ctx" in let s := fresh "spc" in let L := fresh "Lat" in intros r s L _;
  apply safe_unless.

Lemma request_headers_key order key attemptID :
  request_headers order key attemptID !! HeaderIdempotencyKey = Some [key].
Proof.
  unfold request_headers, Header_Set.
  change (CanonicalMIMEHeaderKey HeaderAttemptID) with HeaderAttemptID.
  change (CanonicalMIMEHeaderKey HeaderIdempotencyKey) with HeaderIdempotencyKey.
  rewrite lookup_insert_ne by done. apply lookup_insert_eq.
Qed.

Lemma settle_safe wrap v (p : prog (option error)) sp :
  (asCommandError v = None → safe any p sp) → safe any (settle wrap v p) sp.
Proof. unfold settle. intros Hp. destruct (asCommandError v); [by case_bool_decide|auto]. Qed.

Lemma propose_complete_safe t e st o sp :
  (st = ExecutionStatusSucceeded ∧ recorded sp t e OutcomeSuccess)
  ∨ (st = ExecutionStatusFailedTerminal ∧ recorded sp t e OutcomeTerminalFailure) →
  safe any (propose_complete t e st o) sp.
Proof. intros H. apply safe_act; [exact H|]. intros. safe_tac. by apply settle_safe. Qed.

Section worker.
Context `{PF : !Platform}.

(** The outcome is one of three, so what is not retried is final. *)
Lemma classify_cases status doErr n m :
  classifyAttemptOutcome status doErr n m ∈ [OutcomeSuccess; OutcomeTerminalFailure; OutcomeRetry].
Proof. unfold classifyAttemptOutcome. repeat case_match; set_solver. Qed.

Lemma attempt_outcome exec schedule nodeID attemptID n st ct resp doErr :
  (attempt_command exec schedule nodeID attemptID n st ct resp doErr).(RecordAttemptCommand.Outcome)
  ∈ [OutcomeSuccess; OutcomeTerminalFailure; OutcomeRetry].
Proof. apply classify_cases. Qed.

(** A final status says what a final outcome says. *)
Lemma final_status_justified sp t e o :
  o ∈ [OutcomeSuccess; OutcomeTerminalFailure; OutcomeRetry] → o ≠ OutcomeRetry → recorded sp t e o →
  (finalStatus o = ExecutionStatusSucceeded ∧ recorded sp t e OutcomeSuccess)
  ∨ (finalStatus o = ExecutionStatusFailedTerminal ∧ recorded sp t e OutcomeTerminalFailure).
Proof.
  intros Hin Ho Hr. repeat (apply elem_of_cons in Hin as [->|Hin]); [by left|by right|done|].
  by apply not_elem_of_nil in Hin.
Qed.

Lemma dispatch_safe exec schedule nodeID dflt n sp :
  known sp exec → safe any (dispatch exec schedule nodeID dflt n) sp.
Proof.
  intros Hk. unfold dispatch. safe_tac. apply safe_act.
  { exists exec. split; [by eauto 8 with rb|]. apply request_headers_key. }
  intros [resp doErr] sp5 L5 _. case_match; [safe_tac|]. apply safe_act; [done|].
  intros completedAt sp6 L6 _. apply safe_act; [done|]. intros r sp7 L7 Hr.
  apply safe_on_result; [done|]. intros v ->. specialize (Hr v eq_refl).
  apply settle_safe. intros Hno. destruct v as [| | |a|]; try done. simpl in Hr.
  apply safe_act; [done|]. intros err sp8 L8 _. apply safe_unless.
  case_bool_decide as Hout; [|done]. apply propose_complete_safe.
  apply final_status_justified; [apply attempt_outcome|done|by eapply recorded_later].
Qed.

Lemma with_active_schedule_safe exec go sp :
  known sp exec → (∀ s sp', later sp sp' → safe any (go s) sp') →
  safe any (with_active_schedule exec go) sp.
Proof.
  intros Hk Hgo. unfold with_active_schedule. apply safe_act; [by apply Hk|]. intros r sp1 L1 _.
  apply safe_on_result; [done|]. intros [s|] _; [|done]. case_bool_decide; [done|by apply Hgo].
Qed.

Lemma task_safe t sp : task_ok sp t → safe any (task_run t) sp.
Proof.
  destruct t as [t|t]; cbn [task_ok task_run].
  - intros Hk. unfold freshFireTask_run. ctx_tac. apply with_active_schedule_safe; [by eauto with rb|].
    intros. apply dispatch_safe. eauto with rb.
  - intros [Hk Hkind]. unfold inFlightTask_run. ctx_tac.
    case_bool_decide; [|case_bool_decide; [done|case_bool_decide; [|done]]].
    + apply with_active_schedule_safe; [by eauto with rb|]. intros. apply dispatch_safe. eauto with rb.
    + unfold runFinalize. apply safe_act; [split; by apply Hk|]. intros r sp1 L1 Hr.
      apply safe_on_result; [done|]. intros l ->. specialize (Hr l eq_refl).
      destruct (last l) as [a|] eqn:El; [|done]. apply last_Some_elem_of in El.
      rewrite Forall_forall in Hr. specialize (Hr _ El).
      case_bool_decide as Hs; [|case_bool_decide as Hf; [|done]]; apply propose_complete_safe;
        [left|right]; (split; [done|]); [rewrite <- Hs|rewrite <- Hf]; done.
Qed.

Lemma runTask_safe t sp : task_ok sp t → safe any (runTask t) sp.
Proof. intros Ht. apply safe_bind_any; [by apply task_safe|done]. Qed.

Context (w : Worker).

Lemma classifyOne_outcome attempts now b :
  classifyOne attempts now = Ok b →
  (b = BucketSuccess → ∃ a, a ∈ attempts ∧ a.(Attempt.Outcome) = OutcomeSuccess)
  ∧ (b = BucketTerminalFailure → ∃ a, a ∈ attempts ∧ a.(Attempt.Outcome) = OutcomeTerminalFailure).
Proof.
  unfold classifyOne. destruct (last attempts) as [a|] eqn:El; [|by intros [= <-]].
  apply last_Some_elem_of in El.
  repeat case_bool_decide; repeat case_match; intros [= <-]; split; intros; eauto; done.
Qed.

Lemma recover_execution_safe tenant exec sp :
  no_colon tenant.(Tenant.ID) = true → known sp exec →
  safe any (recover_execution w tenant exec) sp.
Proof.
  intros Ht Hk. unfold recover_execution. ctx_tac.
  apply safe_act; [split; [done|by apply Hk]|]. intros r sp2 L2 Hr. apply safe_on_result; [done|].
  intros l ->. specialize (Hr l eq_refl). apply safe_act; [done|]. intros now sp3 L3 _.
  apply safe_on_result; [done|]. intros b [Hs Hf]%classifyOne_outcome.
  rewrite Forall_forall in Hr. apply safe_bind_any; [|by intros [e|]].
  unfold adoptOrComplete. ctx_tac. case_bool_decide.
  { case_bool_decide; [done|]. apply safe_act; [done|]. intros. apply safe_on_result; [done|].
    intros. by apply settle_safe. }
  case_bool_decide as Hb; [|case_bool_decide as Hb'; [|done]]; apply propose_complete_safe.
  - destruct (Hs Hb) as (a & Ha & Ho). left. split; [done|]. rewrite <- Ho.
    eapply recorded_later; [|by apply Hr]. by etrans.
  - destruct (Hf Hb') as (a & Ha & Ho). right. split; [done|]. rewrite <- Ho.
    eapply recorded_later; [|by apply Hr]. by etrans.
Qed.

Lemma runRecover_safe sp : safe any (runRecover w) sp.
Proof.
  unfold runRecover. apply safe_act; [done|]. intros r sp1 L1 Hr. apply safe_on_result; [done|].
  intros tenants ->. specialize (Hr _ eq_refl).
  apply (safe_for_each (λ t _, no_colon t.(Tenant.ID) = true)); [done| |done].
  intros tenant sp2 L2 Ht. unfold recover_tenant. ctx_tac.
  apply safe_act; [done|]. intros r4 sp4 L4 Hr4. apply safe_on_result; [done|]. intros l ->.
  specialize (Hr4 _ eq_refl). apply (safe_for_each (λ e sp, known sp e)); [by eauto with rb| |].
  - intros. by apply recover_execution_safe.
  - eapply Forall_impl; [exact Hr4|]. by intros e [? _].
Qed.

Lemma tick_schedule_safe tenant s sp : safe any (tick_schedule w tenant s) sp.
Proof.
  unfold tick_schedule. ctx_tac. destruct (Schedule.NextRunAt s); [|done]. safe_tac.
  match goal with H : plausible (APropose _) _ _ |- _ => rename H into Hr end.
  specialize (Hr _ Ev). by destruct val.
Qed.

Lemma tick_execution_safe tenant e sp :
  no_colon tenant.(Tenant.ID) = true → known sp e → safe any (tick_execution w tenant e) sp.
Proof.
  intros Ht Hk. unfold tick_execution. ctx_tac. case_bool_decide.
  { apply safe_act; [|done]. split; [by eauto with rb|done]. }
  destruct (Execution.LastRetryAt e); [|done]. safe_tac. case_match; [done|]. by safe_tac.
Qed.

Lemma runTick_safe sp : safe any (runTick w) sp.
Proof.
  unfold runTick. apply safe_act; [done|]. intros r sp1 L1 Hr. apply safe_on_result; [done|].
  intros tenants ->. specialize (Hr _ eq_refl). apply safe_bind_any; [|by intros [e|]].
  apply (safe_for_each (λ t _, no_colon t.(Tenant.ID) = true)); [done| |done].
  intros tenant sp2 L2 Ht. unfold tick_tenant. ctx_tac. apply safe_act; [done|].
  intros r4 sp4 L4 _. apply safe_on_result; [done|]. intros schedules _. apply safe_bind_any.
  { apply (safe_for_each (λ _ _, True)); [done| |by apply Forall_true].
    intros. apply tick_schedule_safe. }
  intros err sp5 L5. apply safe_unless, safe_act; [done|]. intros r6 sp6 L6 Hr6.
  apply safe_on_result; [done|]. intros l ->. specialize (Hr6 _ eq_refl).
  apply (safe_for_each (λ e sp, known sp e)); [by eauto with rb| |].
  - intros. by apply tick_execution_safe.
  - eapply Forall_impl; [exact Hr6|]. by intros e [? _].
Qed.

Lemma steadyState_safe fuel sp : safe any (steadyState w fuel) sp.
Proof.
  revert sp. induction fuel as [|fuel IH]; intros sp; [done|]. cbn [steadyState].
  apply safe_act; [done|]. intros [] sp1 L1 _; [|by apply safe_act].
  apply safe_bind_any; [apply runTick_safe|]. by intros [e|].
Qed.

Lemma Run_safe fuel sp : safe any (Run w fuel) sp.
Proof.
  apply safe_bind_any; [apply runRecover_safe|]. intros [e|] sp1 L1; [done|].
  apply safe_bind_any; [apply steadyState_safe|]. intros [|err] sp2 L2; [done|]. by apply safe_act.
Qed.
End worker.
