(* ===== verification/Cluster.v ===== *)
(** * Cluster: workers, clients and the replicated log, interleaved

    Any number of nodes run workers, each worker a main goroutine, a queue and a
    pool; clients propose commands through the API; raft decides which
    proposals commit and when.  A step of the cluster is one action of one
    goroutine, one client command, one proposal that commits after its proposer
    gave up, or a worker that starts or dies.  A read may see any past state of
    the replicated store; a proposal that fails may still commit later.

    Invariants of every reachable cluster: an execution is completed only as
    a recorded attempt says, and every callback carries the key of an execution
    that exists. *)

From S2P Require Import Prelude Go GoTime GoFloat Model RecurrenceCalc Bolt Json Storage Command.
From S2P Require Import Dispatch StateMachine RaftNode Spec Lifecycle Invariants Refinement RefinementScan.
From S2P Require Import RefinementTx CommandRefinement Replica Attempts Sha256 Prog Worker WorkerSafe.
Open Scope Z_scope.

Section cluster.
Context `{PF : !Platform, CC : !CommandCodec, B : !Bolt, BL : !BoltLaws B, J : !Json, JL : !JsonLaws J}.

(** ** State *)

(** A worker: its main goroutine, the queued tasks and the running ones. *)
Record instance := mkInstance {
  in_worker : Worker;
  in_main : prog run_end;
  in_queue : list Task;
  in_running : list (prog unit)
}.

(** What all nodes share: the replicated store with its past states, proposals
    that may still commit, and the callbacks made so far. *)
Record shared := mkShared {
  sh_now : DB;
  sh_past : list DB;
  sh_pending : list command;
  sh_calls : list Request
}.

Record cluster := mkCluster { cl_shared : shared; cl_workers : list instance }.

(** ** Commits *)

(** The identifier a command introduces is new: identifiers are ULIDs. *)
Definition unused (c : command) (d : DB) : Prop :=
  match c with
  | claim_execution c =>
      View (GetExecution c.(ClaimExecutionCommand.TenantID) c.(ClaimExecutionCommand.ID)) d = Ok None
  | record_attempt c =>
      View (GetAttempt c.(RecordAttemptCommand.TenantID) c.(RecordAttemptCommand.ID)) d = Ok None
  | _ => True
  end.

(** What a command must be for the composite keys and JSON to carry it. *)
Definition acceptable (c : command) (at_ : Time) (d : DB) : Prop :=
  clean c ∧ time_clean at_ = true ∧ ids_good c ∧ unused c d
  ∧ match c with create_tenant c => no_colon c.(CreateTenantCommand.ID) = true | _ => True end.

(** The command commits, the replicas apply it and answer [v]. *)
Definition commits (c : command) (v : reply) (s s' : shared) : Prop :=
  ∃ e at_ d', entry_command e = Some (c, at_) ∧ acceptable c at_ (sh_now s)
    ∧ apply_db e (sh_now s) = (Ok v, d')
    ∧ s' = mkShared d' (sh_now s :: sh_past s) (sh_pending s) (sh_calls s).

(** ** What surrounds a goroutine *)

(** The reads of [scheduler.Reader], as raftnode.go makes them. *)
Definition reads_as (d : DB) (a : action) : answer a → Prop :=
  match a with
  | AListTenants => λ r, r = View ListTenants d
  | AListSchedulesDue t => λ r, ∃ now, r = View (collected (ListSchedulesDue t now collect [])) d
  | AGetSchedule t i => λ r, r = View (GetSchedule t i) d
  | AListExecutionsByStatus t s => λ r, r = View (collected (ListExecutionsByStatus t s collect [])) d
  | AListAttemptsByExecution t e => λ r, r = View (collected (ListAttemptsByExecution t e collect [])) d
  | _ => λ _, False
  end.

(** A failed read answers nothing. *)
Definition failed {A} (r : result A) : Prop := ∀ a, r ≠ Ok a.

Definition env (a : action) : answer a → shared → shared → Prop :=
  match a with
  | ACtxErr | ANow | AULID | ANewRequest _ | ASelectTick => λ _ s s', s' = s
  | AListTenants => λ r s s', s' = s ∧
      (failed r ∨ ∃ d, d ∈ sh_now s :: sh_past s ∧ reads_as d AListTenants r)
  | AListSchedulesDue t => λ r s s', s' = s ∧
      (failed r ∨ ∃ d, d ∈ sh_now s :: sh_past s ∧ reads_as d (AListSchedulesDue t) r)
  | AGetSchedule t i => λ r s s', s' = s ∧
      (failed r ∨ ∃ d, d ∈ sh_now s :: sh_past s ∧ reads_as d (AGetSchedule t i) r)
  | AListExecutionsByStatus t st => λ r s s', s' = s ∧
      (failed r ∨ ∃ d, d ∈ sh_now s :: sh_past s ∧ reads_as d (AListExecutionsByStatus t st) r)
  | AListAttemptsByExecution t e => λ r s s', s' = s ∧
      (failed r ∨ ∃ d, d ∈ sh_now s :: sh_past s ∧ reads_as d (AListAttemptsByExecution t e) r)
  | APropose c => λ r s s',
      (∃ v, r = Ok v ∧ commits c v s s')
      ∨ (failed r ∧ (s' = s ∨ s' = mkShared (sh_now s) (sh_past s) (c :: sh_pending s) (sh_calls s)))
  | ARange m => λ r s s', s' = s ∧ r ≡ₚ map_to_list m
  | ADo _ req => λ _ s s', s' = mkShared (sh_now s) (sh_past s) (sh_pending s) (req :: sh_calls s)
  | AEnqueue _ | AWaitTasks | AClosePool => λ _ _ _, False
  end.

(** ** Steps *)

Inductive worker_step (s : shared) (i : instance) : shared → instance → Prop :=
| ws_main a k r s' :
    in_main i = Act a k → env a r s s' →
    worker_step s i s' (mkInstance (in_worker i) (k r) (in_queue i) (in_running i))
| ws_enqueue t k :
    in_main i = Act (AEnqueue t) k → (length (in_queue i) < taskChCapacity)%nat →
    worker_step s i s (mkInstance (in_worker i) (k tt) (in_queue i ++ [t]) (in_running i))
| ws_wait k :
    in_main i = Act AWaitTasks k → in_queue i = [] → in_running i = [] →
    worker_step s i s (mkInstance (in_worker i) (k tt) [] [])
| ws_close k :
    in_main i = Act AClosePool k → in_queue i = [] → in_running i = [] →
    worker_step s i s (mkInstance (in_worker i) (k tt) [] [])
| ws_start t q :
    in_queue i = t :: q → (length (in_running i) < w_poolSize (in_worker i))%nat →
    worker_step s i s (mkInstance (in_worker i) (in_main i) q (runTask t :: in_running i))
| ws_task l1 a k l2 r s' :
    in_running i = l1 ++ Act a k :: l2 → env a r s s' →
    worker_step s i s' (mkInstance (in_worker i) (in_main i) (in_queue i) (l1 ++ k r :: l2))
| ws_done l1 l2 :
    in_running i = l1 ++ Ret () :: l2 →
    worker_step s i s (mkInstance (in_worker i) (in_main i) (in_queue i) (l1 ++ l2)).

(** The commands clients can propose: none of an execution's. *)
Definition client_command (c : command) : bool :=
  match c with
  | claim_execution _ | adopt_execution _ | record_attempt _ | complete_execution _
  | fail_execution_timeout _ => false
  | _ => true
  end.

Inductive cluster_step : cluster → cluster → Prop :=
| cs_worker s i ws1 ws2 s' i' :
    worker_step s i s' i' →
    cluster_step (mkCluster s (ws1 ++ i :: ws2)) (mkCluster s' (ws1 ++ i' :: ws2))
| cs_start s ws id fuel :
    cluster_step (mkCluster s ws)
      (mkCluster s (mkInstance (NewWorker id) (Run (NewWorker id) fuel) [] [] :: ws))
| cs_stop s ws1 i ws2 :
    cluster_step (mkCluster s (ws1 ++ i :: ws2)) (mkCluster s (ws1 ++ ws2))
| cs_late d past p1 c p2 calls ws v s' :
    commits c v (mkShared d past (p1 ++ p2) calls) s' →
    cluster_step (mkCluster (mkShared d past (p1 ++ c :: p2) calls) ws) (mkCluster s' ws)
| cs_client s ws c v s' :
    client_command c = true → commits c v s s' →
    cluster_step (mkCluster s ws) (mkCluster s' ws).

Definition initial : cluster := mkCluster (mkShared emptyDB [] [] []) [].

(** ** The invariant *)

(** Completed executions are backed by attempts; none has timed out. *)
Definition earned (sp : Spec) : Prop :=
  ∀ t i e, sp_executions sp !! (t, i) = Some e →
    (e.(Execution.Status) = ExecutionStatusSucceeded → recorded sp t i OutcomeSuccess)
    ∧ (e.(Execution.Status) = ExecutionStatusFailedTerminal → recorded sp t i OutcomeTerminalFailure)
    ∧ e.(Execution.Status) ≠ ExecutionStatusFailedMaxRetries.

Definition names_ok (sp : Spec) : Prop := ∀ i t, sp_tenants sp !! i = Some t → no_colon i = true.

(** [sp] is what [d] holds. *)
Record holds (d : DB) (sp : Spec) : Prop := {
  ho_R : R d sp;
  ho_inv : inv sp;
  ho_names : names_ok sp
}.

Record shared_inv (s : shared) (sp : Spec) : Prop := {
  si_now : holds (sh_now s) sp;
  si_past : Forall (λ d, ∃ sp', holds d sp' ∧ later sp' sp) (sh_past s);
  si_earned : earned sp;
  si_pending : Forall (λ c, justified c sp) (sh_pending s);
  si_calls : Forall (carries_key sp) (sh_calls s)
}.

Definition instance_ok (sp : Spec) (i : instance) : Prop :=
  safe any (in_main i) sp ∧ Forall (task_ok sp) (in_queue i)
  ∧ Forall (λ p, safe any p sp) (in_running i).

Definition cluster_inv (cl : cluster) : Prop :=
  ∃ sp, shared_inv (cl_shared cl) sp ∧ Forall (instance_ok sp) (cl_workers cl).

(** *** One step of the store *)

Lemma step_names at_ c sp r sp' :
  spec_step at_ c sp r sp' → names_ok sp →
  match c with create_tenant c => no_colon c.(CreateTenantCommand.ID) = true | _ => True end →
  names_ok sp'.
Proof.
  intros Hstep Hn Hc. step_cases Hstep; try exact Hn. simpl in *.
  intros i t Ht. simpl in Ht. apply lookup_insert_Some in Ht as [[<- _]|[_ Ht]]; [done|by eapply Hn].
Qed.

(** Only a completion makes an execution terminal, as it says. *)
Lemma step_status at_ c sp r sp' p x' :
  spec_step at_ c sp r sp' → inv sp → sp_executions sp' !! p = Some x' →
  (∃ x, sp_executions sp !! p = Some x ∧ x'.(Execution.Status) = x.(Execution.Status))
  ∨ x'.(Execution.Status) = ExecutionStatusInFlight
  ∨ (∃ cc, c = complete_execution cc
       ∧ p = (cc.(CompleteExecutionCommand.TenantID), cc.(CompleteExecutionCommand.ExecutionID))
       ∧ x'.(Execution.Status) = cc.(CompleteExecutionCommand.FinalStatus))
  ∨ (∃ cc, c = fail_execution_timeout cc).
Proof.
  intros Hstep Hinv Hp'.
  step_cases Hstep; try (left; by eauto); simpl in Hp';
    try (apply lookup_insert_Some in Hp' as [[<- <-]|[_ Hp']]; [|left; by eauto]); simpl; eauto 8.
  right. right. left. eexists. split; [done|]. split; [|done]. symmetry. by eapply inv_exec_key.
Qed.

Lemma step_earned at_ c sp r sp' :
  spec_step at_ c sp r sp' → inv sp → id_unused c sp → justified c sp → earned sp → earned sp'.
Proof.
  intros Hstep Hinv Hnew Hj He t i e' Hp'. pose proof (step_later _ _ _ _ _ Hstep Hinv Hnew) as Hl.
  destruct (step_status _ _ _ _ _ _ _ Hstep Hinv Hp')
    as [(e & Hp & Hst)|[Hst|[(cc & -> & [= -> ->] & Hst)|(cc & ->)]]]; [| | |done].
  - rewrite Hst. destruct (He _ _ _ Hp) as (H1 & H2 & H3). split; [|split; [|done]]; eauto with rb.
  - by rewrite Hst.
  - rewrite Hst. destruct Hj as [[-> Hr]|[-> Hr]]; (split; [|split]); try done; eauto with rb.
Qed.

Lemma unused_R c d sp : R d sp → ids_good c → unused c d → id_unused c sp.
Proof.
  intros HR Hg Hu. destruct c; simpl in *; try done; unfold View in Hu.
  - rewrite (GetExecution_R d sp) in Hu by (done || apply Hg). by injection Hu.
  - rewrite (GetAttempt_R d sp) in Hu by (done || apply Hg). by injection Hu.
Qed.

Lemma unused_fresh c sp : id_unused c sp → ids_fresh c sp.
Proof. destruct c; simpl; try done; intros H old Ho; congruence. Qed.

(** What the reply of a successful command says of the new state. *)
Lemma step_committed at_ c sp r sp' :
  spec_step at_ c sp r sp' → wf sp' → committed c r sp'.
Proof.
  intros Hstep Hwf. step_cases Hstep; try done.
  - assert (sp_executions (with_execution e' sp)
      !! (Execution.TenantID e', Execution.ID e') = Some e') as He by apply lookup_insert_eq.
    destruct (wf_executions _ Hwf _ _ He) as [_ Hok]. split; [by apply Hok|]. split; [by apply Hok|].
    eauto using exec_evolves_refl.
  - simpl. exists a, (RecordAttemptCommand.ID c). simpl. by rewrite lookup_insert_eq.
Qed.

Lemma rejected_committed c ce sp : committed c (RRejected ce) sp.
Proof. by destruct c. Qed.

(** *** Commits, answers, goroutines *)

Lemma commits_inv c v s s' sp :
  shared_inv s sp → justified c sp → commits c v s s' →
  ∃ sp', later sp sp' ∧ shared_inv s' sp' ∧ committed c v sp'.
Proof.
  intros [[HR Hinv Hn] Hpast Hear Hpend Hcalls] Hj (e & at_ & d' & He & Hacc & Happ & ->).
  destruct Hacc as (Hcl & Htc & Hg & Hu & Hname).
  pose proof (unused_R _ _ _ HR Hg Hu) as Hnew.
  assert (entry_admissible e sp) as Had.
  { unfold entry_admissible. rewrite He. split; [done..|by apply unused_fresh]. }
  destruct (apply_agree e _ sp HR Had) as [H1 H2]. rewrite Happ in H1, H2. simpl in H1, H2.
  destruct (apply_db e sp) as [r sp'] eqn:Esp. simpl in *. subst r. exists sp'.
  pose proof (apply_spec_inv e sp Hinv) as Hinv'. rewrite Esp in Hinv'.
  assert (later sp sp' ∧ names_ok sp' ∧ earned sp' ∧ committed c v sp') as (Hl & Hn' & He' & Hc).
  { destruct (apply_answered _ _ _ _ _ _ He Esp) as [Hs|[[ce ->] ->]].
    - split; [by eapply step_later|]. split; [by eapply step_names|].
      split; [by eapply step_earned|]. eapply step_committed; [done|apply (R_wf _ _ H2)].
    - split; [reflexivity|]. split; [done|]. split; [done|]. apply rejected_committed. }
  split; [done|]. split; [|done]. split; simpl; try done.
  - apply Forall_cons. split; [by exists sp|]. eapply Forall_impl; [exact Hpast|].
    intros d (sp0 & ? & ?). exists sp0. split; [done|]. by etrans.
  - eapply Forall_impl; [exact Hpend|]. intros c0. by apply justified_later.
  - eapply Forall_impl; [exact Hcalls|]. intros c0. by apply carries_key_later.
Qed.

Lemma reads_plausible a r d sp :
  holds d sp → permitted a sp → reads_as d a r → plausible a r sp.
Proof.
  intros [HR Hinv Hn] Hp Hr. pose proof (R_wf _ _ HR) as Hwf. destruct a; simpl in *; try done.
  - rewrite Hr. unfold View. change (ListTenants d) with (bolt_ListTenants d). rewrite (ListTenants_R d sp HR). simpl. intros l [= <-].
    apply Forall_forall. intros t Ht%elem_of_all_tenants; [|done]. by eapply Hn.
  - subst r. destruct Hp as [Ht Hs].
    erewrite collected_rows by (simpl; by apply ListExecutionsByStatus_R). intros l [= <-].
    apply Forall_forall. intros e [Hin [p Hp]]%elem_of_rows_where. unfold in_status in Hin. bool_hyps.
    destruct (wf_executions _ Hwf _ _ Hp) as [-> Hok]. split; [|done].
    split; [by apply Hok|]. split; [by apply Hok|]. eauto using exec_evolves_refl.
  - subst r. destruct Hp as [Ht Hs].
    erewrite collected_rows by (simpl; by apply ListAttemptsByExecution_R). intros l [= <-].
    apply Forall_forall. intros a [Hin [p Hp]]%elem_of_rows_where. unfold of_execution in Hin. bool_hyps.
    destruct (wf_attempts _ Hwf _ _ Hp) as [-> Hok]. subst. by exists a, (Attempt.ID a).
Qed.

Lemma plausible_later a r sp sp' : later sp sp' → plausible a r sp → plausible a r sp'.
Proof.
  intros Hl. destruct a; simpl; try done.
  - intros H l ->. eapply Forall_impl; [by apply H|]. intros e (? & ? & ?). eauto with rb.
  - intros H l ->. eapply Forall_impl; [by apply H|]. intros x. simpl. eauto with rb.
  - intros H v ->. specialize (H v eq_refl). destruct c, v; simpl in *; eauto with rb.
Qed.

Lemma permitted_read a r d sp : reads_as d a r → ∀ sp', permitted a sp → permitted a sp'.
Proof. by destruct a. Qed.

(** A read of a past state says what still holds. *)
Lemma read_inv a r s sp :
  shared_inv s sp → permitted a sp →
  (∃ d, d ∈ sh_now s :: sh_past s ∧ reads_as d a r) → plausible a r sp.
Proof.
  intros [Hnow Hpast _ _ _] Hp (d & Hd & Hr). apply elem_of_cons in Hd as [->|Hd].
  - by eapply reads_plausible.
  - rewrite Forall_forall in Hpast. destruct (Hpast _ Hd) as (sp0 & H0 & Hl).
    eapply plausible_later; [exact Hl|]. eapply reads_plausible; [done| |done].
    by eapply permitted_read.
Qed.

Lemma failed_plausible a r sp :
  match a return answer a → Prop with
  | AListTenants => λ r, failed r
  | AListSchedulesDue _ => λ r, failed r
  | AGetSchedule _ _ => λ r, failed r
  | AListExecutionsByStatus _ _ => λ r, failed r
  | AListAttemptsByExecution _ _ => λ r, failed r
  | APropose _ => λ r, failed r
  | _ => λ _, False
  end r → plausible a r sp.
Proof. destruct a; simpl; try done; intros Hf l ->; by destruct (Hf l). Qed.

Lemma env_inv a r s s' sp :
  shared_inv s sp → permitted a sp → env a r s s' →
  ∃ sp', later sp sp' ∧ shared_inv s' sp' ∧ plausible a r sp'.
Proof.
  intros Hsi Hp Henv.
  destruct a; simpl in Henv; try done;
    try (subst s'; exists sp; split; [reflexivity|]; by split);
    try (destruct Henv as [-> [Hf|Hr]]; exists sp; (split; [reflexivity|]); (split; [done|]);
         [by apply failed_plausible|by eapply (read_inv _ _ s)]).
  - destruct Henv as [(v & -> & Hc)|[Hf [-> | ->]]].
    + destruct (commits_inv _ _ _ _ _ Hsi Hp Hc) as (sp' & ? & ? & ?). exists sp'.
      split; [done|]. split; [done|]. by intros ? [= <-].
    + exists sp. split; [reflexivity|]. split; [done|]. by apply failed_plausible.
    + exists sp. split; [reflexivity|]. split; [|by apply failed_plausible].
      destruct Hsi. split; simpl; try done. by apply Forall_cons.
  - destruct Henv as [-> Hr]. exists sp. split; [reflexivity|]. by split.
  - subst s'. exists sp. split; [reflexivity|]. split; [|done].
    destruct Hsi. split; simpl; try done. by apply Forall_cons.
Qed.

Lemma instance_later sp sp' i : later sp sp' → instance_ok sp i → instance_ok sp' i.
Proof.
  intros Hl (Hm & Hq & Hr). split; [by eapply safe_later|]. split.
  - eapply Forall_impl; [exact Hq|]. intros t. by apply task_ok_later.
  - eapply Forall_impl; [exact Hr|]. intros p. by apply safe_later.
Qed.

Lemma safe_continues {A} a (k : answer a → prog A) r sp sp' :
  safe any (Act a k) sp → later sp sp' → plausible a r sp' → safe any (k r) sp'.
Proof. intros [_ Hk] Hl Hr. by apply (Hk r sp'). Qed.

Lemma worker_step_inv s i s' i' sp :
  shared_inv s sp → instance_ok sp i → worker_step s i s' i' →
  ∃ sp', later sp sp' ∧ shared_inv s' sp' ∧ instance_ok sp' i'.
Proof.
  intros Hsi Hok Hstep. pose proof Hok as (Hm & Hq & Hr).
  destruct Hstep as [a k r s' E Henv|t k E _|k E Eq Er|k E Eq Er|t q E _|l1 a k l2 r s' E Henv|l1 l2 E].
  - rewrite E in Hm. destruct (env_inv _ _ _ _ _ Hsi (proj1 Hm) Henv) as (sp' & Hl & Hs' & Hpl).
    exists sp'. split; [done|]. split; [done|].
    destruct (instance_later _ _ _ Hl Hok) as (_ & ? & ?).
    split; [exact (safe_continues _ _ _ _ _ Hm Hl Hpl)|done].
  - rewrite E in Hm. exists sp. split; [reflexivity|]. split; [done|]. split.
    + by apply (safe_continues (AEnqueue t) k tt sp sp Hm).
    + split; [|done]. apply Forall_app. split; [done|]. apply Forall_singleton, Hm.
  - rewrite E in Hm. exists sp. split; [reflexivity|]. split; [done|].
    split; [|by split]. by eapply (safe_continues _ k tt sp sp Hm).
  - rewrite E in Hm. exists sp. split; [reflexivity|]. split; [done|].
    split; [|by split]. by eapply (safe_continues _ k tt sp sp Hm).
  - rewrite E in Hq. apply Forall_cons in Hq as [Ht Hq]. exists sp. split; [reflexivity|].
    split; [done|]. split; [done|]. split; [done|]. apply Forall_cons. split; [by apply runTask_safe|done].
  - rewrite E in Hr. apply Forall_app in Hr as [Hr1 Hr2]. apply Forall_cons in Hr2 as [Ha Hr2].
    destruct (env_inv _ _ _ _ _ Hsi (proj1 Ha) Henv) as (sp' & Hl & Hs' & Hpl).
    exists sp'. split; [done|]. split; [done|].
    destruct (instance_later _ _ _ Hl Hok) as (? & ? & Hr'). split; [done|]. split; [done|].
    rewrite E in Hr'. simpl. apply Forall_app in Hr' as [? Hr']. apply Forall_cons in Hr' as [_ ?].
    apply Forall_app. split; [done|]. apply Forall_cons. split; [exact (safe_continues _ _ _ _ _ Ha Hl Hpl)|done].
  - rewrite E in Hr. apply Forall_app in Hr as [? Hr]. apply Forall_cons in Hr as [_ ?].
    exists sp. split; [reflexivity|]. split; [done|]. split; [done|]. split; [done|]. by apply Forall_app.
Qed.

Lemma client_justified c sp : client_command c = true → justified c sp.
Proof. by destruct c. Qed.

Lemma instances_later sp sp' ws : later sp sp' → Forall (instance_ok sp) ws → Forall (instance_ok sp') ws.
Proof. intros Hl Hw. eapply Forall_impl; [exact Hw|]. intros i. by apply instance_later. Qed.

Lemma cluster_step_inv cl cl' : cluster_step cl cl' → cluster_inv cl → cluster_inv cl'.
Proof.
  intros Hstep (sp & Hsi & Hw).
  destruct Hstep as [s i ws1 ws2 s' i' Hs|s ws id fuel|s ws1 i ws2|d past p1 c p2 calls ws v s' Hc
    |s ws c v s' Hcl Hc]; simpl in *.
  - apply Forall_app in Hw as [Hw1 Hw2]. apply Forall_cons in Hw2 as [Hi Hw2].
    destruct (worker_step_inv _ _ _ _ _ Hsi Hi Hs) as (sp' & Hl & Hsi' & Hi').
    exists sp'. split; [done|]. simpl. apply Forall_app. split; [by eapply instances_later|].
    apply Forall_cons. split; [done|by eapply instances_later].
  - exists sp. split; [done|]. simpl. apply Forall_cons. split; [|done]. split; [apply Run_safe|].
    split; by apply Forall_nil.
  - apply Forall_app in Hw as [Hw1 Hw2]. apply Forall_cons in Hw2 as [_ Hw2].
    exists sp. split; [done|]. by apply Forall_app.
  - destruct Hsi as [H1 H2 H3 Hpend H5]. simpl in *.
    apply Forall_app in Hpend as [Hp1 Hp2]. apply Forall_cons in Hp2 as [Hj Hp2].
    assert (shared_inv (mkShared d past (p1 ++ p2) calls) sp) as Hsi.
    { split; try done. by apply Forall_app. }
    destruct (commits_inv _ _ _ _ _ Hsi Hj Hc) as (sp' & Hl & Hsi' & _).
    exists sp'. split; [done|]. by eapply instances_later.
  - destruct (commits_inv _ _ _ _ _ Hsi (client_justified _ _ Hcl) Hc) as (sp' & Hl & Hsi' & _).
    exists sp'. split; [done|]. by eapply instances_later.
Qed.

Lemma initial_inv : cluster_inv initial.
Proof.
  exists emptySpec. split; [|by apply Forall_nil]. split; try by apply Forall_nil.
  - split; [apply R_empty|apply inv_empty|]. intros i t Ht. simpl in Ht. by rewrite lookup_empty in Ht.
  - intros t i e He. simpl in He. by rewrite lookup_empty in He.
Qed.

Lemma reachable_inv cl : rtc cluster_step initial cl → cluster_inv cl.
Proof.
  intros Hr. eapply (rtc_ind_r cluster_inv initial); [apply initial_inv| |done].
  intros x y _ Hs Hx. by eapply cluster_step_inv.
Qed.
End cluster.
