(* ===== verification/Quiet.v ===== *)
(** * Quiet: a worker alone

    The worker's programs run on a store nobody else changes: contexts are not
    canceled, reads see the store, proposals commit at once, queued tasks run
    one after the other when the worker waits for them.  What recovery, a
    dispatch and a tick achieve is stated on such runs. *)

From S2P Require Import Prelude Go GoTime GoFloat Model RecurrenceCalc Json Storage Command Dispatch.
From S2P Require Import StateMachine RaftNode Spec Lifecycle Invariants Refinement RefinementScan RefinementTx.
From S2P Require Import Attempts Sha256 Prog Worker WorkerSafe.
Open Scope Z_scope.

(** ** Runs *)

Record quiet (St : Type) := mkQuiet {
  q_store : St;
  q_clock : Time;
  q_ids : list string;
  q_http : Request → option Response * option DoErr;
  q_calls : list Request;
  q_queue : list Task
}.
Arguments mkQuiet {St} _ _ _ _ _ _.
Arguments q_store {St} _.
Arguments q_clock {St} _.
Arguments q_ids {St} _.
Arguments q_http {St} _.
Arguments q_calls {St} _.
Arguments q_queue {St} _.

Section run.
Context `{PF : !Platform} {St : Type} `{!Tx St}.

Definition set_store (st : St) (q : quiet St) : quiet St :=
  mkQuiet st (q_clock q) (q_ids q) (q_http q) (q_calls q) (q_queue q).
Definition set_queue (ts : list Task) (q : quiet St) : quiet St :=
  mkQuiet (q_store q) (q_clock q) (q_ids q) (q_http q) (q_calls q) ts.

(** A proposal commits at once. *)
Definition propose_now (c : command) (at_ : Time) (st : St) : result reply * St :=
  let '(r, st') := Update (run_command c at_) st in (apply_outcome r, st').

Definition respond (a : action) : quiet St → answer a * quiet St :=
  match a with
  | ACtxErr => λ q, (None, q)
  | ANow => λ q, (q_clock q, q)
  | AULID => λ q, (hd "" (q_ids q),
      mkQuiet (q_store q) (q_clock q) (tl (q_ids q)) (q_http q) (q_calls q) (q_queue q))
  | AListTenants => λ q, (View ListTenants (q_store q), q)
  | AListSchedulesDue t => λ q,
      (View (collected (ListSchedulesDue t (q_clock q) collect [])) (q_store q), q)
  | AGetSchedule t i => λ q, (View (GetSchedule t i) (q_store q), q)
  | AListExecutionsByStatus t s => λ q,
      (View (collected (ListExecutionsByStatus t s collect [])) (q_store q), q)
  | AListAttemptsByExecution t e => λ q,
      (View (collected (ListAttemptsByExecution t e collect [])) (q_store q), q)
  | APropose c => λ q,
      let '(r, st) := propose_now c (q_clock q) (q_store q) in (r, set_store st q)
  | ARange m => λ q, (map_to_list m, q)
  | ANewRequest _ => λ q, (None, q)
  | ADo _ req => λ q, (q_http q req,
      mkQuiet (q_store q) (q_clock q) (q_ids q) (q_http q) (q_calls q ++ [req]) (q_queue q))
  | AEnqueue t => λ q, (tt, set_queue (q_queue q ++ [t]) q)
  | AWaitTasks | AClosePool => λ q, (tt, q)
  | ASelectTick => λ q, (false, q)
  end.

Fixpoint run {A} (p : prog A) (q : quiet St) : A * quiet St :=
  match p with
  | Ret a => (a, q)
  | Act a k => let '(r, q') := respond a q in run (k r) q'
  end.

(** The queue is emptied, in order, before a wait goes on. *)
Definition drain (q : quiet St) : quiet St :=
  foldl (λ q t, (run (runTask t) q).2) (set_queue [] q) (q_queue q).

Fixpoint run_main {A} (p : prog A) (q : quiet St) : A * quiet St :=
  match p with
  | Ret a => (a, q)
  | Act AWaitTasks k => run_main (k tt) (drain q)
  | Act AClosePool k => run_main (k tt) (drain q)
  | Act a k => let '(r, q') := respond a q in run_main (k r) q'
  end.

Lemma run_prog_bind {A C} (p : prog A) (f : A → prog C) q :
  run (prog_bind f p) q = let '(a, q') := run p q in run (f a) q'.
Proof.
  revert q. induction p as [a|a k IH]; intros q; simpl; [done|].
  destruct (respond a q) as [r q']. apply IH.
Qed.

Lemma run_bind {A C} (p : prog A) (f : A → prog C) q :
  run (p ≫= f) q = let '(a, q') := run p q in run (f a) q'.
Proof. apply run_prog_bind. Qed.

(** Programs that neither wait for the pool nor close it. *)
Fixpoint no_wait {A} (p : prog A) : Prop :=
  match p with
  | Ret _ => True
  | Act AWaitTasks _ | Act AClosePool _ => False
  | Act _ k => ∀ r, no_wait (k r)
  end.

Lemma no_wait_bind {A C} (p : prog A) (f : A → prog C) :
  no_wait p → (∀ a, no_wait (f a)) → no_wait (p ≫= f).
Proof.
  intros Hp Hf. induction p as [a|a k IH]; simpl; [apply Hf|].
  destruct a; simpl in *; try done; intros r; by apply IH.
Qed.

Lemma no_wait_for_each {A} (f : A → prog (option error)) l :
  (∀ x, no_wait (f x)) → no_wait (for_each f l).
Proof. intros Hf. induction l; [done|]. apply no_wait_bind; [done|]. by intros [e|]. Qed.

Lemma no_wait_unless {A} e (p : prog (option A)) wrap : no_wait p → no_wait (unless e p wrap).
Proof. by destruct e. Qed.

Lemma no_wait_on_result {A C} (r : result A) (err : error → prog C) ok :
  (∀ e, no_wait (err e)) → (∀ a, no_wait (ok a)) → no_wait (on_result r err ok).
Proof. destruct r; simpl; auto. Qed.

Lemma run_main_bind {A C} (p : prog A) (f : A → prog C) q :
  no_wait p → run_main (p ≫= f) q = let '(a, q') := run p q in run_main (f a) q'.
Proof.
  revert q. induction p as [a|a k IH]; intros q Hp; [done|].
  destruct a; simpl in *; try done; try (apply IH, Hp).
  destruct (propose_now _ _ _) as [r st]. apply IH, Hp.
Qed.

(** A loop whose body leaves everything as it is. *)
Lemma run_for_each_idle {A} (f : A → prog (option error)) l q :
  (∀ x, x ∈ l → run (f x) q = (None, q)) → run (for_each f l) q = (None, q).
Proof.
  induction l as [|x l IH]; intros Hf; simpl; [done|]. rewrite run_bind, Hf by apply list_elem_of_here.
  apply IH. intros y Hy. by apply Hf, list_elem_of_further.
Qed.

Lemma run_for_each_keeps {A} (P : quiet St → Prop) (f : A → prog (option error)) l q :
  (∀ x q, x ∈ l → P q → ∃ q', run (f x) q = (None, q') ∧ P q') →
  P q → ∃ q', run (for_each f l) q = (None, q') ∧ P q'.
Proof.
  revert q. induction l as [|x l IH]; intros q Hf HP; [by exists q|].
  destruct (Hf x q) as (q1 & H1 & HP1); [apply list_elem_of_here|done|].
  cbn [for_each]. rewrite run_bind, H1. apply IH; [|done]. intros y q2 Hy. by apply Hf, list_elem_of_further.
Qed.

Lemma run_for_each_app {A} (f : A → prog (option error)) l1 l2 q q' :
  run (for_each f l1) q = (None, q') → run (for_each f (l1 ++ l2)) q = run (for_each f l2) q'.
Proof.
  revert q. induction l1 as [|x l1 IH]; intros q; simpl; [by intros [= <-]|].
  rewrite !run_bind. destruct (run (f x) q) as [[e|] q1]; [done|]. apply IH.
Qed.

Lemma run_act {A} a (k : answer a → prog A) q :
  run (act a ≫= k) q = let '(r, q') := respond a q in run (k r) q'.
Proof. reflexivity. Qed.

(** A loop that reaches its end: its body has returned no error on the way. *)
Lemma run_for_each {A} (I : list A → quiet St → Prop) (f : A → prog (option error)) l q q' :
  (∀ x l q q', I (x :: l) q → run (f x) q = (None, q') → I l q') →
  I l q → run (for_each f l) q = (None, q') → I [] q'.
Proof.
  intros Hstep. revert q. induction l as [|x l IH]; intros q HI; simpl; [by intros [= <-]|].
  rewrite run_bind. destruct (run (f x) q) as [[e|] q1] eqn:E; [done|]. eauto.
Qed.

(** Whatever a loop's body does, done over and over. *)
Lemma run_for_each_rel {A} (P : quiet St → Prop) (R : relation (quiet St)) `{!PreOrder R}
    (f : A → prog (option error)) l q :
  (∀ x q, P q → P (run (f x) q).2 ∧ R q (run (f x) q).2) →
  P q → R q (run (for_each f l) q).2.
Proof.
  intros Hf. revert q. induction l as [|x l IH]; intros q HP; simpl; [reflexivity|].
  rewrite run_bind. destruct (Hf x q HP) as [HP1 HR1].
  destruct (run (f x) q) as [[e|] q1]; simpl in *; [done|]. etrans; [exact HR1|]. by apply IH.
Qed.
End run.

(** ** Proposals on the abstract store *)

Section proposals.
Context `{PF : !Platform, J : !Json}.

(** What the reads collect. *)
Lemma read_rows {A} (f : Spec → list A) sp :
  View (collected (reads (λ sp, iter collect [] (f sp)))) sp = Ok (f sp).
Proof. by apply collected_rows. Qed.

Lemma propose_cases c at_ (sp : Spec) r sp' :
  propose_now c at_ sp = (r, sp') →
  (∃ v, r = Ok v ∧ spec_step at_ c sp v sp')
  ∨ (sp' = sp ∧ ∃ e sp1 ce, run_command c at_ sp = (Err e, sp1) ∧ asCommandErrorChain e = Some ce
       ∧ r = Ok (RRejected ce))
  ∨ (sp' = sp ∧ ∀ v, r ≠ Ok v).
Proof.
  unfold propose_now, Update. destruct (run_command c at_ sp) as [[v|e|p] sp1] eqn:E; simpl.
  - intros [= <- <-]. left. exists v. split; [done|]. by apply run_step.
  - intros [= <- <-]. right. destruct (asCommandErrorChain e) as [ce|] eqn:Ec; [left|by right].
    split; [done|]. by exists e, sp1, ce.
  - intros [= <- <-]. right. by right.
Qed.

(** The errors a computation may fail with from [sp]. *)
Definition fails_with {A} (P : error → Prop) (m : M Spec A) (sp : Spec) : Prop :=
  ∀ x sp', m sp = (Err x, sp') → P x.

Lemma fails_bind {A C} P (m : M Spec A) (f : A → M Spec C) sp :
  fails_with P m sp → (∀ a sp', m sp = (Ok a, sp') → fails_with P (f a) sp') →
  fails_with P (m ≫= f) sp.
Proof.
  unfold fails_with, mbind, M_bind. intros Hm Hf x sp'.
  destruct (m sp) as [[a|e|p] sp1]; [by apply Hf|intros [= <- <-]; by eapply Hm|done].
Qed.

Lemma fails_reject P b e sp : (b = true → P e) → fails_with P (reject_if b e) sp.
Proof. intros He x sp'. destruct b; [|done]. intros [= <- <-]. by apply He. Qed.

Lemma fails_wrap {A} P g (m : M Spec A) sp : (∀ x, P (g x)) → fails_with P (wrap_err g m) sp.
Proof. unfold fails_with, wrap_err. intros Hg x sp'. destruct (m sp) as [[]]; naive_solver. Qed.

Lemma fails_ret {A} P (a : A) sp : fails_with P (mret a) sp.
Proof. done. Qed.

Lemma fails_fail {A} (P : error → Prop) e sp : P e → fails_with (A := A) P (fail e) sp.
Proof. by intros He x sp' [= <- <-]. Qed.

(** Not a conflict. *)
Definition no_conflict (x : error) : Prop :=
  ∀ ce, asCommandErrorChain x = Some ce → CommandError.Kind ce ≠ KindConflict.

Lemma cmd_error_no_conflict k f m : k ≠ KindConflict → no_conflict (cmd_error k f m).
Proof. by intros Hk ce [= <-]. Qed.

Lemma fails_read {A C} P g (f : Spec → A) (k : A → M Spec C) sp :
  (∀ x, P (g x)) → fails_with P (k (f sp)) sp → fails_with P (wrap_err g (reads f) ≫= k) sp.
Proof.
  intros Hg Hk. apply fails_bind; [by apply fails_wrap|]. by intros a sp' [-> ->]%wrap_err_inv%reads_inv.
Qed.

Lemma fails_guard {C} (P : error → Prop) b e (k : unit → M Spec C) sp :
  (b = true → P e) → fails_with P (k ()) sp → fails_with P (reject_if b e ≫= k) sp.
Proof. intros He Hk. destruct b; [|done]. apply fails_bind; [by apply fails_fail, He|done]. Qed.

Lemma fails_lift {A C} P g (r : result A) (k : A → M Spec C) sp :
  (∀ x, P (g x)) → (∀ a, fails_with P (k a) sp) → fails_with P (wrap_err g (lift r) ≫= k) sp.
Proof.
  intros Hg Hk. apply fails_bind; [by apply fails_wrap|]. by intros a sp' [_ ->]%wrap_err_inv%lift_inv.
Qed.

Ltac fails_tac :=
  repeat first
  [ apply fails_ret
  | apply fails_fail; by apply cmd_error_no_conflict
  | apply fails_read; [intros ?; by apply cmd_error_no_conflict|]
  | apply fails_guard; [by intros _; apply cmd_error_no_conflict|]
  | apply fails_lift; [intros ?; by apply cmd_error_no_conflict|intros ?]
  | apply fails_bind; [apply fails_wrap; intros ?; by apply cmd_error_no_conflict|intros ? ? _] ].

(** Adopting an execution that is in flight and owned as expected does not end
    in a conflict, nor does completing one that is in flight. *)
Lemma adopt_no_conflict c at_ sp e :
  sp_executions sp !! (c.(AdoptExecutionCommand.TenantID), c.(AdoptExecutionCommand.ExecutionID)) = Some e →
  e.(Execution.Status) = ExecutionStatusInFlight →
  e.(Execution.OwnerNodeID) = c.(AdoptExecutionCommand.PreviousOwner) →
  fails_with no_conflict (run_command (adopt_execution c) at_) sp.
Proof.
  intros He Hs Ho. apply fails_bind; [|done]. unfold ApplyAdoptExecution. fails_tac.
  rewrite He. do 2 (apply fails_guard; [by intros ?%bool_decide_eq_true|]). by fails_tac.
Qed.

Lemma complete_no_conflict c at_ sp e :
  sp_executions sp !! (c.(CompleteExecutionCommand.TenantID), c.(CompleteExecutionCommand.ExecutionID)) = Some e →
  IsTerminal e.(Execution.Status) = false →
  fails_with no_conflict (run_command (complete_execution c) at_) sp.
Proof.
  intros He Hs. apply fails_bind; [|done]. unfold ApplyCompleteExecution. fails_tac.
  rewrite He. apply fails_guard; [by rewrite Hs|]. fails_tac. destruct (sp_schedules _ !! _); fails_tac.
  apply fails_bind; [|intros; by fails_tac]. unfold advance_schedule. repeat case_bool_decide; by fails_tac.
Qed.
End proposals.
