(* ===== verification/Recovery.v ===== *)
(** * Recovery: what a new leader has done when recovery ends

    [runRecover] on a store nobody else changes.  When it returns without an
    error, every execution still in flight is this node's and its last attempt
    asks for a retry; nothing else has changed, and no callback was made. *)

From S2P Require Import Prelude Go GoTime GoFloat Model RecurrenceCalc Json Storage Command Dispatch.
From S2P Require Import StateMachine RaftNode Spec Lifecycle Invariants Refinement RefinementScan RefinementTx.
From S2P Require Import Attempts Sha256 Prog Worker WorkerSafe Quiet.
Open Scope Z_scope.

Section recovery.
Context `{PF : !Platform, J : !Json} (w : Worker).

(** An execution in flight is [w]'s, and waits for its first attempt or a retry. *)
Definition settled (sp : Spec) (e : Execution) : Prop :=
  e.(Execution.Status) = ExecutionStatusInFlight →
  e.(Execution.OwnerNodeID) = w_nodeID w
  ∧ ∀ a, last (attempts_of sp e.(Execution.TenantID) e.(Execution.ID)) = Some a →
      a.(Attempt.Outcome) = OutcomeRetry.

(** From [q] to [q'] only executions that are now settled have changed, and
    schedules; no callback was made. *)
Record recovers (q q' : quiet Spec) : Prop := {
  rc_inv : inv (q_store q) → inv (q_store q');
  rc_attempts : sp_attempts (q_store q') = sp_attempts (q_store q);
  rc_tenants : sp_tenants (q_store q') = sp_tenants (q_store q);
  rc_calls : q_calls q' = q_calls q;
  rc_queue : q_queue q' = q_queue q;
  rc_later : inv (q_store q) → later (q_store q) (q_store q');
  rc_executions : inv (q_store q) → ∀ p e, sp_executions (q_store q') !! p = Some e →
    sp_executions (q_store q) !! p = Some e ∨ settled (q_store q') e
}.

Lemma settled_attempts sp sp' e :
  sp_attempts sp' = sp_attempts sp → settled sp e → settled sp' e.
Proof. unfold settled, attempts_of. by intros ->. Qed.

#[export] Instance recovers_preorder : PreOrder recovers.
Proof.
  split; [intros q; split; auto; reflexivity|].
  intros q1 q2 q3 [] []. split; try congruence; auto.
  { intros Hi. etrans; auto. }
  intros Hi p e He. destruct (rc_executions1 (rc_inv0 Hi) _ _ He) as [H|H]; [|by right].
  destruct (rc_executions0 Hi _ _ H) as [H'|H']; [by left|]. right. by eapply settled_attempts.
Qed.

(** Propose [c], and take anything but a conflict for an error. *)
Definition proposing (c : command) (werr wrej : error → error) : prog (option error) :=
  result ← act (APropose c);
  on_result result (λ e, Ret (Some (werr e))) (λ r, settle wrej r (Ret None)).

(** A proposal whose rejection would not be a conflict: if the program goes on
    without an error, it was accepted. *)
Lemma propose_settled c werr wrej q q' :
  fails_with no_conflict (run_command c (q_clock q)) (q_store q) →
  run (proposing c werr wrej) q = (None, q') →
  ∃ v sp', spec_step (q_clock q) c (q_store q) v sp' ∧ q' = set_store sp' q.
Proof.
  intros Hno. simpl.
  destruct (propose_now c (q_clock q) (q_store q)) as [r sp'] eqn:E.
  destruct (propose_cases _ _ _ _ _ E) as [(v & -> & Hs)|[[-> (e & sp1 & ce & Hr & Hc & ->)]|[-> Hr]]].
  - simpl. intros Hrun. exists v, sp'. split; [done|].
    assert (asCommandError v = None) as Hv by (by step_cases Hs).
    unfold settle in Hrun. rewrite Hv in Hrun. by injection Hrun.
  - simpl. unfold settle. simpl. rewrite bool_decide_false by by eapply Hno. done.
  - destruct r as [v| |]; [by destruct (Hr v)|done..].
Qed.

(** The execution a command of recovery is about. *)
Definition target (c : command) : option (string * string) :=
  match c with
  | adopt_execution c => Some (c.(AdoptExecutionCommand.TenantID), c.(AdoptExecutionCommand.ExecutionID))
  | complete_execution c =>
      Some (c.(CompleteExecutionCommand.TenantID), c.(CompleteExecutionCommand.ExecutionID))
  | _ => None
  end.

(** Adoption is by this worker, of an execution without a final attempt. *)
Definition adoptable (c : command) (sp : Spec) : Prop :=
  match c with
  | adopt_execution c => c.(AdoptExecutionCommand.NewOwner) = w_nodeID w ∧
      ∀ a, last (attempts_of sp c.(AdoptExecutionCommand.TenantID)
                   c.(AdoptExecutionCommand.ExecutionID)) = Some a → a.(Attempt.Outcome) = OutcomeRetry
  | _ => True
  end.

(** Both commands leave their execution settled, the others as they are. *)
Lemma step_settles c at_ sp v sp' p t :
  spec_step at_ c sp v sp' → inv sp → target c = Some t → adoptable c sp →
  ∀ e, sp_executions sp' !! p = Some e →
    (p ≠ t ∧ sp_executions sp !! p = Some e) ∨ (p = t ∧ settled sp' e).
Proof.
  intros Hs Hi Ht Hc e. step_cases Hs; try done; injection Ht as <-; simpl.
  - rewrite <- (inv_exec_key _ Hi _ _ H3).
    intros [[<- <-]|[? ?]]%lookup_insert_Some; [right|by left]. split; [done|]. intros _.
    destruct Hc as [Hw Ha]. split; [done|]. simpl. injection (inv_exec_key _ Hi _ _ H3) as <- <-. exact Ha.
  - rewrite <- (inv_exec_key _ Hi _ _ H3).
    intros [[<- <-]|[? ?]]%lookup_insert_Some; [right|by left]. split; [done|].
    intros Hst. simpl in Hst. by rewrite Hst in H1.
Qed.

Lemma step_recovers c q v sp' t :
  spec_step (q_clock q) c (q_store q) v sp' → target c = Some t → adoptable c (q_store q) →
  recovers q (set_store sp' q).
Proof.
  intros Hs Ht Hc. split; simpl; try done.
  - intros Hi. by eapply step_inv.
  - by step_cases Hs.
  - by step_cases Hs.
  - intros Hi. eapply step_later; [done..|]. by destruct c.
  - intros Hi p e He. destruct (step_settles _ _ _ _ _ p _ Hs Hi Ht Hc e He) as [[_ ?]|[_ ?]]; auto.
Qed.

(** Whether accepted or not, such a proposal recovers. *)
Lemma propose_recovers c p werr wrej q :
  target c = Some p → adoptable c (q_store q) →
  recovers q (run (proposing c werr wrej) q).2.
Proof.
  intros Ht Ha. simpl. destruct (propose_now c (q_clock q) (q_store q)) as [r sp'] eqn:E.
  assert (recovers q (set_store sp' q)) as Hq.
  { destruct (propose_cases _ _ _ _ _ E) as [(v & -> & Hs)|[[-> _]|[-> _]]];
      [by eapply step_recovers|by destruct q..]. }
  destruct r as [v| |]; [|done..]. simpl. unfold settle. repeat case_match; done.
Qed.

(** *** One execution *)

(** [q'] comes from [q] by settling the execution at [p], and nothing else. *)
Definition settles (p : string * string) (q q' : quiet Spec) : Prop :=
  recovers q q' ∧ (∀ e, sp_executions (q_store q') !! p = Some e → settled (q_store q') e)
  ∧ ∀ p', p' ≠ p → sp_executions (q_store q') !! p' = sp_executions (q_store q) !! p'.

Lemma settles_again p q e :
  sp_executions (q_store q) !! p = Some e → settled (q_store q) e → settles p q q.
Proof. intros He Hs. split; [reflexivity|]. split; [|done]. intros e'. by rewrite He; intros [= <-]. Qed.

Lemma propose_settles c p werr wrej q q' :
  run (proposing c werr wrej) q = (None, q') →
  inv (q_store q) → target c = Some p → adoptable c (q_store q) →
  fails_with no_conflict (run_command c (q_clock q)) (q_store q) →
  settles p q q'.
Proof.
  intros Hrun Hi Ht Ha Hno. apply propose_settled in Hrun as (v & sp' & Hs & ->); [|done].
  split; [by eapply step_recovers|]. split.
  - intros e He. destruct (step_settles _ _ _ _ _ p _ Hs Hi Ht Ha e He) as [[? _]|[_ ?]]; done.
  - intros p' Hp. simpl. step_cases Hs; try done; injection Ht as <-; simpl;
      rewrite lookup_insert_ne; try done; by rewrite <- (inv_exec_key _ Hi _ _ H3).
Qed.

(** The bucket of an execution says what its last attempt says. *)
Lemma classifyOne_bucket attempts now b :
  classifyOne attempts now = Ok b →
  b = BucketSuccess ∨ b = BucketTerminalFailure
  ∨ b ∈ [BucketNoAttempts; BucketRetryElapsed; BucketRetryPending]
    ∧ ∀ a, last attempts = Some a → a.(Attempt.Outcome) = OutcomeRetry.
Proof.
  unfold classifyOne. destruct (last _) as [a|] eqn:El; intros Hb.
  - repeat case_bool_decide; repeat case_match; simplify_eq; auto; right; right;
      (split; [set_solver|]); by intros ? [= <-].
  - injection Hb as <-. right. right. split; [set_solver|done].
Qed.

Lemma adoptOrComplete_run tn e attempts now b q :
  classifyOne attempts now = Ok b →
  let retry_only := ∀ a, last attempts = Some a → a.(Attempt.Outcome) = OutcomeRetry in
  let t := tn.(Tenant.ID) in let i := e.(Execution.ID) in let o := e.(Execution.OwnerNodeID) in
  (retry_only ∧ o = w_nodeID w ∧ run (adoptOrComplete w tn e b) q = (None, q))
  ∨ ∃ c werr wrej, run (adoptOrComplete w tn e b) q = run (proposing c werr wrej) q
      ∧ ((∃ st out, c = complete_execution (CompleteExecutionCommand.mk t i st out None))
         ∨ (retry_only ∧ c = adopt_execution (AdoptExecutionCommand.mk t i o (w_nodeID w)))).
Proof.
  intros Hb retry_only t i o. unfold adoptOrComplete.
  destruct (classifyOne_bucket _ _ _ Hb) as [->|[->|[Hb' Ha]]]; simpl.
  - right. do 3 eexists. split; [reflexivity|eauto].
  - right. do 3 eexists. split; [reflexivity|eauto].
  - rewrite (bool_decide_eq_true_2 _ Hb'). case_bool_decide; [by left|].
    right. do 3 eexists. split; [reflexivity|eauto].
Qed.

Lemma adoptOrComplete_settles tn e now b q q' :
  inv (q_store q) → sp_executions (q_store q) !! (tn.(Tenant.ID), e.(Execution.ID)) = Some e →
  e.(Execution.Status) = ExecutionStatusInFlight →
  classifyOne (attempts_of (q_store q) tn.(Tenant.ID) e.(Execution.ID)) now = Ok b →
  run (adoptOrComplete w tn e b) q = (None, q') →
  settles (tn.(Tenant.ID), e.(Execution.ID)) q q'.
Proof.
  intros Hi He Hst Hb Hrun. pose proof (inv_exec_key _ Hi _ _ He) as [= Ht].
  destruct (adoptOrComplete_run tn e _ _ _ q Hb)
    as [(Ha & Ho & Hr)|(c & we & wr & Hr & [(st & out & ->)|[Ha ->]])]; rewrite Hr in Hrun.
  - injection Hrun as <-. eapply settles_again; [done|]. intros _. rewrite <- Ht. done.
  - eapply propose_settles; [exact Hrun|done..|]. eapply complete_no_conflict; [exact He|by rewrite Hst].
  - eapply propose_settles; [exact Hrun|done..|by split|]. by eapply adopt_no_conflict.
Qed.

Lemma adoptOrComplete_recovers tn e now b q :
  classifyOne (attempts_of (q_store q) tn.(Tenant.ID) e.(Execution.ID)) now = Ok b →
  recovers q (run (adoptOrComplete w tn e b) q).2.
Proof.
  intros Hb. destruct (adoptOrComplete_run tn e _ _ _ q Hb)
    as [(_ & _ & ->)|(c & we & wr & -> & [(st & out & ->)|[Ha ->]])];
    [reflexivity|by eapply propose_recovers|eapply propose_recovers; by split].
Qed.

#[local] Opaque adoptOrComplete.

Lemma recover_execution_settles tn e q q' :
  inv (q_store q) → sp_executions (q_store q) !! (tn.(Tenant.ID), e.(Execution.ID)) = Some e →
  e.(Execution.Status) = ExecutionStatusInFlight →
  run (recover_execution w tn e) q = (None, q') →
  settles (tn.(Tenant.ID), e.(Execution.ID)) q q'.
Proof.
  intros Hi He Hst. unfold recover_execution. simpl.
  rewrite read_rows. simpl.
  destruct (classifyOne _ _) as [b| |] eqn:Eb; [|done..]. cbn [on_result].
  rewrite run_prog_bind. destruct (run (adoptOrComplete w tn e b) q) as [[err|] q1] eqn:E; [done|].
  simpl. intros [= <-]. by eapply adoptOrComplete_settles.
Qed.

Lemma recover_execution_recovers tn e q : recovers q (run (recover_execution w tn e) q).2.
Proof.
  unfold recover_execution. simpl.
  rewrite read_rows. simpl.
  destruct (classifyOne _ _) as [b| |] eqn:Eb; [|reflexivity..]. cbn [on_result].
  rewrite run_prog_bind. apply adoptOrComplete_recovers in Eb.
  by destruct (run (adoptOrComplete w tn e b) q) as [[err|] q1].
Qed.

(** *** One tenant, all tenants *)

(** The executions [l] of tenant [t] are still to be recovered from [q], which
    came from [q0]; the tenant's others are settled. *)
Record recovering (t : string) (q0 : quiet Spec) (l : list Execution) (q : quiet Spec) : Prop := {
  rg_recovers : recovers q0 q;
  rg_inv : inv (q_store q);
  rg_nodup : NoDup (Execution.ID <$> l);
  rg_current : ∀ e, e ∈ l → sp_executions (q_store q) !! (t, e.(Execution.ID)) = Some e
                            ∧ e.(Execution.Status) = ExecutionStatusInFlight;
  rg_rest : ∀ i e, sp_executions (q_store q) !! (t, i) = Some e → e ∉ l → settled (q_store q) e
}.

Lemma recovering_step tn q0 e l q q' :
  recovering tn.(Tenant.ID) q0 (e :: l) q → run (recover_execution w tn e) q = (None, q') →
  recovering tn.(Tenant.ID) q0 l q'.
Proof.
  intros [Hr Hi Hnd Hc Hrest] Hrun. destruct (Hc e) as [He Hst]; [apply list_elem_of_here|].
  destruct (recover_execution_settles _ _ _ _ Hi He Hst Hrun) as (Hq & Hnow & Hfr).
  rewrite fmap_cons, NoDup_cons in Hnd. destruct Hnd as [Hni Hnd].
  assert (∀ i, i ≠ e.(Execution.ID) → (tn.(Tenant.ID), i) ≠ (tn.(Tenant.ID), e.(Execution.ID))) as Hne
    by congruence.
  split; [by etrans|by apply Hq|done| |].
  - intros x Hx. destruct (Hc x) as [Hx1 Hx2]; [by apply list_elem_of_further|]. split; [|done].
    rewrite Hfr; [done|]. apply Hne. intros Heq. apply Hni. rewrite <- Heq. by apply list_elem_of_fmap_2.
  - intros i x Hx Hl. destruct (decide (i = e.(Execution.ID))) as [->|Hd]; [by apply Hnow|].
    rewrite Hfr in Hx by auto. eapply settled_attempts; [by apply (rc_attempts _ _ Hq)|].
    eapply Hrest; [exact Hx|]. intros [->|Hin]%elem_of_cons; [|done].
    apply Hd. by injection (inv_exec_key _ Hi _ _ Hx).
Qed.

Lemma in_flight_rows t q :
  inv (q_store q) →
  recovering t q (rows_where Execution.ID (in_status t ExecutionStatusInFlight)
                    (sp_executions (q_store q))) q.
Proof.
  intros Hi. split; [reflexivity|done| | |].
  - unfold rows_where, sorted_rows. rewrite merge_sort_Permutation.
    eapply (rows_nodup Execution.TenantID Execution.ID _ t); [apply (inv_exec_key _ Hi)|].
    intros x Hx. unfold in_status in Hx. by bool_hyps.
  - intros e [He [p Hp]]%elem_of_rows_where. unfold in_status in He. bool_hyps.
    rewrite (inv_exec_key _ Hi _ _ Hp) in Hp. split; congruence.
  - intros i e He Hn Hst. destruct Hn. apply elem_of_rows_where. split; [|by eauto].
    unfold in_status. injection (inv_exec_key _ Hi _ _ He) as <- _. by rewrite !bool_decide_true.
Qed.

Definition tenant_settled (sp : Spec) (t : string) : Prop :=
  ∀ i e, sp_executions sp !! (t, i) = Some e → settled sp e.

Lemma recover_tenant_settles tn q q' :
  inv (q_store q) → run (recover_tenant w tn) q = (None, q') →
  recovers q q' ∧ tenant_settled (q_store q') tn.(Tenant.ID).
Proof.
  intros Hi. unfold recover_tenant. simpl.
  rewrite read_rows. simpl. intros Hrun.
  destruct (run_for_each (recovering tn.(Tenant.ID) q) _ _ _ _
    (λ e l q1 q2, recovering_step tn q e l q1 q2) (in_flight_rows _ _ Hi) Hrun) as [Hq _ _ _ Hrest].
  split; [done|]. intros i e He. eapply Hrest; [exact He|]. apply not_elem_of_nil.
Qed.

Lemma tenant_settled_recovers q q' t :
  inv (q_store q) → recovers q q' → tenant_settled (q_store q) t → tenant_settled (q_store q') t.
Proof.
  intros Hi Hq Ht i e He. destruct (rc_executions _ _ Hq Hi _ _ He) as [H|H]; [|done].
  eapply settled_attempts; [apply (rc_attempts _ _ Hq)|by eapply Ht].
Qed.

Lemma runRecover_settles q q' :
  inv (q_store q) → run (runRecover w) q = (None, q') →
  recovers q q' ∧ ∀ tn, tn ∈ all_tenants (q_store q) → tenant_settled (q_store q') tn.(Tenant.ID).
Proof.
  intros Hi. unfold runRecover. simpl. intros Hrun.
  pose (I := λ (l : list Tenant) q1, recovers q q1 ∧ inv (q_store q1) ∧ ∀ tn, tn ∈ all_tenants (q_store q) →
    tn ∈ l ∨ tenant_settled (q_store q1) tn.(Tenant.ID)).
  destruct (run_for_each I (recover_tenant w) (all_tenants (q_store q)) q q') as (Hq & _ & Hall); [| |done|].
  - intros tn l q1 q2 (Hq & Hi1 & Hl) Hr. destruct (recover_tenant_settles _ _ _ Hi1 Hr) as [Hq2 Ht].
    split; [by etrans|]. split; [by apply Hq2|]. intros x Hx.
    destruct (Hl x Hx) as [[->|?]%elem_of_cons|?]; [by right|by left|].
    right. by eapply tenant_settled_recovers.
  - split; [reflexivity|]. split; [done|]. auto.
  - split; [done|]. intros tn Htn. destruct (Hall tn Htn) as [[]%not_elem_of_nil|?]; done.
Qed.

(** Recovery that stops early has done nothing else either. *)
Lemma runRecover_recovers q : recovers q (run (runRecover w) q).2.
Proof.
  unfold runRecover. simpl. apply (run_for_each_rel (λ _, True)); [apply _| |done]. intros tn q1 _.
  split; [done|]. unfold recover_tenant. simpl. rewrite read_rows. simpl.
  apply (run_for_each_rel (λ _, True)); [apply _| |done]. intros e q2 _. split; [done|].
  apply recover_execution_recovers.
Qed.
End recovery.
