(* ===== verification/Firing.v ===== *)
(** * Firing: one callback, from the claim to the next run

    A worker alone on a store: what a dispatch leaves behind for every answer of
    the receiver, and that a due schedule whose receiver answers with a success
    has its slot executed and its next run set by one tick. *)

From S2P Require Import Prelude Go GoTime GoFloat Model RecurrenceCalc Json Storage Command Dispatch.
From S2P Require Import StateMachine RaftNode Spec Lifecycle Invariants Refinement RefinementScan RefinementTx.
From S2P Require Import Attempts Sha256 Prog Worker WorkerSafe Quiet.
Open Scope Z_scope.

Section firing.
Context `{PF : !Platform, J : !Json}.

(** The row can be encoded. *)
Definition writable {Row} `{!RowCodec jbytes Row} (x : Row) : Prop :=
  ∃ b, Marshal (bytes := jbytes) x = Ok b.

(** ** Commands that are accepted *)

Lemma ok_guard {C} b e (k : unit → M Spec C) sp x :
  b = false → k () sp = x → (reject_if b e ≫= k) sp = x.
Proof. by intros ->. Qed.

Lemma ok_read {A C} g (f : Spec → A) (k : A → M Spec C) sp x :
  k (f sp) sp = x → (wrap_err g (reads f) ≫= k) sp = x.
Proof. done. Qed.

Lemma ok_put {Row C} `{!RowCodec jbytes Row} g (y : Row) upd (k : unit → M Spec C) sp x :
  writable y → k () (upd sp) = x → (wrap_err g (spec_put y upd) ≫= k) sp = x.
Proof.
  intros [b Hb] <-. apply M_bind_ok. unfold wrap_err, spec_put, mbind, M_bind, lift. by rewrite Hb.
Qed.

Lemma ok_time {C} p t f m1 m2 (k : unit → M Spec C) sp x :
  p = Some t → IsZero t = false → k () sp = x → (require_time p f m1 m2 ≫= k) sp = x.
Proof. intros -> Ht. by apply ok_guard. Qed.

Lemma not_empty s : s ≠ "" → empty s = false.
Proof. apply bool_decide_eq_false_2. Qed.

(** [accept]: walk through the guards, reads and writes of a handler. *)
Ltac accept :=
  repeat first
  [ apply ok_guard; [first [done | by apply not_empty | by apply bool_decide_eq_false_2; intros []]|]
  | apply ok_read
  | apply ok_put; [done|] ].

Lemma advance_runs e s s' msg (sp : Spec) : advanced e s s' → advance_schedule s e msg sp = (Ok s', sp).
Proof.
  unfold advance_schedule. intros [o Ht Hs Ho|Ht Hs|Ht].
  - rewrite !bool_decide_true by done. unfold mbind, M_bind, wrap_err, lift. by rewrite Ho.
  - rewrite bool_decide_true, bool_decide_false by done. done.
  - by rewrite bool_decide_false by done.
Qed.

Lemma complete_accepted c at_ sp e s s' :
  let e' := finalized e c.(CompleteExecutionCommand.FinalStatus)
              c.(CompleteExecutionCommand.FinalOutcome) at_ in
  let t := c.(CompleteExecutionCommand.TenantID) in
  t ≠ "" → c.(CompleteExecutionCommand.ExecutionID) ≠ "" →
  IsTerminal c.(CompleteExecutionCommand.FinalStatus) = true →
  c.(CompleteExecutionCommand.FinalOutcome) ≠ "" →
  sp_executions sp !! (t, c.(CompleteExecutionCommand.ExecutionID)) = Some e →
  IsTerminal e.(Execution.Status) = false →
  sp_schedules sp !! (t, e.(Execution.ScheduleID)) = Some s →
  advanced e s s' → writable e' → writable s' →
  propose_now (complete_execution c) at_ sp
  = (Ok (RExecution e'), with_schedule s' (with_execution e' sp)).
Proof.
  intros e' t H1 H2 H3 H4 H5 H6 H7 H8 H9 H10.
  assert (empty c.(CompleteExecutionCommand.FinalStatus) = false) as H3'.
  { apply not_empty. intros Heq. by rewrite Heq in H3. }
  assert (ApplyCompleteExecution c at_ sp = (Ok e', with_schedule s' (with_execution e' sp))) as Hap.
  { unfold ApplyCompleteExecution. accept. apply ok_guard; [by rewrite H3|]. apply ok_read.
    fold t. rewrite H5. accept. simpl. fold t. rewrite H7. erewrite M_bind_ok by by apply advance_runs.
    by accept. }
  unfold propose_now, Update. simpl. by rewrite (M_bind_ok _ _ _ _ _ Hap).
Qed.

Lemma record_accepted c at_ sp e t0 t1 :
  let a := new_attempt c e.(Execution.AttemptCount) in
  c.(RecordAttemptCommand.TenantID) ≠ "" → c.(RecordAttemptCommand.ExecutionID) ≠ "" →
  c.(RecordAttemptCommand.ID) ≠ "" → c.(RecordAttemptCommand.NodeID) ≠ "" →
  c.(RecordAttemptCommand.Outcome) ≠ "" → c.(RecordAttemptCommand.RequestURL) ≠ "" →
  c.(RecordAttemptCommand.StartedAt) = Some t0 → IsZero t0 = false →
  c.(RecordAttemptCommand.CompletedAt) = Some t1 → IsZero t1 = false →
  (c.(RecordAttemptCommand.Outcome) = OutcomeSuccess → c.(RecordAttemptCommand.ResponseStatus) ≠ 0) →
  sp_executions sp !! (c.(RecordAttemptCommand.TenantID), c.(RecordAttemptCommand.ExecutionID)) = Some e →
  e.(Execution.Status) = ExecutionStatusInFlight →
  e.(Execution.OwnerNodeID) = c.(RecordAttemptCommand.NodeID) →
  writable a → writable (with_new_attempt c e) →
  propose_now (record_attempt c) at_ sp
  = (Ok (RAttempt a), with_execution (with_new_attempt c e) (with_attempt a sp)).
Proof.
  intros a H1 H2 H3 H4 H5 H6 H7 H7' H8 H8' H9 H10 H11 H12 H13 H14.
  assert (ApplyRecordAttempt c at_ sp
    = (Ok a, with_execution (with_new_attempt c e) (with_attempt a sp))) as Hap.
  { unfold ApplyRecordAttempt. accept. do 2 (eapply ok_time; [done..|]). accept.
    apply ok_guard. { case_bool_decide as Ho; [|done]. simpl. apply Z.eqb_neq. auto. }
    apply ok_read. rewrite H10. accept.
    match goal with |- (wrap_err _ (PutAttempt ?x) ≫= _) _ = _ => assert (x = a) as -> end.
    { unfold a, new_attempt. by destruct (RecordAttemptCommand.RetryAt c). }
    by accept. }
  unfold propose_now, Update. simpl. by rewrite (M_bind_ok _ _ _ _ _ Hap).
Qed.

Lemma claim_accepted c at_ sp :
  let e := new_execution c at_ in
  c.(ClaimExecutionCommand.TenantID) ≠ "" → c.(ClaimExecutionCommand.ScheduleID) ≠ "" →
  c.(ClaimExecutionCommand.ID) ≠ "" → c.(ClaimExecutionCommand.OwnerNodeID) ≠ "" →
  IsZero c.(ClaimExecutionCommand.ScheduledFor) = false →
  slot_free sp c.(ClaimExecutionCommand.TenantID) c.(ClaimExecutionCommand.ScheduleID)
    c.(ClaimExecutionCommand.ScheduledFor) →
  writable e →
  propose_now (claim_execution c) at_ sp = (Ok (RExecution e), with_execution e sp).
Proof.
  intros e H1 H2 H3 H4 H5 H6 H7.
  assert (ApplyClaimExecution c at_ sp = (Ok e, with_execution e sp)) as Hap.
  { unfold ApplyClaimExecution. accept.
    pose proof (find_collision_spec c.(ClaimExecutionCommand.ScheduledFor)
      (rows_where Execution.ID (in_schedule c.(ClaimExecutionCommand.TenantID)
         c.(ClaimExecutionCommand.ScheduleID)) (sp_executions sp))) as Hf.
    destruct (iter _ _ _) as [[ex|] err] eqn:Ei.
    - destruct err as [[]|]; try done. destruct Hf as [Hin Heq].
      by rewrite (proj2 (slot_free_rows sp _ _ _) H6 _ Hin) in Heq.
    - assert (err = None) as -> by by destruct err as [[]|].
      erewrite M_bind_ok; [|simpl; unfold reads; by rewrite Ei]. simpl. by accept. }
  unfold propose_now, Update. simpl. by rewrite (M_bind_ok _ _ _ _ _ Hap).
Qed.

(** ** One dispatch *)

Section dispatch.
Context (exec e0 : Execution) (s s0 s' : Schedule) (nodeID : string) (dflt n : Z) (q : quiet Spec).
Context (resp : option Response) (doErr : option DoErr).

Notation sp := (q_store q).
Notation now := (q_clock q).
Notation t := s.(Schedule.TenantID).
Notation attemptID := (hd "" (q_ids q)).

Definition dispatched_request : Request :=
  mkRequest s.(Schedule.CallbackURL)
    (request_headers (map_to_list s.(Schedule.Headers)) exec.(Execution.IdempotencyKey) attemptID)
    s.(Schedule.Payload).

(** The attempt, and the rows the dispatch leaves. *)
Definition recorded_cmd : RecordAttemptCommand :=
  attempt_command exec s nodeID attemptID n now now resp doErr.
Definition outcome : string := recorded_cmd.(RecordAttemptCommand.Outcome).
Definition attempt_row : Attempt := new_attempt recorded_cmd e0.(Execution.AttemptCount).
Definition attempted_row : Execution := with_new_attempt recorded_cmd e0.
Definition final_row : Execution := finalized attempted_row (finalStatus outcome) outcome now.
Definition recorded_store : Spec := with_execution attempted_row (with_attempt attempt_row sp).

Definition dispatched_store : Spec :=
  if bool_decide (outcome = OutcomeRetry) then recorded_store
  else with_schedule s' (with_execution final_row recorded_store).

(** The execution is this node's, and the call was not canceled. *)
Record dispatchable : Prop := {
  dp_http : q_http q dispatched_request = (resp, doErr);
  dp_canceled : ∀ d, doErr = Some d → is_canceled d = false;
  dp_names : t ≠ "" ∧ exec.(Execution.ID) ≠ "" ∧ attemptID ≠ "" ∧ nodeID ≠ ""
             ∧ s.(Schedule.CallbackURL) ≠ "";
  dp_now : IsZero now = false;
  dp_stored : sp_executions sp !! (t, exec.(Execution.ID)) = Some e0;
  dp_key : (e0.(Execution.TenantID), e0.(Execution.ID)) = (t, exec.(Execution.ID));
  dp_flight : e0.(Execution.Status) = ExecutionStatusInFlight;
  dp_owner : e0.(Execution.OwnerNodeID) = nodeID;
  dp_schedule : sp_schedules sp !! (t, e0.(Execution.ScheduleID)) = Some s0;
  dp_advanced : advanced attempted_row s0 s';
  dp_writable : writable attempt_row ∧ writable attempted_row ∧ writable final_row ∧ writable s'
}.

Lemma classify_not_empty status de k m :
  classifyAttemptOutcome status de k m ≠ ""
  ∧ (classifyAttemptOutcome status de k m = OutcomeSuccess → status ≠ 0).
Proof. unfold classifyAttemptOutcome. repeat case_match; split; try done. bool_hyps. lia. Qed.

Lemma dispatch_runs :
  dispatchable →
  run (dispatch exec s nodeID dflt n) q
  = (None, mkQuiet dispatched_store now (tl (q_ids q)) (q_http q)
             (q_calls q ++ [dispatched_request]) (q_queue q)).
Proof.
  intros [Hh Hc (N1 & N2 & N3 & N4 & N5) Hz Hst Hk Hf Ho Hs Ha (W1 & W2 & W3 & W4)].
  unfold dispatch. simpl. fold dispatched_request. rewrite Hh.
  assert (match doErr with Some d => is_canceled d | None => false end = false) as ->
    by (destruct doErr; auto).
  simpl. fold recorded_cmd. fold outcome.
  destruct (classify_not_empty (match resp with Some r => resp_StatusCode r | None => 0 end) doErr n
    s.(Schedule.MaxAttempts)) as [Hne Hok].
  rewrite (record_accepted recorded_cmd now sp e0 now now) by done.
  simpl. unfold dispatched_store. case_bool_decide as Hr; case_bool_decide as Hr'; try done.
  simpl. rewrite (complete_accepted _ now recorded_store attempted_row s0 s'); simpl; try done.
  - unfold finalStatus. by case_bool_decide.
  - unfold attempted_row. simpl. rewrite Hk. apply lookup_insert_eq.
  - by rewrite Hf.
Qed.
End dispatch.

(** ** One tick *)

Lemma tick_schedule_no_wait w tn s : no_wait (tick_schedule w tn s).
Proof.
  intros err. apply no_wait_unless. destruct (Schedule.NextRunAt s); [|done]. simpl. intros _ r.
  apply no_wait_on_result; [done|]. by intros [].
Qed.

Lemma tick_execution_no_wait w tn e : no_wait (tick_execution w tn e).
Proof.
  intros err. apply no_wait_unless. case_bool_decide; [by simpl|].
  destruct (Execution.LastRetryAt e); [|done]. simpl. intros now. destruct (After _ _); [done|].
  simpl. intros r. by apply no_wait_on_result.
Qed.

Lemma tick_tenant_no_wait w tn : no_wait (tick_tenant w tn).
Proof.
  intros err. apply no_wait_unless. simpl. intros r. apply no_wait_on_result; [done|]. intros l.
  apply no_wait_bind; [apply no_wait_for_each, tick_schedule_no_wait|]. intros err'.
  apply no_wait_unless. simpl. intros r'. apply no_wait_on_result; [done|]. intros l'.
  apply no_wait_for_each, tick_execution_no_wait.
Qed.

(** Nothing to do for an execution in flight at [now]: no attempt yet, or a
    retry that is still to come. *)
Definition idle (now : Time) (e : Execution) : Prop :=
  match e.(Execution.LastRetryAt) with
  | None => e.(Execution.LastAttemptID) = ""
  | Some r => After r now = true
  end.

Definition all_idle (now : Time) (sp : Spec) : Prop :=
  ∀ p e, sp_executions sp !! p = Some e → e.(Execution.Status) = ExecutionStatusInFlight → idle now e.

Lemma tick_execution_idle w tn e q :
  idle (q_clock q) e → run (tick_execution w tn e) q = (None, q).
Proof.
  unfold idle, tick_execution. intros Hi. simpl. destruct (Execution.LastRetryAt e) as [r|].
  - rewrite bool_decide_false by (by intros []). simpl. by rewrite Hi.
  - by rewrite bool_decide_false by (by intros []).
Qed.

(** A tick leaves a tenant with nothing to do alone. *)
Lemma executions_idle w tn q :
  all_idle (q_clock q) (q_store q) →
  run (for_each (tick_execution w tn)
    (rows_where Execution.ID (in_status tn.(Tenant.ID) ExecutionStatusInFlight)
       (sp_executions (q_store q)))) q = (None, q).
Proof.
  intros Hi. apply run_for_each_idle. intros e [He [p Hp]]%elem_of_rows_where.
  apply tick_execution_idle. eapply Hi; [exact Hp|]. unfold in_status in He. by bool_hyps.
Qed.

Definition due_rows (q : quiet Spec) (t : string) : list Schedule :=
  rows_where Schedule.ID (due t (q_clock q)) (sp_schedules (q_store q)).

Lemma tick_tenant_idle w tn q :
  all_idle (q_clock q) (q_store q) → due_rows q tn.(Tenant.ID) = [] →
  run (tick_tenant w tn) q = (None, q).
Proof.
  intros Hi Hd. unfold tick_tenant. simpl. rewrite read_rows. fold (due_rows q tn.(Tenant.ID)).
  rewrite Hd. simpl. rewrite read_rows. by apply executions_idle.
Qed.

Section tick.
Context (w : Worker) (tn : Tenant) (l1 l2 : list Tenant) (s s' : Schedule) (slot : Time).
Context (q : quiet Spec) (r : Response).

Notation sp := (q_store q).
Notation now := (q_clock q).
Notation t := tn.(Tenant.ID).

(** What the tick claims, and where that leaves the worker. *)
Definition tick_claim : ClaimExecutionCommand :=
  ClaimExecutionCommand.mk (hd "" (q_ids q)) t s.(Schedule.ID) slot (w_nodeID w).
Definition claimed_row : Execution := new_execution tick_claim now.
Definition claimed : quiet Spec :=
  mkQuiet (with_execution claimed_row sp) now (tl (q_ids q)) (q_http q) (q_calls q) (q_queue q).
Definition fired_task : freshFireTask :=
  mkFreshFire s claimed_row (w_nodeID w) (w_defaultCallTimeout w).

(** Exactly [s] is due, at [slot]; nothing else is to be done. *)
Record firing : Prop := {
  fi_tenants : all_tenants sp = l1 ++ tn :: l2;
  fi_others : ∀ tn', tn' ∈ l1 ++ l2 → due_rows q tn'.(Tenant.ID) = [];
  fi_due : due_rows q t = [s];
  fi_idle : all_idle now sp;
  fi_queue : q_queue q = [];
  fi_slot : s.(Schedule.NextRunAt) = Some slot ∧ IsZero slot = false;
  fi_free : slot_free sp t s.(Schedule.ID) slot;
  fi_stored : sp_schedules sp !! (t, s.(Schedule.ID)) = Some s
              ∧ s.(Schedule.TenantID) = t ∧ s.(Schedule.Status) = ScheduleStatusActive;
  fi_names : t ≠ "" ∧ s.(Schedule.ID) ≠ "" ∧ hd "" (q_ids q) ≠ "" ∧ hd "" (tl (q_ids q)) ≠ ""
             ∧ w_nodeID w ≠ "" ∧ s.(Schedule.CallbackURL) ≠ "";
  fi_now : IsZero now = false;
  fi_writable : writable claimed_row
}.

Lemma claimed_idle : all_idle now sp → all_idle now (q_store claimed).
Proof.
  intros Hi p e He. simpl in He. apply lookup_insert_Some in He as [[<- <-]|[_ He]]; [done|].
  by eapply Hi.
Qed.

Lemma tick_schedule_fires :
  firing → run (tick_schedule w tn s) q = (None, set_queue [TFresh fired_task] claimed).
Proof.
  intros [_ _ _ _ Hq [Hs Hz] Hf (Hst & Ht & Ha) (N1 & N2 & N3 & N4 & N5 & N6) Hn Hw].
  unfold tick_schedule. simpl. rewrite Hs. simpl. fold tick_claim.
  rewrite (claim_accepted tick_claim now sp) by done. simpl. by rewrite Hq.
Qed.

Lemma runTick_claims :
  firing → run_main (runTick w) q = (None, drain (set_queue [TFresh fired_task] claimed)).
Proof.
  intros H. pose proof H as [Htn Ho Hd Hi _ _ _ _ _ _ _].
  set (q1 := set_queue [TFresh fired_task] claimed).
  assert (∀ tn', tn' ∈ l1 ++ l2 → due_rows q1 (Tenant.ID tn') = []) as Ho1 by exact Ho.
  assert (run (tick_tenant w tn) q = (None, q1)) as Htick.
  { unfold tick_tenant. simpl. rewrite read_rows. fold (due_rows q t). rewrite Hd.
    cbn [on_result]. rewrite run_prog_bind. cbn [for_each]. rewrite run_bind, tick_schedule_fires by done.
    simpl. rewrite read_rows. simpl. apply (executions_idle w tn q1). by apply claimed_idle. }
  unfold runTick. simpl. rewrite Htn. cbn [on_result].
  change (prog_bind ?f ?p) with (p ≫= f). rewrite run_main_bind by apply no_wait_for_each, tick_tenant_no_wait.
  erewrite run_for_each_app; [cbn [for_each]; rewrite run_bind, Htick|]; cbn [fst snd].
  - rewrite run_for_each_idle; [done|]. intros x Hx. apply tick_tenant_idle; [by apply claimed_idle|].
    apply Ho1. set_solver.
  - apply run_for_each_idle. intros x Hx. apply tick_tenant_idle; [done|]. apply Ho. set_solver.
Qed.

(** The call the tick makes, and what it records. *)
Definition firing_start : quiet Spec := set_queue [] claimed.
Definition firing_request : Request := dispatched_request claimed_row s firing_start.
Definition firing_attempt : Attempt :=
  attempt_row claimed_row claimed_row s (w_nodeID w) 1 firing_start (Some r) None.
Definition firing_attempted : Execution :=
  attempted_row claimed_row claimed_row s (w_nodeID w) 1 firing_start (Some r) None.
Definition firing_final : Execution :=
  finalized firing_attempted ExecutionStatusSucceeded OutcomeSuccess now.

(** However the receiver answers: the call was not canceled, and the rows can be
    written. *)
Record answered (resp : option Response) (doErr : option DoErr) : Prop := {
  an_http : q_http q firing_request = (resp, doErr);
  an_canceled : ∀ d, doErr = Some d → is_canceled d = false;
  an_next : advanced claimed_row s s';
  an_writable : writable (attempt_row claimed_row claimed_row s (w_nodeID w) 1 firing_start resp doErr)
    ∧ writable (attempted_row claimed_row claimed_row s (w_nodeID w) 1 firing_start resp doErr)
    ∧ writable (final_row claimed_row claimed_row s (w_nodeID w) 1 firing_start resp doErr)
    ∧ writable s'
}.

(** Where the first dispatch leaves the worker. *)
Definition first_round (resp : option Response) (doErr : option DoErr) : quiet Spec :=
  mkQuiet (dispatched_store claimed_row claimed_row s s' (w_nodeID w) 1 firing_start resp doErr)
    now (tl (tl (q_ids q))) (q_http q) (q_calls q ++ [firing_request]) [].

Lemma advanced_slot e e' sc sc' :
  e'.(Execution.ScheduledFor) = e.(Execution.ScheduledFor) → advanced e sc sc' → advanced e' sc sc'.
Proof. intros He [o ? ? Ho|? ?|?]; constructor; try done. by rewrite He. Qed.

Lemma answered_dispatchable resp doErr :
  firing → answered resp doErr →
  dispatchable claimed_row claimed_row s s s' (w_nodeID w) 1 firing_start resp doErr.
Proof.
  intros [_ _ _ _ _ _ _ (Hst & Ht & Ha) (N1 & N2 & N3 & N4 & N5 & N6) Hn Hw] [Hh Hc Hnext (W1 & W2 & W3 & W4)].
  split; try done.
  - by rewrite Ht.
  - simpl. rewrite Ht. apply lookup_insert_eq.
  - by rewrite Ht.
  - simpl. by rewrite Ht.
  - by apply (advanced_slot claimed_row).
Qed.

Lemma answered_drain resp doErr :
  firing → answered resp doErr →
  drain (set_queue [TFresh fired_task] claimed) = first_round resp doErr.
Proof.
  intros Hf Hac. pose proof (answered_dispatchable _ _ Hf Hac) as Hd.
  destruct Hf as [_ _ _ _ _ _ _ (Hst & Ht & Ha) _ _ _].
  unfold drain. cbn [foldl q_queue set_queue].
  change (set_queue [] (set_queue [TFresh fired_task] claimed)) with firing_start.
  unfold runTask. rewrite run_bind. cbn [task_run]. unfold freshFireTask_run, with_active_schedule.
  simpl. rewrite Hst. simpl. rewrite bool_decide_false by (intros Hna; by apply Hna).
  by rewrite (dispatch_runs claimed_row claimed_row s s s' (w_nodeID w) (w_defaultCallTimeout w) 1
    firing_start resp doErr Hd).
Qed.

(** The receiver accepts the callback. *)
Record accepting : Prop := {
  ac_http : q_http q firing_request = (Some r, None);
  ac_status : 200 <= resp_StatusCode r < 300;
  ac_next : advanced claimed_row s s';
  ac_writable : writable firing_attempt ∧ writable firing_attempted ∧ writable firing_final ∧ writable s'
}.

Lemma classify_success m : 200 <= resp_StatusCode r < 300 →
  classifyAttemptOutcome (resp_StatusCode r) None 1 m = OutcomeSuccess.
Proof.
  intros Hr. unfold classifyAttemptOutcome. rewrite bool_decide_true by done.
  by rewrite (proj2 (Z.leb_le _ _)), (proj2 (Z.ltb_lt _ _)) by lia.
Qed.

Lemma firing_outcome : 200 <= resp_StatusCode r < 300 →
  outcome claimed_row s (w_nodeID w) 1 firing_start (Some r) None = OutcomeSuccess.
Proof. apply classify_success. Qed.

Lemma accepting_answered : accepting → answered (Some r) None.
Proof.
  intros [Hh Hr Hn (W1 & W2 & W3 & W4)]. split; [done..|]. repeat (split; [done|]). split; [|done].
  unfold final_row. by rewrite (firing_outcome Hr).
Qed.

Lemma firing_drain :
  firing → accepting →
  drain (set_queue [TFresh fired_task] claimed)
  = mkQuiet (with_schedule s' (with_execution firing_final
      (with_execution firing_attempted (with_attempt firing_attempt (q_store claimed)))))
      now (tl (tl (q_ids q))) (q_http q) (q_calls q ++ [firing_request]) [].
Proof.
  intros Hf Hac. rewrite (answered_drain _ _ Hf (accepting_answered Hac)).
  unfold first_round, dispatched_store, final_row. by rewrite (firing_outcome (ac_status Hac)).
Qed.
End tick.

(** A due schedule whose slot is taken: the claim is turned down, an identifier
    is used up. *)
Lemma tick_schedule_taken w tn s slot q :
  s.(Schedule.NextRunAt) = Some slot → ¬ slot_free (q_store q) tn.(Tenant.ID) s.(Schedule.ID) slot →
  run (tick_schedule w tn s) q
  = (None, mkQuiet (q_store q) (q_clock q) (tl (q_ids q)) (q_http q) (q_calls q) (q_queue q)).
Proof.
  intros Hs Ht. unfold tick_schedule. simpl. rewrite Hs. simpl.
  destruct (propose_now _ _ _) as [r sp'] eqn:E. simpl.
  destruct (propose_cases _ _ _ _ _ E) as [(v & -> & Hst)|[[-> (? & ? & ? & _ & _ & ->)]|[-> Hr]]].
  - exfalso. by inversion Hst; subst.
  - done.
  - by destruct r as [v| |]; [destruct (Hr v)|..].
Qed.

(** ** Orphans *)

(** No execution in flight has an attempt, and every slot that may come due is
    taken by one. *)
Record orphaned (sp : Spec) : Prop := {
  or_flight : ∀ p e, sp_executions sp !! p = Some e → e.(Execution.Status) = ExecutionStatusInFlight →
    e.(Execution.LastAttemptID) = "" ∧ e.(Execution.LastRetryAt) = None;
  or_taken : ∀ p s slot, sp_schedules sp !! p = Some s → s.(Schedule.NextRunAt) = Some slot →
    ¬ slot_free sp s.(Schedule.TenantID) s.(Schedule.ID) slot
}.

Definition set_clock (now : Time) (q : quiet Spec) : quiet Spec :=
  mkQuiet (q_store q) now (q_ids q) (q_http q) (q_calls q) (q_queue q).

(** Nothing has happened but time and identifiers used up. *)
Definition nothing_done (sp : Spec) (calls : list Request) (q : quiet Spec) : Prop :=
  q_store q = sp ∧ q_calls q = calls ∧ q_queue q = [].

Section orphans.
Context (w : Worker) (sp : Spec) (calls : list Request).
Context (Ho : orphaned sp).

Lemma orphan_schedule tn s q :
  s ∈ due_rows q tn.(Tenant.ID) → q_store q = sp → nothing_done sp calls q →
  ∃ q', run (tick_schedule w tn s) q = (None, q') ∧ nothing_done sp calls q' ∧ q_clock q' = q_clock q.
Proof.
  intros [Hd [p Hp]]%elem_of_rows_where Hsp Hn. unfold due in Hd. rewrite Hsp in Hp.
  destruct (Schedule.NextRunAt s) as [slot|] eqn:Es.
  2: { exists q. unfold tick_schedule. simpl. by rewrite Es. }
  pose proof (or_taken _ Ho _ _ _ Hp Es) as Ht. rewrite <- Hsp in Ht. bool_hyps.
  eexists. split; [apply (tick_schedule_taken _ _ _ slot); [done|congruence]|]. by destruct q.
Qed.

Lemma orphan_tenant tn q :
  nothing_done sp calls q →
  ∃ q', run (tick_tenant w tn) q = (None, q') ∧ nothing_done sp calls q'.
Proof.
  intros Hn. pose proof Hn as (Hsp & _). unfold tick_tenant. simpl. rewrite read_rows.
  fold (due_rows q tn.(Tenant.ID)). cbn [on_result].
  destruct (run_for_each_keeps (λ q', nothing_done sp calls q' ∧ q_clock q' = q_clock q)
    (tick_schedule w tn) (due_rows q tn.(Tenant.ID)) q) as (q1 & H1 & Hn1 & _); [|done|].
  { intros s q1 Hs [Hn1 Hc]. pose proof Hn1 as (Hsp1 & _).
    destruct (orphan_schedule tn s q1) as (q2 & H2 & Hn2 & Hc2); [|done..|].
    - unfold due_rows in *. by rewrite Hc, Hsp1, <- Hsp.
    - exists q2. rewrite Hc2. done. }
  rewrite run_prog_bind, H1. simpl. rewrite read_rows. exists q1. split; [|done].
  apply executions_idle. intros p e He Hst. destruct Hn1 as (Hsp1 & _). rewrite Hsp1 in He.
  unfold idle. by destruct (or_flight _ Ho _ _ He Hst) as [-> ->].
Qed.

Lemma orphan_tick q :
  nothing_done sp calls q → ∃ q', run_main (runTick w) q = (None, q') ∧ nothing_done sp calls q'.
Proof.
  intros Hn. unfold runTick. simpl. change (prog_bind ?f ?p) with (p ≫= f).
  rewrite run_main_bind by apply no_wait_for_each, tick_tenant_no_wait.
  destruct (run_for_each_keeps (nothing_done sp calls) (tick_tenant w) (all_tenants (q_store q)) q)
    as (q1 & -> & Hn1); [|done|].
  - intros tn q1 _. apply orphan_tenant.
  - simpl. exists (drain q1). split; [done|]. unfold drain. destruct Hn1 as (H1 & H2 & H3).
    by rewrite H3.
Qed.
End orphans.

(** Ticks at given times. *)
Definition ticks (w : Worker) (times : list Time) (q : quiet Spec) : quiet Spec :=
  foldl (λ q now, (run_main (runTick w) (set_clock now q)).2) q times.

Lemma orphans_stay w times q :
  orphaned (q_store q) → q_queue q = [] →
  nothing_done (q_store q) (q_calls q) (ticks w times q).
Proof.
  intros Ho Hq. assert (∀ q1, nothing_done (q_store q) (q_calls q) q1 →
    nothing_done (q_store q) (q_calls q) (ticks w times q1)) as Hall; [|by apply Hall].
  induction times as [|now times IH]; intros q1 Hn; [done|]. apply IH.
  by destruct (orphan_tick w _ _ Ho (set_clock now q1) Hn) as (q2 & -> & ?).
Qed.
End firing.
