(* ===== verification/Retrying.v ===== *)
(** * Retrying: an execution from its first attempt to its last

    A worker alone on a store where one execution waits for its retry: a tick at
    or after the retry time makes the next attempt, and when the receiver never
    accepts, the attempts come to the schedule's limit and the execution ends. *)

From S2P Require Import Prelude Go GoTime GoFloat Model RecurrenceCalc Json Storage Command Dispatch.
From S2P Require Import StateMachine RaftNode Spec Lifecycle Invariants Refinement RefinementScan RefinementTx.
From S2P Require Import Attempts Sha256 Prog Worker WorkerSafe Quiet Firing.
Open Scope Z_scope.

(** A sorted list of one element. *)
Lemma sorted_singleton {A} (R : relation A) (l : list A) x :
  ¬ R x x → StronglySorted R l → x ∈ l → (∀ y, y ∈ l → y = x) → l = [x].
Proof.
  intros HR Hs Hx Hall. destruct l as [|y l]; [by apply not_elem_of_nil in Hx|].
  assert (y = x) as -> by apply Hall, list_elem_of_here. destruct l as [|z l]; [done|].
  exfalso. assert (z = x) as -> by apply Hall, list_elem_of_further, list_elem_of_here.
  apply StronglySorted_inv in Hs as [_ Hf]. apply Forall_inv in Hf. done.
Qed.

Lemma sorted_split {A} (R : relation A) (k1 k2 : list A) x :
  ¬ R x x → StronglySorted R (k1 ++ x :: k2) → x ∉ k1 ++ k2.
Proof.
  intros HR Hs [Hx|Hx]%elem_of_app; apply HR.
  - apply (StronglySorted_app_1_elem_of R _ _ _ _ Hs Hx). by left.
  - apply StronglySorted_app_1_r, StronglySorted_inv in Hs as [_ Hf].
    by eapply Forall_forall in Hf.
Qed.

(** Rows sit under their own tenant and identifier. *)
Definition own_keys {Row} (ten idOf : Row → string) (m : gmap (string * string) Row) : Prop :=
  ∀ p x, m !! p = Some x → p = (ten x, idOf x).

Lemma own_keys_strict {Row} (ten idOf : Row → string) m t (P : Row → bool) :
  own_keys ten idOf m → (∀ x, P x = true → ten x = t) →
  StronglySorted (λ x y, str_lt (idOf x) (idOf y)) (rows_where idOf P m).
Proof. intros Hk HP. unfold rows_where. by eapply sorted_rows_strict, rows_nodup. Qed.

Lemma own_keys_insert {Row} (ten idOf : Row → string) m x :
  own_keys ten idOf m → own_keys ten idOf (<[(ten x, idOf x) := x]> m).
Proof. intros Hk p y [[<- <-]|[_ Hp]]%lookup_insert_Some; [done|by apply Hk]. Qed.

(** The one row that passes the test. *)
Lemma rows_where_only {Row} (ten idOf : Row → string) m t (P : Row → bool) x p :
  own_keys ten idOf m → (∀ x, P x = true → ten x = t) → m !! p = Some x → P x = true →
  (∀ q y, m !! q = Some y → P y = true → q = p) → rows_where idOf P m = [x].
Proof.
  intros Hk HP Hx Hpx Hall. eapply (sorted_singleton (λ x y, str_lt (idOf x) (idOf y))).
  - apply str_lt_irrefl.
  - by eapply own_keys_strict.
  - apply elem_of_rows_where. eauto.
  - intros y [Hy [q Hq]]%elem_of_rows_where. rewrite (Hall _ _ Hq Hy) in Hq. congruence.
Qed.

Lemma rows_where_none {Row} (idOf : Row → string) m (P : Row → bool) :
  (∀ q y, m !! q = Some y → P y = true → False) → rows_where idOf P m = [].
Proof.
  intros Hall. destruct (rows_where idOf P m) as [|x l] eqn:E; [done|]. exfalso.
  assert (x ∈ rows_where idOf P m) as [Hx [q Hq]]%elem_of_rows_where by (rewrite E; apply list_elem_of_here).
  eauto.
Qed.

Section retrying.
Context `{PF : !Platform, J : !Json}.
Context (w : Worker) (tn : Tenant) (l1 l2 : list Tenant) (s s' : Schedule) (slot horizon : Time).
Context (resp : option Response) (doErr : option DoErr).

Notation t := tn.(Tenant.ID).
Notation key e := (t, e.(Execution.ID)).

(** ** The store around the execution *)

(** Up to the horizon nothing else comes due, neither a schedule nor a retry. *)
Record calm (id : string) (sp : Spec) : Prop := {
  ca_tenants : all_tenants sp = l1 ++ tn :: l2;
  ca_distinct : ∀ tn', tn' ∈ l1 ++ l2 → tn'.(Tenant.ID) ≠ t;
  ca_schedules : own_keys Schedule.TenantID Schedule.ID (sp_schedules sp);
  ca_executions : own_keys Execution.TenantID Execution.ID (sp_executions sp);
  ca_planned : ∀ p x sl, sp_schedules sp !! p = Some x → p ≠ (t, s.(Schedule.ID)) →
    x.(Schedule.NextRunAt) = Some sl → After sl horizon = true;
  ca_flight : ∀ p x, sp_executions sp !! p = Some x → p ≠ (t, id) →
    x.(Execution.Status) = ExecutionStatusInFlight → idle horizon x
}.

(** The schedule is active and its run is the one of the execution. *)
Record running_slot (e : Execution) (sp : Spec) : Prop := {
  ru_schedule : sp_schedules sp !! (t, s.(Schedule.ID)) = Some s;
  ru_active : s.(Schedule.TenantID) = t ∧ s.(Schedule.Status) = ScheduleStatusActive
              ∧ s.(Schedule.NextRunAt) = Some slot;
  ru_stored : sp_executions sp !! key e = Some e;
  ru_of : e.(Execution.TenantID) = t ∧ e.(Execution.ScheduleID) = s.(Schedule.ID)
          ∧ e.(Execution.ScheduledFor) = slot;
  ru_flight : e.(Execution.Status) = ExecutionStatusInFlight ∧ e.(Execution.OwnerNodeID) = w_nodeID w
}.

Lemma idle_until e now : idle horizon e → After now horizon = false → idle now e.
Proof.
  unfold idle, After. destruct (Execution.LastRetryAt e); [|done]. intros H1 H2. bool_hyps. lia.
Qed.

Lemma slot_taken e sp : running_slot e sp → ¬ slot_free sp t s.(Schedule.ID) slot.
Proof.
  intros [_ _ Hst (Ht & Hs & Hf) _] Hfree. specialize (Hfree _ _ Hst Ht Hs).
  unfold Equal in Hfree. rewrite Hf in Hfree. by rewrite Z.eqb_refl in Hfree.
Qed.

(** Only the schedule of the execution is due. *)
Lemma only_due id sp now tid p x :
  calm id sp → After now horizon = false → sp_schedules sp !! p = Some x → due tid now x = true →
  p = (t, s.(Schedule.ID)).
Proof.
  intros Hc Hn Hp Hd. destruct (decide (p = (t, s.(Schedule.ID)))) as [|Hne]; [done|]. exfalso.
  unfold due, not_due in Hd. destruct (Schedule.NextRunAt x) as [sl|] eqn:Es; [|by rewrite andb_false_r in Hd].
  pose proof (ca_planned _ _ Hc _ _ _ Hp Hne Es) as Ha. unfold After in *. bool_hyps. lia.
Qed.

Lemma due_others id sp now tid :
  calm id sp → After now horizon = false → tid ≠ t →
  rows_where Schedule.ID (due tid now) (sp_schedules sp) = [].
Proof.
  intros Hc Hn Ht. apply rows_where_none. intros p x Hp Hd.
  pose proof (only_due _ _ _ _ _ _ Hc Hn Hp Hd) as ->.
  pose proof (ca_schedules _ _ Hc _ _ Hp). unfold due in Hd. bool_hyps. congruence.
Qed.

Lemma due_own id sp now :
  calm id sp → After now horizon = false → sp_schedules sp !! (t, s.(Schedule.ID)) = Some s →
  due t now s = true → rows_where Schedule.ID (due t now) (sp_schedules sp) = [s].
Proof.
  intros Hc Hn Hs Hd. eapply (rows_where_only Schedule.TenantID); [apply Hc| |exact Hs|exact Hd|].
  - intros x Hx. unfold due in Hx. by bool_hyps.
  - intros p x Hp Hx. by eapply only_due.
Qed.

(** ** One tick *)

Lemma other_idle id sp now tid x p :
  calm id sp → After now horizon = false → sp_executions sp !! p = Some x →
  in_status tid ExecutionStatusInFlight x = true → p ≠ (t, id) → idle now x.
Proof.
  intros Hc Hn Hp Hx Hne. unfold in_status in Hx. bool_hyps.
  apply idle_until; [|done]. by eapply (ca_flight _ _ Hc).
Qed.

Lemma other_tenant id tn' q :
  calm id (q_store q) → After (q_clock q) horizon = false → tn'.(Tenant.ID) ≠ t →
  run (tick_tenant w tn') q = (None, q).
Proof.
  intros Hc Hn Ht. unfold tick_tenant. simpl. rewrite read_rows, (due_others _ _ _ _ Hc Hn Ht). simpl.
  rewrite read_rows. cbn [on_result]. apply run_for_each_idle.
  intros x [Hx [p Hp]]%elem_of_rows_where. apply tick_execution_idle.
  eapply other_idle; [done..|]. rewrite (ca_executions _ _ Hc _ _ Hp).
  unfold in_status in Hx. bool_hyps. congruence.
Qed.

(** The execution waits for a retry at [q], due or not. *)
Record retrying (e : Execution) (q : quiet Spec) : Prop := {
  re_calm : calm e.(Execution.ID) (q_store q);
  re_running : running_slot e (q_store q);
  re_clock : After slot (q_clock q) = false ∧ After (q_clock q) horizon = false;
  re_retry : ∃ r, e.(Execution.LastRetryAt) = Some r;
  re_queue : q_queue q = []
}.

(** Whether its time has come. *)
Definition early (e : Execution) (q : quiet Spec) : bool :=
  match e.(Execution.LastRetryAt) with Some r => After r (q_clock q) | None => false end.

Definition retry_task (e : Execution) : inFlightTask :=
  mkInFlight e (Some s) KindRetry (w_nodeID w) (w_defaultCallTimeout w).

(** After the claim that is turned down. *)
Definition retry_tasks (e : Execution) (q : quiet Spec) : list Task :=
  if early e q then [] else [TInFlight (retry_task e)].
Definition retry_start (q : quiet Spec) : quiet Spec :=
  mkQuiet (q_store q) (q_clock q) (tl (q_ids q)) (q_http q) (q_calls q) [].

Lemma due_running e q : retrying e q → due t (q_clock q) s = true.
Proof.
  intros [_ [_ (Ht & Ha & Hn) _ _ _] [Hc _] _ _]. unfold due, not_due. rewrite Hn.
  by rewrite !bool_decide_true, Hc by done.
Qed.

Lemma tick_execution_due e q :
  retrying e q →
  run (tick_execution w tn e) (retry_start q) = (None, set_queue (retry_tasks e q) (retry_start q)).
Proof.
  intros [_ [Hs _ _ (_ & Hsid & _) _] _ (r & Hr) _]. unfold tick_execution, retry_tasks, early. simpl.
  rewrite Hr, bool_decide_false by (by intros []). simpl. destruct (After _ _); [done|]. simpl.
  rewrite Hsid, Hs. done.
Qed.

Lemma tick_tenant_due e q :
  retrying e q →
  run (tick_tenant w tn) q = (None, set_queue (retry_tasks e q) (retry_start q)).
Proof.
  intros Hr. pose proof (due_running e q Hr) as Hd. pose proof Hr as [Hc Hru [_ Hn] _ Hq].
  pose proof Hru as [Hs (_ & _ & Hnext) Hst (Het & _) (Hf & _)].
  unfold tick_tenant. simpl. rewrite read_rows, (due_own _ _ _ Hc Hn Hs Hd). cbn [on_result].
  rewrite run_prog_bind. cbn [for_each]. rewrite run_bind.
  rewrite (tick_schedule_taken _ _ _ slot) by (done || by eapply slot_taken). rewrite Hq.
  fold (retry_start q). simpl. rewrite read_rows. cbn [on_result].
  set (rows := rows_where Execution.ID (in_status t ExecutionStatusInFlight) (sp_executions (q_store q))).
  assert (in_status t ExecutionStatusInFlight e = true) as He
    by (unfold in_status; by rewrite !bool_decide_true by done).
  assert (e ∈ rows) as (k1 & k2 & Hrows)%list_elem_of_split by (apply elem_of_rows_where; eauto).
  assert (∀ x q', x ∈ k1 ++ k2 → q_clock q' = q_clock q → run (tick_execution w tn x) q' = (None, q')) as Hidle.
  { intros x q' Hx Hq'. apply tick_execution_idle. rewrite Hq'.
    assert (StronglySorted (λ x y, str_lt (Execution.ID x) (Execution.ID y)) rows) as Hsort.
    { eapply (own_keys_strict Execution.TenantID); [apply Hc|]. intros y Hy. unfold in_status in Hy. by bool_hyps. }
    assert (x ∈ rows) as [Hx' [p Hp]]%elem_of_rows_where by (rewrite Hrows; set_solver).
    eapply other_idle; [done..|]. intros ->. assert (x = e) as -> by congruence.
    rewrite Hrows in Hsort. refine (sorted_split _ k1 k2 e _ Hsort Hx). apply str_lt_irrefl. }
  rewrite Hrows. erewrite run_for_each_app; [|apply run_for_each_idle; intros x Hx; apply Hidle; [set_solver|done]].
  cbn [for_each]. rewrite run_bind, (tick_execution_due e q Hr). cbn [fst snd].
  apply run_for_each_idle. intros x Hx. apply Hidle; [set_solver|done].
Qed.

Lemma runTick_retries e q :
  retrying e q →
  run_main (runTick w) q = (None, drain (set_queue (retry_tasks e q) (retry_start q))).
Proof.
  intros Hr. pose proof Hr as [Hc _ [_ Hn] _ _]. set (q1 := set_queue _ (retry_start q)).
  unfold runTick. simpl. rewrite (ca_tenants _ _ Hc). cbn [on_result].
  change (prog_bind ?f ?p) with (p ≫= f). rewrite run_main_bind by apply no_wait_for_each, tick_tenant_no_wait.
  assert (∀ x q', x ∈ l1 ++ l2 → q_store q' = q_store q → q_clock q' = q_clock q →
    run (tick_tenant w x) q' = (None, q')) as Hidle.
  { intros x q' Hx Hst Hck. apply (other_tenant e.(Execution.ID)); rewrite ?Hst, ?Hck; try done.
    by apply (ca_distinct _ _ Hc). }
  erewrite run_for_each_app; [|apply run_for_each_idle; intros x Hx; apply Hidle; set_solver].
  cbn [for_each]. rewrite run_bind, (tick_tenant_due e q Hr). cbn [fst snd]. fold q1.
  by rewrite run_for_each_idle by (intros x Hx; apply Hidle; set_solver).
Qed.

(** ** One round: the next attempt *)

(** The call of a round, and the rows it writes. *)
Definition next_number (e : Execution) : Z := wrap64 (e.(Execution.AttemptCount) + 1).
Definition retry_request (e : Execution) (q : quiet Spec) : Request :=
  dispatched_request e s (retry_start q).
Definition retry_outcome (e : Execution) (q : quiet Spec) : string :=
  outcome e s (w_nodeID w) (next_number e) (retry_start q) resp doErr.
Definition retried (e : Execution) (q : quiet Spec) : Execution :=
  attempted_row e e s (w_nodeID w) (next_number e) (retry_start q) resp doErr.
Definition retry_round (e : Execution) (q : quiet Spec) : quiet Spec :=
  mkQuiet (dispatched_store e e s s' (w_nodeID w) (next_number e) (retry_start q) resp doErr)
    (q_clock q) (tl (tl (q_ids q))) (q_http q) (q_calls q ++ [retry_request e q]) [].

(** What the round needs of its surroundings. *)
Record round_ok (e : Execution) (q : quiet Spec) : Prop := {
  rd_http : q_http q (retry_request e q) = (resp, doErr);
  rd_canceled : ∀ d, doErr = Some d → is_canceled d = false;
  rd_names : t ≠ "" ∧ e.(Execution.ID) ≠ "" ∧ hd "" (tl (q_ids q)) ≠ "" ∧ w_nodeID w ≠ ""
             ∧ s.(Schedule.CallbackURL) ≠ "";
  rd_now : IsZero (q_clock q) = false;
  rd_next : advanced e s s';
  rd_writable : writable (attempt_row e e s (w_nodeID w) (next_number e) (retry_start q) resp doErr)
    ∧ writable (retried e q)
    ∧ writable (final_row e e s (w_nodeID w) (next_number e) (retry_start q) resp doErr)
    ∧ writable s'
}.

Lemma early_tick e q :
  retrying e q → early e q = true → run_main (runTick w) q = (None, retry_start q).
Proof. intros Hr He. rewrite (runTick_retries e q Hr). unfold retry_tasks. by rewrite He. Qed.

Lemma retry_tick e q :
  retrying e q → early e q = false → round_ok e q → run_main (runTick w) q = (None, retry_round e q).
Proof.
  intros Hr He [H1 H2 H3 H4 H5 (W1 & W2 & W3 & W4)]. rewrite (runTick_retries e q Hr).
  unfold retry_tasks. rewrite He.
  destruct Hr as [_ [Hs (Ht & Ha & Hn) Hst (Het & Hes & Hef) (Hf & Ho)] _ _ _].
  assert (dispatchable e e s s s' (w_nodeID w) (next_number e) (retry_start q) resp doErr) as Hd.
  { split; try done.
    - by rewrite Ht.
    - by rewrite Ht.
    - by rewrite Ht, Het.
    - by rewrite Ht, Hes.
    - by apply (advanced_slot e). }
  unfold drain. cbn [foldl q_queue set_queue].
  change (set_queue [] (set_queue [TInFlight (retry_task e)] (retry_start q))) with (retry_start q).
  unfold runTask. rewrite run_bind. cbn [task_run]. unfold inFlightTask_run, runRetry, with_active_schedule.
  simpl. rewrite Het, Hes, Hs. simpl.
  rewrite bool_decide_false by (intros Hna; by apply Hna). fold (next_number e).
  rewrite (dispatch_runs e e s s s' (w_nodeID w) (w_defaultCallTimeout w) (next_number e) _ resp doErr Hd).
  done.
Qed.

(** ** Until the limit *)

Notation maxAttempts := s.(Schedule.MaxAttempts).
Notation delay := (DelayForAttempt s.(Schedule.RetryBackoff)).

(** The receiver never accepts. *)
Definition refusing : Prop :=
  ¬ (doErr = None ∧ ∃ r, resp = Some r ∧ 200 <= resp_StatusCode r < 300).

Lemma refusing_outcome exec e0 n q :
  refusing → 0 < maxAttempts →
  outcome exec s (w_nodeID w) n q resp doErr = (if maxAttempts <=? n then OutcomeTerminalFailure else OutcomeRetry)
  ∧ attempted_row exec e0 s (w_nodeID w) n q resp doErr
    = Execution.set_LastRetryAt
        (if maxAttempts <=? n then None else Some (Add (q_clock q) (delay n)))
        (Execution.set_LastAttemptID (hd "" (q_ids q))
           (Execution.set_AttemptCount (wrap64 (e0.(Execution.AttemptCount) + 1)) e0)).
Proof.
  intros Hr Hm. unfold attempted_row, with_new_attempt, outcome, recorded_cmd, attempt_command.
  simpl. unfold classifyAttemptOutcome.
  assert (bool_decide (doErr = None) && (200 <=? match resp with Some r => resp_StatusCode r | None => 0 end)
    && (match resp with Some r => resp_StatusCode r | None => 0 end <? 300) = false) as ->.
  { apply not_true_is_false. intros H. apply Hr. bool_hyps. destruct resp as [r|]; [|lia].
    split; [done|]. exists r. split; [done|lia]. }
  rewrite (proj2 (Z.ltb_lt _ _) Hm). simpl. by destruct (maxAttempts <=? n).
Qed.

(** The execution waits for the retry that its attempt of [last] set. *)
Record waiting_retry (last : Time) (e : Execution) (q : quiet Spec) : Prop := {
  wr_calm : calm e.(Execution.ID) (q_store q);
  wr_running : running_slot e (q_store q);
  wr_retry : e.(Execution.LastRetryAt) = Some (Add last (delay e.(Execution.AttemptCount)));
  wr_slot : After slot last = false;
  wr_queue : q_queue q = []
}.

(** Ticks from an attempt of [last], the [n]th, on: one before the retry time is
    too early, one at or after it makes the next attempt. *)
Definition too_early (last : Time) (n : Z) (now : Time) : bool := After (Add last (delay n)) now.

Fixpoint attempts_made (last : Time) (n : Z) (times : list Time) : Z :=
  match times with
  | [] => n
  | now :: times =>
      if too_early last n now then attempts_made last n times else attempts_made now (n + 1) times
  end.

(** They come after the attempt and up to the horizon, and stop at the limit. *)
Fixpoint patient (last : Time) (n : Z) (times : list Time) : Prop :=
  match times with
  | [] => True
  | now :: times =>
      n < maxAttempts ∧ After last now = false ∧ After now horizon = false
      ∧ if too_early last n now then patient last n times else patient now (n + 1) times
  end.

Lemma patient_limit times last n :
  n <= maxAttempts → patient last n times → attempts_made last n times <= maxAttempts.
Proof.
  revert last n. induction times as [|now times IH]; intros last n Hn; [done|]. simpl.
  intros (H & _ & _ & Hp). destruct (too_early last n now); (eapply IH; [|exact Hp]); lia.
Qed.

Lemma patient_due last e q now :
  waiting_retry last e q → After last now = false → After now horizon = false →
  retrying e (set_clock now q)
  ∧ early e (set_clock now q) = too_early last e.(Execution.AttemptCount) now.
Proof.
  intros [Hc Hr Hl Hs Hq] H1 H2. split; [|by unfold early; rewrite Hl].
  split; try done; simpl; [|by eexists]. split; [|done]. unfold After in *. bool_hyps. lia.
Qed.

Lemma waits_on last e now q :
  waiting_retry last e q → waiting_retry last e (retry_start (set_clock now q)).
Proof. by intros []. Qed.

(** An attempt that leaves its execution waiting. *)
Lemma recorded_waits (e : Execution) at_ c (sp : Spec) (q : quiet Spec) :
  let e' := with_new_attempt c e in
  calm e.(Execution.ID) sp → running_slot e sp →
  q_store q = with_execution e' (with_attempt at_ sp) → q_queue q = [] →
  After slot (q_clock q) = false →
  e'.(Execution.LastRetryAt) = Some (Add (q_clock q) (delay e'.(Execution.AttemptCount))) →
  waiting_retry (q_clock q) e' q.
Proof.
  intros e' [C1 C2 C3 C4 C5 C6] [R1 R2 R3 (R4 & R5) R6] Hst Hq Hslot Hr.
  assert (key e' = (e.(Execution.TenantID), e.(Execution.ID))) as Hk by (by rewrite R4).
  split; [..|done|done|done]; rewrite Hst.
  - split; try done; simpl.
    + by apply (own_keys_insert Execution.TenantID Execution.ID _ e').
    + intros p x [[<- <-]|[_ Hp]]%lookup_insert_Some Hne; [by rewrite R4 in Hne|by eapply C6].
  - split; try done. simpl. rewrite R4. apply lookup_insert_eq.
Qed.

Lemma round_waits last e q :
  let q' := retry_round e q in
  retrying e q → refusing → e.(Execution.AttemptCount) + 1 < maxAttempts → 0 <= e.(Execution.AttemptCount) →
  maxAttempts <= maxInt64 → After last (q_clock q) = false →
  waiting_retry (q_clock q) (retried e q) q' ∧ (retried e q).(Execution.AttemptCount) = e.(Execution.AttemptCount) + 1.
Proof.
  intros q' [Hc Hr [Hs _] _ Hq] Href Hn H0 Hm Hl.
  assert (next_number e = e.(Execution.AttemptCount) + 1) as Hnum
    by (apply wrap64_id; unfold in_int64, maxInt64 in *; lia).
  destruct (refusing_outcome e e (next_number e) (retry_start q) Href) as [Ho Ha]; [lia|].
  rewrite (proj2 (Z.leb_gt _ _)) in Ho, Ha by lia.
  assert ((retried e q).(Execution.AttemptCount) = next_number e) as Hcount by done.
  split; [|congruence].
  apply (recorded_waits e (attempt_row e e s (w_nodeID w) (next_number e) (retry_start q) resp doErr)
    (recorded_cmd e s (w_nodeID w) (next_number e) (retry_start q) resp doErr) (q_store q) q'); try done.
  - simpl. unfold dispatched_store. by rewrite bool_decide_true.
  - change (Execution.LastRetryAt (retried e q)
      = Some (Add (q_clock q) (delay (Execution.AttemptCount (retried e q))))).
    rewrite Hcount. unfold retried. by rewrite Ha.
Qed.

(** The last attempt ends the execution. *)
Definition given_up (e e' : Execution) (q : quiet Spec) : Prop :=
  sp_executions (q_store q) !! key e = Some e'
  ∧ e'.(Execution.Status) = ExecutionStatusFailedTerminal
  ∧ e'.(Execution.FinalOutcome) = OutcomeTerminalFailure
  ∧ e'.(Execution.AttemptCount) = maxAttempts
  ∧ e'.(Execution.IdempotencyKey) = e.(Execution.IdempotencyKey)
  ∧ sp_schedules (q_store q) !! (t, s.(Schedule.ID)) = Some s'.

Lemma dispatched_gives_up exec e0 q (q' : quiet Spec) :
  refusing → 0 < maxAttempts → advanced e0 s s' → s.(Schedule.TenantID) = t →
  e0.(Execution.TenantID) = t → wrap64 (e0.(Execution.AttemptCount) + 1) = maxAttempts →
  q_store q' = dispatched_store exec e0 s s' (w_nodeID w) maxAttempts q resp doErr →
  given_up e0 (final_row exec e0 s (w_nodeID w) maxAttempts q resp doErr) q'.
Proof.
  intros Href Hm Hadv Ht Het Hn Hst. destruct (refusing_outcome exec e0 maxAttempts q Href Hm) as [Ho _].
  rewrite Z.leb_refl in Ho. unfold given_up. rewrite Hst. unfold dispatched_store, final_row.
  rewrite Ho. simpl. destruct (advanced_identity _ _ _ Hadv) as [-> ->].
  split; [rewrite Het; apply lookup_insert_eq|]. do 2 (split; [done|]). split; [done|]. split; [done|].
  rewrite Ht. apply lookup_insert_eq.
Qed.

(** What a list of tick times needs of the surroundings. *)
Fixpoint rounds_ok (times : list Time) (e : Execution) (q : quiet Spec) : Prop :=
  match times with
  | [] => True
  | now :: times =>
      let q := set_clock now q in
      if early e q then rounds_ok times e (retry_start q)
      else round_ok e q ∧ rounds_ok times (retried e q) (retry_round e q)
  end.

Lemma rounds_early now times e q :
  early e (set_clock now q) = true → rounds_ok times e (retry_start (set_clock now q)) →
  rounds_ok (now :: times) e q.
Proof. intros He H. cbn [rounds_ok]. by rewrite He. Qed.

Lemma rounds_late now times e q :
  early e (set_clock now q) = false → round_ok e (set_clock now q) →
  rounds_ok times (retried e (set_clock now q)) (retry_round e (set_clock now q)) →
  rounds_ok (now :: times) e q.
Proof. intros He H1 H2. cbn [rounds_ok]. by rewrite He. Qed.

(** A callback of the execution. *)
Definition callback_of (e : Execution) (req : Request) : Prop :=
  rq_URL req = s.(Schedule.CallbackURL)
  ∧ rq_Header req !! HeaderIdempotencyKey = Some [e.(Execution.IdempotencyKey)].

(** After [n] attempts the execution waits for the next, or has been given up. *)
Definition after_attempts (n : Z) (e e' : Execution) (q : quiet Spec) : Prop :=
  (n = maxAttempts → given_up e e' q)
  ∧ (n < maxAttempts → ∃ last, waiting_retry last e' q ∧ key e' = key e ∧ e'.(Execution.AttemptCount) = n).

Lemma retries_progress times last e q :
  refusing → maxAttempts <= maxInt64 → 0 <= e.(Execution.AttemptCount) < maxAttempts →
  waiting_retry last e q → patient last e.(Execution.AttemptCount) times → rounds_ok times e q →
  let n := attempts_made last e.(Execution.AttemptCount) times in
  ∃ e' calls, after_attempts n e e' (ticks w times q) ∧ q_calls (ticks w times q) = q_calls q ++ calls
    ∧ Z.of_nat (length calls) = n - e.(Execution.AttemptCount) ∧ Forall (callback_of e) calls.
Proof.
  intros Href Hmax. revert last e q.
  induction times as [|now times IH]; intros last e q H0 Hw Hp Hok; cbn [attempts_made].
  { exists e, []. rewrite app_nil_r, Z.sub_diag. split; [|done]. split; [lia|]. by exists last. }
  destruct Hp as (_ & P1 & P2 & P3). simpl in Hok. set (q1 := set_clock now q) in *.
  destruct (patient_due last e q now Hw P1 P2) as [Hr He]. fold q1 in Hr, He.
  change (ticks w (now :: times) q) with (ticks w times (run_main (runTick w) q1).2).
  rewrite He in Hok. destruct (too_early last e.(Execution.AttemptCount) now).
  { rewrite (early_tick e q1 Hr He). apply (IH last e (retry_start q1)); try done. by apply waits_on. }
  destruct Hok as [Hrd Hok]. rewrite (retry_tick e q1 Hr He Hrd). cbn [snd].
  assert (next_number e = e.(Execution.AttemptCount) + 1) as Hnum
    by (apply wrap64_id; unfold in_int64, maxInt64 in *; lia).
  assert (callback_of e (retry_request e q1)) as Hcb by (split; [done|apply request_headers_key]).
  destruct (decide (next_number e = maxAttempts)) as [Hmx|Hmx].
  - assert (times = []) as -> by (destruct times; [done|destruct P3; lia]). simpl.
    eexists _, [retry_request e q1]. split; [|split; [done|split; [simpl; lia|by apply Forall_singleton]]].
    split; [intros _|lia].
    destruct Hr as [_ [_ (Ht & _) _ (Het & _) _] _ _ _], Hrd as [_ _ _ _ Hadv _].
    eapply dispatched_gives_up; [done|lia|done|done|done|exact Hmx|]. simpl. by rewrite Hmx.
  - destruct (round_waits last e q1 Hr Href) as [Hw' Hc']; [lia..|done|].
    rewrite <- Hc' in P3. rewrite <- Hc'.
    destruct (IH now (retried e q1) (retry_round e q1)) as (e' & calls & Hg & Hcalls & Hl & Hall);
      [lia|done..|].
    exists e', (retry_request e q1 :: calls). split; [exact Hg|]. split.
    { rewrite Hcalls. simpl. by rewrite <- app_assoc. }
    split; [cbn [length]; lia|]. by apply Forall_cons.
Qed.
End retrying.

(** ** From the claim on *)

Section from_the_claim.
Context `{PF : !Platform, J : !Json}.
Context (w : Worker) (tn : Tenant) (l1 l2 : list Tenant) (s s' : Schedule) (slot horizon : Time).
Context (resp : option Response) (doErr : option DoErr) (q : quiet Spec).

Notation now := (q_clock q).
Notation e0 := (claimed_row w tn s slot q).
Notation maxAttempts := s.(Schedule.MaxAttempts).

(** The execution the first attempt leaves. *)
Definition first_attempted : Execution :=
  attempted_row e0 e0 s (w_nodeID w) 1 (firing_start w tn s slot q) resp doErr.

(** The slot is due, the receiver answers but never accepts, and up to the
    horizon nothing else is to be done. *)
Record failing : Prop := {
  fl_firing : firing w tn l1 l2 s slot q;
  fl_answered : answered w tn s s' slot q resp doErr;
  fl_refusing : refusing resp doErr;
  fl_limit : 0 < maxAttempts <= maxInt64;
  fl_calm : calm tn l1 l2 s horizon e0.(Execution.ID) (q_store q);
  fl_slot : After slot now = false
}.

Lemma first_tick :
  failing → run_main (runTick w) q = (None, first_round w tn s s' slot q resp doErr).
Proof.
  intros [Hf Ha _ _ _ _]. rewrite (runTick_claims _ _ _ _ _ _ _ Hf).
  by rewrite (answered_drain _ _ _ _ _ _ _ _ _ _ Hf Ha).
Qed.

Lemma first_waits :
  failing → 1 < maxAttempts →
  waiting_retry w tn l1 l2 s slot horizon now first_attempted (first_round w tn s s' slot q resp doErr).
Proof.
  intros [Hf Ha Href Hm Hc Hslot] H1.
  destruct (refusing_outcome w s resp doErr e0 e0 1 (firing_start w tn s slot q) Href) as [Ho Hr]; [lia|].
  rewrite (proj2 (Z.leb_gt _ _)) in Ho, Hr by lia.
  destruct Hf as [_ _ _ _ _ [Hn _] _ (Hst & Ht & Hact) _ _ _].
  apply (recorded_waits w tn l1 l2 s slot horizon e0
    (attempt_row e0 e0 s (w_nodeID w) 1 (firing_start w tn s slot q) resp doErr)
    (recorded_cmd e0 s (w_nodeID w) 1 (firing_start w tn s slot q) resp doErr)
    (q_store (claimed w tn s slot q)) (first_round w tn s s' slot q resp doErr)); try done.
  - destruct Hc as [C1 C2 C3 C4 C5 C6]. split; try done.
    + by apply (own_keys_insert Execution.TenantID Execution.ID _ e0).
    + simpl. intros p x [[<- <-]|[_ Hp]]%lookup_insert_Some Hne; [done|by eapply C6].
  - split; try done. simpl. apply lookup_insert_eq.
  - simpl. unfold dispatched_store. by rewrite bool_decide_true.
  - change (Execution.LastRetryAt first_attempted
      = Some (Add now (DelayForAttempt (Schedule.RetryBackoff s) 1))).
    unfold first_attempted. by rewrite Hr.
Qed.

Lemma first_progress times :
  failing → patient s horizon now 1 times →
  rounds_ok w tn s s' resp doErr times first_attempted (first_round w tn s s' slot q resp doErr) →
  let n := attempts_made s now 1 times in
  let q' := ticks w (now :: times) q in
  ∃ e' calls, after_attempts w tn l1 l2 s s' slot horizon n e0 e' q' ∧ q_calls q' = q_calls q ++ calls
    ∧ Z.of_nat (length calls) = n ∧ Forall (callback_of s e0) calls.
Proof.
  intros Hfl Hp Hok n q'. unfold q', ticks. cbn [foldl].
  assert (set_clock now q = q) as -> by (by destruct q). rewrite (first_tick Hfl). cbn [snd].
  set (req := firing_request w tn s slot q).
  assert (callback_of s e0 req) as Hcb by (split; [done|apply request_headers_key]).
  pose proof Hfl as [Hf Ha Href Hm _ _]. destruct (decide (maxAttempts = 1)) as [H1|H1].
  - assert (times = []) as -> by (destruct times; [done|destruct Hp; lia]). simpl in *.
    destruct Hf as [_ _ _ _ _ _ _ (Hst & Ht & Hact) _ _ _].
    eexists _, [req]. split; [|split; [done|split; [done|by apply Forall_singleton]]].
    split; [intros _|lia].
    eapply (dispatched_gives_up w tn s s' resp doErr e0 e0); [done|lia|apply Ha|done|done|by rewrite H1|].
    by rewrite H1.
  - destruct (retries_progress w tn l1 l2 s s' slot horizon resp doErr times now first_attempted
      (first_round w tn s s' slot q resp doErr)) as (e' & calls & Hg & Hcalls & Hl & Hall);
      [done|lia|change (0 <= 1 < maxAttempts); lia|apply first_waits; [done|lia]|done..|].
    exists e', (req :: calls). split; [exact Hg|]. split.
    { unfold ticks in Hcalls. rewrite Hcalls. simpl. by rewrite <- app_assoc. }
    split; [|by apply Forall_cons]. cbn [length]. rewrite Nat2Z.inj_succ, Hl.
    change (Execution.AttemptCount first_attempted) with 1. unfold n. lia.
Qed.
End from_the_claim.
