(* ===== verification/Takeover.v ===== *)
(** * Takeover: when recovery succeeds

    A worker died and left executions in flight: waiting for their first attempt
    or for a retry, or with a final attempt recorded and not yet finalised.  The
    recovery of the next one, alone on the store, adopts the former, finalises the
    latter, and returns no error. *)

From S2P Require Import Prelude Go GoTime GoFloat Model RecurrenceCalc Json Storage Command Dispatch.
From S2P Require Import StateMachine RaftNode Spec Lifecycle Invariants Refinement RefinementScan RefinementTx.
From S2P Require Import Attempts Sha256 Prog Worker WorkerSafe Quiet Recovery Firing.
Open Scope Z_scope.

Section takeover.
Context `{PF : !Platform, J : !Json} (w : Worker).

Definition adopted (e : Execution) : Execution := Execution.set_OwnerNodeID (w_nodeID w) e.

(** Finalising an execution: the row can be written, and its schedule moved on. *)
Definition finishing (now : Time) (sp : Spec) (p : string * string) (e : Execution) (st out : string) : Prop :=
  writable (finalized e st out now)
  ∧ ∃ s s', sp_schedules sp !! (p.1, e.(Execution.ScheduleID)) = Some s ∧ advanced e s s' ∧ writable s'.

(** What each execution in flight must be like: its attempts can be classified,
    and what recovery then does with it can be written. *)
Definition settleable (now : Time) (sp : Spec) (p : string * string) (e : Execution) : Prop :=
  p.1 ≠ "" ∧ p.2 ≠ "" ∧ ∃ b, classifyOne (attempts_of sp p.1 p.2) now = Ok b ∧
  if bool_decide (b = BucketSuccess) then finishing now sp p e ExecutionStatusSucceeded OutcomeSuccess
  else if bool_decide (b = BucketTerminalFailure)
  then finishing now sp p e ExecutionStatusFailedTerminal OutcomeTerminalFailure
  else writable (adopted e).

Definition all_settleable (now : Time) (sp : Spec) : Prop :=
  w_nodeID w ≠ "" ∧ ∀ p e, sp_executions sp !! p = Some e →
    e.(Execution.Status) = ExecutionStatusInFlight → settleable now sp p e.

Lemma adopt_accepted c at_ sp e :
  let e' := Execution.set_OwnerNodeID c.(AdoptExecutionCommand.NewOwner) e in
  let t := c.(AdoptExecutionCommand.TenantID) in
  t ≠ "" → c.(AdoptExecutionCommand.ExecutionID) ≠ "" → c.(AdoptExecutionCommand.PreviousOwner) ≠ "" →
  c.(AdoptExecutionCommand.NewOwner) ≠ "" →
  c.(AdoptExecutionCommand.NewOwner) ≠ c.(AdoptExecutionCommand.PreviousOwner) →
  sp_executions sp !! (t, c.(AdoptExecutionCommand.ExecutionID)) = Some e →
  e.(Execution.Status) = ExecutionStatusInFlight →
  e.(Execution.OwnerNodeID) = c.(AdoptExecutionCommand.PreviousOwner) → writable e' →
  propose_now (adopt_execution c) at_ sp = (Ok (RExecution e'), with_execution e' sp).
Proof.
  intros e' t H1 H2 H3 H4 H5 H6 H7 H8 H9.
  assert (ApplyAdoptExecution c at_ sp = (Ok e', with_execution e' sp)) as Hap.
  { unfold ApplyAdoptExecution. do 4 (apply ok_guard; [by apply not_empty|]).
    apply ok_guard; [by apply bool_decide_eq_false_2|]. apply ok_read. fold t. rewrite H6.
    do 2 (apply ok_guard; [apply bool_decide_eq_false_2; auto|]). by apply ok_put. }
  unfold propose_now, Update. simpl. by rewrite (M_bind_ok _ _ _ _ _ Hap).
Qed.

(** *** What one execution's turn leaves for the others *)

(** A schedule that has moved on for one execution still moves on for another. *)
Lemma advanced_again e1 e s s1 s' :
  advanced e1 s s1 → advanced e s s' → writable s' → ∃ s2, advanced e s1 s2 ∧ writable s2.
Proof.
  intros H1 H2 Hw. inversion H1 as [o1 T1 A1 O1|T1 A1|T1]; inversion H2 as [o2 T2 A2 O2|T2 A2|T2]; subst;
    try contradiction; (eexists; split; [by constructor|done]).
Qed.

Lemma finishing_adopted now sp e p x st out :
  finishing now sp p x st out → finishing now (with_execution e sp) p x st out.
Proof. done. Qed.

Lemma finishing_completed now sp e s s' p x st out e1 :
  sp_schedules sp !! (s.(Schedule.TenantID), s.(Schedule.ID)) = Some s → advanced e s s' →
  finishing now sp p x st out → finishing now (with_schedule s' (with_execution e1 sp)) p x st out.
Proof.
  intros Hs Ha [Hw (s0 & s0' & Hs0 & Ha0 & Hw0)]. split; [done|]. simpl.
  destruct (advanced_identity _ _ _ Ha) as [-> ->].
  destruct (decide ((s.(Schedule.TenantID), s.(Schedule.ID)) = (p.1, x.(Execution.ScheduleID)))) as [Heq|Hne].
  - rewrite Heq, lookup_insert_eq. rewrite Heq, Hs0 in Hs. injection Hs as ->.
    destruct (advanced_again _ _ _ _ _ Ha Ha0 Hw0) as (s2 & ? & ?). by exists s', s2.
  - rewrite lookup_insert_ne by done. by exists s0, s0'.
Qed.

(** A row of its own that is adopted, or final. *)
Lemma settleable_mono now sp sp' p e :
  sp_attempts sp' = sp_attempts sp →
  (∀ st out, finishing now sp p e st out → finishing now sp' p e st out) →
  settleable now sp p e → settleable now sp' p e.
Proof.
  intros Ha Hf (H1 & H2 & b & Hb & H). split; [done|]. split; [done|]. exists b.
  unfold attempts_of in *. rewrite Ha. split; [done|]. repeat case_bool_decide; auto.
Qed.

Lemma all_settleable_adopted now sp e b :
  all_settleable now sp → classifyOne (attempts_of sp e.(Execution.TenantID) e.(Execution.ID)) now = Ok b →
  b ≠ BucketSuccess → b ≠ BucketTerminalFailure → writable (adopted e) →
  e.(Execution.TenantID) ≠ "" → e.(Execution.ID) ≠ "" →
  all_settleable now (with_execution (adopted e) sp).
Proof.
  intros [Hw Hall] Hb H1 H2 Had Ht Hi. split; [done|]. simpl.
  intros p x [[<- <-]|[_ Hx]]%lookup_insert_Some Hst; [|by apply (settleable_mono now sp); [| |apply Hall]].
  split; [done|]. split; [done|]. exists b. split; [exact Hb|]. rewrite !bool_decide_false by done. exact Had.
Qed.

Lemma all_settleable_completed now sp e s s' st out :
  all_settleable now sp → sp_schedules sp !! (s.(Schedule.TenantID), s.(Schedule.ID)) = Some s →
  advanced e s s' → IsTerminal st = true →
  all_settleable now (with_schedule s' (with_execution (finalized e st out now) sp)).
Proof.
  intros [Hw Hall] Hs Ha Hst. split; [done|]. simpl.
  intros p x [[<- <-]|[_ Hx]]%lookup_insert_Some Hx2; [simpl in Hx2; by rewrite Hx2 in Hst|].
  apply (settleable_mono now sp); [done| |by apply Hall]. intros. by eapply finishing_completed.
Qed.

(** *** One execution *)

(** Adopted, finalised, or already this node's. *)
Lemma adopts tn e b q :
  let now := q_clock q in
  inv (q_store q) → sp_executions (q_store q) !! (tn.(Tenant.ID), e.(Execution.ID)) = Some e →
  e.(Execution.Status) = ExecutionStatusInFlight → all_settleable now (q_store q) →
  classifyOne (attempts_of (q_store q) tn.(Tenant.ID) e.(Execution.ID)) now = Ok b →
  ∃ q', run (adoptOrComplete w tn e b) q = (None, q') ∧ all_settleable now (q_store q') ∧ q_clock q' = now.
Proof.
  intros now Hi He Hst Hall Hb. pose proof (inv_exec_key _ Hi _ _ He) as [= Ht].
  pose proof (proj2 Hall _ _ He Hst) as (H1 & H2 & b' & Hb' & H3). simpl in H1, H2, Hb'.
  assert (b' = b) as -> by congruence. pose proof (proj1 Hall) as Hw.
  assert (∀ st out, IsTerminal st = true → out ≠ "" → finishing now (q_store q) (tn.(Tenant.ID), e.(Execution.ID)) e st out →
    ∃ q', run (propose_complete tn.(Tenant.ID) e.(Execution.ID) st out) q = (None, q')
      ∧ all_settleable now (q_store q') ∧ q_clock q' = now) as Hfin.
  { intros st out Hterm Hout [Hwr (s & s' & Hs & Ha & Hws)]. simpl in Hs. unfold propose_complete. simpl.
    rewrite (complete_accepted _ now (q_store q) e s s'); simpl; try done; [|by rewrite Hst].
    eexists. split; [reflexivity|]. split; [|done]. pose proof (inv_sched_key _ Hi _ _ Hs) as Hk.
    rewrite Hk in Hs. by apply (all_settleable_completed _ _ _ s). }
  destruct (classifyOne_bucket _ _ _ Hb) as [->|[->|[Hin _]]].
  - by apply Hfin.
  - by apply Hfin.
  - rewrite !bool_decide_false in H3 by (intros ->; revert Hin; by apply (bool_decide_unpack _)).
    destruct (inv_executions _ Hi _ _ He) as (_ & _ & _ & [(_ & Hown & _)|(Hterm & _)]); [|by rewrite Hst in Hterm].
    unfold adoptOrComplete. simpl. rewrite (bool_decide_eq_true_2 _ Hin).
    case_bool_decide as Ho; [by exists q|]. simpl. rewrite (adopt_accepted _ _ _ e); simpl; try done.
    eexists. split; [reflexivity|]. split; [|done]. rewrite Ht in *.
    apply (all_settleable_adopted _ _ _ b); try done;
      intros ->; revert Hin; by apply (bool_decide_unpack _).
Qed.

#[local] Opaque adoptOrComplete.

Lemma recover_execution_adopts tn e l q0 q :
  recovering w tn.(Tenant.ID) q0 (e :: l) q → all_settleable (q_clock q) (q_store q) →
  ∃ q', run (recover_execution w tn e) q = (None, q') ∧ all_settleable (q_clock q) (q_store q')
    ∧ q_clock q' = q_clock q.
Proof.
  intros [_ Hi _ Hc _] Hall. destruct (Hc e) as [He Hst]; [apply list_elem_of_here|].
  destruct (proj2 Hall _ _ He Hst) as (_ & _ & b & Hb & _). simpl in Hb.
  unfold recover_execution. simpl. rewrite read_rows. simpl.
  fold (attempts_of (q_store q) tn.(Tenant.ID) e.(Execution.ID)). rewrite Hb. cbn [on_result]. rewrite run_prog_bind.
  destruct (adopts _ _ b _ Hi He Hst Hall Hb) as (q' & Hr & Hq & Hck). rewrite Hr. by exists q'.
Qed.

(** A loop that keeps what the next round needs never stops early. *)
Lemma run_for_each_succeeds {A} (I : list A → quiet Spec → Prop) (f : A → prog (option error)) l q :
  (∀ x l q, I (x :: l) q → ∃ q', run (f x) q = (None, q') ∧ I l q') →
  I l q → ∃ q', run (for_each f l) q = (None, q') ∧ I [] q'.
Proof.
  intros Hf. revert q. induction l as [|x l IH]; intros q HI; [by exists q|].
  destruct (Hf x l q HI) as (q1 & H1 & HI1). cbn [for_each]. rewrite run_bind, H1. by apply IH.
Qed.

Lemma recover_tenant_adopts tn q :
  inv (q_store q) → all_settleable (q_clock q) (q_store q) →
  ∃ q', run (recover_tenant w tn) q = (None, q') ∧ inv (q_store q')
    ∧ all_settleable (q_clock q) (q_store q') ∧ q_clock q' = q_clock q.
Proof.
  intros Hi Hw. unfold recover_tenant. simpl. rewrite read_rows. simpl.
  destruct (run_for_each_succeeds (λ l q1, recovering w tn.(Tenant.ID) q l q1
      ∧ all_settleable (q_clock q) (q_store q1) ∧ q_clock q1 = q_clock q)
    (recover_execution w tn) (rows_where Execution.ID (in_status tn.(Tenant.ID) ExecutionStatusInFlight)
      (sp_executions (q_store q))) q) as (q' & Hr & Hrec & Hw' & Hck).
  - intros e l q1 (H1 & H2 & H3). rewrite <- H3 in *.
    destruct (recover_execution_adopts _ _ _ _ _ H1 H2) as (q2 & Hr & Hw2 & Hck).
    exists q2. split; [done|]. split; [by eapply recovering_step|done].
  - split; [by apply in_flight_rows|done].
  - exists q'. split; [exact Hr|]. split; [by eapply rg_inv|done].
Qed.

Lemma runRecover_adopts q :
  inv (q_store q) → all_settleable (q_clock q) (q_store q) → (run (runRecover w) q).1 = None.
Proof.
  intros Hi Hw. unfold runRecover. simpl.
  destruct (run_for_each_keeps (λ q1, inv (q_store q1) ∧ all_settleable (q_clock q) (q_store q1)
      ∧ q_clock q1 = q_clock q) (recover_tenant w) (all_tenants (q_store q)) q) as (q' & Hr & _);
    [|done|by rewrite Hr].
  intros tn q1 _ (H1 & H2 & H3). rewrite <- H3 in *.
  destruct (recover_tenant_adopts tn q1 H1 H2) as (q2 & ? & ? & ? & ?). by exists q2.
Qed.
End takeover.
