(* ===== verification/Progress.v ===== *)
(** * Progress: what a worker achieves

    The functional theorems of the worker on a store nobody else changes:
    recovery, one dispatch, one tick, and the executions no tick ever reaches;
    each with a concrete run. *)

From S2P Require Import Prelude Go GoTime GoFloat Model RecurrenceCalc Json Storage Command Dispatch.
From S2P Require Import StateMachine RaftNode Spec Lifecycle Invariants Refinement RefinementScan RefinementTx.
From S2P Require Import CommandRefinement Replica Attempts Sample Sha256 Prog Worker WorkerSafe Quiet Recovery Firing.
From S2P Require Import Takeover Retrying.
Open Scope Z_scope.

Section progress.
Context `{PF : !Platform, J : !Json}.

(** C8: recovery on a store nobody else changes.  Whether it returns an error
    or not, it has made no callback, recorded and dropped nothing, and changed
    an execution only by adopting it for this node or finalising it.  When it
    returns no error, every execution of every tenant that is still in flight
    is owned by this node and its last attempt, if any, asks for a retry.  It
    returns none when every execution in flight waits, for its first attempt or
    for a retry, or has a final attempt and a schedule that can move on. *)
Theorem recovery_takes_over w q :
  inv (q_store q) →
  let '(err, q') := run (runRecover w) q in
  recovers w q q'
  ∧ (err = None → ∀ tn i e, tn ∈ all_tenants (q_store q) →
       sp_executions (q_store q') !! (tn.(Tenant.ID), i) = Some e → settled w (q_store q') e)
  ∧ (all_settleable w (q_clock q) (q_store q) → err = None).
Proof.
  intros Hi. pose proof (runRecover_recovers w q) as Hq. pose proof (runRecover_adopts w q Hi) as Hok.
  destruct (run (runRecover w) q) as [err q'] eqn:E. split; [done|]. split; [|done]. intros -> tn i e Htn He.
  destruct (runRecover_settles _ _ _ Hi E) as [_ Hall]. by eapply Hall.
Qed.




(** C6: liveness of a tick.  When exactly one schedule of the cluster is due,
    its slot is not taken and no execution is left to retry or finalise, the
    rows can be written and the receiver answers in the 200s, one tick of a
    worker alone on the store (its proposals commit, nobody else writes) makes
    exactly one callback, to the schedule's URL with the key of the slot; after
    it the slot has an execution that succeeded, with a recorded attempt, and
    the schedule has its next run. *)
Theorem due_schedule_runs w tn l1 l2 s s' slot q r :
  firing w tn l1 l2 s slot q → accepting w tn s s' slot q r →
  ∃ q' e a, run_main (runTick w) q = (None, q')
  ∧ q_calls q' = q_calls q ++ [firing_request w tn s slot q]
  ∧ rq_URL (firing_request w tn s slot q) = s.(Schedule.CallbackURL)
  ∧ rq_Header (firing_request w tn s slot q) !! HeaderIdempotencyKey
    = Some [DeriveIdempotencyKey s.(Schedule.ID) slot]
  ∧ sp_executions (q_store q') !! (tn.(Tenant.ID), e.(Execution.ID)) = Some e
  ∧ e.(Execution.ScheduleID) = s.(Schedule.ID) ∧ e.(Execution.ScheduledFor) = slot
  ∧ e.(Execution.Status) = ExecutionStatusSucceeded
  ∧ sp_attempts (q_store q') !! (tn.(Tenant.ID), a.(Attempt.ID)) = Some a
  ∧ a.(Attempt.ExecutionID) = e.(Execution.ID) ∧ a.(Attempt.Outcome) = OutcomeSuccess
  ∧ sp_schedules (q_store q') !! (tn.(Tenant.ID), s.(Schedule.ID)) = Some s'.
Proof.
  intros Hf Hac. pose proof (runTick_claims _ _ _ _ _ _ _ Hf) as Hrun.
  rewrite (firing_drain _ _ _ _ _ _ _ _ _ Hf Hac) in Hrun.
  destruct Hf as [_ _ _ _ _ _ _ (_ & Ht & _) _ _ _], Hac as [_ Hr Hn _].
  eexists _, (firing_final w tn s slot q r), (firing_attempt w tn s slot q r).
  split; [exact Hrun|]. simpl. split; [done|]. split; [done|].
  split; [apply request_headers_key|].
  split; [apply lookup_insert_eq|]. split; [done|]. split; [done|]. split; [done|].
  split; [rewrite Ht; apply lookup_insert_eq|]. split; [done|].
  split; [by apply classify_success|].
  destruct (advanced_identity _ _ _ Hn) as [-> ->]. rewrite Ht. apply lookup_insert_eq.
Qed.


(** An execution claimed by a worker that died before it recorded an
    attempt is never run: when every execution in flight is such an orphan and
    holds the slot its schedule is due at, no number of ticks of any worker, at
    whatever times, makes a callback or changes the store. *)
Theorem orphans_never_run w times q :
  orphaned (q_store q) → q_queue q = [] →
  q_calls (ticks w times q) = q_calls q ∧ q_store (ticks w times q) = q_store q.
Proof. intros Ho Hq. by destruct (orphans_stay w times q Ho Hq) as (? & ? & _). Qed.
End progress.

(** ** Concrete runs *)

(** A receiver that answers [status] to everything, and a worker's surroundings. *)
Definition receiver (status : Z) : Request → option Response * option DoErr :=
  λ _, (Some (mkResponse status ∅ "ok"), None).
Definition quiet_at (sp : Spec) (now : Time) (status : Z) : quiet Spec :=
  mkQuiet sp now ["id-1"; "id-2"; "id-3"] (receiver status) [] [].

Definition sample_schedule : Schedule := new_schedule create_cmd (Some noon) noon.
Definition sample_tenant : Tenant := Tenant.mk "acme" "Acme Corp" noon "5e884898da28047151d0e56f8dc62927".

(** The tenant and its schedule, due at noon, nothing claimed. *)
Definition due_spec : Spec :=
  (replay [entry c_tenant noon; entry (create_schedule create_cmd) noon] emptySpec).2.

Lemma sample_schedules : sp_schedules sample_spec = {[ ("acme", "s1") := sample_schedule ]}.
Proof. apply (bool_decide_unpack _). vm_compute. exact I. Qed.

Definition next_schedule : Schedule := Schedule.set_NextRunAt (Some next_noon) sample_schedule.

Lemma advanced_sample e :
  e.(Execution.ScheduledFor) = noon → advanced e sample_schedule next_schedule.
Proof.
  intros He. apply (advanced_recurring e sample_schedule (Some next_noon)); [reflexivity..|].
  rewrite He. vm_compute. reflexivity.
Qed.

(** A worker died after it recorded a success. *)
Definition recorded_spec : Spec :=
  (replay (sample_log ++ [entry (record_attempt record_cmd) noon]) emptySpec).2.
Definition recorded_e1 : Execution := with_new_attempt record_cmd e1.

Lemma recorded_executions : sp_executions recorded_spec = {[ ("acme", "e1") := recorded_e1 ]}.
Proof. apply (bool_decide_unpack _). vm_compute. exact I. Qed.

Lemma recorded_inv : inv recorded_spec.
Proof. apply replay_spec_inv, inv_empty. Qed.

Lemma recorded_settleable : all_settleable (NewWorker "node-2") noon recorded_spec.
Proof.
  split; [done|]. intros p e He _. rewrite recorded_executions in He.
  apply lookup_singleton_Some in He as [<- <-]. split; [done|]. split; [done|]. exists BucketSuccess.
  split; [vm_compute; reflexivity|]. rewrite bool_decide_true by done.
  split; [eexists; vm_compute; reflexivity|]. exists sample_schedule, next_schedule.
  split; [vm_compute; reflexivity|]. split; [by apply advanced_sample|]. eexists. vm_compute. reflexivity.
Qed.

Lemma recovery_takes_over_witness :
  let '(err, q') := run (runRecover (NewWorker "node-2")) (quiet_at recorded_spec noon 200) in
  err = None ∧ ∃ e, sp_executions (q_store q') !! ("acme", "e1") = Some e
    ∧ e.(Execution.Status) = ExecutionStatusSucceeded ∧ settled (NewWorker "node-2") (q_store q') e.
Proof.
  pose proof (recovery_takes_over (NewWorker "node-2") (quiet_at recorded_spec noon 200) recorded_inv) as H.
  destruct (run (runRecover (NewWorker "node-2")) (quiet_at recorded_spec noon 200)) as [err q'] eqn:E.
  destruct H as (_ & H & Hok). pose proof (Hok recorded_settleable) as Herr.
  vm_compute in E. injection E as <- <-. split; [exact Herr|].
  eexists. split; [reflexivity|]. split; [reflexivity|].
  apply (H eq_refl sample_tenant "e1"); [|reflexivity].
  change (sample_tenant ∈ all_tenants recorded_spec).
  assert (all_tenants recorded_spec = [sample_tenant]) as -> by (vm_compute; reflexivity).
  apply list_elem_of_here.
Defined.


Lemma due_schedule_runs_witness : ∃ q' e,
  run_main (runTick (NewWorker "node-1")) (quiet_at due_spec noon 200) = (None, q')
  ∧ sp_executions (q_store q') !! ("acme", e.(Execution.ID)) = Some e
  ∧ e.(Execution.Status) = ExecutionStatusSucceeded
  ∧ sp_schedules (q_store q') !! ("acme", "s1") = Some next_schedule.
Proof.
  destruct (due_schedule_runs (NewWorker "node-1") sample_tenant [] [] sample_schedule next_schedule noon
    (quiet_at due_spec noon 200) (mkResponse 200 ∅ "ok"))
    as (q' & e & a & H1 & _ & _ & _ & H2 & _ & _ & H3 & _ & _ & _ & H4).
  - split; try reflexivity.
    + intros tn' []%not_elem_of_nil.
    + intros p e He. vm_compute in He. destruct p as [[|? ?] ?]; discriminate He.
    + by split.
    + intros p e He. vm_compute in He. destruct p as [[|? ?] ?]; discriminate He.
    + split; [vm_compute; reflexivity|by split].
    + by repeat split.
    + eexists. vm_compute. reflexivity.
  - split; [reflexivity|simpl; lia|by apply advanced_sample|].
    unfold writable. repeat split; eexists; vm_compute; reflexivity.
  - exists q', e. exact (conj H1 (conj H2 (conj H3 H4))).
Defined.

Lemma sample_orphaned : orphaned sample_spec.
Proof.
  split.
  - intros p e He _. rewrite sample_executions in He. by apply lookup_singleton_Some in He as [_ <-].
  - intros p s slot Hs Hn Hfree. rewrite sample_schedules in Hs.
    apply lookup_singleton_Some in Hs as [_ <-]. injection Hn as <-.
    specialize (Hfree ("acme", "e1") e1). rewrite sample_executions, lookup_singleton_eq in Hfree.
    by specialize (Hfree eq_refl eq_refl eq_refl).
Qed.

Lemma orphans_never_run_witness :
  q_calls (ticks (NewWorker "node-2") [noon; next_noon] (quiet_at sample_spec noon 200)) = [].
Proof.
  destruct (orphans_never_run (NewWorker "node-2") [noon; next_noon] (quiet_at sample_spec noon 200)
    sample_orphaned eq_refl) as [H _]. exact H.
Defined.








