(* ===== verification/Scheduling.v ===== *)
(** * Scheduling: what workers and clients together guarantee

    Properties of every cluster that can come about: executions are completed as
    recorded attempts say, callbacks carry the key of a slot that exists, the
    scheduler's own headers reach the receiver.  A driver that takes steps of
    the cluster by itself provides a concrete run. *)

From S2P Require Import Prelude Go GoTime GoFloat Model RecurrenceCalc Bolt Json Storage Command.
From S2P Require Import Dispatch StateMachine RaftNode Spec Lifecycle Invariants Refinement RefinementScan.
From S2P Require Import RefinementTx CommandRefinement Replica Attempts Sample Sha256 Prog Worker WorkerSafe Cluster.
Open Scope Z_scope.

(** ** A driver *)

(** The identifiers the driver hands out are numbered by the store's history. *)
Definition numbered (s : shared) : string :=
  digits 4 (Z.of_nat (length (sh_past s))) +:+ "-" +:+ digits 4 (Z.of_nat (length (sh_calls s))).

#[export] Instance unused_dec c d : Decision (unused c d).
Proof. destruct c; simpl; apply _. Defined.

#[export] Instance acceptable_dec c at_ d : Decision (acceptable c at_ d).
Proof. unfold acceptable. destruct c; apply _. Defined.

(** Commit a command, when it is acceptable and answered. *)
Definition try_commit (c : command) (s : shared) : option (reply * shared) :=
  if decide (acceptable c noon (sh_now s)) then
    match apply_db (entry c noon) (sh_now s) with
    | (Ok v, d) => Some (v, mkShared d (sh_now s :: sh_past s) (sh_pending s) (sh_calls s))
    | _ => None
    end
  else None.

Lemma try_commit_commits c s v s' : try_commit c s = Some (v, s') → commits c v s s'.
Proof.
  unfold try_commit. destruct (decide _) as [Ha|]; [|done].
  destruct (apply_db _ _) as [[v0|e|p] d] eqn:E; intros [= <- <-].
  exists (entry c noon), noon, d. split; [by destruct c|done].
Qed.

(** Every call gets what a well-behaved surrounding answers. *)
Definition react (a : action) : shared → option (answer a * shared) :=
  match a with
  | ACtxErr => λ s, Some (None, s)
  | ANow => λ s, Some (noon, s)
  | AULID => λ s, Some (numbered s, s)
  | AListTenants => λ s, Some (View ListTenants (sh_now s), s)
  | AListSchedulesDue t => λ s,
      Some (View (collected (ListSchedulesDue t noon collect [])) (sh_now s), s)
  | AGetSchedule t i => λ s, Some (View (GetSchedule t i) (sh_now s), s)
  | AListExecutionsByStatus t st => λ s,
      Some (View (collected (ListExecutionsByStatus t st collect [])) (sh_now s), s)
  | AListAttemptsByExecution t e => λ s,
      Some (View (collected (ListAttemptsByExecution t e collect [])) (sh_now s), s)
  | APropose c => λ s, '(v, s') ← try_commit c s; Some (Ok v, s')
  | ARange m => λ s, Some (map_to_list m, s)
  | ANewRequest _ => λ s, Some (None, s)
  | ADo _ req => λ s, Some ((Some (mkResponse 200 ∅ "ok"), None),
      mkShared (sh_now s) (sh_past s) (sh_pending s) (req :: sh_calls s))
  | ASelectTick => λ s, Some (true, s)
  | AEnqueue _ | AWaitTasks | AClosePool => λ _, None
  end.

Lemma react_env a s r s' : react a s = Some (r, s') → env a r s s'.
Proof.
  destruct a; simpl; try done;
    try (intros [= <- <-]; split; [done|]; right; exists (sh_now s);
         split; [by apply list_elem_of_here|first [done | by exists noon]]);
    try (by intros [= <- <-]).
  - intros ([v s1] & Hc & [= <- <-])%bind_Some. left. exists v. split; [done|]. by apply try_commit_commits.
Qed.

Definition answered {A} (a : action) (k : answer a → A) (s : shared) : option (shared * A) :=
  match react a s with Some (r, s') => Some (s', k r) | None => None end.

Lemma answered_env {A} a (k : answer a → A) s s' x :
  answered a k s = Some (s', x) → ∃ r, env a r s s' ∧ x = k r.
Proof.
  unfold answered. destruct (react a s) as [[r s1]|] eqn:E; [|done]. intros [= -> <-].
  exists r. split; [by apply react_env|done].
Qed.

(** The next step of a lone worker: its tasks first, then its main goroutine. *)
Definition drive_worker (s : shared) (i : instance) : option (shared * instance) :=
  match in_running i, in_queue i with
  | Ret _ :: l, q => Some (s, mkInstance (in_worker i) (in_main i) q l)
  | Act a k :: l, q =>
      match answered a k s with
      | Some (s', p) => Some (s', mkInstance (in_worker i) (in_main i) q (p :: l))
      | None => None
      end
  | [], t :: q =>
      if decide (0 < w_poolSize (in_worker i))%nat
      then Some (s, mkInstance (in_worker i) (in_main i) q [runTask t]) else None
  | [], [] =>
      match in_main i with
      | Ret _ => None
      | Act AWaitTasks k => Some (s, mkInstance (in_worker i) (k tt) [] [])
      | Act AClosePool k => Some (s, mkInstance (in_worker i) (k tt) [] [])
      | Act (AEnqueue t) k => Some (s, mkInstance (in_worker i) (k tt) [t] [])
      | Act a k =>
          match answered a k s with
          | Some (s', p) => Some (s', mkInstance (in_worker i) p [] [])
          | None => None
          end
      end
  end.

Lemma drive_worker_step s i s' i' : drive_worker s i = Some (s', i') → worker_step s i s' i'.
Proof.
  destruct i as [w m q l]. unfold drive_worker. cbn [in_running in_queue in_main in_worker].
  destruct l as [|[[]|a k] l].
  - destruct q as [|t q].
    + destruct m as [|a k]; [done|].
      destruct a; try (destruct (answered _ k s) as [[s1 p]|] eqn:E; [|done];
        apply answered_env in E as (r & Hr & ->); intros [= <- <-];
        by apply (ws_main s (mkInstance w (Act _ k) [] []) _ k)); intros [= <- <-].
      * apply (ws_enqueue s (mkInstance w (Act (AEnqueue _) k) [] [])); [done|]. simpl. unfold taskChCapacity. lia.
      * by apply (ws_wait s (mkInstance w (Act AWaitTasks k) [] [])).
      * by apply (ws_close s (mkInstance w (Act AClosePool k) [] [])).
    + destruct (decide _); [|done]. intros [= <- <-].
      by apply (ws_start s (mkInstance w m (t :: q) [])).
  - intros [= <- <-]. by apply (ws_done s (mkInstance w m q (Ret () :: l)) []).
  - destruct (answered a k s) as [[s1 p]|] eqn:E; [|done]. apply answered_env in E as (r & Hr & ->).
    intros [= <- <-]. by apply (ws_task s (mkInstance w m q (Act a k :: l)) []).
Qed.

Fixpoint drive (fuel : nat) (s : shared) (i : instance) : shared * instance :=
  match fuel with
  | O => (s, i)
  | S fuel' => match drive_worker s i with Some (s', i') => drive fuel' s' i' | None => (s, i) end
  end.

Lemma drive_steps fuel s i :
  rtc cluster_step (mkCluster s [i]) (mkCluster (drive fuel s i).1 [(drive fuel s i).2]).
Proof.
  revert s i. induction fuel as [|fuel IH]; intros s i; simpl; [done|].
  destruct (drive_worker s i) as [[s' i']|] eqn:E; [|done].
  apply rtc_l with (mkCluster s' [i']); [|apply IH].
  by apply (cs_worker s i [] []), drive_worker_step.
Qed.

(** Clients' commands, then one worker for a while. *)
Fixpoint clients (cs : list command) (s : shared) : shared :=
  match cs with
  | [] => s
  | c :: cs => match try_commit c s with Some (_, s') => clients cs s' | None => s end
  end.

Lemma clients_steps cs s :
  Forall (λ c, client_command c = true) cs →
  rtc cluster_step (mkCluster s []) (mkCluster (clients cs s) []).
Proof.
  intros Hc. revert s. induction Hc as [|c cs Hc _ IH]; intros s; simpl; [done|].
  destruct (try_commit c s) as [[v s']|] eqn:E; [|done]. apply rtc_l with (mkCluster s' []); [|apply IH].
  by eapply cs_client, try_commit_commits.
Qed.

Definition driven (cs : list command) (fuel : nat) : shared * instance :=
  drive fuel (clients cs (cl_shared initial))
    (mkInstance (NewWorker "node-1") (Run (NewWorker "node-1") fuel) [] []).

Definition driven_cluster (cs : list command) (fuel : nat) : cluster :=
  mkCluster (driven cs fuel).1 [(driven cs fuel).2].

Lemma driven_reachable cs fuel :
  Forall (λ c, client_command c = true) cs → rtc cluster_step initial (driven_cluster cs fuel).
Proof.
  intros Hc. etrans; [by apply clients_steps|].
  apply rtc_l with (mkCluster (clients cs (cl_shared initial))
    [mkInstance (NewWorker "node-1") (Run (NewWorker "node-1") fuel) [] []]);
    [apply cs_start|apply drive_steps].
Qed.

(** A tenant, a daily schedule that is due, and one tick: its callback succeeds. *)
Definition sample_clients : list command := [c_tenant; create_schedule create_cmd].
Definition sample_run : cluster := driven_cluster sample_clients 60.
Definition sample_execution_id : string := "0002-0000".

Lemma sample_run_reachable : rtc cluster_step initial sample_run.
Proof. apply driven_reachable. by repeat constructor. Qed.

(** ** Headers of a callback *)

Lemma foldl_headers (l : list (string * string)) h c v :
  (∃ k, (k, v) ∈ l ∧ CanonicalMIMEHeaderKey k = c) →
  (∀ k v', (k, v') ∈ l → CanonicalMIMEHeaderKey k = c → v' = v) →
  foldl (λ h kv, Header_Set kv.1 kv.2 h) h l !! c = Some [v].
Proof.
  intros (k & Hin & Hk) Hall. induction l as [|[k' v'] l IH] using rev_ind; [by apply not_elem_of_nil in Hin|].
  rewrite foldl_snoc. unfold Header_Set at 1. simpl.
  destruct (decide (CanonicalMIMEHeaderKey k' = c)) as [Hc|Hc].
  - rewrite Hc, lookup_insert_eq. do 2 f_equal. eapply Hall; [|exact Hc]. set_solver.
  - rewrite lookup_insert_ne by done. apply IH.
    + apply elem_of_app in Hin as [?|Hin]; [done|]. apply list_elem_of_singleton in Hin. congruence.
    + intros k2 v2 H2. apply Hall. set_solver.
Qed.

(** In whatever order the operator's headers are visited, a callback
    carries the scheduler's content type, idempotency key and attempt
    identifier, whatever the operator's headers say; any other header of the
    operator arrives under its canonical name, when no second one has it. *)
Theorem callback_headers headers order key attemptID :
  order ≡ₚ map_to_list headers →
  let h := request_headers order key attemptID in
  h !! "Content-Type" = Some ["application/json"]
  ∧ h !! HeaderIdempotencyKey = Some [key] ∧ h !! HeaderAttemptID = Some [attemptID]
  ∧ ∀ k v, headers !! k = Some v →
      (∀ k' v', headers !! k' = Some v' →
         CanonicalMIMEHeaderKey k' = CanonicalMIMEHeaderKey k → k' = k) →
      CanonicalMIMEHeaderKey k ∉ ["Content-Type"; HeaderIdempotencyKey; HeaderAttemptID] →
      h !! CanonicalMIMEHeaderKey k = Some [v].
Proof.
  intros Ho h. unfold h. split; [|split; [apply request_headers_key|split]].
  - unfold request_headers. unfold Header_Set at 1 2 3.
    do 2 rewrite lookup_insert_ne by done. apply lookup_insert_eq.
  - apply lookup_insert_eq.
  - intros k v Hk Hu Hn. rewrite !not_elem_of_cons in Hn. destruct Hn as (N1 & N2 & N3 & _).
    unfold request_headers. unfold Header_Set at 1 2 3.
    rewrite !lookup_insert_ne by (intros Heq; rewrite <- Heq in *; done).
    apply foldl_headers.
    + exists k. split; [|done]. rewrite Ho. by apply elem_of_map_to_list.
    + intros k' v' Hin Hc. rewrite Ho in Hin. apply elem_of_map_to_list in Hin.
      specialize (Hu _ _ Hin Hc). congruence.
Qed.

Lemma callback_headers_witness :
  let headers : gmap string string := {[ "x-trace" := "7"; "X-Scheduler-Attempt-Id" := "forged" ]} in
  request_headers (map_to_list headers) "k" "a" !! CanonicalMIMEHeaderKey "x-trace" = Some ["7"].
Proof.
  intros headers. destruct (callback_headers headers (map_to_list headers) "k" "a" (reflexivity _))
    as (_ & _ & _ & Hk).
  apply (Hk "x-trace" "7"); [reflexivity| |].
  - intros k' v' Hk'. apply lookup_insert_Some in Hk' as [[<- _]|[_ Hk']]; [done|].
    apply lookup_singleton_Some in Hk' as [<- _]. intros Hc. vm_compute in Hc. discriminate Hc.
  - apply (bool_decide_unpack _). vm_compute. exact I.
Defined.

(** ** What holds in every cluster *)

Section guarantees.
Context `{PF : !Platform, CC : !CommandCodec, B : !Bolt, BL : !BoltLaws B, J : !Json, JL : !JsonLaws J}.

Lemma reachable_holds cl :
  rtc cluster_step initial cl →
  ∃ sp, R (sh_now (cl_shared cl)) sp ∧ wf sp ∧ inv sp ∧ earned sp
    ∧ Forall (carries_key sp) (sh_calls (cl_shared cl)).
Proof.
  intros (sp & [[HR Hi _] _ He _ Hc] & _)%reachable_inv. exists sp.
  split; [done|]. split; [by eapply R_wf|]. done.
Qed.

(** C10: with any number of workers on any number of nodes, leadership changes,
    commands that commit after their proposer gave up, stale reads and crashes
    anywhere: an execution that is no longer in flight has succeeded, and a
    recorded attempt of it was a success, or has failed terminally, and a
    recorded attempt of it was a terminal failure.  No execution ever exhausts
    its retries in another way. *)
Theorem completions_are_earned cl t i e :
  rtc cluster_step initial cl → no_colon t = true →
  View (GetExecution t i) (sh_now (cl_shared cl)) = Ok (Some e) →
  e.(Execution.Status) ≠ ExecutionStatusInFlight →
  ∃ a j, View (GetAttempt t j) (sh_now (cl_shared cl)) = Ok (Some a)
    ∧ a.(Attempt.ExecutionID) = i
    ∧ ((e.(Execution.Status) = ExecutionStatusSucceeded ∧ a.(Attempt.Outcome) = OutcomeSuccess)
       ∨ (e.(Execution.Status) = ExecutionStatusFailedTerminal
          ∧ a.(Attempt.Outcome) = OutcomeTerminalFailure)).
Proof.
  intros (sp & HR & Hwf & Hi & He & _)%reachable_holds Ht Hx Hst.
  apply (view_execution _ _ _ _ _ HR Ht) in Hx. destruct (He _ _ _ Hx) as (H1 & H2 & H3).
  assert (recorded sp t i OutcomeSuccess ∧ e.(Execution.Status) = ExecutionStatusSucceeded
    ∨ recorded sp t i OutcomeTerminalFailure ∧ e.(Execution.Status) = ExecutionStatusFailedTerminal)
    as [[(a & j & Ha & Hj & Ho) Hs]|[(a & j & Ha & Hj & Ho) Hs]].
  { destruct (inv_executions _ Hi _ _ Hx) as (_ & _ & _ & [[? _]|[Hterm _]]); [done|].
    unfold IsTerminal in Hterm. rewrite !orb_true_iff, !bool_decide_eq_true in Hterm.
    destruct Hterm as [[Hs|Hs]|Hs]; [left|right|done]; auto. }
  all: exists a, j; (split; [|split; [done|auto]]); unfold View;
    change (GetAttempt t j) with (bolt_GetAttempt t j); by rewrite (GetAttempt_R _ _ _ _ HR Ht), Ha.
Qed.

(** C18: in the same clusters, every callback made carries as idempotency key
    the key of the schedule and slot of an execution that exists. *)
Theorem callbacks_carry_slot_key cl req :
  rtc cluster_step initial cl → req ∈ sh_calls (cl_shared cl) →
  ∃ t i e, View (GetExecution t i) (sh_now (cl_shared cl)) = Ok (Some e)
    ∧ rq_Header req !! HeaderIdempotencyKey
      = Some [DeriveIdempotencyKey e.(Execution.ScheduleID) e.(Execution.ScheduledFor)].
Proof.
  intros (sp & HR & Hwf & Hi & _ & Hc)%reachable_holds Hreq.
  rewrite Forall_forall in Hc. destruct (Hc _ Hreq) as (e0 & (Ht & _ & e & He & Hev) & Hk).
  exists e0.(Execution.TenantID), e0.(Execution.ID), e. split.
  - apply (view_execution _ _ _ _ _ HR); [apply Ht|done].
  - rewrite Hk. do 2 f_equal. destruct (inv_executions _ Hi _ _ He) as (_ & Hkey & _).
    rewrite <- Hkey. destruct Hev as (_ & _ & _ & _ & Hkk & _). done.
Qed.
End guarantees.

Lemma completions_are_earned_witness : ∃ e a j,
  View (GetExecution "acme" sample_execution_id) (sh_now (cl_shared sample_run)) = Ok (Some e)
  ∧ View (GetAttempt "acme" j) (sh_now (cl_shared sample_run)) = Ok (Some a)
  ∧ a.(Attempt.ExecutionID) = sample_execution_id
  ∧ a.(Attempt.Outcome) = OutcomeSuccess.
Proof.
  eexists. assert (∀ e, View (GetExecution "acme" sample_execution_id) (sh_now (cl_shared sample_run)) = Ok (Some e)
    → e.(Execution.Status) = ExecutionStatusSucceeded → ∃ a j,
    View (GetAttempt "acme" j) (sh_now (cl_shared sample_run)) = Ok (Some a)
    ∧ a.(Attempt.ExecutionID) = sample_execution_id ∧ a.(Attempt.Outcome) = OutcomeSuccess) as H.
  { intros e He Hs. destruct (completions_are_earned sample_run "acme" sample_execution_id e
      sample_run_reachable eq_refl He) as (a & j & Ha & Hi & [[_ Ho]|[Hf _]]).
    - rewrite Hs. discriminate.
    - exists a, j. exact (conj Ha (conj Hi Ho)).
    - rewrite Hs in Hf. discriminate Hf. }
  edestruct H as (a & j & ?); [vm_compute; reflexivity|reflexivity|]. exists a, j.
  split; [vm_compute; reflexivity|assumption].
Defined.

Lemma callbacks_carry_slot_key_witness : ∃ req t i e,
  req ∈ sh_calls (cl_shared sample_run)
  ∧ View (GetExecution t i) (sh_now (cl_shared sample_run)) = Ok (Some e)
  ∧ rq_Header req !! HeaderIdempotencyKey
    = Some [DeriveIdempotencyKey e.(Execution.ScheduleID) e.(Execution.ScheduledFor)].
Proof.
  destruct (sh_calls (cl_shared sample_run)) as [|req l] eqn:E; [vm_compute in E; discriminate E|].
  assert (req ∈ sh_calls (cl_shared sample_run)) as Hreq by (rewrite E; apply list_elem_of_here).
  destruct (callbacks_carry_slot_key sample_run req sample_run_reachable Hreq) as (t & i & e & He & Hk).
  exists req, t, i, e. split; [rewrite <- E; exact Hreq|]. exact (conj He Hk).
Defined.
