(* ===== verification/Supervisor.v ===== *)
(** * Supervisor: src/internal/scheduler/supervisor.go and scheduler.go

    The goroutine that starts a worker when this node becomes the leader and
    stops it when it ceases to be.  Its [Run] is a state machine with the
    worker goroutines it has started; an event is a step of either, or of their
    surroundings. *)

From S2P Require Import Prelude Go.
Open Scope nat_scope.

(** ** State *)

(** Where [Run] is: in its [select], in [sv.wg.Wait()] of [stopWorker] or after
    [ctx.Done()], or back. *)
Inductive run_at :=
| AtSelect
| AtStopWait
| AtExitWait
| Returned.

#[export] Instance run_at_eq_dec : EqDecision run_at.
Proof. solve_decision. Defined.

(** [sv_workers]: the worker goroutines that have not returned, each with
    whether its context is canceled; [sv_cancel] is the worker whose context
    [sv.cancel] cancels.  [sv_wg] is the counter of [sv.wg]. *)
Record Supervisor := mkSupervisor {
  sv_at : run_at;
  sv_cancel : option nat;
  sv_wg : nat;
  sv_workers : gmap nat bool;
  sv_started : nat;
  sv_ctx_done : bool;
  sv_notifyCh : list bool
}.

(** [NewSupervisor] on the channel the node's raft reports to. *)
Definition NewSupervisor (ch : list bool) : Supervisor := mkSupervisor AtSelect None 0 ∅ 0 false ch.

Definition set_at (p : run_at) (sv : Supervisor) : Supervisor :=
  mkSupervisor p (sv_cancel sv) (sv_wg sv) (sv_workers sv) (sv_started sv) (sv_ctx_done sv) (sv_notifyCh sv).

(** ** [Run] *)

(** [startWorker()], from its call to the [go] statement. *)
Definition startWorker (sv : Supervisor) : Supervisor :=
  match sv_cancel sv with
  | Some _ => sv
  | None =>
      let n := sv_started sv in
      mkSupervisor (sv_at sv) (Some n) (S (sv_wg sv)) (<[n := sv_ctx_done sv]> (sv_workers sv)) (S n)
        (sv_ctx_done sv) (sv_notifyCh sv)
  end.

(** [sv.cancel()] *)
Definition cancel_worker (sv : Supervisor) : Supervisor :=
  match sv_cancel sv with
  | None => sv
  | Some n => mkSupervisor (sv_at sv) (sv_cancel sv) (sv_wg sv) (alter (λ _, true) n (sv_workers sv))
                (sv_started sv) (sv_ctx_done sv) (sv_notifyCh sv)
  end.

(** [stopWorker()], up to [sv.wg.Wait()] *)
Definition stopWorker (sv : Supervisor) : Supervisor :=
  match sv_cancel sv with
  | None => sv
  | Some _ => set_at AtStopWait (cancel_worker sv)
  end.

Definition leaderStep (isLeader : bool) (sv : Supervisor) : Supervisor :=
  if isLeader then startWorker sv else stopWorker sv.

Inductive event :=
| Notify (isLeader : bool)      (* raft reports a change of leadership *)
| CancelCtx                     (* the context of [Run] is canceled *)
| TakeNotification              (* case isLeader := <-ch *)
| TakeDone                      (* case <-ctx.Done() *)
| WaitOver                      (* sv.wg.Wait() returns *)
| WorkerReturns (n : nat).      (* worker.Run returns, with an error or not *)

Definition step (ev : event) (sv : Supervisor) : option Supervisor :=
  match ev with
  | Notify b =>
      Some (mkSupervisor (sv_at sv) (sv_cancel sv) (sv_wg sv) (sv_workers sv) (sv_started sv)
              (sv_ctx_done sv) (sv_notifyCh sv ++ [b]))
  | CancelCtx =>
      Some (mkSupervisor (sv_at sv) (sv_cancel sv) (sv_wg sv) ((λ _, true) <$> sv_workers sv)
              (sv_started sv) true (sv_notifyCh sv))
  | TakeNotification =>
      match sv_at sv, sv_notifyCh sv with
      | AtSelect, b :: ch =>
          Some (leaderStep b (mkSupervisor AtSelect (sv_cancel sv) (sv_wg sv) (sv_workers sv)
                                (sv_started sv) (sv_ctx_done sv) ch))
      | _, _ => None
      end
  | TakeDone =>
      match sv_at sv with
      | AtSelect =>
          if sv_ctx_done sv then
            match sv_cancel sv with
            | Some _ => Some (set_at AtExitWait (cancel_worker sv))
            | None => Some (set_at Returned sv)
            end
          else None
      | _ => None
      end
  | WaitOver =>
      match sv_at sv, sv_wg sv with
      | AtStopWait, O =>
          Some (mkSupervisor AtSelect None 0 (sv_workers sv) (sv_started sv) (sv_ctx_done sv) (sv_notifyCh sv))
      | AtExitWait, O => Some (set_at Returned sv)
      | _, _ => None
      end
  | WorkerReturns n =>
      match sv_workers sv !! n with
      | Some _ => Some (mkSupervisor (sv_at sv) (sv_cancel sv) (pred (sv_wg sv)) (delete n (sv_workers sv))
                          (sv_started sv) (sv_ctx_done sv) (sv_notifyCh sv))
      | None => None
      end
  end.

Definition moves (sv sv' : Supervisor) : Prop := ∃ ev, step ev sv = Some sv'.

Fixpoint steps (evs : list event) (sv : Supervisor) : option Supervisor :=
  match evs with
  | [] => Some sv
  | ev :: evs => sv' ← step ev sv; steps evs sv'
  end.

Lemma steps_moves evs sv sv' : steps evs sv = Some sv' → rtc moves sv sv'.
Proof.
  revert sv. induction evs as [|ev evs IH]; intros sv; simpl; [by intros [= ->]|].
  intros (sv1 & H1 & H2)%bind_Some. eapply rtc_l; [by exists ev|auto].
Qed.

(** ** scheduler.go *)

(** [Scheduler.Start] runs a supervisor; [Shutdown] cancels its context and
    waits for it to return, or for its own context to end with [ctxErr]. *)
Definition scheduler_Start (ch : list bool) : Supervisor := NewSupervisor ch.

Inductive scheduler_Shutdown : option Supervisor → option error → option Supervisor → option error → Prop :=
| shutdown_not_started ctxErr : scheduler_Shutdown None ctxErr None None
| shutdown_done sv sv1 sv' ctxErr :
    step CancelCtx sv = Some sv1 → rtc moves sv1 sv' → sv_at sv' = Returned →
    scheduler_Shutdown (Some sv) ctxErr (Some sv') None
| shutdown_gives_up sv sv1 sv' e :
    step CancelCtx sv = Some sv1 → rtc moves sv1 sv' →
    scheduler_Shutdown (Some sv) (Some e) (Some sv') (Some e).

(** ** Invariant *)

(** The one worker there may be is the one [sv.cancel] cancels. *)
Record sv_inv (sv : Supervisor) : Prop := {
  si_wg : sv_wg sv = size (sv_workers sv);
  si_one : ∀ n b, sv_workers sv !! n = Some b → sv_cancel sv = Some n ∧ n < sv_started sv;
  si_stopping : sv_at sv ≠ AtSelect → ∀ n b, sv_workers sv !! n = Some b → b = true;
  si_returned : sv_at sv = Returned → sv_workers sv = ∅;
  si_waiting : sv_at sv = AtStopWait ∨ sv_at sv = AtExitWait → is_Some (sv_cancel sv);
  si_done : sv_ctx_done sv = true → ∀ n b, sv_workers sv !! n = Some b → b = true
}.

Lemma sv_inv_initial ch : sv_inv (NewSupervisor ch).
Proof. split; try done. naive_solver. Qed.

Lemma workers_none sv : sv_inv sv → sv_cancel sv = None → sv_workers sv = ∅.
Proof.
  intros Hi Hc. apply map_empty. intros n. apply eq_None_not_Some. intros [b Hb].
  destruct (si_one _ Hi _ _ Hb). congruence.
Qed.

Lemma start_inv sv : sv_inv sv → sv_at sv = AtSelect → sv_inv (startWorker sv).
Proof.
  intros Hi Hat. unfold startWorker. destruct (sv_cancel sv) as [c|] eqn:Ec; [done|].
  pose proof (workers_none _ Hi Ec) as He. destruct Hi as [Hw _ _ _ _ Hd].
  split; simpl; rewrite ?He in *; try congruence.
  - by rewrite insert_empty, map_size_singleton, Hw, map_size_empty.
  - intros n b. rewrite insert_empty. intros [<- _]%lookup_singleton_Some. split; [done|lia].
  - intros [?|?]; congruence.
  - intros Ht n b. rewrite insert_empty. intros [_ <-]%lookup_singleton_Some. done.
Qed.

Lemma cancel_inv sv p n :
  sv_inv sv → sv_cancel sv = Some n → p = AtStopWait ∨ p = AtExitWait → sv_inv (set_at p (cancel_worker sv)).
Proof.
  intros Hi Hc Hp. assert (∀ m b, alter (λ _, true) n (sv_workers sv) !! m = Some b → b = true
    ∧ is_Some (sv_workers sv !! m)) as Hall.
  { intros m b. rewrite lookup_alter_Some. intros [(<- & b0 & Hb & ->)|(Hne & Hb)]; [by eauto|].
    destruct (si_one _ Hi _ _ Hb). congruence. }
  unfold cancel_worker. rewrite Hc. split; simpl; try (destruct Hp; congruence).
  - rewrite <- size_dom, dom_alter_L, size_dom. apply Hi.
  - intros m b (_ & [b0 Hb])%Hall. rewrite <- Hc. by apply (si_one _ Hi _ b0).
  - intros _ m b Hb. by apply (Hall m).
  - eauto.
  - intros _ m b Hb. by apply (Hall m).
Qed.

Lemma sv_step_inv ev sv sv' : sv_inv sv → step ev sv = Some sv' → sv_inv sv'.
Proof.
  intros Hi. pose proof Hi as [Hw Ho Hs Hr Hwt Hd]. destruct ev as [b| | | | |n]; simpl.
  - intros [= <-]. by split.
  - intros [= <-]. split; simpl; try done.
    + by rewrite map_size_fmap.
    + intros n b. rewrite lookup_fmap_Some. intros (b0 & _ & Hb). by eapply Ho.
    + intros _ n b. rewrite lookup_fmap_Some. by intros (b0 & <- & _).
    + intros H. by rewrite (Hr H), fmap_empty.
    + intros _ n b. rewrite lookup_fmap_Some. by intros (b0 & <- & _).
  - destruct (sv_at sv) eqn:Ea; try done. destruct (sv_notifyCh sv) as [|b ch]; [done|]. intros [= <-].
    set (sv1 := mkSupervisor AtSelect _ _ _ _ _ _). assert (sv_inv sv1) as Hi1 by (by split).
    destruct b; simpl; [by apply start_inv|]. unfold stopWorker. simpl.
    destruct (sv_cancel sv) as [n|] eqn:Ec; [|done]. eapply cancel_inv; [done| |by left]. done.
  - destruct (sv_at sv) eqn:Ea; try done. destruct (sv_ctx_done sv) eqn:Ed; [|done].
    destruct (sv_cancel sv) as [n|] eqn:Ec; intros [= <-].
    + eapply cancel_inv; [done..|by right].
    + pose proof (workers_none _ Hi Ec) as He. rewrite He in *. split; simpl; rewrite ?He; try done; by intros [].
  - destruct (sv_at sv) eqn:Ea; try done; destruct (sv_wg sv) eqn:Ew; try done; intros [= <-];
      symmetry in Hw; apply map_size_empty_inv in Hw; split; simpl; rewrite ?Hw; try done; by intros [].
  - destruct (sv_workers sv !! n) as [b|] eqn:En; [|done]. intros [= <-].
    assert (∀ m c, delete n (sv_workers sv) !! m = Some c → sv_workers sv !! m = Some c) as Hdel.
    { intros m c [_ ?]%lookup_delete_Some. done. }
    split; simpl; try done; eauto.
    + by rewrite map_size_delete, En, Hw.
    + intros H. by rewrite (Hr H), delete_empty.
Qed.

Lemma reachable_sv_inv ch sv : rtc moves (NewSupervisor ch) sv → sv_inv sv.
Proof.
  intros Hr. eapply (rtc_ind_r sv_inv (NewSupervisor ch)); [apply sv_inv_initial| |done].
  intros x y _ [ev Hs] Hx. by eapply sv_step_inv.
Qed.

(** ** What the supervisor guarantees *)

Lemma one_worker_size sv : sv_inv sv → size (sv_workers sv) <= 1.
Proof.
  intros Hi. destruct (sv_cancel sv) as [n|] eqn:Ec.
  - assert (sv_workers sv ⊆ {[ n := default false (sv_workers sv !! n) ]}) as Hsub.
    { apply map_subseteq_spec. intros m b Hb. destruct (si_one _ Hi _ _ Hb) as [Hm _].
      assert (m = n) as -> by congruence. rewrite lookup_singleton_eq, Hb. done. }
    apply map_subseteq_size in Hsub. by rewrite map_size_singleton in Hsub.
  - rewrite (workers_none _ Hi Ec), map_size_empty. lia.
Qed.

(** C23: whatever leadership changes, cancellations and worker exits happen in
    whatever order, at most one worker runs at a time, it is the one
    [sv.cancel] stops, and none is left when [Run] has returned; so a
    [Shutdown] of the scheduler that reports success leaves no worker. *)
Theorem one_worker_at_a_time ch sv :
  rtc moves (scheduler_Start ch) sv →
  size (sv_workers sv) <= 1
  ∧ (∀ n b, sv_workers sv !! n = Some b → sv_cancel sv = Some n)
  ∧ (sv_at sv = Returned → sv_workers sv = ∅)
  ∧ ∀ ctxErr sv', scheduler_Shutdown (Some sv) ctxErr (Some sv') None → sv_workers sv' = ∅.
Proof.
  intros Hr. pose proof (reachable_sv_inv _ _ Hr) as Hi. split; [|split; [|split]].
  - by apply one_worker_size.
  - intros n b Hb. by apply (si_one _ Hi _ b).
  - apply Hi.
  - intros ctxErr sv' Hs. inversion Hs as [|? sv1 ? ? H1 H2 H3|]; subst.
    assert (rtc moves (NewSupervisor ch) sv') as Hr'.
    { etrans; [exact Hr|]. eapply rtc_l; [by exists CancelCtx|done]. }
    by apply (si_returned _ (reachable_sv_inv _ _ Hr')).
Qed.

(** The steps of [Run] and of its worker, as opposed to those of raft and of
    the caller. *)
Definition own (ev : event) : bool :=
  match ev with Notify _ | CancelCtx => false | _ => true end.
Definition notifies (ev : event) : bool :=
  match ev with Notify _ => true | _ => false end.
Definition count (p : event → bool) (evs : list event) : nat := length (List.filter p evs).

(** What every step of [Run] and its worker uses up: a notification that waits
    can still start a worker or stop one, which is two events more. *)
Definition exit_steps (sv : Supervisor) : nat :=
  size (sv_workers sv) + 2 * length (sv_notifyCh sv) +
  match sv_at sv with AtSelect => 2 | AtStopWait => 3 | AtExitWait => 1 | Returned => 0 end.

Lemma cancel_worker_size sv : size (sv_workers (cancel_worker sv)) = size (sv_workers sv).
Proof.
  unfold cancel_worker. destruct (sv_cancel sv); [|done]. simpl.
  by rewrite <- !size_dom, dom_alter_L.
Qed.

Lemma cancel_worker_queue sv : sv_notifyCh (cancel_worker sv) = sv_notifyCh sv.
Proof. unfold cancel_worker. by destruct (sv_cancel sv). Qed.

Lemma leaderStep_steps b sv :
  sv_at sv = AtSelect → exit_steps (leaderStep b sv) <= S (exit_steps sv).
Proof.
  intros Ha. unfold exit_steps. rewrite Ha. destruct b; simpl.
  - unfold startWorker. destruct (sv_cancel sv); simpl; rewrite Ha; [lia|].
    rewrite map_size_insert. destruct (sv_workers sv !! sv_started sv); simpl; lia.
  - unfold stopWorker. destruct (sv_cancel sv) eqn:Ec; [|rewrite Ha; lia]. unfold set_at. simpl.
    rewrite cancel_worker_size, cancel_worker_queue. lia.
Qed.

(** An own step uses one up; a notification adds two. *)
Lemma step_steps ev sv sv' :
  step ev sv = Some sv' →
  exit_steps sv' + (if own ev then 1 else 0) <= exit_steps sv + (if notifies ev then 2 else 0).
Proof.
  destruct ev as [b| | | | |n]; simpl.
  - intros [= <-]. unfold exit_steps. simpl. rewrite length_app. simpl. lia.
  - intros [= <-]. unfold exit_steps. simpl. rewrite map_size_fmap. lia.
  - destruct (sv_at sv) eqn:Ea; try done. destruct (sv_notifyCh sv) as [|b ch] eqn:En; [done|].
    intros [= <-]. set (sv1 := mkSupervisor AtSelect _ _ _ _ _ _).
    pose proof (leaderStep_steps b sv1 eq_refl) as Hle.
    unfold exit_steps at 2 in Hle. unfold exit_steps at 2. rewrite Ea, En. simpl in *. lia.
  - destruct (sv_at sv) eqn:Ea; try done. destruct (sv_ctx_done sv); [|done].
    unfold exit_steps. rewrite Ea. destruct (sv_cancel sv) eqn:Ec; intros [= <-]; simpl; [|lia].
    rewrite cancel_worker_size, cancel_worker_queue. lia.
  - unfold exit_steps. destruct (sv_at sv) eqn:Ea; try done; destruct (sv_wg sv); try done;
      intros [= <-]; simpl; lia.
  - destruct (sv_workers sv !! n) as [b|] eqn:En; [|done]. intros [= <-]. unfold exit_steps. simpl.
    rewrite map_size_delete, En. assert (size (sv_workers sv) ≠ 0); [|lia].
    apply (map_size_ne_0_lookup_2 _ n). by eexists.
Qed.

Lemma run_steps evs sv sv' :
  steps evs sv = Some sv' → exit_steps sv' + count own evs <= exit_steps sv + 2 * count notifies evs.
Proof.
  revert sv. induction evs as [|ev evs IH]; intros sv; simpl; [intros [= ->]; cbn; lia|].
  intros (sv1 & H1%step_steps & H2%IH)%bind_Some. unfold count in *. simpl.
  destruct (own ev), (notifies ev); simpl; lia.
Qed.

Lemma run_inv evs sv sv' :
  sv_inv sv → sv_ctx_done sv = true → steps evs sv = Some sv' → sv_inv sv' ∧ sv_ctx_done sv' = true.
Proof.
  revert sv. induction evs as [|ev evs IH]; intros sv Hi Hd; simpl; [by intros [= <-]|].
  intros (sv1 & H1 & H2)%bind_Some. apply (IH sv1); [by eapply sv_step_inv| |done].
  clear H2 IH Hi. destruct ev as [b| | | | |n]; simpl in H1; repeat case_match; simplify_eq; try done;
    unfold leaderStep, startWorker, stopWorker, cancel_worker; simpl; repeat case_match; done.
Qed.

Lemma own_enabled sv :
  sv_inv sv → sv_ctx_done sv = true → sv_at sv ≠ Returned →
  ∃ ev sv', own ev = true ∧ step ev sv = Some sv'.
Proof.
  intros Hi Hd Hr. destruct (map_choose_or_empty (sv_workers sv)) as [(n & b & Hn)|He].
  - exists (WorkerReturns n). simpl. rewrite Hn. eauto.
  - assert (sv_wg sv = 0) as Hw by by rewrite (si_wg _ Hi), He, map_size_empty.
    destruct (sv_at sv) eqn:Ea; [exists TakeDone|exists WaitOver|exists WaitOver|done]; simpl;
      rewrite Ea, ?Hd, ?Hw; [destruct (sv_cancel sv)|..]; eauto.
Qed.

(** C24: once the context of [Run] is done, every worker that still runs has
    its own context canceled.  However the run goes on from there, whatever
    [select] picks and whatever raft still reports, [Run] and its workers take
    at most four steps plus two for every notification, waiting or still to
    come; and as long as [Run] has not returned one of them can be taken (a
    worker that runs can return).  So a run that is not cut off, with finitely
    many notifications, ends with [Run] returned and no worker left. *)
Theorem shutdown_terminates ch sv :
  rtc moves (scheduler_Start ch) sv → sv_ctx_done sv = true →
  (∀ n b, sv_workers sv !! n = Some b → b = true)
  ∧ ∀ evs sv', steps evs sv = Some sv' →
      count own evs <= 4 + 2 * (length (sv_notifyCh sv) + count notifies evs)
      ∧ (sv_at sv' = Returned ∧ sv_workers sv' = ∅
         ∨ ∃ ev sv'', own ev = true ∧ step ev sv' = Some sv'').
Proof.
  intros Hr Hd. pose proof (reachable_sv_inv _ _ Hr) as Hi.
  split; [intros n b; by apply (si_done _ Hi Hd n b)|]. intros evs sv' Hs. split.
  - apply run_steps in Hs. pose proof (one_worker_size sv Hi). unfold exit_steps at 2 in Hs.
    destruct (sv_at sv); lia.
  - destruct (run_inv _ _ _ Hi Hd Hs) as [Hi' Hd']. destruct (decide (sv_at sv' = Returned)) as [Ha|Ha].
    + left. split; [done|]. by apply (si_returned _ Hi').
    + right. by apply own_enabled.
Qed.

(** ** A worker that fails *)

(** Its [cancel] stays set. *)
Definition abandoned (sv : Supervisor) : Prop :=
  is_Some (sv_cancel sv) ∧ sv_workers sv = ∅ ∧ Forall (λ b, b = true) (sv_notifyCh sv)
  ∧ sv_at sv = AtSelect.

Definition still_leader (ev : event) : Prop :=
  match ev with Notify b => b = true | CancelCtx | TakeDone => False | _ => True end.

(** When the only worker has returned, with an error or not, while the
    node stays leader, no worker runs again until leadership is lost or the
    scheduler shuts down, however often raft reports that the node leads. *)
Theorem failed_worker_not_restarted evs sv sv' :
  abandoned sv → Forall still_leader evs → steps evs sv = Some sv' → sv_workers sv' = ∅.
Proof.
  intros Ha Hf. revert sv Ha. induction Hf as [|ev evs Hev Hf IH]; intros sv Ha; simpl.
  - intros [= <-]. apply Ha.
  - intros (sv1 & H1 & H2)%bind_Some. apply (IH sv1); [|done]. destruct Ha as ([c Hc] & Hw & Hch & Hat).
    destruct ev as [b| | | | |n]; try done; simpl in H1.
    + injection H1 as <-. simpl in Hev. subst b. split; [by eexists|]. split; [done|]. split; [|done].
      simpl. apply Forall_app. split; [done|by constructor].
    + rewrite Hat in H1. destruct (sv_notifyCh sv) as [|b ch] eqn:En; [done|].
      apply Forall_cons in Hch as [-> Hch]. injection H1 as <-. unfold leaderStep, startWorker. simpl.
      rewrite Hc. split; [by eexists|]. done.
    + by rewrite Hat in H1.
    + by rewrite Hw, lookup_empty in H1.
Qed.

(** ** Concrete runs *)

Definition after_events (evs : list event) : Supervisor := default (NewSupervisor []) (steps evs (scheduler_Start [])).

Lemma after_events_reachable evs : rtc moves (scheduler_Start []) (after_events evs).
Proof.
  unfold after_events. destruct (steps evs (scheduler_Start [])) as [sv|] eqn:E; [|done].
  by apply steps_moves in E.
Qed.

Definition leading : list event := [Notify true; TakeNotification].

Lemma one_worker_at_a_time_witness :
  sv_workers (after_events (leading ++ leading)) = {[ 0 := false ]}
  ∧ size (sv_workers (after_events (leading ++ leading))) <= 1.
Proof.
  split; [reflexivity|]. apply (one_worker_at_a_time [] (after_events (leading ++ leading))).
  apply after_events_reachable.
Defined.

(** Shutting down with two notifications waiting: the run that serves both
    first, and the workers' exits in between, has five own steps and leaves [Run]
    in its [select], where it still goes on. *)
Definition late_news : Supervisor :=
  after_events (leading ++ [Notify false; Notify true; CancelCtx]).
Definition late_run : list event :=
  [TakeNotification; WorkerReturns 0; WaitOver; TakeNotification; WorkerReturns 1].

Lemma shutdown_terminates_witness : ∃ sv',
  steps late_run late_news = Some sv' ∧ sv_at sv' = AtSelect
  ∧ count own late_run <= 4 + 2 * (length (sv_notifyCh late_news) + count notifies late_run)
  ∧ ∃ ev sv'', own ev = true ∧ step ev sv' = Some sv''.
Proof.
  destruct (shutdown_terminates [] late_news) as [_ H]; [apply after_events_reachable|reflexivity|].
  destruct (H late_run (default late_news (steps late_run late_news)) ltac:(reflexivity))
    as [Hc [[Ha _]|He]]; [discriminate Ha|].
  eexists. split; [reflexivity|]. split; [reflexivity|]. split; [exact Hc|exact He].
Defined.

Lemma failed_worker_not_restarted_witness :
  sv_started (after_events (leading ++ [WorkerReturns 0])) = 1
  ∧ ∀ sv', steps leading (after_events (leading ++ [WorkerReturns 0])) = Some sv' → sv_workers sv' = ∅.
Proof.
  split; [reflexivity|]. intros sv' Hs.
  apply (failed_worker_not_restarted leading (after_events (leading ++ [WorkerReturns 0])) sv'); [| |exact Hs].
  - split; [by eexists|]. by repeat split.
  - by repeat constructor.
Defined.
