(* ===== verification/GoStrings.v ===== *)
(** * GoStrings: the parts of strings and strconv the source uses

    [strings.TrimSpace], [Cut] and [SplitSeq] on byte strings, and
    [strconv.Atoi], with the lemmas their clients need. *)

From Stdlib Require Import Ascii.
From S2P Require Import Prelude Go.
Open Scope Z_scope.

Definition byte (n : nat) : Ascii.ascii := Ascii.ascii_of_nat n.
Definition bytes (l : list nat) : string := String.string_of_list_ascii (byte <$> l).

(** ** White space *)

(** The UTF-8 encodings of the runes [unicode.IsSpace] accepts. *)
Definition space_runes : list string := bytes <$>
  [[9]; [10]; [11]; [12]; [13]; [32]; [194; 133]; [194; 160]; [225; 154; 128];
   [226; 128; 128]; [226; 128; 129]; [226; 128; 130]; [226; 128; 131]; [226; 128; 132];
   [226; 128; 133]; [226; 128; 134]; [226; 128; 135]; [226; 128; 136]; [226; 128; 137];
   [226; 128; 138]; [226; 128; 168]; [226; 128; 169]; [226; 128; 175]; [226; 129; 159];
   [227; 128; 128]]%nat.

(** Without one leading string of [ps], if there is one. *)
Definition strip_any (ps : list string) (s : string) : option string :=
  head (omap (λ p, strip_prefix_opt p s) ps).

Fixpoint trim_left (ps : list string) (fuel : nat) (s : string) : string :=
  match fuel with
  | O => s
  | S fuel' => match strip_any ps s with Some s' => trim_left ps fuel' s' | None => s end
  end.

Fixpoint rev_string (s : string) : string :=
  match s with EmptyString => "" | String c s' => rev_string s' +:+ String c "" end.

(** Spaces are cut from the front, then, read backwards, from the end. *)
Definition TrimSpace (s : string) : string :=
  let front := trim_left space_runes (String.length s) s in
  rev_string (trim_left (rev_string <$> space_runes) (String.length front) (rev_string front)).

(** ** Splitting *)

Fixpoint has_byte (c : Ascii.ascii) (s : string) : bool :=
  match s with EmptyString => false | String d s' => Ascii.eqb c d || has_byte c s' end.

(** [strings.Cut] at a one-byte separator. *)
Fixpoint Cut (c : Ascii.ascii) (s : string) : string * string * bool :=
  match s with
  | EmptyString => ("", "", false)
  | String d s' =>
      if Ascii.eqb c d then ("", s', true)
      else let '(before, after, ok) := Cut c s' in (String d before, after, ok)
  end.

(** [strings.SplitSeq] by a one-byte separator. *)
Fixpoint Split (c : Ascii.ascii) (s : string) : list string :=
  match s with
  | EmptyString => [""]
  | String d s' =>
      if Ascii.eqb c d then "" :: Split c s' else
      match Split c s' with
      | x :: l => String d x :: l
      | [] => [String d ""]
      end
  end.

(** ** Numbers *)

Definition digit_value (c : Ascii.ascii) : option Z :=
  let n := Z.of_nat (Ascii.nat_of_ascii c) in
  if (48 <=? n) && (n <=? 57) then Some (n - 48) else None.

Fixpoint digits_value (acc : Z) (s : string) : option Z :=
  match s with
  | EmptyString => Some acc
  | String c s' => match digit_value c with Some d => digits_value (10 * acc + d) s' | None => None end
  end.

(** [strconv.Atoi] on a 64-bit machine: an optional sign and decimal digits,
    no value outside of int64. *)
Definition Atoi (s : string) : option Z :=
  let '(neg, ds) := match s with
    | String "+"%char ds => (false, ds)
    | String "-"%char ds => (true, ds)
    | _ => (false, s)
    end in
  match ds with
  | EmptyString => None
  | _ => n ← digits_value 0 ds;
         let n := if neg : bool then - n else n in
         if (minInt64 <=? n) && (n <=? maxInt64) then Some n else None
  end.

Example Atoi_examples :
  Atoi "50" = Some 50 ∧ Atoi "+7" = Some 7 ∧ Atoi "-1" = Some (-1) ∧ Atoi "" = None
  ∧ Atoi "-" = None ∧ Atoi "1_0" = None ∧ Atoi " 1" = None
  ∧ Atoi "9223372036854775807" = Some maxInt64 ∧ Atoi "9223372036854775808" = None.
Proof. by vm_compute. Qed.

Example TrimSpace_examples :
  TrimSpace "  a b	 " = "a b" ∧ TrimSpace "   " = "" ∧ TrimSpace "x" = "x"
  ∧ TrimSpace (bytes [194; 160; 97; 227; 128; 128]%nat) = "a".
Proof. by vm_compute. Qed.

(** ** Laws *)

Lemma has_byte_app c a b : has_byte c (a +:+ b) = has_byte c a || has_byte c b.
Proof.
  induction a as [|d a IH]; [done|]. rewrite append_cons. simpl. by rewrite IH, orb_assoc.
Qed.

Lemma Cut_app c a b : has_byte c a = false → Cut c (a +:+ String c b) = (a, b, true).
Proof.
  induction a as [|d a IH]; simpl; intros Ha.
  - by (rewrite ?append_nil_l; simpl; rewrite Ascii.eqb_refl).
  - apply orb_false_iff in Ha as [Hd Ha]. rewrite ?append_cons. simpl. by rewrite Hd, IH.
Qed.

Lemma Cut_inv c s a b : Cut c s = (a, b, true) → s = a +:+ String c b ∧ has_byte c a = false.
Proof.
  revert a b. induction s as [|d s IH]; intros a b; simpl; [done|].
  destruct (Ascii.eqb c d) eqn:E.
  - intros [= <- <-]. apply Ascii.eqb_eq in E as ->. done.
  - destruct (Cut c s) as [[x y] ok]. intros [= <- -> ->]. destruct (IH x b eq_refl) as [-> Hx].
    rewrite append_cons. simpl. by rewrite E, Hx.
Qed.

Lemma Split_no_byte c s : has_byte c s = false → Split c s = [s].
Proof.
  induction s as [|d s IH]; simpl; [done|]. intros [Hd Hs]%orb_false_iff. rewrite Hd, IH by done. done.
Qed.

Lemma Split_app c a s : has_byte c a = false → Split c (a +:+ String c s) = a :: Split c s.
Proof.
  induction a as [|d a IH]; simpl; intros Ha.
  - by (rewrite ?append_nil_l; simpl; rewrite Ascii.eqb_refl).
  - apply orb_false_iff in Ha as [Hd Ha]. rewrite ?append_cons. simpl. by rewrite Hd, IH.
Qed.

Lemma Split_pieces c s x : x ∈ Split c s → has_byte c x = false.
Proof.
  revert x. induction s as [|d s IH]; intros x; simpl.
  - by intros ->%list_elem_of_singleton.
  - destruct (Ascii.eqb c d) eqn:E.
    + intros [->|H]%elem_of_cons; [done|by apply IH].
    + destruct (Split c s) as [|y l].
      * intros ->%list_elem_of_singleton. simpl. by rewrite E.
      * intros [->|H]%elem_of_cons; [|apply IH; by apply list_elem_of_further].
        simpl. rewrite E. apply IH, list_elem_of_here.
Qed.

(** *** Trimming *)

Lemma rev_string_app a b : rev_string (a +:+ b) = rev_string b +:+ rev_string a.
Proof.
  induction a as [|c a IH]; simpl; [by rewrite ?append_nil_r|]. rewrite ?append_cons. simpl.
  by rewrite IH, append_assoc.
Qed.

Lemma rev_string_involutive s : rev_string (rev_string s) = s.
Proof. induction s as [|c s IH]; [done|]. simpl. by rewrite rev_string_app, IH. Qed.

(** No space at the front, none at the end. *)
Definition no_space_first (s : string) : Prop := strip_any space_runes s = None.
Definition no_space_last (s : string) : Prop :=
  strip_any (rev_string <$> space_runes) (rev_string s) = None.

Lemma trim_left_none ps fuel s : strip_any ps s = None → trim_left ps fuel s = s.
Proof. destruct fuel; simpl; [done|]. by intros ->. Qed.

Lemma TrimSpace_id s : no_space_first s → no_space_last s → TrimSpace s = s.
Proof.
  intros Hf Hl. unfold TrimSpace. rewrite (trim_left_none _ _ s) by exact Hf.
  rewrite trim_left_none by exact Hl. apply rev_string_involutive.
Qed.

Lemma strip_any_none ps s : strip_any ps s = None ↔ ∀ p, p ∈ ps → strip_prefix_opt p s = None.
Proof.
  unfold strip_any. induction ps as [|p ps IH]; simpl.
  - split; [by intros _ p []%not_elem_of_nil|done].
  - destruct (strip_prefix_opt p s) as [r|] eqn:E; simpl.
    + split; [done|]. intros H. rewrite (H p) in E; [done|apply list_elem_of_here].
    + rewrite IH. split; intros H p' Hp; [|by apply H, list_elem_of_further].
      apply elem_of_cons in Hp as [->|Hp]; [done|by apply H].
Qed.

(** A prefix that does not contain [c] ends before it. *)
Lemma strip_prefix_before p a c b :
  has_byte c p = false → strip_prefix_opt p a = None → strip_prefix_opt p (a +:+ String c b) = None.
Proof.
  revert a. induction p as [|d p IH]; intros [|e a]; simpl; try done.
  - intros [Hd _]%orb_false_iff _. by rewrite Ascii.eqb_sym, Hd.
  - intros [_ Hp]%orb_false_iff. rewrite ?append_cons. destruct (Ascii.eqb d e); [by apply IH|done].
Qed.

Lemma strip_any_before ps a c b :
  Forall (λ p, has_byte c p = false) ps → strip_any ps a = None → strip_any ps (a +:+ String c b) = None.
Proof.
  rewrite !strip_any_none, Forall_forall. intros Hc Ha p Hp. apply strip_prefix_before; auto.
Qed.
