(* ===== verification/Config.v ===== *)
(** * Config: src/internal/config/config.go

    Validation of a node's configuration and the list of peers.  The flag
    package's result is the argument of [New]: the flags' values or its error. *)

From Stdlib Require Import Ascii.
From S2P Require Import Prelude Go GoStrings Model Storage Command.
Open Scope Z_scope.

Record Config := mkConfig {
  NodeID : string;
  RaftAddr : string;
  HTTPAddr : string;
  DataDir : string;
  Peers : gmap string string;
  Bootstrap : bool;
  AdminKey : string;
  peersRaw : string
}.

Definition set_Peers (p : gmap string string) (cfg : Config) : Config :=
  mkConfig (NodeID cfg) (RaftAddr cfg) (HTTPAddr cfg) (DataDir cfg) p (Bootstrap cfg) (AdminKey cfg)
    (peersRaw cfg).
Definition set_AdminKey (k : string) (cfg : Config) : Config :=
  mkConfig (NodeID cfg) (RaftAddr cfg) (HTTPAddr cfg) (DataDir cfg) (Peers cfg) (Bootstrap cfg) k
    (peersRaw cfg).

Definition adminKeyEnvVar : string := "SCHEDULER_ADMIN_KEY".

(** ** The list of peers *)

(** [Quote] is [strconv.Quote], which [%q] prints with; it only shows in messages. *)
Section config.
Context (Quote : string → string).

Definition malformed (entry what : string) : error :=
  EText ("malformed peer entry " +:+ Quote entry +:+ ", " +:+ what).

(** The body of the loop, over the entries that are left. *)
Fixpoint parse_entries (entries : list string) (peers : gmap string string) : result (gmap string string) :=
  match entries with
  | [] => Ok peers
  | entry :: entries =>
      let entry := TrimSpace entry in
      let '(id, addr, ok) := Cut "="%char entry in
      if negb ok then Err (malformed entry "want node-id=addr") else
      let id := TrimSpace id in
      let addr := TrimSpace addr in
      if empty id then Err (malformed entry "empty node-id") else
      if empty addr then Err (malformed entry "empty addr") else
      if bool_decide (is_Some (peers !! id)) then Err (EText ("duplicate peer node-id " +:+ Quote id)) else
      parse_entries entries (<[id := addr]> peers)
  end.

Definition parsePeers (cfg : Config) : result Config :=
  if empty (peersRaw cfg) then Err (EText "peers are required") else
  match parse_entries (Split ","%char (peersRaw cfg)) ∅ with
  | Ok peers => Ok (set_Peers peers cfg)
  | Err e => Err e
  | Panic p => Panic p
  end.

Definition validate (cfg : Config) : result Config :=
  if empty (NodeID cfg) then Err (EText "node-id is required") else
  if empty (RaftAddr cfg) then Err (EText "raft-addr is required") else
  if empty (HTTPAddr cfg) then Err (EText "http-addr is required") else
  if empty (DataDir cfg) then Err (EText "data-dir is required") else
  if empty (AdminKey cfg) then Err (EText (adminKeyEnvVar +:+ " environment variable is required")) else
  match parsePeers cfg with
  | Ok cfg =>
      match Peers cfg !! NodeID cfg with
      | None => Err (EText ("node-id " +:+ Quote (NodeID cfg) +:+ " not found in peers"))
      | Some _ => Ok cfg
      end
  | r => r
  end.

(** [env] is what [os.Getenv(adminKeyEnvVar)] returns. *)
Definition config_New (parsed : result Config) (env : string) : result Config :=
  match parsed with
  | Ok cfg => validate (set_AdminKey env cfg)
  | r => r
  end.

(** ** Printing peers and reading them back *)

(** An identifier and an address that [-peers] can carry. *)
Definition peer_ok (p : string * string) : Prop :=
  p.1 ≠ "" ∧ p.2 ≠ "" ∧ has_byte "="%char p.1 = false
  ∧ has_byte ","%char p.1 = false ∧ has_byte ","%char p.2 = false
  ∧ no_space_first p.1 ∧ no_space_last p.1 ∧ no_space_first p.2 ∧ no_space_last p.2.

Definition print_peer (p : string * string) : string := p.1 +:+ "=" +:+ p.2.
Definition print_peers (l : list (string * string)) : string := join "," (print_peer <$> l).

Lemma spaces_without c :
  negb (existsb (has_byte c) space_runes) = true → Forall (λ p, has_byte c p = false) space_runes.
Proof.
  intros H%negb_true_iff. apply Forall_forall. intros p Hp. destruct (has_byte c p) eqn:E; [|done].
  assert (existsb (has_byte c) space_runes = true) as Hx; [|congruence].
  apply existsb_exists. exists p. split; [by apply list_elem_of_In|done].
Qed.

Lemma has_byte_rev c s : has_byte c (rev_string s) = has_byte c s.
Proof.
  induction s as [|d s IH]; [done|]. simpl. rewrite has_byte_app, IH. simpl.
  by rewrite orb_false_r, orb_comm.
Qed.

Lemma rev_spaces_without c :
  Forall (λ p, has_byte c p = false) space_runes →
  Forall (λ p, has_byte c p = false) (rev_string <$> space_runes).
Proof.
  intros H. apply Forall_fmap. eapply Forall_impl; [exact H|]. intros p Hp. simpl. by rewrite has_byte_rev.
Qed.

Lemma print_peer_trim p : peer_ok p → TrimSpace (print_peer p) = print_peer p.
Proof.
  intros (_ & _ & _ & _ & _ & Hf & _ & _ & Hl). apply TrimSpace_id.
  - apply (strip_any_before _ p.1 "="%char); [|exact Hf]. apply spaces_without. reflexivity.
  - unfold no_space_last, print_peer. rewrite !rev_string_app, append_assoc.
    apply (strip_any_before _ (rev_string p.2) "="%char); [|exact Hl].
    apply rev_spaces_without, spaces_without. reflexivity.
Qed.

Lemma parse_entries_print l peers :
  Forall peer_ok l → NoDup (l.*1) → (∀ p, p ∈ l → peers !! p.1 = None) →
  parse_entries (print_peer <$> l) peers = Ok (list_to_map l ∪ peers).
Proof.
  intros Hok. revert peers. induction Hok as [|p l Hp _ IH]; intros peers Hnd Hfresh; simpl.
  { by rewrite (left_id_L ∅ (∪)). }
  apply NoDup_cons in Hnd as [Hni Hnd]. rewrite print_peer_trim by done.
  destruct Hp as (H1 & H2 & H3 & _ & _ & F1 & L1 & F2 & L2). unfold print_peer at 1.
  change ("=" +:+ p.2) with (String "="%char p.2). rewrite Cut_app by done. simpl.
  rewrite !TrimSpace_id by assumption. unfold empty. rewrite !bool_decide_eq_false_2 by done.
  rewrite bool_decide_eq_false_2 by (rewrite Hfresh; [by intros []|apply list_elem_of_here]).
  rewrite IH; [|done|].
  - assert (list_to_map (M := gmap string string) l !! p.1 = None) as Hl
      by by apply not_elem_of_list_to_map_1.
    destruct p as [i a]. simpl in *. by rewrite <- insert_union_r, insert_union_l.
  - intros q Hq. rewrite lookup_insert_ne; [by apply Hfresh, list_elem_of_further|].
    intros Heq. apply Hni. rewrite Heq. by apply list_elem_of_fmap_2.
Qed.

Lemma print_peer_no_comma p : peer_ok p → has_byte ","%char (print_peer p) = false.
Proof.
  intros (_ & _ & _ & H1 & H2 & _). unfold print_peer. rewrite !has_byte_app, H1, H2. done.
Qed.

Lemma Split_print l : l ≠ [] → Forall peer_ok l → Split ","%char (print_peers l) = print_peer <$> l.
Proof.
  intros Hne Hok. unfold print_peers. induction Hok as [|p l Hp Hl IH]; [done|]. simpl.
  destruct l as [|p2 l].
  - apply Split_no_byte. by apply print_peer_no_comma.
  - simpl. change ("," +:+ ?x) with (String ","%char x). rewrite Split_app by by apply print_peer_no_comma.
    f_equal. by apply IH.
Qed.

(** Every list of peers with distinct identifiers can be given to a node:
    printed as the flag takes it, it is read back as the map of that list.
    Identifiers have no comma or equals sign, addresses no comma, and neither
    begins nor ends with white space. *)
Theorem peers_roundtrip l cfg :
  l ≠ [] → NoDup (l.*1) → Forall peer_ok l → peersRaw cfg = print_peers l →
  parsePeers cfg = Ok (set_Peers (list_to_map l) cfg).
Proof.
  intros Hne Hnd Hok Hraw. unfold parsePeers. rewrite Hraw.
  assert (empty (print_peers l) = false) as ->.
  { apply bool_decide_eq_false_2. intros He. pose proof (Split_print l Hne Hok) as Hs. rewrite He in Hs.
    destruct Hok as [|[i a] l (H1 & _) _]; [done|]. simpl in Hs.
    destruct i; [done|]. by injection Hs. }
  rewrite Split_print, parse_entries_print by done. by rewrite (right_id_L ∅ (∪)).
Qed.

(** What was read, entry by entry. *)
Lemma parse_entries_ok entries peers m :
  parse_entries entries peers = Ok m →
  (∀ i a, m !! i = Some a → peers !! i = Some a
    ∨ i ≠ "" ∧ a ≠ "" ∧ ∃ e b c, e ∈ entries ∧ TrimSpace e = b +:+ "=" +:+ c
        ∧ has_byte "="%char b = false ∧ i = TrimSpace b ∧ a = TrimSpace c)
  ∧ size m = (size peers + length entries)%nat.
Proof.
  revert peers. induction entries as [|e entries IH]; intros peers; simpl.
  { intros [= <-]. split; [by auto|lia]. }
  destruct (Cut _ _) as [[b c] ok] eqn:Ec. destruct ok; [|done]. simpl.
  destruct (empty (TrimSpace b)) eqn:Eb; [done|]. destruct (empty (TrimSpace c)) eqn:Ea; [done|].
  case_bool_decide as Hd; [done|]. intros Hm. destruct (IH _ Hm) as [Hall Hsz].
  apply bool_decide_eq_false_1 in Eb, Ea. apply Cut_inv in Ec as [Ht Hb]. split.
  - intros i a Hi. destruct (Hall i a Hi) as [Hp|(H1 & H2 & e' & b' & c' & He & ?)].
    + apply lookup_insert_Some in Hp as [[<- <-]|[_ Hp]]; [right|by left].
      split; [done|]. split; [done|]. exists e, b, c. split; [apply list_elem_of_here|done].
    + right. split; [done|]. split; [done|]. exists e', b', c'. split; [by apply list_elem_of_further|done].
  - rewrite Hsz. rewrite map_size_insert_None by by apply eq_None_not_Some. lia.
Qed.

(** C39: a configuration is accepted exactly when its five required values are
    present, its list of peers can be read, and the node itself is one of the
    peers; then every peer has an identifier and an address, and as many peers
    are known as were listed. *)
Theorem config_accepted cfg cfg' :
  validate cfg = Ok cfg' ↔
  NodeID cfg ≠ "" ∧ RaftAddr cfg ≠ "" ∧ HTTPAddr cfg ≠ "" ∧ DataDir cfg ≠ "" ∧ AdminKey cfg ≠ ""
  ∧ parsePeers cfg = Ok cfg' ∧ is_Some (Peers cfg' !! NodeID cfg)
  ∧ map_Forall (λ i a, i ≠ "" ∧ a ≠ "") (Peers cfg')
  ∧ size (Peers cfg') = length (Split ","%char (peersRaw cfg)).
Proof.
  assert (∀ c, parsePeers cfg = Ok c → NodeID c = NodeID cfg
    ∧ map_Forall (λ i a, i ≠ "" ∧ a ≠ "") (Peers c)
    ∧ size (Peers c) = length (Split ","%char (peersRaw cfg))) as Hp.
  { intros c. unfold parsePeers. destruct (empty (peersRaw cfg)); [done|].
    destruct (parse_entries _ _) as [m| |] eqn:E; intros [= <-]. split; [done|]. simpl.
    destruct (parse_entries_ok _ _ _ E) as [Hall Hsz]. split; [|by rewrite Hsz, map_size_empty].
    intros i a Hi. destruct (Hall _ _ Hi) as [H|(H1 & H2 & _)]; [by rewrite lookup_empty in H|done]. }
  unfold validate, empty. repeat (case_bool_decide; [naive_solver|]).
  destruct (parsePeers cfg) as [c| |] eqn:E; [|naive_solver..].
  destruct (Hp c eq_refl) as (Hn & Hf & Hs). rewrite Hn. split.
  - destruct (Peers c !! NodeID cfg) eqn:Ep; [|done]. intros [= <-].
    split_and!; try done; by eexists.
  - intros (_ & _ & _ & _ & _ & [= <-] & [x Hx] & _). by rewrite Hx.
Qed.
End config.

Definition sample_config : Config :=
  mkConfig "n1" "127.0.0.1:8300" "127.0.0.1:8400" "/tmp/data" ∅ false "admin-key"
    "n1=127.0.0.1:7001,n2=127.0.0.1:7002".

Definition sample_peers : list (string * string) := [("n1", "127.0.0.1:7001"); ("n2", "127.0.0.1:7002")].

Lemma peers_roundtrip_witness :
  parsePeers (λ s, s) sample_config = Ok (set_Peers (list_to_map sample_peers) sample_config).
Proof.
  apply (peers_roundtrip (λ s, s) sample_peers sample_config).
  - done.
  - apply (bool_decide_unpack _). vm_compute. exact I.
  - repeat constructor; vm_compute; done.
  - vm_compute. reflexivity.
Defined.

Example config_examples :
  (match validate (λ s, s) (mkConfig "n1" "a" "b" "c" ∅ false "k" " n1 = x , n2=y") with
   | Ok c => Peers c | _ => ∅ end) = {[ "n1" := "x"; "n2" := "y" ]}
  ∧ validate (λ s, s) (mkConfig "n1" "a" "b" "c" ∅ false "" "n1=x")
    = Err (EText "SCHEDULER_ADMIN_KEY environment variable is required").
Proof. split; vm_compute; reflexivity. Qed.
