(* ===== verification/RateLimit.v ===== *)
(** * RateLimit: src/internal/api/ratelimit.go

    A token bucket per identity, in float64 arithmetic (the product and the sum
    rounded separately, as on amd64).  The mutexes make each [allow] one step;
    what [time.Now()] returns is its argument. *)

From Stdlib Require Import SpecFloat.
From S2P Require Import Prelude Go GoTime GoFloat.
Open Scope Z_scope.

Definition defaultRatePerSecond : f64 := f64_of_int 20.
Definition defaultBurst : f64 := f64_of_int 40.

Definition f64_sub : f64 → f64 → f64 := SFsub 53 1024.
Definition f64_sign (x : f64) : bool :=
  match x with S754_zero s | S754_infinity s | S754_finite s _ _ => s | S754_nan => false end.

(** [math.Min] *)
Definition Min (x y : f64) : f64 :=
  match x, y with
  | S754_infinity true, _ | _, S754_infinity true => S754_infinity true
  | S754_nan, _ | _, S754_nan => S754_nan
  | S754_zero s, S754_zero _ => if s then x else y
  | _, _ => if f64_ltb x y then x else y
  end.

Record tokenBucket := mkBucket {
  tokens : f64;
  lastRefill : Time;
  rate : f64;
  burst : f64
}.

Definition newTokenBucket (rate burst : f64) (now : Time) : tokenBucket :=
  mkBucket burst now rate burst.

Definition bucket_allow (now : Time) (b : tokenBucket) : bool * tokenBucket :=
  let elapsed := Seconds (Sub now (lastRefill b)) in
  let filled := Min (burst b) (f64_add (tokens b) (f64_mul elapsed (rate b))) in
  if f64_ltb filled f64_one then (false, mkBucket filled now (rate b) (burst b))
  else (true, mkBucket (f64_sub filled f64_one) now (rate b) (burst b)).

Record rateLimiter := mkLimiter {
  buckets : gmap string tokenBucket;
  rl_rate : f64;
  rl_burst : f64
}.

Definition newRateLimiter (rate burst : f64) : rateLimiter := mkLimiter ∅ rate burst.

(** [created] and [now] are the two readings of the clock, the first one made
    only for a new identity. *)
Definition limiter_allow (identity : string) (created now : Time) (rl : rateLimiter)
    : bool * rateLimiter :=
  let b := default (newTokenBucket (rl_rate rl) (rl_burst rl) created) (buckets rl !! identity) in
  let '(ok, b) := bucket_allow now b in
  (ok, mkLimiter (<[identity := b]> (buckets rl)) (rl_rate rl) (rl_burst rl)).

(** [int(math.Ceil(1 / a.limiter.rate))] *)
Definition retry_after (oor : f64 → Z) (rl : rateLimiter) : Z :=
  int_of_f64 oor (Ceil (f64_div f64_one (rl_rate rl))).

(** ** Requests at given times *)

Fixpoint requests (identity : string) (times : list Time) (rl : rateLimiter)
    : list bool * rateLimiter :=
  match times with
  | [] => ([], rl)
  | now :: times =>
      let '(ok, rl) := limiter_allow identity now now rl in
      let '(oks, rl) := requests identity times rl in (ok :: oks, rl)
  end.

(** The same on the number of tokens, by the time elapsed since the last one. *)
Fixpoint spend (waits : list Z) (t : f64) : list bool * f64 :=
  match waits with
  | [] => ([], t)
  | d :: waits =>
      let filled := Min defaultBurst (f64_add t (f64_mul (Seconds d) defaultRatePerSecond)) in
      let ok := negb (f64_ltb filled f64_one) in
      let '(oks, t') := spend waits (if ok then f64_sub filled f64_one else filled) in (ok :: oks, t')
  end.

Fixpoint elapsed_from (last : Time) (times : list Time) : list Z :=
  match times with [] => [] | t :: times => Sub t last :: elapsed_from t times end.

Definition default_bucket (t : f64) (last : Time) : tokenBucket :=
  mkBucket t last defaultRatePerSecond defaultBurst.

Lemma requests_spend identity times last t rl :
  buckets rl !! identity = Some (default_bucket t last) →
  (requests identity times rl).1 = (spend (elapsed_from last times) t).1.
Proof.
  revert last t rl. induction times as [|now times IH]; intros last t rl Hb; [done|]. cbn [requests elapsed_from].
  unfold limiter_allow. rewrite Hb. cbn [default spend]. unfold bucket_allow. cbn [default_bucket lastRefill tokens rate burst].
  assert (∀ t1, (requests identity times (mkLimiter (<[identity := default_bucket t1 now]> (buckets rl))
      (rl_rate rl) (rl_burst rl))).1 = (spend (elapsed_from now times) t1).1) as H.
  { intros t1. apply (IH now t1). apply lookup_insert_eq. }
  destruct (f64_ltb _ _); cbn [negb];
    [specialize (H (Min defaultBurst (f64_add t (f64_mul (Seconds (Sub now last)) defaultRatePerSecond))))
    |specialize (H (f64_sub (Min defaultBurst (f64_add t
       (f64_mul (Seconds (Sub now last)) defaultRatePerSecond))) f64_one))];
    unfold default_bucket in H;
    destruct (requests identity times _), (spend (elapsed_from now times) _); simpl in *; by f_equal.
Qed.

(** Requests of one identity leave the others' buckets alone. *)
Lemma requests_other identity times rl i :
  i ≠ identity → buckets (requests identity times rl).2 !! i = buckets rl !! i.
Proof.
  intros Hi. revert rl. induction times as [|now times IH]; intros rl; [done|]. cbn [requests].
  destruct (limiter_allow identity now now rl) as [ok rl1] eqn:E.
  specialize (IH rl1). destruct (requests identity times rl1) as [oks rl2]. simpl in *. rewrite IH.
  unfold limiter_allow in E. destruct (bucket_allow _ _). injection E as <- <-. simpl.
  by rewrite lookup_insert_ne.
Qed.

Lemma Sub_diag t : Sub t t = 0.
Proof. unfold Sub. rewrite Z.sub_diag. reflexivity. Qed.

Lemma Sub_Add t d : 0 <= d <= maxInt64 → Sub (Add t d) t = d.
Proof. unfold Sub, Add, minInt64, maxInt64. simpl. lia. Qed.

Lemma elapsed_replicate n now l :
  elapsed_from now (replicate n now ++ l) = replicate n 0 ++ elapsed_from now l.
Proof. induction n as [|n IH]; simpl; [done|]. by rewrite Sub_diag, IH. Qed.

Lemma requests_new identity times now rl :
  buckets rl !! identity = None → rl_rate rl = defaultRatePerSecond → rl_burst rl = defaultBurst →
  (requests identity (now :: times) rl).1 = (spend (elapsed_from now (now :: times)) defaultBurst).1.
Proof.
  intros Hb Hr Hbu.
  rewrite <- (requests_spend identity (now :: times) now defaultBurst
    (mkLimiter (<[identity := default_bucket defaultBurst now]> (buckets rl)) (rl_rate rl) (rl_burst rl)))
    by apply lookup_insert_eq.
  cbn [requests]. unfold limiter_allow. simpl. rewrite Hb, lookup_insert_eq, Hr, Hbu. simpl.
  unfold newTokenBucket, default_bucket. destruct (bucket_allow _ _) as [ok b].
  by rewrite insert_insert_eq.
Qed.

(** C38: an identity that has not been seen yet is allowed 40 requests at one
    instant, in whatever state the other identities' budgets are; the next is
    refused with the hint to retry after one second, one second later exactly 20
    more are allowed, and no other identity's budget has changed. *)
Theorem rate_limit_budget identity rl now oor :
  buckets rl !! identity = None → rl_rate rl = defaultRatePerSecond → rl_burst rl = defaultBurst →
  let times := replicate 41 now ++ replicate 21 (Add now second_ns) in
  (requests identity times rl).1 = replicate 40 true ++ [false] ++ replicate 20 true ++ [false]
  ∧ retry_after oor rl = 1
  ∧ ∀ i, i ≠ identity → buckets (requests identity times rl).2 !! i = buckets rl !! i.
Proof.
  intros Hb Hr Hbu times. split; [|split].
  - assert (elapsed_from now times = replicate 41 0 ++ second_ns :: replicate 20 0) as He.
    { unfold times. rewrite elapsed_replicate. f_equal. cbn [replicate elapsed_from].
      by rewrite Sub_diag, Sub_Add by (unfold second_ns, maxInt64; lia). }
    pose proof (requests_new identity (replicate 40 now ++ replicate 21 (Add now second_ns)) now rl
      Hb Hr Hbu) as Hq.
    change (now :: replicate 40 now ++ replicate 21 (Add now second_ns)) with times in Hq.
    rewrite Hq, He. vm_compute. reflexivity.
  - unfold retry_after. rewrite Hr. vm_compute. reflexivity.
  - intros i. apply requests_other.
Qed.

Lemma rate_limit_budget_witness :
  (requests "acme" (replicate 41 zeroTime ++ replicate 21 (Add zeroTime second_ns))
    (newRateLimiter defaultRatePerSecond defaultBurst)).1
  = replicate 40 true ++ [false] ++ replicate 20 true ++ [false].
Proof.
  apply (rate_limit_budget "acme" (newRateLimiter defaultRatePerSecond defaultBurst) zeroTime (λ _, 0));
    reflexivity.
Defined.
