(* ===== verification/Replies.v ===== *)
(** * Replies: what a command answers

    The reply of every command is a row of the kind its type calls for, and the
    very row the command names.  Proved for any store whose reads return the
    row they were asked for, as those of bbolt do on consistent buckets. *)

From S2P Require Import Prelude Go GoTime Model Bolt Json Storage Command Dispatch StateMachine.
From S2P Require Import Spec Invariants Refinement RefinementScan RefinementTx Replica Sample.

(** ** The reply of a command *)

(** The row a command names. *)
Definition command_row (c : command) : string :=
  match c with
  | create_tenant c => c.(CreateTenantCommand.ID)
  | create_schedule c => c.(CreateScheduleCommand.ID)
  | update_schedule c => c.(UpdateScheduleCommand.ID)
  | pause_schedule c => c.(PauseScheduleCommand.ID)
  | cancel_schedule c => c.(CancelScheduleCommand.ID)
  | resume_schedule c => c.(ResumeScheduleCommand.ID)
  | claim_execution c => c.(ClaimExecutionCommand.ID)
  | adopt_execution c => c.(AdoptExecutionCommand.ExecutionID)
  | record_attempt c => c.(RecordAttemptCommand.ID)
  | complete_execution c => c.(CompleteExecutionCommand.ExecutionID)
  | fail_execution_timeout c => c.(FailExecutionTimeoutCommand.ExecutionID)
  end.

Definition reply_of (c : command) (v : reply) : Prop :=
  match c, v with
  | _, RRejected _ => True
  | create_tenant c, RTenant t => t.(Tenant.ID) = c.(CreateTenantCommand.ID)
  | (create_schedule _ | update_schedule _ | pause_schedule _ | cancel_schedule _ | resume_schedule _),
      RSchedule s => command_tenant c = Some s.(Schedule.TenantID) ∧ s.(Schedule.ID) = command_row c
  | (claim_execution _ | adopt_execution _ | complete_execution _ | fail_execution_timeout _),
      RExecution e => command_tenant c = Some e.(Execution.TenantID) ∧ e.(Execution.ID) = command_row c
  | record_attempt _, RAttempt a =>
      command_tenant c = Some a.(Attempt.TenantID) ∧ a.(Attempt.ID) = command_row c
  | _, _ => False
  end.

(** ** Stores that return what they are asked for *)

(** In state [s], the rows read of tenant [t] are the rows asked for. *)
Class OwnReads (St : Type) `{!Tx St} (own : string → St → Prop) := {
  own_schedule t i s x s' : own t s → GetSchedule t i s = (Ok (Some x), s') →
    x.(Schedule.TenantID) = t ∧ x.(Schedule.ID) = i;
  own_execution t i s x s' : own t s → GetExecution t i s = (Ok (Some x), s') →
    x.(Execution.TenantID) = t ∧ x.(Execution.ID) = i
}.

Section yields.
Context {St : Type}.
Implicit Types P : St → Prop.

(** What a successful run from a [P] state returns satisfies [Q]. *)
Definition yields {A} P (m : M St A) (Q : A → Prop) : Prop :=
  ∀ s a s', P s → m s = (Ok a, s') → Q a.

Lemma yields_ret {A} P (a : A) (Q : A → Prop) : Q a → yields P (mret a) Q.
Proof. by intros HQ s x s' _ [= <- <-]. Qed.

Lemma yields_fail {A} P e (Q : A → Prop) : yields P (fail e) Q.
Proof. done. Qed.

(** A guard leaves the state alone. *)
Lemma yields_guard {A} P (g : M St unit) (f : unit → M St A) Q :
  (∀ s u s', g s = (Ok u, s') → s' = s) → yields P (f ()) Q → yields P (g ≫= f) Q.
Proof. intros Hg Hf s a s' HP ([] & s1 & ->%Hg & H)%M_bind_inv. by eapply Hf. Qed.

(** Whatever state the first part leaves. *)
Lemma yields_bind {A C} P (m : M St A) (R : A → Prop) (f : A → M St C) Q :
  yields P m R → (∀ a, R a → yields (λ _, True) (f a) Q) → yields P (m ≫= f) Q.
Proof. intros Hm Hf s a s' HP (x & s1 & H1 & H2)%M_bind_inv. by eapply Hf; [eapply Hm| |]. Qed.

Lemma yields_step {A C} P (m : M St A) (f : A → M St C) Q :
  (∀ a, yields (λ _, True) (f a) Q) → yields P (m ≫= f) Q.
Proof. intros Hf. apply (yields_bind P m (λ _, True)); auto. by intros s a s'. Qed.

Lemma yields_wrap {A} P g (m : M St A) Q : yields P m Q → yields P (wrap_err g m) Q.
Proof. intros Hm s a s' HP H%wrap_err_inv. by eapply Hm. Qed.

Lemma reject_if_state b e (s : St) u s' : reject_if b e s = (Ok u, s') → s' = s.
Proof. by intros [_ ->]%reject_if_inv. Qed.

Lemma reject_some_state o (s : St) u s' : reject_some o s = (Ok u, s') → s' = s.
Proof. destruct o; [done|]. by intros [= _ ->]. Qed.

Lemma require_time_state o f m1 m2 (s : St) u s' : require_time o f m1 m2 s = (Ok u, s') → s' = s.
Proof. destruct o; [apply reject_if_state|done]. Qed.
End yields.

(** ** Every handler *)

Section replies.
Context `{PF : !Platform} {St : Type} `{TX : !Tx St} (own : string → St → Prop) `{OR : !OwnReads St own}.

Lemma set_opt_row {A} (set : A → Schedule → Schedule) v s :
  (∀ a s, (set a s).(Schedule.TenantID) = s.(Schedule.TenantID) ∧ (set a s).(Schedule.ID) = s.(Schedule.ID)) →
  (set_opt set v s).(Schedule.TenantID) = s.(Schedule.TenantID)
  ∧ (set_opt set v s).(Schedule.ID) = s.(Schedule.ID).
Proof. intros H. by destruct v; simpl. Qed.

Ltac guard_state :=
  intros; first [by eapply reject_if_state | by eapply reject_some_state | by eapply require_time_state].

Ltac yields_tac :=
  repeat match goal with
  | |- yields _ (mret _) _ => apply yields_ret
  | |- yields _ (fail _) _ => apply yields_fail
  | |- yields _ (reject_if _ _ ≫= _) _ => apply yields_guard; [guard_state|]
  | |- yields _ (reject_some _ ≫= _) _ => apply yields_guard; [guard_state|]
  | |- yields _ (require_time _ _ _ _ ≫= _) _ => apply yields_guard; [guard_state|]
  | |- yields _ (wrap_err _ (GetSchedule ?t ?i) ≫= _) _ =>
      apply (yields_bind _ _ (λ o, ∀ x, o = Some x → x.(Schedule.TenantID) = t ∧ x.(Schedule.ID) = i));
      [apply yields_wrap; intros s0 o0 s1 Hown Hget x ->; by eapply own_schedule|intros [x|] Hx]
  | |- yields (own _) (wrap_err _ (GetExecution ?t ?i) ≫= _) _ =>
      apply (yields_bind _ _ (λ o, ∀ x, o = Some x → x.(Execution.TenantID) = t ∧ x.(Execution.ID) = i));
      [apply yields_wrap; intros s0 o0 s1 Hown Hget x ->; by eapply own_execution|intros [x|] Hx]
  | |- yields _ (if ?b then _ else _) _ => destruct b
  | |- yields _ (_ ≫= _) _ => apply yields_step; intros
  | |- yields _ (match ?o with _ => _ end) _ => destruct o
  end.

(** The row a handler answers with has tenant [t] and identifier [i]. *)
Definition sched_row (t i : string) (s : Schedule) : Prop :=
  s.(Schedule.TenantID) = t ∧ s.(Schedule.ID) = i.
Definition exec_row (t i : string) (e : Execution) : Prop :=
  e.(Execution.TenantID) = t ∧ e.(Execution.ID) = i.

Lemma yields_create_schedule P c at_ :
  yields P (ApplyCreateSchedule c at_)
    (sched_row c.(CreateScheduleCommand.TenantID) c.(CreateScheduleCommand.ID)).
Proof. unfold ApplyCreateSchedule. yields_tac. done. Qed.

Lemma yields_update_schedule c at_ :
  yields (own c.(UpdateScheduleCommand.TenantID)) (ApplyUpdateSchedule c at_)
    (sched_row c.(UpdateScheduleCommand.TenantID) c.(UpdateScheduleCommand.ID)).
Proof.
  unfold ApplyUpdateSchedule. do 2 (apply yields_guard; [guard_state|]).
  apply yields_guard. { intros s u s'. destruct (UpdateScheduleCommand.Headers c); [apply reject_some_state|]. by intros [= _ ->]. }
  match goal with |- yields _ (wrap_err _ (GetSchedule ?t ?i) ≫= _) _ =>
    apply (yields_bind _ _ (λ o, ∀ x, o = Some x → sched_row t i x)) end.
  { apply yields_wrap. intros s0 o0 s1 Hown Hget x ->. by eapply own_schedule. }
  intros [x|] Hx; [|apply yields_fail]. specialize (Hx x eq_refl). apply yields_guard; [guard_state|].
  cbv zeta. set (u := set_opt Schedule.set_MaxAttempts _ _).
  assert (sched_row c.(UpdateScheduleCommand.TenantID) c.(UpdateScheduleCommand.ID) u) as Hu.
  { subst u. unfold sched_row. destruct Hx as [<- <-]. by rewrite !(λ A set v s H, proj1 (@set_opt_row A set v s H)),
      !(λ A set v s H, proj2 (@set_opt_row A set v s H)) by done. }
  clearbody u. apply (yields_bind _ _ (sched_row c.(UpdateScheduleCommand.TenantID) c.(UpdateScheduleCommand.ID))).
  - yields_tac; done.
  - intros y Hy. yields_tac. done.
Qed.

Lemma yields_pause_schedule c at_ :
  yields (own c.(PauseScheduleCommand.TenantID)) (ApplyPauseSchedule c at_)
    (sched_row c.(PauseScheduleCommand.TenantID) c.(PauseScheduleCommand.ID)).
Proof. unfold ApplyPauseSchedule. yields_tac; exact (Hx _ eq_refl). Qed.

Lemma yields_cancel_schedule c at_ :
  yields (own c.(CancelScheduleCommand.TenantID)) (ApplyCancelSchedule c at_)
    (sched_row c.(CancelScheduleCommand.TenantID) c.(CancelScheduleCommand.ID)).
Proof. unfold ApplyCancelSchedule. yields_tac; exact (Hx _ eq_refl). Qed.

Lemma yields_resume_schedule c at_ :
  yields (own c.(ResumeScheduleCommand.TenantID)) (ApplyResumeSchedule c at_)
    (sched_row c.(ResumeScheduleCommand.TenantID) c.(ResumeScheduleCommand.ID)).
Proof. unfold ApplyResumeSchedule. yields_tac; exact (Hx _ eq_refl). Qed.

Lemma yields_claim P c at_ :
  yields P (ApplyClaimExecution c at_)
    (exec_row c.(ClaimExecutionCommand.TenantID) c.(ClaimExecutionCommand.ID)).
Proof. unfold ApplyClaimExecution. yields_tac; done. Qed.

Lemma yields_adopt c at_ :
  yields (own c.(AdoptExecutionCommand.TenantID)) (ApplyAdoptExecution c at_)
    (exec_row c.(AdoptExecutionCommand.TenantID) c.(AdoptExecutionCommand.ExecutionID)).
Proof. unfold ApplyAdoptExecution. yields_tac; exact (Hx _ eq_refl). Qed.

Lemma yields_complete c at_ :
  yields (own c.(CompleteExecutionCommand.TenantID)) (ApplyCompleteExecution c at_)
    (exec_row c.(CompleteExecutionCommand.TenantID) c.(CompleteExecutionCommand.ExecutionID)).
Proof. unfold ApplyCompleteExecution. yields_tac; exact (Hx _ eq_refl). Qed.

Lemma yields_timeout c at_ :
  yields (own c.(FailExecutionTimeoutCommand.TenantID)) (ApplyFailExecutionTimeout c at_)
    (exec_row c.(FailExecutionTimeoutCommand.TenantID) c.(FailExecutionTimeoutCommand.ExecutionID)).
Proof. unfold ApplyFailExecutionTimeout. yields_tac; exact (Hx _ eq_refl). Qed.

Lemma yields_record P c at_ :
  yields P (ApplyRecordAttempt c at_)
    (λ a, a.(Attempt.TenantID) = c.(RecordAttemptCommand.TenantID) ∧ a.(Attempt.ID) = c.(RecordAttemptCommand.ID)).
Proof.
  unfold ApplyRecordAttempt. repeat (apply yields_guard; [guard_state|]). apply yields_step. intros [x|]; [|apply yields_fail].
  do 2 (apply yields_guard; [guard_state|]). cbv zeta. yields_tac. by destruct (RecordAttemptCommand.RetryAt c).
Qed.

Lemma yields_create_tenant P c at_ :
  yields P (ApplyCreateTenant c at_) (λ t, t.(Tenant.ID) = c.(CreateTenantCommand.ID)).
Proof. unfold ApplyCreateTenant. yields_tac. done. Qed.

Definition owns_rows (c : command) (s : St) : Prop :=
  match command_tenant c with Some t => own t s | None => True end.

Lemma yields_reply c at_ : yields (owns_rows c) (run_command c at_) (reply_of c).
Proof.
  destruct c; unfold owns_rows; simpl;
    (eapply yields_bind;
     [eauto using yields_create_tenant, yields_create_schedule, yields_update_schedule, yields_pause_schedule,
        yields_cancel_schedule, yields_resume_schedule, yields_claim, yields_adopt, yields_record, yields_complete,
        yields_timeout
     |intros x Hx; apply yields_ret; simpl; unfold sched_row, exec_row in Hx; first [exact Hx|destruct Hx as [<- ?]; by split]]).
Qed.
End replies.

(** ** On bbolt *)

Section bolt.
Context `{PF : !Platform, CC : !CommandCodec, B : !Bolt, BL : !BoltLaws B, J : !Json, JL : !JsonLaws J}.

(** The buckets are those of some abstract store. *)
Definition own_db (t : string) (d : DB) : Prop := no_colon t = true ∧ ∃ sp, R d sp.

#[export] Instance own_reads_db : OwnReads DB own_db.
Proof.
  split; intros t i s x s' [Ht [sp HR]]; simpl.
  - rewrite (GetSchedule_R _ _ _ _ HR Ht). intros [= Hx _].
    by destruct (wf_schedules _ (R_wf _ _ HR) _ _ Hx) as [[= <- <-] _].
  - rewrite (GetExecution_R _ _ _ _ HR Ht). intros [= Hx _].
    by destruct (wf_executions _ (R_wf _ _ HR) _ _ Hx) as [[= <- <-] _].
Qed.

Lemma apply_reply (e : LogData) (c : command) (at_ : Time) (d : DB) (sp : Spec) (v : reply) :
  R d sp → entry_command e = Some (c, at_) → (∀ t, command_tenant c = Some t → no_colon t = true) →
  (apply_db e d).1 = Ok v → reply_of c v.
Proof.
  intros HR He Ht. unfold entry_command in He. destruct e as [env|x|p]; [|done..].
  destruct (decode_command _ _) as [c'|x|p] eqn:Ec; try done. injection He as -> <-.
  unfold apply_db, Update, Dispatch. rewrite Ec, (M_bind_ok (lift (Ok c)) _ _ c _ eq_refl).
  destruct (run_command c _ d) as [[r|x|p] d'] eqn:Er; simpl; [|destruct (asCommandErrorChain x); [|done]|done].
  - intros [= <-]. eapply (yields_reply own_db); [|exact Er]. unfold owns_rows.
    destruct (command_tenant c) as [t|] eqn:E; [|done]. split; eauto.
  - intros [= <-]. by destruct c.
Qed.
(** C21: the value [Apply] answers an entry with is a rejection, or a row of
    the kind the command's type calls for, and the very row the command names:
    that tenant, that schedule, that execution or that attempt. *)
Theorem replies_have_their_type (e : LogData) (c : command) (at_ : Time) (d : DB) (sp : Spec) (v : reply) :
  R d sp → entry_command e = Some (c, at_) → (∀ t, command_tenant c = Some t → no_colon t = true) →
  (apply_db e d).1 = Ok v → reply_of c v.
Proof. apply apply_reply. Qed.
End bolt.

Lemma replies_have_their_type_witness :
  ∃ a, (apply_db (entry (record_attempt record_cmd) noon) sample_db).1 = Ok (RAttempt a)
     ∧ reply_of (record_attempt record_cmd) (RAttempt a).
Proof.
  assert (∃ a, (apply_db (entry (record_attempt record_cmd) noon) sample_db).1 = Ok (RAttempt a)) as [a Ha].
  { eexists. vm_compute. reflexivity. }
  exists a. split; [exact Ha|].
  apply (replies_have_their_type (entry (record_attempt record_cmd) noon) (record_attempt record_cmd) noon
           sample_db sample_spec); [exact sample_R|reflexivity| |exact Ha].
  intros t [= <-]. reflexivity.
Defined.
