(* ===== verification/Api.v ===== *)
(** * Api: src/internal/api

    The HTTP handlers, their authentication, pagination and error responses,
    over the interface [Backend] of interfaces.go.  A handler that has written
    its response is done: helpers that answer the request themselves and return
    [false] end the handler.  Log messages are left out. *)

From Stdlib Require Import Ascii.
From S2P Require Import Prelude Go GoStrings GoTime GoFloat Model Storage Command Dispatch Sha256 Prog.
From S2P Require Import Config RateLimit.
Open Scope Z_scope.

(** ** Requests and responses *)

(** What handlers use of a request: [Path] is the list of its segments,
    [Authorization] and [Query] what [Get] returns, the empty string if absent. *)
Record HttpRequest := mkHttpRequest {
  Method : string;
  Path : list string;
  Authorization : string;
  Query : string → string;
  Body : string
}.

Inductive ResponseBody :=
| BError (msg : string)
| BCreatedTenant (t : option Tenant) (APIKey : string)
| BResult (result : reply)
| BTenant (t : option Tenant)
| BSchedule (s : Schedule)
| BExecution (e : Execution)
| BAttempt (a : Attempt)
| BTenantPage (Items : list (option Tenant)) (NextCursor : string)
| BExecutionPage (Items : list Execution) (NextCursor : string)
| BAttemptPage (Items : list Attempt) (NextCursor : string).

Record HttpResponse := mkHttpResponse {
  StatusCode : Z;
  RespHeader : Header;
  RespBody : ResponseBody
}.

Definition StatusOK : Z := 200.
Definition StatusCreated : Z := 201.
Definition StatusBadRequest : Z := 400.
Definition StatusUnauthorized : Z := 401.
Definition StatusNotFound : Z := 404.
Definition StatusConflict : Z := 409.
Definition StatusTooManyRequests : Z := 429.
Definition StatusInternalServerError : Z := 500.
Definition StatusServiceUnavailable : Z := 503.

(** ** The backend *)

(** [api.Backend]: *raftnode.RaftNode satisfies it.  Every call may change the
    state behind it. *)
Class Backend (S : Type) := {
  be_IsLeader : S → bool * S;
  be_LeaderAddr : S → string * S;
  be_GetTenant : string → S → result (option Tenant) * S;
  be_GetSchedule : string → string → S → result (option Schedule) * S;
  be_GetExecution : string → string → S → result (option Execution) * S;
  be_GetAttempt : string → string → S → result (option Attempt) * S;
  be_ListTenantsPage : Z → string → S → result (list Tenant * string) * S;
  be_ListExecutionsBySchedulePage : string → string → Z → string → S → result (list Execution * string) * S;
  be_ListExecutionsByStatusPage : string → string → Z → string → S → result (list Execution * string) * S;
  be_ListAttemptsByExecutionPage : string → string → Z → string → S → result (list Attempt * string) * S;
  be_Propose : string → command → S → result reply * S
}.

(** [json.NewDecoder(r.Body).Decode] into the two commands clients send. *)
Class BodyCodec := {
  decode_tenant_body : string → result CreateTenantCommand;
  decode_schedule_body : string → result CreateScheduleCommand
}.

(** ** The handlers' monad *)

(** The limiter, the backend, the coming readings of the clock and of the
    random number generator. *)
Record ApiState (S : Type) := mkApiState {
  as_limiter : rateLimiter;
  as_backend : S;
  as_clock : list Time;
  as_random : list (result string)
}.
Arguments mkApiState {S} _ _ _ _.
Arguments as_limiter {S} _.
Arguments as_backend {S} _.
Arguments as_clock {S} _.
Arguments as_random {S} _.

(** [inl (Some resp)]: the response has been written.  [inl None]: a panic, and
    no response.  One of the handler's goroutine is recovered by net/http, which
    closes the connection; one of [Apply] ends the process (Main.v). *)
Definition HM (S A : Type) : Type := ApiState S → (option HttpResponse + A) * ApiState S.

#[export] Instance HM_ret {S} : MRet (HM S) := λ A a st, (inr a, st).
#[export] Instance HM_bind {S} : MBind (HM S) := λ A C f m st,
  match m st with
  | (inr a, st) => f a st
  | (inl o, st) => (inl o, st)
  end.

Definition written {S A} (resp : HttpResponse) : HM S A := λ st, (inl (Some resp), st).
Definition panicked {S A} : HM S A := λ st, (inl None, st).

(** A call of the backend. *)
Definition call {S A} (f : S → A * S) : HM S A := λ st,
  let '(a, s) := f (as_backend st) in
  (inr a, mkApiState (as_limiter st) s (as_clock st) (as_random st)).

Definition time_now {S} : HM S Time := λ st,
  (inr (hd zeroTime (as_clock st)),
   mkApiState (as_limiter st) (as_backend st) (tl (as_clock st)) (as_random st)).

Definition rand_read {S} : HM S (result string) := λ st,
  (inr (hd (Err (EText "no randomness")) (as_random st)),
   mkApiState (as_limiter st) (as_backend st) (as_clock st) (tl (as_random st))).

(** ** Responses *)

Definition json_response (status : Z) (body : ResponseBody) : HttpResponse :=
  mkHttpResponse status (Header_Set "Content-Type" "application/json" ∅) body.

Definition writeJSON {S A} (status : Z) (body : ResponseBody) : HM S A :=
  written (json_response status body).
Definition writeError {S A} (status : Z) (msg : string) : HM S A := writeJSON status (BError msg).

Definition writeReadError {S A} (err : error) : HM S A :=
  if isNotCaughtUp err then writeError StatusServiceUnavailable (Error err)
  else writeError StatusInternalServerError (Error err).

Definition statusForCommandErrorKind (kind : string) : Z :=
  if bool_decide (kind = KindValidation) then StatusBadRequest
  else if bool_decide (kind = KindNotFound) then StatusNotFound
  else if bool_decide (kind = KindConflict) then StatusConflict
  else StatusInternalServerError.

(** [sanitizeTenant]: without the key's hash. *)
Definition sanitizeTenant (t : option Tenant) : option Tenant :=
  match t with
  | None => None
  | Some t => Some (Tenant.mk t.(Tenant.ID) t.(Tenant.Name) t.(Tenant.CreatedAt) "")
  end.
Definition sanitizeTenants (ts : list Tenant) : list (option Tenant) := (λ t, sanitizeTenant (Some t)) <$> ts.

(** ** auth.go *)

Definition hashAPIKey (key : string) : string := hex_encode (Sum256 key).

Definition bearerToken (r : HttpRequest) : option string :=
  let prefix := "Bearer " in
  let h := Authorization r in
  if negb (String.prefix prefix h) then None else
  let token := TrimSpace (strip_prefix prefix h) in
  if empty token then None else Some token.

Definition constantTimeEqual (a b : string) : bool :=
  if empty a || empty b then false else bool_decide (a = b).

(** ** pagination.go *)

Definition defaultLimit : Z := 50.
Definition maxLimit : Z := 200.

Definition parsePagination (r : HttpRequest) : Z * string + string :=
  let cursor := Query r "cursor" in
  let s := Query r "limit" in
  if empty s then inl (defaultLimit, cursor) else
  match Atoi s with
  | Some n =>
      if (n <? 1) || (maxLimit <? n)
      then inr "limit must be an integer between 1 and 200" else inl (n, cursor)
  | None => inr "limit must be an integer between 1 and 200"
  end.

Section api.
Context {S : Type} `{!Backend S, !BodyCodec} (cfg : Config) (oor : f64 → Z).
(** [fmt.Sprintf]'s and [strconv.Itoa]'s rendering of an integer. *)
Context (Itoa : Z → string).

Definition generateAPIKey : HM S (result (string * string)) :=
  r ← rand_read;
  match r with
  | Ok buf =>
      let plaintext := "sched_" +:+ base64url_encode (bytes_of buf) in
      mret (Ok (plaintext, hashAPIKey plaintext))
  | Err e => mret (Err e)
  | Panic p => panicked
  end.

Definition bucket_exists (identity : string) : HM S bool := λ st,
  (inr (bool_decide (is_Some (buckets (as_limiter st) !! identity))), st).

Definition limit (identity : string) (created now : Time) : HM S bool := λ st,
  let '(ok, rl) := limiter_allow identity created now (as_limiter st) in
  (inr ok, mkApiState rl (as_backend st) (as_clock st) (as_random st)).

Definition too_many_requests : HM S unit := λ st,
  (inl (Some (mkHttpResponse StatusTooManyRequests
          (Header_Set "Content-Type" "application/json"
             (Header_Set "Retry-After" (Itoa (retry_after oor (as_limiter st))) ∅))
          (BError "rate limit exceeded"))), st).

(** [limiter.allow]: a new bucket reads the clock, then [allow] does. *)
Definition allowRate (identity : string) : HM S unit :=
  known ← bucket_exists identity;
  created ← (if known : bool then mret zeroTime else time_now);
  now ← time_now;
  ok ← limit identity created now;
  if ok : bool then mret () else too_many_requests.

Definition requireLeader : HM S unit :=
  leader ← call be_IsLeader;
  if leader : bool then mret () else
  addr ← call be_LeaderAddr;
  writeError StatusServiceUnavailable ("not leader; current raft leader address: " +:+ addr).

Definition requireAdmin (r : HttpRequest) : HM S unit :=
  match bearerToken r with
  | Some token =>
      if constantTimeEqual token (AdminKey cfg) then allowRate "admin"
      else writeError StatusUnauthorized "missing or invalid admin credentials"
  | None => writeError StatusUnauthorized "missing or invalid admin credentials"
  end.

Definition requireTenantAccess (r : HttpRequest) (tenantID : string) : HM S unit :=
  match bearerToken r with
  | None => writeError StatusUnauthorized "missing or invalid credentials"
  | Some token =>
      if constantTimeEqual token (AdminKey cfg) then allowRate "admin" else
      tenant ← call (be_GetTenant tenantID);
      match tenant with
      | Ok (Some tenant) =>
          if constantTimeEqual (hashAPIKey token) tenant.(Tenant.APIKeyHash) then allowRate tenantID
          else writeError StatusUnauthorized "missing or invalid credentials"
      | Ok None => writeError StatusUnauthorized "missing or invalid credentials"
      | Err err => writeReadError err
      | Panic _ => panicked
      end
  end.

Definition api_propose (cmd : command) : HM S reply :=
  _ ← requireLeader;
  result ← call (be_Propose (command_type cmd) cmd);
  match result with
  | Err err => writeError StatusServiceUnavailable (Error err)
  | Panic _ => panicked
  | Ok (RRejected cmdErr) =>
      writeError (statusForCommandErrorKind (CommandError.Kind cmdErr)) (CommandError.Message cmdErr)
  | Ok v => mret v
  end.

(** ** Write handlers *)

Definition handleCreateTenant (r : HttpRequest) : HM S HttpResponse :=
  _ ← requireLeader;
  _ ← requireAdmin r;
  match decode_tenant_body (Body r) with
  | Ok cmd =>
      key ← generateAPIKey;
      match key with
      | Ok (plaintext, hash) =>
          let cmd := CreateTenantCommand.mk cmd.(CreateTenantCommand.ID) cmd.(CreateTenantCommand.Name) hash in
          result ← api_propose (create_tenant cmd);
          match result with
          | RTenant tenant =>
              writeJSON StatusCreated (BCreatedTenant (sanitizeTenant (Some tenant)) plaintext)
          | _ => writeError StatusInternalServerError "unexpected result type from create_tenant"
          end
      | Err err => writeError StatusInternalServerError ("failed to generate API key: " +:+ Error err)
      | Panic _ => panicked
      end
  | Err err => writeError StatusBadRequest ("invalid request body: " +:+ Error err)
  | Panic _ => panicked
  end.

(** [cmd.TenantID = tenantID] *)
Definition for_tenant (tenantID : string) (c : CreateScheduleCommand) : CreateScheduleCommand :=
  CreateScheduleCommand.mk c.(CreateScheduleCommand.ID) tenantID c.(CreateScheduleCommand.CreatedBy)
    c.(CreateScheduleCommand.CallbackURL) c.(CreateScheduleCommand.Payload)
    c.(CreateScheduleCommand.Headers) c.(CreateScheduleCommand.ScheduleType)
    c.(CreateScheduleCommand.FirstRunAt) c.(CreateScheduleCommand.Recurrence)
    c.(CreateScheduleCommand.Timezone) c.(CreateScheduleCommand.MaxAttempts)
    c.(CreateScheduleCommand.RetryBackoff) c.(CreateScheduleCommand.CallTimeout)
    c.(CreateScheduleCommand.CatchUpPolicy).

Definition handleCreateSchedule (tenantID : string) (r : HttpRequest) : HM S HttpResponse :=
  _ ← requireLeader;
  _ ← requireTenantAccess r tenantID;
  match decode_schedule_body (Body r) with
  | Ok cmd =>
      result ← api_propose (create_schedule (for_tenant tenantID cmd));
      writeJSON StatusCreated (BResult result)
  | Err err => writeError StatusBadRequest ("invalid request body: " +:+ Error err)
  | Panic _ => panicked
  end.

Definition handlePauseSchedule (tenantID scheduleID : string) (r : HttpRequest) : HM S HttpResponse :=
  _ ← requireLeader;
  _ ← requireTenantAccess r tenantID;
  result ← api_propose (pause_schedule (PauseScheduleCommand.mk tenantID scheduleID));
  writeJSON StatusOK (BResult result).

Definition handleCancelSchedule (tenantID scheduleID : string) (r : HttpRequest) : HM S HttpResponse :=
  _ ← requireLeader;
  _ ← requireTenantAccess r tenantID;
  result ← api_propose (cancel_schedule (CancelScheduleCommand.mk tenantID scheduleID));
  writeJSON StatusOK (BResult result).

Definition handleResumeSchedule (tenantID scheduleID : string) (r : HttpRequest) : HM S HttpResponse :=
  _ ← requireLeader;
  _ ← requireTenantAccess r tenantID;
  result ← api_propose (resume_schedule (ResumeScheduleCommand.mk tenantID scheduleID));
  writeJSON StatusOK (BResult result).

(** ** Read handlers *)

(** [x, err := ...; if err != nil { writeReadError(w, err); return }] *)
Definition read_or_error {A} (r : result A) (ok : A → HM S HttpResponse) : HM S HttpResponse :=
  match r with
  | Ok a => ok a
  | Err err => writeReadError err
  | Panic _ => panicked
  end.

(** The page a request asks for. *)
Definition with_pagination (r : HttpRequest) (k : Z → string → HM S HttpResponse) : HM S HttpResponse :=
  match parsePagination r with
  | inl (limit, cursor) => k limit cursor
  | inr err => writeError StatusBadRequest err
  end.

Definition handleListTenants (r : HttpRequest) : HM S HttpResponse :=
  _ ← requireLeader;
  _ ← requireAdmin r;
  with_pagination r (λ limit cursor,
    page ← call (be_ListTenantsPage limit cursor);
    read_or_error page (λ '(tenants, nextCursor),
      writeJSON StatusOK (BTenantPage (sanitizeTenants tenants) nextCursor))).

Definition handleGetTenant (tenantID : string) (r : HttpRequest) : HM S HttpResponse :=
  _ ← requireLeader;
  _ ← requireTenantAccess r tenantID;
  tenant ← call (be_GetTenant tenantID);
  read_or_error tenant (λ tenant,
    match tenant with
    | None => writeError StatusNotFound "tenant not found"
    | Some _ => writeJSON StatusOK (BTenant (sanitizeTenant tenant))
    end).

Definition handleGetSchedule (tenantID scheduleID : string) (r : HttpRequest) : HM S HttpResponse :=
  _ ← requireLeader;
  _ ← requireTenantAccess r tenantID;
  schedule ← call (be_GetSchedule tenantID scheduleID);
  read_or_error schedule (λ schedule,
    match schedule with
    | None => writeError StatusNotFound "schedule not found"
    | Some schedule => writeJSON StatusOK (BSchedule schedule)
    end).

Definition handleListExecutionsBySchedule (tenantID scheduleID : string) (r : HttpRequest)
    : HM S HttpResponse :=
  _ ← requireLeader;
  _ ← requireTenantAccess r tenantID;
  with_pagination r (λ limit cursor,
    page ← call (be_ListExecutionsBySchedulePage tenantID scheduleID limit cursor);
    read_or_error page (λ '(executions, nextCursor),
      writeJSON StatusOK (BExecutionPage executions nextCursor))).

Definition handleListExecutionsByStatus (tenantID : string) (r : HttpRequest) : HM S HttpResponse :=
  _ ← requireLeader;
  _ ← requireTenantAccess r tenantID;
  let status := Query r "status" in
  if empty status then writeError StatusBadRequest "status query parameter is required" else
  with_pagination r (λ limit cursor,
    page ← call (be_ListExecutionsByStatusPage tenantID status limit cursor);
    read_or_error page (λ '(executions, nextCursor),
      writeJSON StatusOK (BExecutionPage executions nextCursor))).

Definition handleGetExecution (tenantID executionID : string) (r : HttpRequest) : HM S HttpResponse :=
  _ ← requireLeader;
  _ ← requireTenantAccess r tenantID;
  execution ← call (be_GetExecution tenantID executionID);
  read_or_error execution (λ execution,
    match execution with
    | None => writeError StatusNotFound "execution not found"
    | Some execution => writeJSON StatusOK (BExecution execution)
    end).

Definition handleListAttemptsByExecution (tenantID executionID : string) (r : HttpRequest)
    : HM S HttpResponse :=
  _ ← requireLeader;
  _ ← requireTenantAccess r tenantID;
  with_pagination r (λ limit cursor,
    page ← call (be_ListAttemptsByExecutionPage tenantID executionID limit cursor);
    read_or_error page (λ '(attempts, nextCursor),
      writeJSON StatusOK (BAttemptPage attempts nextCursor))).

Definition handleGetAttempt (tenantID attemptID : string) (r : HttpRequest) : HM S HttpResponse :=
  _ ← requireLeader;
  _ ← requireTenantAccess r tenantID;
  attempt ← call (be_GetAttempt tenantID attemptID);
  read_or_error attempt (λ attempt,
    match attempt with
    | None => writeError StatusNotFound "attempt not found"
    | Some attempt => writeJSON StatusOK (BAttempt attempt)
    end).

(** ** Routes *)

(** The patterns of [routes]; a request none of them matches is answered by
    [http.ServeMux] itself.  [names] are the literal segments of a path. *)
Definition on_path (names pattern : list string) (h : HM S HttpResponse)
    (next : option (HM S HttpResponse)) : option (HM S HttpResponse) :=
  if bool_decide (names = pattern) then Some h else next.

Definition post_routes (r : HttpRequest) : option (HM S HttpResponse) :=
  match Path r with
  | [a] => on_path [a] ["tenants"] (handleCreateTenant r) None
  | [a; t; b] => on_path [a; b] ["tenants"; "schedules"] (handleCreateSchedule t r) None
  | [a; t; b; s; c] =>
      on_path [a; b; c] ["tenants"; "schedules"; "pause"] (handlePauseSchedule t s r) (
      on_path [a; b; c] ["tenants"; "schedules"; "cancel"] (handleCancelSchedule t s r) (
      on_path [a; b; c] ["tenants"; "schedules"; "resume"] (handleResumeSchedule t s r) None))
  | _ => None
  end.

Definition get_routes (r : HttpRequest) : option (HM S HttpResponse) :=
  match Path r with
  | [a] => on_path [a] ["tenants"] (handleListTenants r) None
  | [a; t] => on_path [a] ["tenants"] (handleGetTenant t r) None
  | [a; t; b] => on_path [a; b] ["tenants"; "executions"] (handleListExecutionsByStatus t r) None
  | [a; t; b; i] =>
      on_path [a; b] ["tenants"; "schedules"] (handleGetSchedule t i r) (
      on_path [a; b] ["tenants"; "executions"] (handleGetExecution t i r) (
      on_path [a; b] ["tenants"; "attempts"] (handleGetAttempt t i r) None))
  | [a; t; b; i; c] =>
      on_path [a; b; c] ["tenants"; "schedules"; "executions"] (handleListExecutionsBySchedule t i r) (
      on_path [a; b; c] ["tenants"; "executions"; "attempts"] (handleListAttemptsByExecution t i r) None)
  | _ => None
  end.

Definition routes (r : HttpRequest) : option (HM S HttpResponse) :=
  if bool_decide ("" ∈ Path r) then None
  else if bool_decide (Method r = "POST") then post_routes r
  else if bool_decide (Method r = "GET" ∨ Method r = "HEAD") then get_routes r
  else None.

(** The response of a request a handler serves, and the state it leaves; none
    when no route matches or a panic left the request without one. *)
Definition serve (r : HttpRequest) (st : ApiState S) : option HttpResponse * ApiState S :=
  match routes r with
  | None => (None, st)
  | Some h => match h st with
              | (inr resp, st) => (Some resp, st)
              | (inl o, st) => (o, st)
              end
  end.
End api.
