(* ===== verification/Access.v ===== *)
(** * Access: who may do what through the API

    [BackendLaws] is what the handlers rely on of their backend: reads propose
    nothing and return rows of the tenant they were asked for.  Against it: a
    request is served only with the admin key or the key of the tenant its path
    names; with the latter it sees and changes that tenant's rows only; no
    response carries a key's hash; pages are bounded. *)

From S2P Require Import Prelude Go GoStrings GoTime GoFloat Model Storage Command Dispatch Invariants Sha256.
From S2P Require Import Replies Prog Config RateLimit Api.
Open Scope Z_scope.

(** ** The interface *)

Section laws.
Context {S : Type} `{BE : !Backend S}.

Class BackendLaws := {
  be_valid : S → Prop;
  be_proposed : S → list command;
  be_keeps (s s' : S) : Prop := be_valid s' ∧ be_proposed s' = be_proposed s;
  law_IsLeader s : be_valid s → be_keeps s (be_IsLeader s).2;
  law_LeaderAddr s : be_valid s → be_keeps s (be_LeaderAddr s).2;
  law_GetTenant t s r s' : be_valid s → be_GetTenant t s = (r, s') →
    be_keeps s s' ∧ ∀ x, r = Ok (Some x) → x.(Tenant.ID) = t;
  law_GetSchedule t i s r s' : be_valid s → no_colon t = true → be_GetSchedule t i s = (r, s') →
    be_keeps s s' ∧ ∀ x, r = Ok (Some x) → x.(Schedule.TenantID) = t;
  law_GetExecution t i s r s' : be_valid s → no_colon t = true → be_GetExecution t i s = (r, s') →
    be_keeps s s' ∧ ∀ x, r = Ok (Some x) → x.(Execution.TenantID) = t;
  law_GetAttempt t i s r s' : be_valid s → no_colon t = true → be_GetAttempt t i s = (r, s') →
    be_keeps s s' ∧ ∀ x, r = Ok (Some x) → x.(Attempt.TenantID) = t;
  law_ListTenantsPage limit c s r s' : be_valid s → be_ListTenantsPage limit c s = (r, s') →
    be_keeps s s' ∧ ∀ l n, r = Ok (l, n) → Z.of_nat (length l) <= Z.max 0 limit;
  law_ListExecutionsBySchedulePage t i limit c s r s' :
    be_valid s → no_colon t = true → no_colon i = true →
    be_ListExecutionsBySchedulePage t i limit c s = (r, s') →
    be_keeps s s' ∧ ∀ l n, r = Ok (l, n) →
      Forall (λ x, x.(Execution.TenantID) = t) l ∧ Z.of_nat (length l) <= Z.max 0 limit;
  law_ListExecutionsByStatusPage t i limit c s r s' :
    be_valid s → no_colon t = true → no_colon i = true →
    be_ListExecutionsByStatusPage t i limit c s = (r, s') →
    be_keeps s s' ∧ ∀ l n, r = Ok (l, n) →
      Forall (λ x, x.(Execution.TenantID) = t) l ∧ Z.of_nat (length l) <= Z.max 0 limit;
  law_ListAttemptsByExecutionPage t i limit c s r s' :
    be_valid s → no_colon t = true → no_colon i = true →
    be_ListAttemptsByExecutionPage t i limit c s = (r, s') →
    be_keeps s s' ∧ ∀ l n, r = Ok (l, n) →
      Forall (λ x, x.(Attempt.TenantID) = t) l ∧ Z.of_nat (length l) <= Z.max 0 limit;
  law_Propose c s r s' :
    be_valid s → (∀ t, command_tenant c = Some t → no_colon t = true) →
    be_Propose (command_type c) c s = (r, s') →
    be_proposed s' = be_proposed s ++ [c] ∧ ∀ v, r = Ok v → reply_of c v
}.
End laws.
Arguments BackendLaws S {BE}.

(** ** Runs of handlers *)

Section runs.
Context {S : Type}.

(** A run that panics answers nothing. *)
Definition runs {A} (m : HM S A) (st : ApiState S)
    (Qr : HttpResponse → ApiState S → Prop) (Qa : A → ApiState S → Prop) : Prop :=
  match m st with
  | (inl (Some r), st') => Qr r st'
  | (inl None, _) => True
  | (inr a, st') => Qa a st'
  end.

(** However it ends, the response and the state satisfy [Q]. *)
Definition answers (m : HM S HttpResponse) st (Q : HttpResponse → ApiState S → Prop) : Prop :=
  runs m st Q Q.

Lemma runs_bind {A C} (m : HM S A) (f : A → HM S C) st Qr Qa :
  runs m st Qr (λ a st', runs (f a) st' Qr Qa) → runs (m ≫= f) st Qr Qa.
Proof. unfold runs, mbind, HM_bind. by destruct (m st) as [[[r|]|a] st']. Qed.

Lemma runs_weaken {A} (m : HM S A) st (Qr Qr' : HttpResponse → ApiState S → Prop) (Qa Qa' : A → ApiState S → Prop) :
  runs m st Qr Qa → (∀ r st', Qr r st' → Qr' r st') → (∀ a st', Qa a st' → Qa' a st') →
  runs m st Qr' Qa'.
Proof. unfold runs. destruct (m st) as [[[r|]|a] st']; auto. Qed.
End runs.

(** ** What a response may say *)

(** Rows of tenant [t] only. *)
Definition confined (t : string) (b : ResponseBody) : Prop :=
  match b with
  | BError _ => True
  | BResult v => ∃ s, v = RSchedule s ∧ s.(Schedule.TenantID) = t
  | BTenant o => ∀ x, o = Some x → x.(Tenant.ID) = t
  | BSchedule s => s.(Schedule.TenantID) = t
  | BExecution e => e.(Execution.TenantID) = t
  | BAttempt a => a.(Attempt.TenantID) = t
  | BExecutionPage l _ => Forall (λ x, x.(Execution.TenantID) = t) l
  | BAttemptPage l _ => Forall (λ x, x.(Attempt.TenantID) = t) l
  | BTenantPage _ _ | BCreatedTenant _ _ => False
  end.

Definition hashless (o : option Tenant) : Prop := ∀ x, o = Some x → x.(Tenant.APIKeyHash) = "".

(** No hash of a key. *)
Definition no_hash (b : ResponseBody) : Prop :=
  match b with
  | BTenant o | BCreatedTenant o _ => hashless o
  | BTenantPage l _ => Forall hashless l
  | BResult v => ∃ s, v = RSchedule s
  | _ => True
  end.

(** At most [maxLimit] rows. *)
Definition bounded (b : ResponseBody) : Prop :=
  match b with
  | BTenantPage l _ => Z.of_nat (length l) <= maxLimit
  | BExecutionPage l _ => Z.of_nat (length l) <= maxLimit
  | BAttemptPage l _ => Z.of_nat (length l) <= maxLimit
  | _ => True
  end.

(** An error response. *)
Definition refused (resp : HttpResponse) : Prop :=
  ¬ 200 <= StatusCode resp < 300 ∧ ∃ m, RespBody resp = BError m.

(** Segments of the path and the status asked for have no colon. *)
Definition clean_request (r : HttpRequest) : Prop :=
  Forall (λ s, no_colon s = true) (Path r) ∧ no_colon (Query r "status") = true.

Definition admin_token (cfg : Config) (r : HttpRequest) : Prop :=
  bearerToken r = Some (AdminKey cfg) ∧ AdminKey cfg ≠ "".

Lemma constantTimeEqual_true a b : constantTimeEqual a b = true ↔ a = b ∧ a ≠ "" ∧ b ≠ "".
Proof.
  unfold constantTimeEqual, empty. do 2 case_bool_decide; simpl; try naive_solver.
  rewrite bool_decide_eq_true. naive_solver.
Qed.

Lemma sanitize_hashless o : hashless (sanitizeTenant o).
Proof. by destruct o; intros x; [intros [= <-]|]. Qed.

Lemma parsePagination_range r n c : parsePagination r = inl (n, c) → 1 <= n <= maxLimit.
Proof.
  unfold parsePagination, defaultLimit, maxLimit. destruct (empty _); [intros [= <- _]; lia|].
  destruct (Atoi _) as [k|]; [|done]. destruct (_ || _)%bool eqn:E; [done|]. intros [= <- _]. bool_hyps. lia.
Qed.

Section access.
Context {S : Type} `{BE : !Backend S, BL : !BackendLaws S, BC : !BodyCodec}.
Context (cfg : Config) (oor : f64 → Z) (Itoa : Z → string).

Definition kept (st st' : ApiState S) : Prop := be_keeps (as_backend st) (as_backend st').

#[export] Instance kept_trans : Transitive kept.
Proof. intros x y z [_ H1] [H2 H3]. split; [done|congruence]. Qed.

(** The request carries the key of tenant [t], whose hash backend [s] stores. *)
Definition own_key (s : S) (r : HttpRequest) (t : string) : Prop :=
  ∃ tn token, (be_GetTenant t s).1 = Ok (Some tn) ∧ tn.(Tenant.ID) = t
    ∧ bearerToken r = Some token ∧ hashAPIKey token = tn.(Tenant.APIKeyHash)
    ∧ tn.(Tenant.APIKeyHash) ≠ "".

(** The backend once it was asked whether it leads. *)
Definition asked (st : ApiState S) : S := (be_IsLeader (as_backend st)).2.

(** The last thing the backend was asked was to propose [c]. *)
Definition proposed (c : command) (st st' : ApiState S) : Prop :=
  be_proposed (as_backend st') = be_proposed (as_backend st) ++ [c]
  ∧ ∃ s r, be_keeps (as_backend st) s ∧ be_Propose (command_type c) c s = (r, as_backend st').

(** The command a request of tenant [t] asks for. *)
Inductive asks_for (r : HttpRequest) (t : string) : command → Prop :=
| asks_create c :
    Path r = ["tenants"; t; "schedules"] → decode_schedule_body (Body r) = Ok c →
    asks_for r t (create_schedule (for_tenant t c))
| asks_pause i :
    Path r = ["tenants"; t; "schedules"; i; "pause"] →
    asks_for r t (pause_schedule (PauseScheduleCommand.mk t i))
| asks_cancel i :
    Path r = ["tenants"; t; "schedules"; i; "cancel"] →
    asks_for r t (cancel_schedule (CancelScheduleCommand.mk t i))
| asks_resume i :
    Path r = ["tenants"; t; "schedules"; i; "resume"] →
    asks_for r t (resume_schedule (ResumeScheduleCommand.mk t i)).

Lemma asks_for_tenant r t c : asks_for r t c → command_tenant c = Some t.
Proof. by destruct 1. Qed.

(** At most one command was proposed, the one the request asks for, and then
    nothing else was asked of the backend. *)
Definition proposals (r : HttpRequest) (t : string) (st st' : ApiState S) : Prop :=
  kept st st' ∨ ∃ c, asks_for r t c ∧ proposed c st st'.

Definition harmless (b : ResponseBody) : Prop := no_hash b ∧ bounded b.

(** What a handler of tenant [t] answers, and one of the administrator. *)
Definition tenant_verdict (r : HttpRequest) (t : string) (st : ApiState S) (resp : HttpResponse) (st' : ApiState S) : Prop :=
  harmless (RespBody resp) ∧ confined t (RespBody resp) ∧ proposals r t st st'.

Definition verdict (r : HttpRequest) (st : ApiState S) (resp : HttpResponse) (st' : ApiState S) : Prop :=
  harmless (RespBody resp) ∧
  ((refused resp ∧ kept st st')
   ∨ (admin_token cfg r ∧ (Path r = ["tenants"] ∨ ∃ t rest, Path r = "tenants" :: t :: rest))
   ∨ ∃ t rest, Path r = "tenants" :: t :: rest ∧ own_key (asked st) r t
       ∧ confined t (RespBody resp) ∧ proposals r t st st').

(** *** Calls *)

Lemma runs_call {A} (f : S → A * S) st st0 Qr Qa :
  kept st0 st →
  (∀ a s', f (as_backend st) = (a, s') → be_valid (as_backend st) →
     ∀ st', as_backend st' = s' → Qa a st') →
  runs (call f) st Qr Qa.
Proof.
  intros Hk HQ. unfold runs, call. destruct (f (as_backend st)) as [a s'] eqn:E.
  by eapply HQ; [reflexivity|apply Hk|].
Qed.

Lemma kept_state st0 st st' :
  kept st0 st → as_backend st' = as_backend st → kept st0 st'.
Proof. unfold kept. by intros H ->. Qed.

Lemma kept_call st0 st st' s' :
  kept st0 st → be_keeps (as_backend st) s' → as_backend st' = s' → kept st0 st'.
Proof. unfold kept, be_keeps. intros [H1 H2] [H3 H4] ->. split; [done|congruence]. Qed.

(** *** The helpers that may answer themselves *)

Definition denied (st0 : ApiState S) (resp : HttpResponse) (st : ApiState S) : Prop :=
  refused resp ∧ kept st0 st.

Lemma writeError_runs {A} status msg st0 st (Qa : A → ApiState S → Prop) :
  ¬ 200 <= status < 300 → kept st0 st → runs (writeError status msg) st (denied st0) Qa.
Proof. intros Hs Hk. split; [|done]. split; [done|by eexists]. Qed.

Lemma writeReadError_runs {A} err st0 st (Qa : A → ApiState S → Prop) :
  kept st0 st → runs (writeReadError err) st (denied st0) Qa.
Proof.
  intros Hk. unfold writeReadError. destruct (isNotCaughtUp err); apply writeError_runs; try done;
    unfold StatusServiceUnavailable, StatusInternalServerError; lia.
Qed.

Ltac status_tac :=
  unfold StatusServiceUnavailable, StatusInternalServerError, StatusUnauthorized, StatusBadRequest,
    StatusNotFound, StatusConflict, StatusTooManyRequests; lia.

Lemma allowRate_runs i st0 st :
  kept st0 st → runs (allowRate oor Itoa i) st (denied st0) (λ _ st', kept st0 st').
Proof.
  intros Hk. unfold allowRate. apply runs_bind. unfold runs at 1, bucket_exists. apply runs_bind.
  apply (runs_weaken _ _ (λ _ _, False) _ (λ _ st', kept st0 st') _); [|done|].
  { destruct (bool_decide _); unfold runs; simpl; [done|]. by eapply kept_state. }
  intros created st1 H1. apply runs_bind. unfold runs at 1, time_now. apply runs_bind.
  unfold runs at 1, limit. simpl. destruct (limiter_allow _ _ _ _) as [ok rl].
  destruct ok; unfold runs; simpl; [by eapply kept_state|].
  split; [|by eapply kept_state]. split; [simpl; status_tac|by eexists].
Qed.

Lemma requireLeader_runs st0 st :
  kept st0 st →
  runs (requireLeader (S := S)) st (denied st0) (λ _ st', kept st0 st' ∧ as_backend st' = asked st).
Proof.
  intros Hk. unfold requireLeader. apply runs_bind, (runs_call _ _ st0); [done|].
  intros b s' E Hv st1 H1. pose proof (law_IsLeader _ Hv) as Hl. rewrite E in Hl.
  assert (kept st0 st1) as Hk1 by by eapply kept_call.
  destruct b; [split; [done|by unfold asked; rewrite E]|]. apply runs_bind, (runs_call _ _ st0); [done|].
  intros a s2 E2 Hv2 st2 H2. pose proof (law_LeaderAddr _ Hv2) as Hl2. rewrite E2 in Hl2.
  apply writeError_runs; [status_tac|]. by eapply kept_call.
Qed.

Lemma requireAdmin_runs r st0 st :
  kept st0 st →
  runs (requireAdmin cfg oor Itoa r) st (denied st0) (λ _ st', kept st0 st' ∧ admin_token cfg r).
Proof.
  intros Hk. unfold requireAdmin. destruct (bearerToken r) as [token|] eqn:Et.
  2: { apply writeError_runs; [status_tac|done]. }
  destruct (constantTimeEqual _ _) eqn:Ec; [|apply writeError_runs; [status_tac|done]].
  apply constantTimeEqual_true in Ec as (-> & _ & Hne).
  eapply runs_weaken; [by apply allowRate_runs|done|]. intros ? st' Hk'. split; [done|by split].
Qed.

Lemma requireTenantAccess_runs r t st0 st :
  kept st0 st →
  runs (requireTenantAccess cfg oor Itoa r t) st (denied st0)
    (λ _ st', kept st0 st' ∧ (admin_token cfg r ∨ own_key (as_backend st) r t)).
Proof.
  intros Hk. unfold requireTenantAccess. destruct (bearerToken r) as [token|] eqn:Et.
  2: { apply writeError_runs; [status_tac|done]. }
  destruct (constantTimeEqual token _) eqn:Ec.
  { apply constantTimeEqual_true in Ec as (-> & _ & Hne).
    eapply runs_weaken; [by apply allowRate_runs|done|]. intros ? st' Hk'. split; [done|left; by split]. }
  apply runs_bind, (runs_call _ _ st0); [done|]. intros o s' E Hv st1 H1.
  destruct (law_GetTenant _ _ _ _ Hv E) as [Hl HID].
  assert (kept st0 st1) as Hk1 by by eapply kept_call.
  destruct o as [[tn|]|err|p]; [|apply writeError_runs; [status_tac|done]|by apply writeReadError_runs|done].
  destruct (constantTimeEqual (hashAPIKey _) _) eqn:Eh; [|apply writeError_runs; [status_tac|done]].
  apply constantTimeEqual_true in Eh as (Hh & _ & Hne).
  eapply runs_weaken; [by apply allowRate_runs|done|]. intros ? st' Hk'. split; [done|right].
  exists tn, token. rewrite E. by auto 6.
Qed.

Lemma allowRate_answers i (st st' : ApiState S) o :
  allowRate oor Itoa i st = (inl o, st') → StatusCode <$> o = Some StatusTooManyRequests.
Proof.
  unfold allowRate, mbind, HM_bind, bucket_exists, limit, time_now.
  destruct (bool_decide (is_Some (buckets (as_limiter st) !! i))); simpl;
    destruct (limiter_allow _ _ _ _) as [[] rl]; intros [= <- _]; done.
Qed.

(** A tenant's own key is turned away by the limiter only. *)
Lemma own_key_admitted r t st o st' :
  own_key (as_backend st) r t → requireTenantAccess cfg oor Itoa r t st = (inl o, st') →
  StatusCode <$> o = Some StatusTooManyRequests.
Proof.
  intros (tn & token & Hget & _ & Htok & Hhash & Hne). unfold requireTenantAccess. rewrite Htok.
  destruct (constantTimeEqual token _); [apply allowRate_answers|].
  unfold mbind, HM_bind, call. destruct (be_GetTenant t (as_backend st)) as [row s']. simpl in Hget. subst row.
  rewrite (proj2 (constantTimeEqual_true _ _)) by (rewrite Hhash; auto). apply allowRate_answers.
Qed.

(** *** After the gate *)

Lemma refused_harmless resp : refused resp → harmless (RespBody resp).
Proof. by intros [_ [m ->]]. Qed.

Lemma refused_confined t resp : refused resp → confined t (RespBody resp).
Proof. by intros [_ [m ->]]. Qed.

Lemma denied_tenant r t st0 resp st : denied st0 resp st → tenant_verdict r t st0 resp st.
Proof.
  intros [Hr Hk]. split; [by apply refused_harmless|]. split; [by apply refused_confined|by left].
Qed.

(** A response after reads only. *)
Lemma writeJSON_tenant r t status body st0 st :
  kept st0 st → harmless body → confined t body →
  answers (writeJSON status body) st (tenant_verdict r t st0).
Proof. intros Hk Hh Hc. split; [done|]. split; [done|by left]. Qed.

Definition failed_proposal (c : command) (st0 : ApiState S) (resp : HttpResponse) (st : ApiState S) : Prop :=
  refused resp ∧ (kept st0 st ∨ proposed c st0 st).

Definition accepted_proposal (c : command) (st0 : ApiState S) (v : reply) (st : ApiState S) : Prop :=
  proposed c st0 st ∧ reply_of c v ∧ ∀ ce, v ≠ RRejected ce.

Lemma api_propose_runs c st0 st :
  kept st0 st → (∀ t, command_tenant c = Some t → no_colon t = true) →
  runs (api_propose c) st (failed_proposal c st0) (accepted_proposal c st0).
Proof.
  intros Hk Hc. unfold api_propose. apply runs_bind.
  eapply runs_weaken; [by apply requireLeader_runs| |].
  { intros resp st1 [Hr Hk1]. split; [done|by left]. }
  intros ? st1 [Hk1 _]. apply runs_bind, (runs_call _ _ st0); [done|].
  intros r s' E Hv st2 H2. destruct (law_Propose _ _ _ _ Hv Hc E) as [Hp Hreply].
  assert (proposed c st0 st2) as Hp2.
  { split; [destruct Hk1 as [_ Hk1]; congruence|]. exists (as_backend st1), r.
    split; [exact Hk1|by rewrite H2]. }
  assert (∀ status m, ¬ 200 <= status < 300 →
    runs (writeError status m) st2 (failed_proposal c st0) (accepted_proposal c st0)) as Hw.
  { intros status m Hs. split; [split; [done|by eexists]|by right]. }
  destruct r as [v|err|p]; [|apply Hw; status_tac|done].
  specialize (Hreply v eq_refl). destruct v; try (split; [done|split; [done|by intros]]).
  apply Hw. unfold statusForCommandErrorKind. repeat case_bool_decide; status_tac.
Qed.

(** The three commands that only name a schedule, and creation. *)
Lemma propose_schedule_tenant r t c status st0 st :
  kept st0 st → no_colon t = true → asks_for r t c →
  answers (result ← api_propose c; writeJSON status (BResult result)) st (tenant_verdict r t st0).
Proof.
  intros Hk Ht Hc. pose proof (asks_for_tenant _ _ _ Hc) as Hten.
  apply runs_bind. eapply runs_weaken; [apply api_propose_runs; [done|]| |].
  - intros t'. rewrite Hten. by intros [= <-].
  - intros resp st' [Hr Hp]. split; [by apply refused_harmless|]. split; [by apply refused_confined|].
    destruct Hp as [?|?]; [by left|right; by exists c].
  - intros v st' (Hp & Hr & Hno). assert (∃ s, v = RSchedule s ∧ s.(Schedule.TenantID) = t) as (s & -> & Hs).
    { destruct Hc; destruct v; try done; simpl in Hr, Hten;
        try (match type of Hno with ∀ _, RRejected ?x ≠ _ => by destruct (Hno x) end);
        eexists; (split; [reflexivity|destruct Hr as [Hr _]; congruence]). }
    split; [|split; [by exists s|right; by exists c]]. split; [by exists s|done].
Qed.

(** A read of one row. *)
Lemma read_row_tenant {A} r t (f : S → result (option A) * S) (own : A → Prop) msg (body : A → ResponseBody) st0 st :
  kept st0 st →
  (∀ s a s', be_valid s → f s = (a, s') → be_keeps s s' ∧ ∀ x, a = Ok (Some x) → own x) →
  (∀ x, own x → harmless (body x) ∧ confined t (body x)) →
  answers (row ← call f; read_or_error row (λ row,
    match row with None => writeError StatusNotFound msg | Some x => writeJSON StatusOK (body x) end))
    st (tenant_verdict r t st0).
Proof.
  intros Hk Hlaw Hbody. apply runs_bind, (runs_call _ _ st0); [done|]. intros res s' E Hv st1 H1.
  destruct (Hlaw _ _ _ Hv E) as [Hl Hown]. assert (kept st0 st1) as Hk1 by by eapply kept_call.
  assert (∀ status m, ¬ 200 <= status < 300 →
    answers (writeError status m) st1 (tenant_verdict r t st0)) as Hw.
  { intros status m Hs. apply denied_tenant. split; [split; [done|by eexists]|done]. }
  destruct res as [[x|]|err|p]; simpl.
  - destruct (Hbody x (Hown x eq_refl)). by apply writeJSON_tenant.
  - apply Hw. status_tac.
  - unfold writeReadError. destruct (isNotCaughtUp err); apply Hw; status_tac.
  - done.
Qed.

(** A page of rows. *)
Lemma read_page_tenant {A} r t (f : S → result (list A * string) * S) (own : A → Prop) limit
    (body : list A → string → ResponseBody) st0 st :
  kept st0 st → 1 <= limit <= maxLimit →
  (∀ s a s', be_valid s → f s = (a, s') →
     be_keeps s s' ∧ ∀ l n, a = Ok (l, n) → Forall own l ∧ Z.of_nat (length l) <= Z.max 0 limit) →
  (∀ l n, Forall own l → Z.of_nat (length l) <= maxLimit → harmless (body l n) ∧ confined t (body l n)) →
  answers (page ← call f; read_or_error page (λ '(l, n), writeJSON StatusOK (body l n)))
    st (tenant_verdict r t st0).
Proof.
  intros Hk Hlim Hlaw Hbody. apply runs_bind, (runs_call _ _ st0); [done|]. intros res s' E Hv st1 H1.
  destruct (Hlaw _ _ _ Hv E) as [Hl Hown]. assert (kept st0 st1) as Hk1 by by eapply kept_call.
  assert (∀ status m, ¬ 200 <= status < 300 →
    answers (writeError status m) st1 (tenant_verdict r t st0)) as Hw.
  { intros status m Hs. apply denied_tenant. split; [split; [done|by eexists]|done]. }
  destruct res as [[l n]|err|p]; simpl.
  - destruct (Hown l n eq_refl) as [Ho Hn]. destruct (Hbody l n Ho) as [? ?]; [lia|].
    by apply writeJSON_tenant.
  - unfold writeReadError. destruct (isNotCaughtUp err); apply Hw; status_tac.
  - done.
Qed.

Lemma with_pagination_tenant t r k st0 st :
  kept st0 st →
  (∀ limit cursor, 1 <= limit <= maxLimit → answers (k limit cursor) st (tenant_verdict r t st0)) →
  answers (with_pagination r k) st (tenant_verdict r t st0).
Proof.
  intros Hk Hpg. unfold with_pagination. destruct (parsePagination r) as [[n c]|e] eqn:E.
  - apply Hpg. by eapply parsePagination_range.
  - apply denied_tenant. split; [split; [simpl; status_tac|by eexists]|done].
Qed.

(** *** Every route *)

Lemma denied_verdict r st resp st' : denied st resp st' → verdict r st resp st'.
Proof. intros [Hr Hk]. split; [by apply refused_harmless|]. by left. Qed.

Lemma tenant_route r t rest (k : HM S HttpResponse) st :
  be_valid (as_backend st) → Path r = "tenants" :: t :: rest →
  (∀ st1, kept st st1 → answers k st1 (tenant_verdict r t st)) →
  answers (_ ← requireLeader; _ ← requireTenantAccess cfg oor Itoa r t; k) st (verdict r st).
Proof.
  intros Hv Hpath Hk. assert (kept st st) as Hst by done.
  apply runs_bind. eapply runs_weaken; [apply (requireLeader_runs st st Hst)|apply denied_verdict|].
  intros ? st1 [Hk1 Hasked]. apply runs_bind.
  eapply runs_weaken; [apply (requireTenantAccess_runs r t st st1 Hk1)|apply denied_verdict|].
  intros ? st2 [Hk2 Hauth].
  eapply runs_weaken; [by apply Hk|..]; intros resp st' (Hh & Hc & Hp); (split; [done|]);
    (destruct Hauth as [Ha|Ho]; [right; left|right; right]); rewrite ?Hasked in *; eauto 10.
Qed.

Lemma admin_route r (k : HM S HttpResponse) st :
  be_valid (as_backend st) → Path r = ["tenants"] →
  (∀ st1, kept st st1 → answers k st1 (λ resp _, harmless (RespBody resp))) →
  answers (_ ← requireLeader; _ ← requireAdmin cfg oor Itoa r; k) st (verdict r st).
Proof.
  intros Hv Hpath Hk. assert (kept st st) as Hst by done.
  apply runs_bind. eapply runs_weaken; [apply (requireLeader_runs st st Hst)|apply denied_verdict|].
  intros ? st1 [Hk1 _]. apply runs_bind.
  eapply runs_weaken; [apply (requireAdmin_runs r st st1 Hk1)|apply denied_verdict|].
  intros ? st2 [Hk2 Hauth].
  eapply runs_weaken; [by apply Hk|..]; intros resp st' Hh; (split; [done|right; left; auto]).
Qed.

Lemma error_harmless status msg (st : ApiState S) :
  answers (writeError status msg) st (λ resp _, harmless (RespBody resp)).
Proof. done. Qed.

Lemma create_tenant_verdict r st :
  be_valid (as_backend st) → Path r = ["tenants"] →
  answers (handleCreateTenant cfg oor Itoa r) st (verdict r st).
Proof.
  intros Hv Hpath. apply admin_route; [done..|]. intros st1 Hk1.
  destruct (decode_tenant_body (Body r)) as [cmd|e|p]; [|apply error_harmless|done].
  apply runs_bind. unfold runs at 1, generateAPIKey, mbind, HM_bind, rand_read.
  assert (∀ st2, kept st st2 → ∀ key, answers (match key with
      | Ok (plaintext, hash) =>
          result ← api_propose (create_tenant (CreateTenantCommand.mk
            cmd.(CreateTenantCommand.ID) cmd.(CreateTenantCommand.Name) hash));
          match result with
          | RTenant tenant => writeJSON StatusCreated (BCreatedTenant (sanitizeTenant (Some tenant)) plaintext)
          | _ => writeError StatusInternalServerError "unexpected result type from create_tenant"
          end
      | Err err => writeError StatusInternalServerError ("failed to generate API key: " +:+ Error err)
      | Panic _ => panicked
      end) st2 (λ resp _, harmless (RespBody resp))) as Hkey.
  { intros st2 Hk2 [[plaintext hash]|e|p]; [|apply error_harmless|done]. apply runs_bind.
    eapply runs_weaken; [apply api_propose_runs; [exact Hk2|by intros t [=]]| |].
    - intros resp st' [Hr _]. by apply refused_harmless.
    - intros v st' _. destruct v; try apply error_harmless. split; [apply sanitize_hashless|done]. }
  destruct (hd _ (as_random st1)) as [buf|e|p]; [apply Hkey; by eapply kept_state..|done].
Qed.

Lemma list_tenants_verdict r st :
  be_valid (as_backend st) → Path r = ["tenants"] →
  answers (handleListTenants cfg oor Itoa r) st (verdict r st).
Proof.
  intros Hv Hpath. apply admin_route; [done..|]. intros st1 Hk1. unfold with_pagination.
  destruct (parsePagination r) as [[n c]|e] eqn:Ep; [|apply error_harmless].
  apply parsePagination_range in Ep. apply runs_bind, (runs_call _ _ st); [done|].
  intros res s' E Hv1 st2 _. destruct (law_ListTenantsPage _ _ _ _ _ Hv1 E) as [_ Hl].
  destruct res as [[l m]|e|p]; simpl; [|unfold writeReadError; by case_match|done].
  split; simpl; [|unfold sanitizeTenants; rewrite length_fmap; specialize (Hl l m eq_refl); lia].
  apply Forall_fmap, Forall_true. intros t. apply sanitize_hashless.
Qed.

Lemma clean_path r t rest : clean_request r → Path r = "tenants" :: t :: rest →
  no_colon t = true ∧ Forall (λ s, no_colon s = true) rest.
Proof. intros [Hp _] Heq. rewrite Heq in Hp. by apply Forall_cons in Hp as [_ [? ?]%Forall_cons]. Qed.

Lemma create_schedule_verdict r t st :
  be_valid (as_backend st) → no_colon t = true → Path r = ["tenants"; t; "schedules"] →
  answers (handleCreateSchedule cfg oor Itoa t r) st (verdict r st).
Proof.
  intros Hv Ht Hpath. eapply tenant_route; [done..|]. intros st1 Hk1.
  destruct (decode_schedule_body (Body r)) as [cmd|e|p] eqn:Ebody.
  - apply propose_schedule_tenant; [done|done|by apply asks_create].
  - apply denied_tenant. split; [split; [simpl; status_tac|by eexists]|done].
  - done.
Qed.

Lemma get_tenant_verdict r t st :
  be_valid (as_backend st) → Path r = ["tenants"; t] →
  answers (handleGetTenant cfg oor Itoa t r) st (verdict r st).
Proof.
  intros Hv Hpath. eapply tenant_route; [done..|]. intros st1 Hk1.
  assert (answers (tenant ← call (be_GetTenant t); read_or_error tenant (λ tenant,
    match tenant with
    | None => writeError StatusNotFound "tenant not found"
    | Some x => writeJSON StatusOK (BTenant (sanitizeTenant (Some x)))
    end)) st1 (tenant_verdict r t st)) as Hr.
  { apply (read_row_tenant r t _ (λ x, x.(Tenant.ID) = t)); [done| |].
    - intros s o s' Hs E. by eapply law_GetTenant.
    - intros x Hx. split; [split; [apply sanitize_hashless|done]|]. by intros y [= <-]. }
  revert Hr. unfold answers, runs, mbind, HM_bind.
  by destruct (call (be_GetTenant t) st1) as [[[x|]|[[x|]|e|p]] st2].
Qed.

Lemma get_schedule_verdict r t i rest st :
  be_valid (as_backend st) → no_colon t = true → Path r = "tenants" :: t :: rest →
  answers (handleGetSchedule cfg oor Itoa t i r) st (verdict r st).
Proof.
  intros Hv Ht Hpath. eapply tenant_route; [done..|]. intros st1 Hk1.
  apply (read_row_tenant r t _ (λ x, x.(Schedule.TenantID) = t) _ BSchedule); [done| |by intros].
  intros s o s' Hs E. by eapply law_GetSchedule.
Qed.

Lemma get_execution_verdict r t i rest st :
  be_valid (as_backend st) → no_colon t = true → Path r = "tenants" :: t :: rest →
  answers (handleGetExecution cfg oor Itoa t i r) st (verdict r st).
Proof.
  intros Hv Ht Hpath. eapply tenant_route; [done..|]. intros st1 Hk1.
  apply (read_row_tenant r t _ (λ x, x.(Execution.TenantID) = t) _ BExecution); [done| |by intros].
  intros s o s' Hs E. by eapply law_GetExecution.
Qed.

Lemma get_attempt_verdict r t i rest st :
  be_valid (as_backend st) → no_colon t = true → Path r = "tenants" :: t :: rest →
  answers (handleGetAttempt cfg oor Itoa t i r) st (verdict r st).
Proof.
  intros Hv Ht Hpath. eapply tenant_route; [done..|]. intros st1 Hk1.
  apply (read_row_tenant r t _ (λ x, x.(Attempt.TenantID) = t) _ BAttempt); [done| |by intros].
  intros s o s' Hs E. by eapply law_GetAttempt.
Qed.

Lemma list_by_schedule_verdict r t i rest st :
  be_valid (as_backend st) → no_colon t = true → no_colon i = true → Path r = "tenants" :: t :: rest →
  answers (handleListExecutionsBySchedule cfg oor Itoa t i r) st (verdict r st).
Proof.
  intros Hv Ht Hi Hpath. eapply tenant_route; [done..|]. intros st1 Hk1.
  apply with_pagination_tenant; [done|]. intros limit cursor Hlim.
  apply (read_page_tenant r t _ (λ x, x.(Execution.TenantID) = t) limit BExecutionPage); [done..| |by intros].
  intros s o s' Hs E. by eapply law_ListExecutionsBySchedulePage.
Qed.

Lemma list_by_status_verdict r t rest st :
  be_valid (as_backend st) → no_colon t = true → no_colon (Query r "status") = true →
  Path r = "tenants" :: t :: rest →
  answers (handleListExecutionsByStatus cfg oor Itoa t r) st (verdict r st).
Proof.
  intros Hv Ht Hi Hpath. eapply tenant_route; [done..|]. intros st1 Hk1.
  cbv zeta. destruct (empty (Query r "status")).
  { apply denied_tenant. split; [split; [simpl; status_tac|by eexists]|done]. }
  apply with_pagination_tenant; [done|]. intros limit cursor Hlim.
  apply (read_page_tenant r t _ (λ x, x.(Execution.TenantID) = t) limit BExecutionPage); [done..| |by intros].
  intros s o s' Hs E. by eapply law_ListExecutionsByStatusPage.
Qed.

Lemma list_attempts_verdict r t i rest st :
  be_valid (as_backend st) → no_colon t = true → no_colon i = true → Path r = "tenants" :: t :: rest →
  answers (handleListAttemptsByExecution cfg oor Itoa t i r) st (verdict r st).
Proof.
  intros Hv Ht Hi Hpath. eapply tenant_route; [done..|]. intros st1 Hk1.
  apply with_pagination_tenant; [done|]. intros limit cursor Hlim.
  apply (read_page_tenant r t _ (λ x, x.(Attempt.TenantID) = t) limit BAttemptPage); [done..| |by intros].
  intros s o s' Hs E. by eapply law_ListAttemptsByExecutionPage.
Qed.

Lemma post_routes_verdict r h st :
  be_valid (as_backend st) → clean_request r → post_routes cfg oor Itoa r = Some h →
  answers h st (verdict r st).
Proof.
  intros Hv Hcl. unfold post_routes, on_path.
  destruct (Path r) as [|a [|t [|b [|i [|c [|d l]]]]]] eqn:Hp; try done.
  - case_bool_decide; [|done]. intros [= <-]. apply create_tenant_verdict; [done|congruence].
  - case_bool_decide as Hab; [|done]. intros [= <-]. injection Hab as -> ->.
    destruct (clean_path _ _ _ Hcl Hp) as [Ht _]. by apply create_schedule_verdict.
  - intros Hh. assert (a = "tenants") as -> by (repeat case_bool_decide; congruence).
    destruct (clean_path _ _ _ Hcl Hp) as [Ht _].
    repeat case_bool_decide; simplify_eq; (eapply tenant_route; [done..|]); intros st1 Hk1;
      (apply propose_schedule_tenant; [done|done|constructor; congruence]).
Qed.

Lemma get_routes_verdict r h st :
  be_valid (as_backend st) → clean_request r → get_routes cfg oor Itoa r = Some h →
  answers h st (verdict r st).
Proof.
  intros Hv Hcl. unfold get_routes, on_path.
  destruct (Path r) as [|a [|t [|b [|i [|c [|d l]]]]]] eqn:Hp; try done; intros Hh;
    (assert (a = "tenants") as -> by (repeat case_bool_decide; congruence));
    try (destruct (clean_path _ _ _ Hcl Hp) as [Ht Hrest]);
    repeat case_bool_decide; try done; injection Hh as <-.
  - by apply list_tenants_verdict.
  - by apply get_tenant_verdict.
  - eapply list_by_status_verdict; [done|done|apply Hcl|done].
  - by eapply get_schedule_verdict.
  - by eapply get_execution_verdict.
  - by eapply get_attempt_verdict.
  - rewrite !Forall_cons in Hrest. eapply list_by_schedule_verdict; [done|done|apply Hrest|done].
  - rewrite !Forall_cons in Hrest. eapply list_attempts_verdict; [done|done|apply Hrest|done].
Qed.

Lemma routes_verdict r h st :
  be_valid (as_backend st) → clean_request r → routes cfg oor Itoa r = Some h →
  answers h st (verdict r st).
Proof.
  intros Hv Hcl. unfold routes. case_bool_decide; [done|].
  case_bool_decide; [by apply post_routes_verdict|].
  case_bool_decide; [by apply get_routes_verdict|done].
Qed.

Lemma serve_verdict r st resp st' :
  be_valid (as_backend st) → clean_request r → serve cfg oor Itoa r st = (Some resp, st') →
  verdict r st resp st'.
Proof.
  intros Hv Hcl. unfold serve. destruct (routes cfg oor Itoa r) as [h|] eqn:E; [|done].
  pose proof (routes_verdict _ _ _ Hv Hcl E) as Hverd. unfold answers, runs in Hverd.
  destruct (h st) as [[[x|]|x] st1]; intros [= <- <-]; done.
Qed.

(** C4: access control.  A request is answered with an error and proposes
    nothing, unless it carries the admin key, or the path names a tenant and it
    carries the key whose hash is stored for that tenant.  With a tenant's own
    key the response shows rows of that tenant only and at most one command is
    proposed, the one the request asks for, as the last thing asked of the
    backend; without the admin key nothing else is served. *)
Theorem access_control r st resp st' :
  be_valid (as_backend st) → clean_request r → serve cfg oor Itoa r st = (Some resp, st') →
  (refused resp ∧ kept st st')
  ∨ admin_token cfg r
  ∨ ∃ t rest, Path r = "tenants" :: t :: rest ∧ own_key (asked st) r t
      ∧ confined t (RespBody resp) ∧ proposals r t st st'.
Proof. intros Hv Hcl Hs. destruct (serve_verdict _ _ _ _ Hv Hcl Hs) as [_ [?|[[? _]|?]]]; auto. Qed.

(** C31: whoever asks, no response carries the hash of a key, and no page has
    more than 200 rows. *)
Theorem responses_are_harmless r st resp st' :
  be_valid (as_backend st) → clean_request r → serve cfg oor Itoa r st = (Some resp, st') →
  no_hash (RespBody resp) ∧ bounded (RespBody resp).
Proof. intros Hv Hcl Hs. by destruct (serve_verdict _ _ _ _ Hv Hcl Hs) as [? _]. Qed.
End access.
