(* ===== verification/ApiNode.v ===== *)
(** * ApiNode: the API on a Raft node

    [*raftnode.RaftNode] is the backend main.go gives the API.  What Raft
    answers to the coming calls, and the entries committed before each of them
    (other clients', the workers'), are given by a list of turns.  The node
    keeps the interface the theorems of Access rely on. *)

From S2P Require Import Prelude Go GoTime GoFloat Model Bolt Json Storage Command Dispatch StateMachine RaftNode.
From S2P Require Import Spec Invariants Refinement RefinementScan RefinementTx CommandRefinement Replica Restart.
From S2P Require Import Sample Sha256 Prog Replies Config RateLimit Api Access.
Open Scope Z_scope.

(** [json.Marshal(cmd)] of the commands proposed. *)
Class CommandEncoder `{!CommandCodec} := encode_command : command → result RawMessage.

(** Decoding gives back the command that was encoded. *)
Class EncoderLaws `{!CommandCodec} (E : CommandEncoder) :=
  decode_encode c raw : encode_command c = Ok raw → decode_command (command_type c) raw = Ok c.

#[export] Instance plain_encoder : CommandEncoder := Ok.

#[export] Instance plain_encoder_laws : EncoderLaws plain_encoder.
Proof. intros c raw [= <-]. by destruct c. Qed.

Section node.
Context `{PF : !Platform, CC : !CommandCodec, B : !Bolt, BL : !BoltLaws B, J : !Json, JL : !JsonLaws J}.
Context `{CE : !CommandEncoder, CEL : !EncoderLaws CE}.

(** One call: what raft answers, the entries committed before it, how
    [raft.Apply] ends. *)
Record turn := mkTurn {
  tn_obs : RaftObs;
  tn_entries : list LogData;
  tn_entry_err : option error;
  tn_apply_err : option error
}.

Definition idle_turn : turn := mkTurn (mkObs false "" 0 None zeroTime) [] None None.

Record api_node := mkNode {
  nd_rn : RaftNode;
  nd_sm : StateMachine;
  nd_world : World;
  nd_turns : list turn;
  nd_proposed : list command
}.

(** Committed entries are applied one after the other. *)
Definition commit (sm : StateMachine) (l : list LogData) (w : World) : World :=
  foldl (λ w e, (Apply sm e w).2) w l.

Definition next_turn (nd : api_node) : turn * api_node :=
  let t := hd idle_turn (nd_turns nd) in
  (t, mkNode (nd_rn nd) (nd_sm nd) (commit (nd_sm nd) (tn_entries t) (nd_world nd)) (tl (nd_turns nd))
        (nd_proposed nd)).

Definition ask {A} (f : RaftObs → A) (nd : api_node) : A * api_node :=
  let '(t, nd) := next_turn nd in (f (tn_obs t), nd).

Definition read {A} (f : RaftObs → RaftNode → World → result A * RaftNode) (nd : api_node)
    : result A * api_node :=
  let '(t, nd) := next_turn nd in
  let '(r, rn) := f (tn_obs t) (nd_rn nd) (nd_world nd) in
  (r, mkNode rn (nd_sm nd) (nd_world nd) (nd_turns nd) (nd_proposed nd)).

(** [Propose]: the entry is applied where the call that applies it returns. *)
Definition propose (cmdType : string) (c : command) (nd : api_node) : result reply * api_node :=
  let '(t, nd) := next_turn nd in
  let raft_apply entry :=
    match tn_apply_err t with
    | Some e => Err e
    | None => (Apply (nd_sm nd) (Ok entry) (nd_world nd)).1
    end in
  let w := match encode_command c, tn_entry_err t, tn_apply_err t with
           | Ok raw, None, None =>
               (Apply (nd_sm nd) (Ok (mkLogEntry cmdType (obs_now (tn_obs t)) raw)) (nd_world nd)).2
           | _, _, _ => nd_world nd
           end in
  (Propose cmdType (encode_command c) (tn_entry_err t) raft_apply (tn_obs t),
   mkNode (nd_rn nd) (nd_sm nd) w (nd_turns nd) (nd_proposed nd ++ [c])).

#[export] Instance node_backend : Backend api_node := {|
  be_IsLeader := ask IsLeader;
  be_LeaderAddr := ask LeaderAddr;
  be_GetTenant t := read (rn_GetTenant t);
  be_GetSchedule t i := read (rn_GetSchedule t i);
  be_GetExecution t i := read (rn_GetExecution t i);
  be_GetAttempt t i := read (rn_GetAttempt t i);
  be_ListTenantsPage limit cursor := read (rn_ListTenantsPage limit cursor);
  be_ListExecutionsBySchedulePage t s limit cursor := read (rn_ListExecutionsBySchedulePage t s limit cursor);
  be_ListExecutionsByStatusPage t s limit cursor := read (rn_ListExecutionsByStatusPage t s limit cursor);
  be_ListAttemptsByExecutionPage t e limit cursor := read (rn_ListAttemptsByExecutionPage t e limit cursor);
  be_Propose := propose
|}.

(** ** Consistency *)

(** The node reads the database the state machine writes; its buckets are those
    of an abstract store, the coming entries are admissible in it, and the clock
    reads times [time.Now().UTC()] may give. *)
Definition node_at (d : DB) (sp : Spec) (nd : api_node) : Prop :=
  rn_storage (nd_rn nd) = sm_storage (nd_sm nd)
  ∧ open_dbs (nd_world nd) !! sm_storage (nd_sm nd) = Some d
  ∧ R d sp ∧ admissible_log (nd_turns nd ≫= tn_entries) sp
  ∧ Forall (λ t, time_clean (obs_now (tn_obs t)) = true) (nd_turns nd).

Definition node_valid (nd : api_node) : Prop := ∃ d sp, node_at d sp nd.

Definition node_keeps (nd nd' : api_node) : Prop := node_valid nd' ∧ nd_proposed nd' = nd_proposed nd.

Lemma commit_valid sm l l' w d sp :
  open_dbs w !! sm_storage sm = Some d → R d sp → admissible_log (l ++ l') sp →
  ∃ d' sp', open_dbs (commit sm l w) !! sm_storage sm = Some d' ∧ R d' sp' ∧ admissible_log l' sp'
    ∧ (inv sp → inv sp').
Proof.
  revert w d sp. induction l as [|e l IH]; intros w d sp Hd HR Had; [by exists d, sp|].
  destruct Had as [He Hl]. destruct (apply_agree e d sp HR He) as [_ HR'].
  destruct (IH (Apply sm e w).2 (apply_db e d).2 (apply_db e sp).2) as (d' & sp' & H1 & H2 & H3 & H4);
    [|exact HR'|exact Hl|].
  - rewrite (Apply_open _ _ _ _ Hd). simpl. apply lookup_insert_eq.
  - exists d', sp'. do 3 (split; [done|]). intros Hi. by apply H4, apply_spec_inv.
Qed.

Lemma next_turn_valid nd t nd' :
  node_valid nd → next_turn nd = (t, nd') → node_keeps nd nd'.
Proof.
  intros (d & sp & Hh & Hd & HR & Had & Hnow) [= <- <-]. split; [|done].
  destruct (nd_turns nd) as [|t ts] eqn:E; simpl; [by exists d, sp|]. apply Forall_cons in Hnow as [_ Hnow].
  destruct (commit_valid _ _ _ _ _ _ Hd HR Had) as (d' & sp' & H1 & H2 & H3 & _). by exists d', sp'.
Qed.

Lemma ask_law {A} (f : RaftObs → A) nd : node_valid nd → node_keeps nd (ask f nd).2.
Proof.
  intros Hv. unfold ask. destruct (next_turn nd) as [t nd1] eqn:E. by eapply next_turn_valid.
Qed.

(** A read answers with an error, or from the consistent buckets. *)
Lemma read_law {A} deny (fn : M DB A) nd r nd' :
  node_valid nd → read (leader_read deny fn) nd = (r, nd') →
  node_keeps nd nd' ∧ ∀ a, r = Ok a → ∃ d sp, R d sp ∧ View fn d = Ok a.
Proof.
  intros Hv. unfold read. destruct (next_turn nd) as [t nd1] eqn:E.
  pose proof (next_turn_valid _ _ _ Hv E) as [(d & sp & Hh & Hd & HR & Hcoming) Hp].
  destruct (leader_read deny fn (tn_obs t) (nd_rn nd1) (nd_world nd1)) as [r1 rn1] eqn:Er.
  intros [= <- <-]. destruct (leader_read_node _ _ _ _ _ _ _ Er) as [Hst _]. split.
  - split; [|done]. exists d, sp. split; [simpl; by rewrite Hst|done].
  - intros a ->. apply leader_read_ok in Er as (_ & _ & d' & Hd' & Hv'). exists d, sp. split; [done|].
    rewrite Hh in Hd'. congruence.
Qed.

Lemma take_bounded {Row} (idOf : Row → string) limit cursor rows l n :
  page idOf limit cursor rows = (l, n) →
  Z.of_nat (length l) <= Z.max 0 limit ∧ ∀ x, x ∈ l → x ∈ rows.
Proof.
  unfold page. destruct (Z.leb_spec limit 0); intros [= <- _]; [split; [simpl; lia|by intros x ?%not_elem_of_nil]|].
  split.
  - rewrite length_take. lia.
  - intros x Hx. apply elem_of_take in Hx as (i & Hx & _). apply list_elem_of_lookup_2 in Hx.
    case_bool_decide; [done|]. by apply list_elem_of_filter in Hx as [_ Hx].
Qed.

(** A page of an index shows rows of the tenant it was asked for. *)
Lemma page_law {Row} (idOf ten : Row → string) (P : Row → bool) m t limit cursor l n :
  (∀ x, P x = true → ten x = t) →
  page idOf limit cursor (rows_where idOf P m) = (l, n) →
  Forall (λ x, ten x = t) l ∧ Z.of_nat (length l) <= Z.max 0 limit.
Proof.
  intros HP [Hlen Hin]%take_bounded. split; [|done]. apply Forall_forall.
  intros x [Hx _]%Hin%elem_of_rows_where. by apply HP.
Qed.

Lemma next_turn_clean nd t nd' :
  node_valid nd → next_turn nd = (t, nd') → time_clean (obs_now (tn_obs t)) = true.
Proof. intros (? & ? & _ & _ & _ & _ & Hnow) [= <- _]. destruct Hnow; simpl; [reflexivity|done]. Qed.

(** A proposal that is answered was applied to the consistent buckets. *)
Definition applied (c : command) (v : reply) (nd : api_node) : Prop :=
  ∃ e at_ d sp, entry_command e = Some (c, at_) ∧ time_clean at_ = true ∧ R d sp
    ∧ (apply_db e d).1 = Ok v ∧ rn_storage (nd_rn nd) = sm_storage (nd_sm nd)
    ∧ open_dbs (nd_world nd) !! sm_storage (nd_sm nd) = Some (apply_db e d).2.

Lemma propose_law c nd r nd' :
  node_valid nd → propose (command_type c) c nd = (r, nd') →
  nd_proposed nd' = nd_proposed nd ++ [c] ∧ ∀ v, r = Ok v → applied c v nd'.
Proof.
  intros Hv. unfold propose. destruct (next_turn nd) as [t nd1] eqn:E.
  pose proof (next_turn_valid _ _ _ Hv E) as [(d & sp & Hh & Hd & HR & _) Hp].
  assert (time_clean (obs_now (tn_obs t)) = true) as Hnow.
  { by eapply next_turn_clean. }
  intros [= <- <-]. split; [simpl; by rewrite Hp|]. intros v. unfold Propose.
  destruct (encode_command c) as [raw|x|p] eqn:Ec; [|done..].
  destruct (tn_entry_err t); [done|]. destruct (tn_apply_err t); [done|].
  set (e := Ok (mkLogEntry (command_type c) (obs_now (tn_obs t)) raw) : LogData).
  assert (∀ (o : result reply) msg, match o with Ok a => Ok a | Err x => Err (EWrap msg x) | Panic m => Panic m end
      = Ok v → o = Ok v) as Hwrap by (by intros []).
  intros Hr%Hwrap. assert ((Apply (nd_sm nd1) e (nd_world nd1)).1 = Ok v) as Hr' by exact Hr.
  rewrite (Apply_open _ _ _ _ Hd) in Hr'.
  exists e, (obs_now (tn_obs t)), d, sp. split; [|do 4 (split; [done|])].
  - unfold e, entry_command. simpl. by rewrite (decode_encode _ _ Ec).
  - change (open_dbs (Apply (nd_sm nd1) e (nd_world nd1)).2 !! sm_storage (nd_sm nd1) = Some (apply_db e d).2).
    rewrite (Apply_open _ _ _ _ Hd). apply lookup_insert_eq.
Qed.

(** [read_back Hv Hread as HR]: the value a read returned is what the related
    abstract store says. *)
Tactic Notation "read_back" hyp(Hv) hyp(Hread) "as" ident(HR) :=
  let Hk := fresh in let Hr := fresh in let d := fresh in let sp := fresh in let Hx := fresh in
  let Hd := fresh in
  destruct (read_law _ _ _ _ _ Hv Hread) as [Hk Hr]; split; [exact Hk|]; intros *; intros Hx;
  destruct (Hr _ Hx) as (d & sp & HR & Hd); revert Hd; clear Hr Hread; unfold View; simpl.

Ltac page_tac := intros [= Hp]; eapply page_law; [|exact Hp]; let x := fresh in
  intros x; unfold in_schedule, in_status, of_execution; intros ?; by bool_hyps.

#[export] Instance node_laws : BackendLaws api_node.
Proof.
  refine {| be_valid := node_valid; be_proposed := nd_proposed |}.
  - apply ask_law.
  - apply ask_law.
  - intros t nd r nd' Hv H. read_back Hv H as HR. rewrite (GetTenant_R _ _ _ HR). intros [= Hx'].
    by destruct (wf_tenants _ (R_wf _ _ HR) _ _ Hx') as [-> _].
  - intros t i nd r nd' Hv Ht H. read_back Hv H as HR. rewrite (GetSchedule_R _ _ _ _ HR Ht). intros [= Hx'].
    by destruct (wf_schedules _ (R_wf _ _ HR) _ _ Hx') as [[= <- _] _].
  - intros t i nd r nd' Hv Ht H. read_back Hv H as HR. rewrite (GetExecution_R _ _ _ _ HR Ht). intros [= Hx'].
    by destruct (wf_executions _ (R_wf _ _ HR) _ _ Hx') as [[= <- _] _].
  - intros t i nd r nd' Hv Ht H. read_back Hv H as HR. rewrite (GetAttempt_R _ _ _ _ HR Ht). intros [= Hx'].
    by destruct (wf_attempts _ (R_wf _ _ HR) _ _ Hx') as [[= <- _] _].
  - intros limit c nd r nd' Hv H. read_back Hv H as HR. rewrite (ListTenantsPage_R _ _ _ _ HR).
    intros [= Hp]. by eapply take_bounded.
  - intros t i limit c nd r nd' Hv Ht Hi H. read_back Hv H as HR.
    rewrite (ListExecutionsBySchedulePage_R _ _ HR _ _ Ht Hi). page_tac.
  - intros t i limit c nd r nd' Hv Ht Hi H. read_back Hv H as HR.
    rewrite (ListExecutionsByStatusPage_R _ _ HR _ _ Ht Hi). page_tac.
  - intros t i limit c nd r nd' Hv Ht Hi H. read_back Hv H as HR.
    rewrite (ListAttemptsByExecutionPage_R _ _ HR _ _ Ht Hi). page_tac.
  - intros c nd r nd' Hv Ht [Hp Hr]%propose_law; [|done]. split; [done|]. intros v Hok.
    destruct (Hr v Hok) as (e & at_ & d & sp & He & _ & HR & Ha & _). by eapply apply_reply.
Defined.

(** ** A node and the entries it is given *)

(** [nd] is what [nd0] becomes by applying the entries of its next turns: nothing
    of its own. *)
Definition follows (nd0 nd : api_node) : Prop :=
  nd_sm nd = nd_sm nd0 ∧ rn_storage (nd_rn nd) = rn_storage (nd_rn nd0)
  ∧ ∃ k, nd_turns nd = drop k (nd_turns nd0)
      ∧ nd_world nd = commit (nd_sm nd0) (take k (nd_turns nd0) ≫= tn_entries) (nd_world nd0).

Lemma follows_refl nd : follows nd nd.
Proof. split; [done|]. split; [done|]. by exists 0%nat. Qed.

Lemma commit_app sm l l' w : commit sm (l ++ l') w = commit sm l' (commit sm l w).
Proof. apply foldl_app. Qed.

Lemma follows_next nd0 nd t nd' : follows nd0 nd → next_turn nd = (t, nd') → follows nd0 nd'.
Proof.
  intros (Hsm & Hst & k & Hturns & Hw) [= _ <-]. split; [done|]. split; [done|]. exists (S k). simpl.
  rewrite Hturns, Hsm, Hw, <- commit_app.
  destruct (drop k (nd_turns nd0)) as [|u us] eqn:E; simpl.
  - assert (length (nd_turns nd0) <= k)%nat as Hk by (pose proof (length_drop (nd_turns nd0) k) as Hl;
      rewrite E in Hl; simpl in Hl; lia).
    by rewrite app_nil_r, drop_ge, !take_ge by lia.
  - assert (nd_turns nd0 !! k = Some u) as Hu by (by rewrite <- (Nat.add_0_r k), <- lookup_drop, E).
    rewrite (drop_S _ _ _ Hu) in E. injection E as E.
    by rewrite (take_S_r _ _ _ Hu), bind_app, E, (bind_singleton _ u).
Qed.

Lemma follows_ask {A} nd0 nd (f : RaftObs → A) : follows nd0 nd → follows nd0 (ask f nd).2.
Proof. intros Hf. unfold ask. destruct (next_turn nd) eqn:E. by eapply follows_next. Qed.

Lemma follows_read {A} nd0 nd deny (fn : M DB A) r nd' :
  follows nd0 nd → read (leader_read deny fn) nd = (r, nd') → follows nd0 nd'.
Proof.
  intros Hf. unfold read. destruct (next_turn nd) as [t nd1] eqn:E.
  pose proof (follows_next _ _ _ _ Hf E) as (Hsm & Hst & Hk).
  destruct (leader_read deny fn (tn_obs t) (nd_rn nd1) (nd_world nd1)) as [r1 rn1] eqn:Er.
  intros [= _ <-]. apply leader_read_node in Er as [Hr _]. split; [done|]. split; [simpl; congruence|done].
Qed.

(** The same interface, with the entries applied so far kept track of. *)
Definition following (nd0 nd : api_node) : Prop := node_valid nd ∧ follows nd0 nd.

Lemma follow_law {A} nd0 nd deny (fn : M DB A) r nd' (P : Prop) :
  following nd0 nd → read (leader_read deny fn) nd = (r, nd') →
  (node_valid nd → node_keeps nd nd' ∧ P) →
  (following nd0 nd' ∧ nd_proposed nd' = nd_proposed nd) ∧ P.
Proof.
  intros [Hv Hf] Hr H. destruct (H Hv) as [[Hv' Hp] HP].
  split; [|done]. split; [|done]. split; [done|]. by eapply follows_read.
Qed.

Definition following_laws (nd0 : api_node) : BackendLaws api_node.
Proof.
  refine {| be_valid := following nd0; be_proposed := nd_proposed |}.
  - intros nd [Hv Hf]. destruct (ask_law IsLeader _ Hv). split; [split; [done|by apply follows_ask]|done].
  - intros nd [Hv Hf]. destruct (ask_law LeaderAddr _ Hv). split; [split; [done|by apply follows_ask]|done].
  - intros t nd r nd' Hv H. apply (follow_law _ _ _ _ _ _ _ Hv H). intros Hn. exact (law_GetTenant (BackendLaws := node_laws) t nd r nd' Hn H).
  - intros t i nd r nd' Hv Ht H. apply (follow_law _ _ _ _ _ _ _ Hv H). intros Hn. exact (law_GetSchedule (BackendLaws := node_laws) t i nd r nd' Hn Ht H).
  - intros t i nd r nd' Hv Ht H. apply (follow_law _ _ _ _ _ _ _ Hv H). intros Hn. exact (law_GetExecution (BackendLaws := node_laws) t i nd r nd' Hn Ht H).
  - intros t i nd r nd' Hv Ht H. apply (follow_law _ _ _ _ _ _ _ Hv H). intros Hn. exact (law_GetAttempt (BackendLaws := node_laws) t i nd r nd' Hn Ht H).
  - intros l c nd r nd' Hv H. apply (follow_law _ _ _ _ _ _ _ Hv H). intros Hn. exact (law_ListTenantsPage (BackendLaws := node_laws) l c nd r nd' Hn H).
  - intros t i l c nd r nd' Hv Ht Hi H. apply (follow_law _ _ _ _ _ _ _ Hv H). intros Hn.
    exact (law_ListExecutionsBySchedulePage (BackendLaws := node_laws) t i l c nd r nd' Hn Ht Hi H).
  - intros t i l c nd r nd' Hv Ht Hi H. apply (follow_law _ _ _ _ _ _ _ Hv H). intros Hn.
    exact (law_ListExecutionsByStatusPage (BackendLaws := node_laws) t i l c nd r nd' Hn Ht Hi H).
  - intros t i l c nd r nd' Hv Ht Hi H. apply (follow_law _ _ _ _ _ _ _ Hv H). intros Hn.
    exact (law_ListAttemptsByExecutionPage (BackendLaws := node_laws) t i l c nd r nd' Hn Ht Hi H).
  - intros c nd r nd' [Hv _] Ht H. exact (law_Propose (BackendLaws := node_laws) c nd r nd' Hv Ht H).
Defined.

(** The database the node reads and writes. *)
Definition node_db (nd : api_node) : option DB := open_dbs (nd_world nd) !! sm_storage (nd_sm nd).
End node.

(** ** A sample node *)

Definition sample_key : string := "sched_0000".

Definition keyed_log : list LogData :=
  [entry (create_tenant (CreateTenantCommand.mk "acme" "Acme Corp" (hashAPIKey sample_key))) noon;
   entry (create_schedule create_cmd) noon].
Definition keyed_spec : Spec := (replay keyed_log emptySpec).2.
Definition keyed_db : DB := (replay keyed_log emptyDB).2.

Lemma keyed_R : R keyed_db keyed_spec.
Proof.
  apply (replay_agree keyed_log emptyDB emptySpec); [apply R_empty|].
  apply (bool_decide_unpack _). vm_compute. exact I.
Qed.

(** The leader of term 1, with a claim of the workers among the entries. *)
Definition leading : RaftObs := mkObs true "10.0.0.1:7000" 1 None noon.
Definition sample_turns : list turn :=
  [mkTurn leading [] None None;
   mkTurn leading [entry (claim_execution (claim_cmd "e1" noon)) noon] None None;
   mkTurn leading [] None None; mkTurn leading [] None None].

Definition sample_node : api_node :=
  mkNode (mkRaftNode 0%nat "node-1" [] 0) (mkStateMachine 0%nat 0%nat)
    (mkWorld {[ 0%nat := keyed_db ]} 1%nat) sample_turns [].

Lemma sample_node_valid : node_valid sample_node.
Proof.
  exists keyed_db, keyed_spec. split; [done|]. split; [apply lookup_insert_eq|]. split; [apply keyed_R|].
  split; apply (bool_decide_unpack _); vm_compute; exact I.
Qed.

(** Bodies that are the identifier of a tenant. *)
#[export] Instance sample_bodies : BodyCodec := {|
  decode_tenant_body id := Ok (CreateTenantCommand.mk id "Globex" "");
  decode_schedule_body _ := Err (EText "EOF")
|}.

Definition sample_config : Config :=
  mkConfig "node-1" "10.0.0.1:7000" ":8080" "/data" ∅ true "adminkey" "".

Definition sample_api : ApiState api_node :=
  mkApiState (newRateLimiter defaultRatePerSecond defaultBurst) sample_node [] [Ok "sixteen or more bytes"].

(** A pause of the schedule with the tenant's key, and with a wrong one. *)
Definition pause_request (key : string) : HttpRequest :=
  mkHttpRequest "POST" ["tenants"; "acme"; "schedules"; "s1"; "pause"] ("Bearer " +:+ key) (λ _, "") "".

Definition sample_serve (key : string) : option HttpResponse * ApiState api_node :=
  serve sample_config (λ _, 0) (λ _, "1") (pause_request key) sample_api.

Example pause_is_served : StatusCode <$> (sample_serve sample_key).1 = Some 200.
Proof. vm_compute. reflexivity. Qed.

Example pause_is_refused : StatusCode <$> (sample_serve "sched_0001").1 = Some 401.
Proof. vm_compute. reflexivity. Qed.

Lemma sample_clean key : clean_request (pause_request key).
Proof. split; [|reflexivity]. repeat constructor. Qed.

Lemma sample_response key : is_Some (sample_serve key).1 →
  ∃ resp, sample_serve key = (Some resp, (sample_serve key).2).
Proof. destruct (sample_serve key) as [[resp|] st']; [by exists resp|by intros [? [=]]]. Qed.

Lemma access_control_witness :
  ∃ resp, sample_serve sample_key = (Some resp, (sample_serve sample_key).2) ∧ StatusCode resp = 200
    ∧ ((refused resp ∧ kept sample_api (sample_serve sample_key).2)
       ∨ admin_token sample_config (pause_request sample_key)
       ∨ ∃ t rest, Path (pause_request sample_key) = "tenants" :: t :: rest
           ∧ own_key (asked sample_api) (pause_request sample_key) t
           ∧ confined t (RespBody resp) ∧ proposals (pause_request sample_key) t sample_api (sample_serve sample_key).2).
Proof.
  destruct (sample_response sample_key) as [resp Hs]; [vm_compute; by eexists|]. exists resp. split; [exact Hs|]. split.
  - pose proof pause_is_served as H. rewrite Hs in H. injection H. auto.
  - apply (access_control sample_config (λ _, 0) (λ _, "1") (pause_request sample_key) sample_api
             resp (sample_serve sample_key).2);
      [exact sample_node_valid|apply sample_clean|exact Hs].
Defined.

Lemma responses_are_harmless_witness :
  ∃ resp, sample_serve sample_key = (Some resp, (sample_serve sample_key).2)
    ∧ no_hash (RespBody resp) ∧ bounded (RespBody resp).
Proof.
  destruct (sample_response sample_key) as [resp Hs]; [vm_compute; by eexists|]. exists resp. split; [exact Hs|].
  apply (responses_are_harmless sample_config (λ _, 0) (λ _, "1") (pause_request sample_key) sample_api
           resp (sample_serve sample_key).2);
    [exact sample_node_valid|apply sample_clean|exact Hs].
Defined.
