(* ===== verification/Isolation.v ===== *)
(** * Isolation: tenants through the whole program

    From the HTTP request of one tenant to what another tenant reads in the
    database: Access says which command a request may have proposed, ApiNode
    what the node does with it, Safety what its entry changes. *)

From S2P Require Import Prelude Go GoTime GoFloat Model Bolt Json Storage Command Dispatch StateMachine RaftNode.
From S2P Require Import Spec Lifecycle Invariants Refinement RefinementScan RefinementTx CommandRefinement Replica.
From S2P Require Import Restart Sample Safety Sha256 Prog Replies Config RateLimit Api Access ApiNode.
Open Scope Z_scope.

Section isolation.
Context `{PF : !Platform, CC : !CommandCodec, B : !Bolt, BL : !BoltLaws B, J : !Json, JL : !JsonLaws J}.
Context `{CE : !CommandEncoder, CEL : !EncoderLaws CE, BC : !BodyCodec}.

(** The database once the entries of the first [k] turns are applied. *)
Definition db_after (k : nat) (nd : api_node) : option DB :=
  open_dbs (commit (nd_sm nd) (take k (nd_turns nd) ≫= tn_entries) (nd_world nd)) !! sm_storage (nd_sm nd).

(** A node that has only been given entries holds the database they leave. *)
Lemma follows_db nd0 nd d sp :
  node_at d sp nd0 → inv sp → follows nd0 nd →
  ∃ k d1 sp1, db_after k nd0 = Some d1 ∧ node_db nd = Some d1 ∧ R d1 sp1 ∧ inv sp1.
Proof.
  intros (_ & Hd & HR & Had & _) Hinv (Hsm & _ & k & _ & Hw). exists k.
  rewrite <- (take_drop k (nd_turns nd0)), bind_app in Had.
  destruct (commit_valid _ _ _ _ _ _ Hd HR Had) as (d1 & sp1 & H1 & H2 & _ & H3).
  exists d1, sp1. unfold db_after, node_db. rewrite Hsm, Hw. auto.
Qed.

(** What [propose] leaves in the database: what it found, without an answer, or
    that with the entry of its command applied, and the answer to it. *)
Lemma propose_db c nd0 nd r nd' d sp :
  node_at d sp nd0 → inv sp → following nd0 nd → propose (command_type c) c nd = (r, nd') →
  ∃ k d1 sp1, db_after k nd0 = Some d1 ∧ R d1 sp1 ∧ inv sp1
    ∧ ((node_db nd' = Some d1 ∧ ∀ v, r ≠ Ok v)
       ∨ ∃ e at_, entry_command e = Some (c, at_) ∧ time_clean at_ = true
           ∧ node_db nd' = Some (apply_db e d1).2
           ∧ ∀ v, r = Ok v ↔ (apply_db e d1).1 = Ok v).
Proof.
  intros Hat Hinv [Hv Hf]. unfold propose. destruct (next_turn nd) as [t nd1] eqn:E.
  destruct (follows_db nd0 nd1 d sp) as (k & d1 & sp1 & Hk & Hd1 & HR1 & Hi1);
    [done|done|by eapply follows_next|].
  assert (time_clean (obs_now (tn_obs t)) = true) as Hnow by (by eapply next_turn_clean).
  intros [= <- <-]. exists k, d1, sp1. do 3 (split; [done|]). unfold node_db, Propose in *. cbn [nd_world nd_sm].
  destruct (encode_command c) as [raw|x|p] eqn:Ec; [|by left..].
  destruct (tn_entry_err t); [by left|]. destruct (tn_apply_err t); [by left|right].
  set (e := Ok (mkLogEntry (command_type c) (obs_now (tn_obs t)) raw) : LogData).
  exists e, (obs_now (tn_obs t)).
  split; [unfold e, entry_command; simpl; by rewrite (decode_encode _ _ Ec)|]. split; [done|].
  pose proof (Apply_open (nd_sm nd1) e (nd_world nd1) d1 Hd1) as Hap. split.
  - change (open_dbs (Apply (nd_sm nd1) e (nd_world nd1)).2 !! sm_storage (nd_sm nd1) = Some (apply_db e d1).2).
    rewrite Hap. apply lookup_insert_eq.
  - intros v. rewrite <- (f_equal fst Hap : _ = (apply_db e d1).1).
    assert (∀ o : result reply, match o with Ok a => Ok a | Err x => Err (EWrap "Could not apply " x)
      | Panic m => Panic m end = Ok v ↔ o = Ok v) as Hwrap by (by intros []).
    apply Hwrap.
Qed.

(** The commands a request asks for do not depend on the state to be admissible. *)
Lemma asked_admissible r t c at_ sp :
  asks_for r t c → clean c → ids_good c → time_clean at_ = true → admissible c at_ sp.
Proof. intros Ha Hc Hi Ht. split; [done..|]. by destruct Ha. Qed.

(** C11: a request that does not carry the admin key and whose path does not
    name tenant [t] leaves all that [t] reads, schedules, executions and
    attempts, as the entries committed in the meantime leave it: whatever the
    response, from the HTTP request to the buckets of the database. *)
Theorem request_isolation (cfg : Config) (oor : f64 → Z) (Itoa : Z → string) (r : HttpRequest)
    (st st' : ApiState api_node) (resp : HttpResponse) (d : DB) (sp : Spec) (t : string) :
  node_at d sp (as_backend st) → inv sp → clean_request r →
  (∀ t' c, asks_for r t' c → clean c ∧ ids_good c) →
  serve cfg oor Itoa r st = (Some resp, st') →
  ¬ admin_token cfg r → (∀ rest, Path r ≠ "tenants" :: t :: rest) → no_colon t = true →
  ∃ k d1 d', db_after k (as_backend st) = Some d1 ∧ node_db (as_backend st') = Some d'
    ∧ same_view t d1 d'.
Proof.
  intros Hat Hinv Hcl Hgood Hs Hadm Hpath Ht. set (nd0 := as_backend st) in *.
  assert (∃ k d1 sp1, db_after k nd0 = Some d1 ∧ R d1 sp1 ∧ inv sp1
    ∧ (node_db (as_backend st') = Some d1 ∨ ∃ t' c e at_, asks_for r t' c ∧ t' ≠ t
         ∧ entry_command e = Some (c, at_) ∧ time_clean at_ = true
         ∧ node_db (as_backend st') = Some (apply_db e d1).2)) as (k & d1 & sp1 & Hk & HR & Hi & Hd').
  { destruct (serve_verdict (BL := following_laws nd0) cfg oor Itoa r st resp st') as [_ Hverd];
      [split; [by exists d, sp|apply follows_refl]|done|done|].
    assert (kept (BL := following_laws nd0) st st' →
      ∃ k d1 sp1, db_after k nd0 = Some d1 ∧ node_db (as_backend st') = Some d1 ∧ R d1 sp1 ∧ inv sp1) as Hkept.
    { intros [[_ Hf] _]. by eapply follows_db. }
    destruct Hverd as [[_ Hkp]|[[? _]|(t' & rest & Hp & _ & _ & [Hkp|(c & Ha & _ & s1 & r1 & [Hf _] & Hprop)])]];
      [destruct (Hkept Hkp) as (k & d1 & sp1 & ? & ? & ? & ?); by eauto 10|done
      |destruct (Hkept Hkp) as (k & d1 & sp1 & ? & ? & ? & ?); by eauto 10|].
    destruct (propose_db c nd0 s1 r1 _ d sp Hat Hinv Hf Hprop)
      as (k & d1 & sp1 & H1 & H2 & H3 & [[H4 _]|(e & at_ & H4 & H5 & H6 & _)]);
      exists k, d1, sp1; do 3 (split; [done|]); [by left|right].
    exists t', c, e, at_. split; [done|]. split; [|done]. intros ->. by eapply Hpath. }
  exists k, d1. destruct Hd' as [Hd'|(t' & c & e & at_ & Ha & Hne & He & Htc & Hd')].
  - exists d1. split; [done|]. split; [done|]. by intros i.
  - exists (apply_db e d1).2. split; [done|]. split; [done|]. destruct (Hgood _ _ Ha) as [Hc Hids].
    assert (entry_admissible e sp1) as Had
      by (unfold entry_admissible; rewrite He; by eapply asked_admissible).
    destruct (apply_agree e d1 sp1 HR Had) as [_ HR'].
    apply (same_rows_view _ _ _ _ _ HR HR' Ht), apply_isolated; [done|].
    intros c' at' [= <- <-]%(eq_trans (eq_sym He)). rewrite (asks_for_tenant _ _ _ Ha). congruence.
Qed.
End isolation.

(** The pause of a schedule of acme's, as far as globex is concerned. *)
Lemma request_isolation_witness : ∃ k d1 d',
  db_after k sample_node = Some d1 ∧ node_db (as_backend (sample_serve sample_key).2) = Some d'
  ∧ same_view "globex" d1 d'.
Proof.
  destruct (sample_response sample_key) as [resp Hs]; [vm_compute; by eexists|].
  apply (request_isolation sample_config (λ _, 0) (λ _, "1") (pause_request sample_key) sample_api
           (sample_serve sample_key).2 resp keyed_db keyed_spec "globex");
    [|apply replay_spec_inv, inv_empty|apply sample_clean| |exact Hs| | |reflexivity].
  - split; [reflexivity|]. split; [apply lookup_insert_eq|]. split; [apply keyed_R|].
    split; apply (bool_decide_unpack _); vm_compute; exact I.
  - intros t' c Ha. inversion Ha as [? Hp|i Hp|i Hp|i Hp]; try discriminate Hp.
    injection Hp as <- <-. split; apply (bool_decide_unpack _); vm_compute; exact I.
  - intros [Hk _]. vm_compute in Hk. discriminate Hk.
  - intros rest [=].
Defined.
