(* ===== verification/Effects.v ===== *)
(** * Effects: what the answer to a write says of the store

    From the HTTP request that asks for a command on a schedule to the buckets:
    a success is the schedule as it is stored now, and the command did what it
    is for; an error means that nothing was changed. *)

From S2P Require Import Prelude Go GoTime GoFloat Model Bolt Json Storage Command Dispatch StateMachine RaftNode.
From S2P Require Import Spec Lifecycle Invariants Refinement RefinementScan RefinementTx CommandRefinement Replica.
From S2P Require Import Restart Sample Safety Sha256 Prog Replies Config RateLimit Api Access ApiNode Isolation.
Open Scope Z_scope.

(** ** The response to a proposal *)

Definition failure (status : Z) (msg : string) : HttpResponse := json_response status (BError msg).

(** What becomes of the backend's answer: a panic leaves no response. *)
Definition write_response (success : Z) (r : result reply) : option HttpResponse :=
  match r with
  | Err err => Some (failure StatusServiceUnavailable (Error err))
  | Panic _ => None
  | Ok (RRejected ce) =>
      Some (failure (statusForCommandErrorKind (CommandError.Kind ce)) (CommandError.Message ce))
  | Ok v => Some (json_response success (BResult v))
  end.

(** A resource was created, or an existing one changed. *)
Definition success_status (c : command) : Z :=
  match c with create_schedule _ => StatusCreated | _ => StatusOK end.

Lemma failure_refused status msg : ¬ 200 <= status < 300 → refused (failure status msg).
Proof. intros Hs. split; [done|by eexists]. Qed.

Lemma kind_status kind : ¬ 200 <= statusForCommandErrorKind kind < 300.
Proof.
  unfold statusForCommandErrorKind, StatusBadRequest, StatusNotFound, StatusConflict, StatusInternalServerError.
  repeat case_bool_decide; lia.
Qed.

Section proposals.
Context {S : Type} `{BE : !Backend S, BL : !BackendLaws S, BC : !BodyCodec}.
Context (cfg : Config) (oor : f64 → Z) (Itoa : Z → string).

(** The last thing the backend was asked was to propose [c], and it answered [r]. *)
Definition answered_with (c : command) (st : ApiState S) (r : result reply) (st' : ApiState S) : Prop :=
  ∃ s, be_keeps (as_backend st) s ∧ be_Propose (command_type c) c s = (r, as_backend st').

(** The response of a write: an error before anything was proposed, or what the
    backend answered. *)
Definition write_answer (c : command) (st : ApiState S) (resp : HttpResponse) (st' : ApiState S) : Prop :=
  denied st resp st' ∨ ∃ r, answered_with c st r st' ∧ write_response (success_status c) r = Some resp.

Lemma propose_answers c st0 st :
  kept st0 st →
  answers (result ← api_propose c; writeJSON (success_status c) (BResult result)) st (write_answer c st0).
Proof.
  intros Hk. apply runs_bind. unfold api_propose. apply runs_bind.
  eapply runs_weaken; [by apply requireLeader_runs|by intros resp st1 ?; left|].
  intros ? st1 [Hk1 _]. apply runs_bind, (runs_call _ _ st0); [done|].
  intros r s' E Hv st2 H2. assert (answered_with c st0 r st2) as Ha by (exists (as_backend st1); by rewrite H2).
  destruct r as [v|err|p]; [destruct v|..|done]; (right; eexists; split; [exact Ha|reflexivity]).
Qed.

Lemma write_route r t c st :
  be_valid (as_backend st) →
  answers (_ ← requireLeader; _ ← requireTenantAccess cfg oor Itoa r t;
           result ← api_propose c; writeJSON (success_status c) (BResult result))
    st (write_answer c st).
Proof.
  intros Hv. assert (kept st st) as Hst by done. apply runs_bind.
  eapply runs_weaken; [apply (requireLeader_runs st st Hst)|by intros resp st1 ?; left|].
  intros ? st1 [Hk1 _]. apply runs_bind.
  eapply runs_weaken; [apply (requireTenantAccess_runs cfg oor Itoa r t st st1 Hk1)|by intros resp st2 ?; left|].
  intros ? st2 [Hk2 _]. by apply propose_answers.
Qed.

(** The request that asks for [c] reaches its handler. *)
Definition write_request (r : HttpRequest) (t : string) (c : command) : Prop :=
  Method r = "POST" ∧ "" ∉ Path r ∧ asks_for r t c.

Lemma routes_write r t c st :
  write_request r t c → ∃ h, routes cfg oor Itoa r = Some h
  ∧ h st = (_ ← requireLeader; _ ← requireTenantAccess cfg oor Itoa r t;
            result ← api_propose c; writeJSON (success_status c) (BResult result)) st.
Proof.
  intros (Hm & Hne & Ha). unfold routes. rewrite bool_decide_false, bool_decide_true by done.
  unfold post_routes. destruct Ha as [c Hp Hb|i Hp|i Hp|i Hp]; rewrite Hp; unfold on_path;
    eexists; (split; [reflexivity|]); [|done..].
  unfold handleCreateSchedule. by rewrite Hb.
Qed.

Lemma serve_write r t c st resp st' :
  be_valid (as_backend st) → write_request r t c → serve cfg oor Itoa r st = (Some resp, st') →
  write_answer c st resp st'.
Proof.
  intros Hv Hr. pose proof (write_route r t c st Hv) as Hw. unfold answers, runs in Hw.
  destruct (routes_write r t c st Hr) as (h & Hh & Heq). rewrite <- Heq in Hw.
  unfold serve. rewrite Hh. destruct (h st) as [[[x|]|x] st1]; intros [= <- <-]; exact Hw.
Qed.
End proposals.

(** ** The effect of a command on the schedule it names *)

Definition schedule_of (c : command) : string :=
  match c with
  | create_schedule c => c.(CreateScheduleCommand.ID)
  | pause_schedule c => c.(PauseScheduleCommand.ID)
  | cancel_schedule c => c.(CancelScheduleCommand.ID)
  | resume_schedule c => c.(ResumeScheduleCommand.ID)
  | _ => ""
  end.

(** [s] is [s0] in a new status; it stays as it is when it is in it already. *)
Definition moved_to (status : string) (s0 s : Schedule) : Prop :=
  (s = s0 ∧ s0.(Schedule.Status) = status) ∨ ∃ next at_, s = with_status status next at_ s0.

Definition effect (c : command) (before : option Schedule) (s : Schedule) : Prop :=
  match c with
  | create_schedule c => before = None ∧ ∃ next at_, s = new_schedule c next at_
  | pause_schedule _ => ∃ s0, before = Some s0 ∧ moved_to ScheduleStatusPaused s0 s
  | cancel_schedule _ => ∃ s0, before = Some s0 ∧
      (moved_to ScheduleStatusCanceled s0 s ∨ s = s0 ∧ s0.(Schedule.Status) = ScheduleStatusCompleted)
  | resume_schedule _ => ∃ s0, before = Some s0 ∧ moved_to ScheduleStatusActive s0 s
  | _ => False
  end.

Lemma step_effect `{PF : !Platform, BC : !BodyCodec} r t c at_ sp v sp' :
  asks_for r t c → inv sp → spec_step at_ c sp v sp' →
  ∃ s, v = RSchedule s ∧ effect c (sp_schedules sp !! (t, schedule_of c)) s
    ∧ sp_schedules sp' = <[(t, schedule_of c) := s]> (sp_schedules sp)
    ∧ sp_executions sp' = sp_executions sp ∧ sp_attempts sp' = sp_attempts sp.
Proof.
  intros Ha Hi Hs. destruct Ha; inversion Hs; subst; simpl in *;
    try match goal with H : sp_schedules _ !! _ = Some _ |- _ =>
          rewrite H; pose proof (inv_sched_key _ Hi _ _ H) as Hk; injection Hk as -> -> end;
    (eexists; split; [reflexivity|]; split; [|split; [|done]]); try reflexivity;
    try (by rewrite insert_id).
  - split; [done|]. eauto.
  - eexists. split; [done|]. right. eauto.
  - eexists. split; [done|]. by left.
  - eexists. split; [done|]. left. right. eauto.
  - eexists. split; [done|]. unfold moved_to. naive_solver.
  - eexists. split; [done|]. right. eauto.
  - eexists. split; [done|]. by left.
Qed.

(** ** On a node *)

Section node.
Context `{PF : !Platform, CC : !CommandCodec, B : !Bolt, BL : !BoltLaws B, J : !Json, JL : !JsonLaws J}.
Context `{CE : !CommandEncoder, CEL : !EncoderLaws CE, BC : !BodyCodec}.

(** From [d] to [d'] only schedule [i] of tenant [t] may have changed for [t]. *)
Definition only_schedule (t i : string) (d d' : DB) : Prop := ∀ j,
  (j ≠ i → View (GetSchedule t j) d' = View (GetSchedule t j) d)
  ∧ View (GetExecution t j) d' = View (GetExecution t j) d
  ∧ View (GetAttempt t j) d' = View (GetAttempt t j) d.

(** What an accepted entry leaves in the buckets. *)
Lemma accepted_entry r t c e at_ d sp v :
  R d sp → inv sp → asks_for r t c → admissible c at_ sp → no_colon t = true →
  entry_command e = Some (c, at_) → (apply_db e d).1 = Ok v → (∀ ce, v ≠ RRejected ce) →
  ∃ s, v = RSchedule s ∧ View (GetSchedule t (schedule_of c)) (apply_db e d).2 = Ok (Some s)
    ∧ (∃ before, View (GetSchedule t (schedule_of c)) d = Ok before ∧ effect c before s)
    ∧ only_schedule t (schedule_of c) d (apply_db e d).2.
Proof.
  intros HR Hi Ha Had Ht He Hv Hno.
  destruct (apply_agree e d sp HR) as [Heq HR']; [unfold entry_admissible; by rewrite He|].
  rewrite Hv in Heq. destruct (apply_db e sp) as [o sp'] eqn:E. simpl in Heq, HR'. subst o.
  destruct (apply_answered _ _ _ _ _ _ He E) as [Hs|[[ce ->] _]]; [|by destruct (Hno ce)].
  destruct (step_effect _ _ _ _ _ _ _ Ha Hi Hs) as (s & -> & Heff & Hsch & Hex & Hat).
  unfold only_schedule, View; simpl. exists s. split; [done|].
  rewrite (GetSchedule_R _ _ _ _ HR' Ht), Hsch, lookup_insert_eq. split; [done|]. split.
  - eexists. by rewrite (GetSchedule_R _ _ _ _ HR Ht).
  - intros j. rewrite (GetSchedule_R _ _ _ _ HR' Ht), (GetSchedule_R _ _ _ _ HR Ht),
      (GetExecution_R _ _ _ _ HR' Ht), (GetExecution_R _ _ _ _ HR Ht),
      (GetAttempt_R _ _ _ _ HR' Ht), (GetAttempt_R _ _ _ _ HR Ht), Hsch, Hex, Hat.
    split; [|done]. intros Hj. by rewrite lookup_insert_ne by congruence.
Qed.

(** An error, and nothing has changed; or the schedule as it is stored now. *)
Definition truthful (t : string) (c : command) (resp : HttpResponse) (d d' : DB) : Prop :=
  (refused resp ∧ d' = d)
  ∨ ∃ s, resp = json_response (success_status c) (BResult (RSchedule s))
      ∧ View (GetSchedule t (schedule_of c)) d' = Ok (Some s)
      ∧ (∃ before, View (GetSchedule t (schedule_of c)) d = Ok before ∧ effect c before s)
      ∧ only_schedule t (schedule_of c) d d'.

Lemma unanswered_refused success (res : result reply) resp :
  (∀ v, res ≠ Ok v) → write_response success res = Some resp → refused resp.
Proof.
  intros Hno. destruct res as [v|x|p]; [by destruct (Hno v)| |done]. intros [= <-].
  apply failure_refused. unfold StatusServiceUnavailable. lia.
Qed.

Lemma accepted_or_refused success e (d : DB) o d' (res : result reply) resp :
  apply_db e d = (o, d') → (∀ v, res = Ok v ↔ o = Ok v) → write_response success res = Some resp →
  (refused resp ∧ d' = d) ∨ ∃ v, o = Ok v ∧ ∀ ce, v ≠ RRejected ce.
Proof.
  intros E Hres Hresp. assert ((∃ v, o = Ok v ∧ ∀ ce, v ≠ RRejected ce)
    ∨ ∀ v, o = Ok v → ∃ ce, v = RRejected ce) as [?|Hno]; [|by right|left].
  { destruct o as [[]|x|p]; try (by right); try (left; by eexists); right; intros v [= <-]; by eexists. }
  split; [|by eapply apply_rolled_back]. destruct o as [v|x|p].
  - destruct (Hno v eq_refl) as [ce ->]. rewrite (proj2 (Hres _) eq_refl) in Hresp. injection Hresp as <-.
    apply failure_refused, kind_status.
  - eapply unanswered_refused; [|exact Hresp]. intros v Hv. by discriminate (proj1 (Hres v) Hv).
  - eapply unanswered_refused; [|exact Hresp]. intros v Hv. by discriminate (proj1 (Hres v) Hv).
Qed.

Lemma proposal_truthful r t c nd0 nd res nd' d sp resp :
  node_at d sp nd0 → inv sp → following nd0 nd → asks_for r t c → clean c → ids_good c → no_colon t = true →
  propose (command_type c) c nd = (res, nd') → write_response (success_status c) res = Some resp →
  ∃ k d1 d', db_after k nd0 = Some d1 ∧ node_db nd' = Some d' ∧ truthful t c resp d1 d'.
Proof.
  intros Hat Hinv Hf Ha Hc Hids Ht Hp Hresp.
  destruct (propose_db c nd0 nd res nd' d sp Hat Hinv Hf Hp)
    as (k & d1 & sp1 & Hk & HR & Hi & [[Hd' Hno]|(e & at_ & He & Htc & Hd' & Hres)]).
  { exists k, d1, d1. do 2 (split; [done|]). left. split; [|done].
    by eapply unanswered_refused. }
  exists k, d1, (apply_db e d1).2. do 2 (split; [done|]).
  destruct (apply_db e d1) as [o d'] eqn:E. cbn [fst snd] in *.
  destruct (accepted_or_refused (success_status c) e d1 o d' res resp E Hres Hresp)
    as [[Hr ->]|(v & -> & Hno)]; [by left|right].
  assert ((apply_db e d1).1 = Ok v) as Hv by (by rewrite E).
  destruct (accepted_entry r t c e at_ d1 sp1 v HR Hi Ha) as (s & -> & H1 & H2 & H3); try done.
  { by eapply asked_admissible. }
  rewrite E in H1, H3. exists s. split; [|done]. rewrite (proj2 (Hres _) eq_refl) in Hresp.
  by injection Hresp as <-.
Qed.

(** C12: the answer to a write is the truth.  A request to create, pause, cancel
    or resume a schedule on a node that holds the entries committed so far: if
    the response is an error, the request has changed nothing in the database;
    otherwise the response is the schedule as it is stored, it is what the
    command is for (a new schedule under an identifier that was free, the stored
    one in its new status), and nothing else of the tenant's has changed. *)
Theorem write_responses_are_true (cfg : Config) (oor : f64 → Z) (Itoa : Z → string) (r : HttpRequest)
    (st st' : ApiState api_node) (resp : HttpResponse) (d : DB) (sp : Spec) (t : string) (c : command) :
  node_at d sp (as_backend st) → inv sp → clean_request r → write_request r t c → clean c → ids_good c →
  serve cfg oor Itoa r st = (Some resp, st') →
  ∃ k d1 d', db_after k (as_backend st) = Some d1 ∧ node_db (as_backend st') = Some d'
    ∧ truthful t c resp d1 d'.
Proof.
  intros Hat Hinv Hcl Hw Hc Hids Hs. set (nd0 := as_backend st) in *.
  assert (no_colon t = true) as Ht.
  { destruct Hw as (_ & _ & Ha). destruct Ha as [? Hp|? Hp|? Hp|? Hp]; exact (proj1 (clean_path _ _ _ Hcl Hp)). }
  assert (following nd0 (as_backend st)) as Hf by (split; [by exists d, sp|apply follows_refl]).
  destruct (serve_write (BL := following_laws nd0) cfg oor Itoa r t c st resp st' Hf Hw Hs)
    as [[Hr [[_ Hf'] _]]|(res & (s1 & [Hf1 _] & Hp) & Hresp)].
  - destruct (follows_db nd0 _ d sp Hat Hinv Hf') as (k & d1 & sp1 & H1 & H2 & _).
    exists k, d1, d1. do 2 (split; [done|]). by left.
  - destruct Hw as (_ & _ & Ha). exact (proposal_truthful r t c nd0 s1 res _ d sp resp Hat Hinv Hf1 Ha Hc Hids Ht Hp Hresp).
Qed.
End node.

(** The pause of the sample schedule. *)
Lemma write_responses_are_true_witness : ∃ resp k d1 d',
  sample_serve sample_key = (Some resp, (sample_serve sample_key).2)
  ∧ db_after k sample_node = Some d1 ∧ node_db (as_backend (sample_serve sample_key).2) = Some d'
  ∧ truthful "acme" (pause_schedule (PauseScheduleCommand.mk "acme" "s1")) resp d1 d'.
Proof.
  destruct (sample_response sample_key) as [resp Hs]; [vm_compute; by eexists|]. exists resp.
  destruct (write_responses_are_true sample_config (λ _, 0) (λ _, "1") (pause_request sample_key) sample_api
           (sample_serve sample_key).2 resp keyed_db keyed_spec "acme"
           (pause_schedule (PauseScheduleCommand.mk "acme" "s1"))) as (k & d1 & d' & H);
    [|apply replay_spec_inv, inv_empty|apply sample_clean| | | |exact Hs|exists k, d1, d'; exact (conj Hs H)].
  - split; [reflexivity|]. split; [apply lookup_insert_eq|]. split; [apply keyed_R|].
    split; apply (bool_decide_unpack _); vm_compute; exact I.
  - split; [reflexivity|]. split; [apply (bool_decide_unpack _); vm_compute; exact I|]. by apply asks_pause.
  - apply (bool_decide_unpack _); vm_compute; exact I.
  - apply (bool_decide_unpack _); vm_compute; exact I.
Defined.
