(* ===== verification/Credentials.v ===== *)
(** * Credentials: the key POST /tenants answers with opens the tenant

    The plaintext key is only ever in that response; the store has its hash.
    A request that carries it as a bearer token passes the check of the
    tenant's endpoints, unless the limiter refuses it. *)

From Stdlib Require Import Ascii.
From S2P Require Import Prelude Go GoStrings GoTime GoFloat Model Bolt Json Storage Command Dispatch StateMachine.
From S2P Require Import RaftNode Spec Lifecycle Invariants Refinement RefinementScan RefinementTx CommandRefinement Replica.
From S2P Require Import Restart Sample Sha256 Prog Replies Config RateLimit Api Access ApiNode.
Open Scope Z_scope.

(** ** What keys look like *)

Definition graphic : ascii → bool := byte_in 33 126.

Lemma all_bytes_app p a b : all_bytes p (a +:+ b) = all_bytes p a && all_bytes p b.
Proof. induction a as [|c a IH]; simpl; [done|]. by rewrite ?append_cons, IH, andb_assoc. Qed.

Lemma all_bytes_rev p s : all_bytes p (rev_string s) = all_bytes p s.
Proof.
  induction s as [|c s IH]; simpl; [done|]. rewrite all_bytes_app, IH. simpl.
  by rewrite andb_true_r, andb_comm.
Qed.

Lemma graphic_no_prefix p s :
  all_bytes graphic s = true → p ≠ "" →
  (∀ c p', p = String c p' → graphic c = false) → strip_prefix_opt p s = None.
Proof.
  intros Hs Hp Hc. destruct p as [|c p]; [done|]. destruct s as [|d s]; [done|]. simpl in *.
  destruct (Ascii.eqb_spec c d) as [->|]; [|done]. specialize (Hc d p eq_refl). by rewrite Hc in Hs.
Qed.

Definition starts_plain (p : string) : bool :=
  match p with EmptyString => true | String c _ => graphic c end.

Lemma graphic_trim s : all_bytes graphic s = true → TrimSpace s = s.
Proof.
  intros Hs.
  assert (∀ ps u, all_bytes graphic u = true → existsb starts_plain ps = false → strip_any ps u = None) as H.
  { intros ps u Hu Hps. apply strip_any_none. intros p Hp.
    assert (starts_plain p = false) as Hsp.
    { destruct (starts_plain p) eqn:E; [|done]. rewrite <- Hps. symmetry. apply existsb_exists.
      exists p. split; [by apply list_elem_of_In|done]. }
    apply graphic_no_prefix; [done|by intros ->|]. by intros c p' ->. }
  apply TrimSpace_id; apply H; try reflexivity; [done|by rewrite all_bytes_rev].
Qed.

Lemma base64url_digit_graphic z : 0 <= z < 64 → graphic (base64url_digit z) = true.
Proof.
  intros Hz. assert (forallb (λ n, graphic (base64url_digit (Z.of_nat n))) (seq 0 64) = true) as H by reflexivity.
  rewrite forallb_forall in H. rewrite <- (Z2Nat.id z) by lia. apply H, in_seq. lia.
Qed.

Lemma bytes_of_range s : Forall (λ z, 0 <= z < 256) (bytes_of s).
Proof. induction s as [|c s IH]; simpl; [done|]. constructor; [|done]. pose proof (nat_ascii_bounded c). lia. Qed.

Lemma base64url_graphic n l : (length l < n)%nat → Forall (λ z, 0 <= z < 256) l →
  all_bytes graphic (base64url_encode l) = true.
Proof.
  revert l. induction n as [|n IH]; intros l Hn Hl; [lia|].
  destruct l as [|a [|b [|c l]]]; cbn [base64url_encode all_bytes]; [done|..];
    repeat match goal with H : Forall _ (_ :: _) |- _ => apply Forall_cons in H as [? H] end;
    rewrite !base64url_digit_graphic by (Z.to_euclidean_division_equations; lia); try done.
  simpl in *. apply IH; [lia|done].
Qed.

Definition plaintext_of (buf : string) : string := "sched_" +:+ base64url_encode (bytes_of buf).

Lemma bearer_of_plaintext r buf :
  Authorization r = "Bearer " +:+ plaintext_of buf → bearerToken r = Some (plaintext_of buf).
Proof.
  intros Hr. unfold bearerToken. rewrite Hr, prefix_app, strip_prefix_app. cbn [negb].
  rewrite graphic_trim; [done|]. unfold plaintext_of. rewrite all_bytes_app. apply andb_true_iff. split; [done|].
  eapply base64url_graphic; [apply Nat.lt_succ_diag_r|apply bytes_of_range].
Qed.

Lemma hex_ascii l : Forall (λ z, 0 <= z < 256) l → all_bytes (byte_in 0 127) (hex_encode l) = true.
Proof.
  assert (∀ z, 0 <= z < 16 → byte_in 0 127 (hex_digit z) = true) as Hd.
  { intros z Hz.
    assert (forallb (λ n, byte_in 0 127 (hex_digit (Z.of_nat n))) (seq 0 16) = true) as H by reflexivity.
    rewrite forallb_forall in H. rewrite <- (Z2Nat.id z) by lia. apply H, in_seq. lia. }
  induction 1 as [|z l Hz _ IH]; [done|]. cbn [hex_encode all_bytes].
  rewrite !Hd by (Z.to_euclidean_division_equations; lia). done.
Qed.

Lemma be_bytes_range n x : Forall (λ z, 0 <= z < 256) (be_bytes n x).
Proof.
  revert x. induction n as [|n IH]; intros x; simpl; [done|]. apply Forall_app. split; [apply IH|].
  constructor; [apply Z.mod_pos_bound; lia|done].
Qed.

Lemma hash_utf8 key : utf8_valid (hashAPIKey key) = true.
Proof.
  apply all_ascii_utf8, hex_ascii. unfold Sum256. apply Forall_flat_map, Forall_true. intros x.
  apply be_bytes_range.
Qed.

(** ** The stored tenant *)

Section stored.
Context `{PF : !Platform, CC : !CommandCodec, B : !Bolt, BL : !BoltLaws B, J : !Json, JL : !JsonLaws J}.

Lemma run_create_tenant c at_ (d : DB) v d' :
  run_command (create_tenant c) at_ d = (Ok v, d') →
  let t := Tenant.mk c.(CreateTenantCommand.ID) c.(CreateTenantCommand.Name) at_ c.(CreateTenantCommand.APIKeyHash) in
  v = RTenant t ∧ c.(CreateTenantCommand.APIKeyHash) ≠ "" ∧ ∃ d1, bolt_PutTenant t d1 = (Ok (), d').
Proof.
  intros (x & d0 & H & [= <- <-])%M_bind_inv. unfold ApplyCreateTenant in H.
  apply M_bind_inv in H as (? & ? & [_ ->]%reject_if_inv & H).
  apply M_bind_inv in H as (? & ? & [Hh ->]%reject_if_inv & H).
  apply M_bind_inv in H as (o & d1 & _ & H). destruct o; [done|].
  apply M_bind_inv in H as ([] & d2 & Hput%wrap_err_inv & [= <- <-]).
  split; [done|]. split; [by apply empty_false|]. by exists d1.
Qed.

Lemma put_tenant_read t (d1 d' : DB) :
  clean t → bolt_PutTenant t d1 = (Ok (), d') → bolt_GetTenant t.(Tenant.ID) d' = (Ok (Some t), d').
Proof.
  intros Hc. unfold bolt_PutTenant. intros (raw & d2 & [Hraw ->]%lift_inv & Hput)%M_bind_inv.
  unfold Put in Hput. destruct (bucket_put _ _ raw) as [b|x|p] eqn:Eb; [|done..]. injection Hput as <-.
  unfold bolt_GetTenant, get_row, mbind, M_bind, Get. simpl.
  rewrite (bucket_get_put _ _ _ _ _ _ Eb), decide_True by done. unfold lift. simpl.
  by rewrite (unmarshal_marshal t raw Hc Hraw).
Qed.

(** What a create_tenant that was applied leaves in the buckets. *)
Lemma applied_tenant `{CE : !CommandEncoder} c v nd :
  applied (create_tenant c) v nd → (∀ ce, v ≠ RRejected ce) →
  utf8_valid c.(CreateTenantCommand.ID) = true → utf8_valid c.(CreateTenantCommand.Name) = true →
  utf8_valid c.(CreateTenantCommand.APIKeyHash) = true →
  ∃ t d, v = RTenant t ∧ t.(Tenant.ID) = c.(CreateTenantCommand.ID)
    ∧ t.(Tenant.APIKeyHash) = c.(CreateTenantCommand.APIKeyHash) ∧ t.(Tenant.APIKeyHash) ≠ ""
    ∧ open_dbs (nd_world nd) !! rn_storage (nd_rn nd) = Some d
    ∧ View (GetTenant t.(Tenant.ID)) d = Ok (Some t).
Proof.
  intros (e & at_ & d & sp & He & Hat & HR & Ha & Hh & Hd) Hno Hid Hname Hhash.
  unfold entry_command in He. destruct e as [env|x|p]; [|done..].
  destruct (decode_command _ _) as [c'|x|p] eqn:Ec; try done. injection He as -> <-.
  revert Ha Hd. unfold apply_db, Update, Dispatch. rewrite Ec, (M_bind_ok (lift (Ok _)) _ _ _ _ eq_refl).
  destruct (run_command _ _ d) as [[r|x|p] d'] eqn:Er; simpl.
  - intros [= ->] Hd. apply run_create_tenant in Er as (-> & Hne & d1 & Hput).
    eexists _, d'. split; [done|]. do 3 (split; [done|]). rewrite Hh. split; [done|].
    set (t := Tenant.mk _ _ _ _). assert (clean t) as Hc by (unfold clean, atoms; simpl; repeat constructor; assumption).
    unfold View. change (GetTenant t.(Tenant.ID) d') with (bolt_GetTenant t.(Tenant.ID) d').
    by rewrite (put_tenant_read t d1 d' Hc Hput).
  - destruct (asCommandErrorChain x) as [ce|]; [|done]. intros [= <-]. by destruct (Hno ce).
  - done.
Qed.
End stored.

(** ** Creating a tenant through the API *)

Section create.
Context `{PF : !Platform, CC : !CommandCodec, B : !Bolt, BL : !BoltLaws B, J : !Json, JL : !JsonLaws J}.
Context `{CE : !CommandEncoder, CEL : !EncoderLaws CE, BC : !BodyCodec}.
Context (cfg : Config) (oor : f64 → Z) (Itoa : Z → string).

(** The response shows the key whose hash was just proposed. *)
Definition creates (cmd : CreateTenantCommand) (resp : HttpResponse) (st' : ApiState api_node) : Prop :=
  ∀ tn key, RespBody resp = BCreatedTenant tn key → ∃ buf v,
    let c := CreateTenantCommand.mk cmd.(CreateTenantCommand.ID) cmd.(CreateTenantCommand.Name) (hashAPIKey key) in
    key = plaintext_of buf ∧ applied (create_tenant c) (RTenant v) (as_backend st')
    ∧ tn = sanitizeTenant (Some v).

Lemma refused_creates cmd resp st' : refused resp → creates cmd resp st'.
Proof. intros [_ [m Hm]] tn key. by rewrite Hm. Qed.

Lemma error_creates cmd status m st :
  answers (writeError status m) st (creates cmd).
Proof. by intros tn key. Qed.

Lemma api_propose_applied c (st : ApiState api_node) :
  be_valid (as_backend st) →
  runs (api_propose c) st (λ resp _, refused resp)
    (λ v st', applied c v (as_backend st') ∧ ∀ ce, v ≠ RRejected ce).
Proof.
  intros Hv. unfold api_propose. apply runs_bind.
  eapply runs_weaken; [by apply (requireLeader_runs st)|by intros resp ? [? _]|].
  intros [] st1 [[Hv1 _] _]. apply runs_bind. unfold runs at 1, call.
  destruct (be_Propose (command_type c) c (as_backend st1)) as [r nd'] eqn:E.
  destruct (propose_law _ _ _ _ Hv1 E) as [_ Hr].
  assert (∀ st status m, ¬ 200 <= status < 300 → runs (writeError status m) st (λ resp _, refused resp)
    (λ v (st' : ApiState api_node), applied c v (as_backend st') ∧ ∀ ce, v ≠ RRejected ce)) as Hw.
  { intros st2 status m Hs. split; [done|by eexists]. }
  destruct r as [v|x|p]; [|apply Hw; unfold StatusServiceUnavailable; lia|done].
  specialize (Hr v eq_refl). destruct v; try (split; [exact Hr|by intros]).
  apply Hw. unfold statusForCommandErrorKind, StatusBadRequest, StatusNotFound, StatusConflict,
    StatusInternalServerError. repeat case_bool_decide; lia.
Qed.

Lemma create_tenant_creates r cmd st :
  be_valid (as_backend st) → decode_tenant_body (Body r) = Ok cmd →
  answers (handleCreateTenant cfg oor Itoa r) st (creates cmd).
Proof.
  intros Hv Hbody. apply runs_bind.
  eapply runs_weaken; [by apply (requireLeader_runs st)|by intros resp ? [? _]; apply refused_creates|].
  intros [] st1 [Hk1 _]. apply runs_bind.
  eapply runs_weaken; [by apply requireAdmin_runs|by intros resp ? [? _]; apply refused_creates|].
  intros [] st2 [[Hv2 _] _]. rewrite Hbody. apply runs_bind. unfold runs at 1, generateAPIKey, mbind, HM_bind, rand_read.
  destruct (hd _ (as_random st2)) as [buf|x|p]; [|apply error_creates|done]. apply runs_bind.
  eapply runs_weaken; [by apply api_propose_applied|by intros; apply refused_creates|].
  intros v st3 [Happ _]. destruct v as [t|s|x|a|ce]; try apply error_creates.
  intros tn key [= <- <-]. exists buf, t. done.
Qed.

(** C22: the key [POST /tenants] answers with opens the tenant it created: on
    the leader, once caught up, a request that carries it as a bearer token
    carries the tenant's own key, whose hash is what the store keeps, and the
    check of the tenant's endpoints turns it away for nothing but its rate. *)
Theorem created_key_authorises r r' cmd (st st' : ApiState api_node) resp tn key t :
  node_valid (as_backend st) → decode_tenant_body (Body r) = Ok cmd →
  utf8_valid cmd.(CreateTenantCommand.ID) = true → utf8_valid cmd.(CreateTenantCommand.Name) = true →
  handleCreateTenant cfg oor Itoa r st = (inl (Some resp), st') → RespBody resp = BCreatedTenant tn key →
  head (nd_turns (as_backend st')) = Some t → tn_entries t = [] →
  obs_leader (tn_obs t) = true → obs_barrier (tn_obs t) = None →
  Authorization r' = "Bearer " +:+ key →
  Tenant.ID <$> tn = Some cmd.(CreateTenantCommand.ID)
  ∧ own_key (as_backend st') r' cmd.(CreateTenantCommand.ID)
  ∧ ∀ o st'', requireTenantAccess cfg oor Itoa r' cmd.(CreateTenantCommand.ID) st' = (inl o, st'') →
      StatusCode <$> o = Some StatusTooManyRequests.
Proof.
  intros Hv Hbody Hid Hname Hrun Hresp Ht Hent Hlead Hbar Hauth.
  pose proof (create_tenant_creates r cmd st Hv Hbody) as Hc. unfold answers, runs in Hc. rewrite Hrun in Hc.
  destruct (Hc tn key Hresp) as (buf & v & Hkey & Happ & ->).
  apply applied_tenant in Happ as (x & d & [= ->] & Hx & Hhash & Hne & Hd & Hget); [|done|done|done|apply hash_utf8].
  simpl in Hx, Hhash. split; [by rewrite <- Hx|].
  assert (own_key (as_backend st') r' cmd.(CreateTenantCommand.ID)) as Hown.
  { exists x, key. split; [|split; [done|split; [|by split]]].
    - simpl. unfold read, next_turn. destruct (nd_turns (as_backend st')) as [|t' ts]; [done|].
      injection Ht as ->. cbn [hd]. rewrite Hent. unfold rn_GetTenant, leader_read, ensureCaughtUpAsLeader.
      cbn [commit foldl nd_rn nd_world]. rewrite Hlead. cbn [negb]. rewrite Hbar. rewrite <- Hx.
      destruct (_ =? _); cbn; unfold handle_View; cbn; by rewrite Hd.
    - rewrite Hkey in Hauth |- *. by apply bearer_of_plaintext. }
  split; [done|]. intros o st'' H. by eapply own_key_admitted.
Qed.
End create.

Definition create_request : HttpRequest :=
  mkHttpRequest "POST" ["tenants"] "Bearer adminkey" (λ _, "") "globex".
Definition globex_request (key : string) : HttpRequest :=
  mkHttpRequest "GET" ["tenants"; "globex"] ("Bearer " +:+ key) (λ _, "") "".
Definition sample_create : (option HttpResponse + HttpResponse) * ApiState api_node :=
  handleCreateTenant sample_config (λ _, 0) (λ _, "1") create_request sample_api.

Lemma created_key_authorises_witness :
  ∃ resp tn key, sample_create = (inl (Some resp), sample_create.2) ∧ RespBody resp = BCreatedTenant tn key
    ∧ own_key (as_backend sample_create.2) (globex_request key) "globex".
Proof.
  assert (∃ resp tn key, sample_create.1 = inl (Some resp) ∧ RespBody resp = BCreatedTenant tn key) as (resp & tn & key & H1 & H2).
  { eexists _, _, _. split; [vm_compute; reflexivity|reflexivity]. }
  assert (sample_create = (inl (Some resp), sample_create.2)) as H3 by (rewrite <- H1; apply surjective_pairing).
  exists resp, tn, key. split; [exact H3|]. split; [exact H2|].
  apply (created_key_authorises sample_config (λ _, 0) (λ _, "1") create_request (globex_request key)
           (CreateTenantCommand.mk "globex" "Globex" "") sample_api sample_create.2 resp tn key (mkTurn leading [] None None));
    [exact sample_node_valid|reflexivity|reflexivity|reflexivity|exact H3|exact H2
    |vm_compute; reflexivity|reflexivity|reflexivity|reflexivity|reflexivity].
Defined.
