(* ===== verification/Node.v ===== *)
(** * Node: src/internal/node/node.go

    The process: its parts are built bottom up, started in that order and shut
    down in reverse.  [StateMachine.Start] and [RaftNode.Start] do nothing. *)

From S2P Require Import Prelude Go GoTime GoFloat Model Bolt Json Storage Command Dispatch StateMachine RaftNode.
From S2P Require Import Spec Refinement RefinementScan RefinementTx Replica Sample Restart Config Supervisor.
Open Scope Z_scope.

(** [api.API]'s listener: not open yet, open, closed. *)
Inductive listener := NotListening | Listening | Closed.

Section node.
Context `{PF : !Platform, CC : !CommandCodec, B : !Bolt, J : !Json}.

Record Node := mkBillingNode {
  stateMachine : StateMachine;
  raftNode : RaftNode;
  scheduler : option Supervisor;
  api : listener
}.

Definition node_New (cfg : Config) (sm_io : OpenIO) (rn_io : NewIO) (w : World) : result Node * World :=
  match New sm_io w with
  | (Ok sm, w) =>
      match rn_New (NodeID cfg) (Bootstrap cfg) (map_to_list (Peers cfg)) (sm_storage sm) rn_io with
      | Ok rn => (Ok (mkBillingNode sm rn None NotListening), w)
      | Err e => (Err (EWrap "raftnode: " e), w)
      | Panic p => (Panic p, w)
      end
  | (Err e, w) => (Err (EWrap "statemachine: " e), w)
  | (Panic p, w) => (Panic p, w)
  end.

(** [api.Start]: [listen_err] is what [net.Listen] answers. *)
Definition api_Start (HTTPAddr : string) (listen_err : option error) (n : Node) : option error * Node :=
  match listen_err with
  | Some e => (Some (EWrap ("api listen on " +:+ HTTPAddr +:+ ": ") e), n)
  | None => (None, mkBillingNode (stateMachine n) (raftNode n) (scheduler n) Listening)
  end.

Definition node_Start (cfg : Config) (listen_err : option error) (n : Node) : option error * Node :=
  match api_Start (HTTPAddr cfg) listen_err n with
  | (Some e, n) => (Some (EWrap "api start: " e), n)
  | (None, n) => (None, mkBillingNode (stateMachine n) (raftNode n) (Some (scheduler_Start (LeadershipCh (raftNode n)))) (api n))
  end.

(** How the calls of [Shutdown] end; what [raftNode.Shutdown] answers is
    dropped. *)
Record ShutdownIO := mkShutdownIO {
  ctx_err : option error;
  server_err : option error;
  close_err : option error
}.

(** The errors are joined: there is none exactly when the list is empty. *)
Inductive node_Shutdown (io : ShutdownIO) (n : Node) (w : World) : Node → World → list error → Prop :=
| node_shuts_down sch sch_err :
    scheduler_Shutdown (scheduler n) (ctx_err io) sch sch_err →
    node_Shutdown io n w
      (mkBillingNode (stateMachine n) (raftNode n) sch Closed)
      (sm_Shutdown (stateMachine n) (close_err io) w).2
      (omap id [EWrap "scheduler shutdown: " <$> sch_err; EWrap "api shutdown: " <$> server_err io]).

(** A started node goes on: its supervisor takes steps. *)
Definition running (sv : Supervisor) (n : Node) : Node :=
  mkBillingNode (stateMachine n) (raftNode n) (Some sv) (api n).

(** A new node reads what its state machine applies: whatever the log,
    once the node leads and its barrier has succeeded, a read answers from the
    database that replaying the log leaves; before any barrier of a term it
    answers nothing. *)
Theorem new_node_reads_what_is_applied cfg sm_io rn_io w n w' :
  node_New cfg sm_io rn_io w = (Ok n, w') →
  ∃ d, storage_New sm_io = Ok d ∧ ∀ (l : list LogData) A deny (fn : M DB A) obs,
    obs_term obs ≠ 0 → 
    (leader_read deny fn obs (raftNode n) (apply_log (stateMachine n) l w').2).1
    = (if negb (obs_leader obs) then Err deny else
       match obs_barrier obs with
       | Some e => Err (ENotCaughtUp (Error e))
       | None => View fn (replay l d).2
       end).
Proof.
  unfold node_New, New. destruct (storage_New sm_io) as [d|e|p]; [|done..].
  destruct (rn_New _ _ _ _ rn_io) as [rn|e|p] eqn:Ern; [|done..]. intros [= <- <-]. exists d. split; [done|].
  intros l A deny fn obs Hterm. apply rn_New_ok in Ern as [Hst Hready]. simpl in *.
  unfold leader_read, ensureCaughtUpAsLeader. destruct (obs_leader obs); [|done]. simpl.
  rewrite Hready. destruct (Z.eqb_spec 0 (obs_term obs)); [done|].
  destruct (obs_barrier obs); [done|]. simpl. unfold handle_View. rewrite Hst.
  rewrite (apply_log_open _ _ _ d) by apply lookup_insert_eq. simpl. by rewrite lookup_insert_eq.
Qed.

(** A node that was started and is shut down has closed its API; when no
    error is reported, its supervisor has returned and no worker is left.  The
    database is closed exactly if closing it succeeds, which is not reported. *)
Theorem shutdown_order cfg n n1 sv w io n2 w2 errs :
  node_Start cfg None n = (None, n1) → rtc moves (scheduler_Start (LeadershipCh (raftNode n))) sv →
  node_Shutdown io (running sv n1) w n2 w2 errs →
  api n1 = Listening ∧ api n2 = Closed
  ∧ (errs = [] → server_err io = None
       ∧ ∃ sv', scheduler n2 = Some sv' ∧ sv_at sv' = Returned ∧ sv_workers sv' = ∅)
  ∧ (close_err io = None → open_dbs w2 = delete (sm_storage (stateMachine n)) (open_dbs w))
  ∧ (close_err io ≠ None → open_dbs w2 = open_dbs w).
Proof.
  intros [= <-] Hr Hs. inversion Hs as [sch sch_err Hsch]; subst. split; [done|]. split; [done|].
  split; [|unfold sm_Shutdown; by destruct (close_err io)].
  intros He. destruct sch_err as [e|]; [done|]. destruct (server_err io) as [e|]; [done|]. split; [done|].
  simpl in *. inversion Hsch as [|? sv1 sv' ? H1 H2 H3|]; subst. exists sv'. split; [done|]. split; [done|].
  apply (si_returned sv'); [eapply reachable_sv_inv|done].
  etrans; [exact Hr|]. eapply rtc_l; [by exists CancelCtx|done].
Qed.

(** A failed close is not reported. *)
Lemma close_error_is_dropped n w sv sv' e :
  scheduler_Shutdown (Some sv) None (Some sv') None →
  ∃ n2, node_Shutdown (mkShutdownIO None None (Some e)) (running sv n) w n2 w [].
Proof. intros H. eexists. by apply (node_shuts_down (mkShutdownIO None None (Some e)) (running sv n) w _ _ H). Qed.
End node.

(** ** A sample *)

Definition fresh_io : OpenIO := mkOpenIO None (Ok None) None.
Definition raft_io : NewIO := mkNewIO None None None None None (λ _, None).
Definition node_config : Config := mkConfig "node-1" "10.0.0.1:7000" ":8080" "/data" ∅ true "adminkey" "".
Definition sample_built : Node :=
  mkBillingNode (mkStateMachine 0%nat 0%nat) (mkRaftNode 0%nat "node-1" [] 0) None NotListening.

Lemma new_node_reads_what_is_applied_witness :
  ∃ w', (leader_read (EText "not leader") (GetExecution "acme" "e1") (mkObs true "" 1 None noon)
           (raftNode sample_built) (apply_log (stateMachine sample_built) sample_log w').2).1
      = Ok (Some e1).
Proof.
  destruct (new_node_reads_what_is_applied node_config fresh_io raft_io (mkWorld ∅ 0%nat) sample_built
              (mkWorld {[ 0%nat := emptyDB ]} 1%nat) eq_refl) as (d & Hd & H).
  exists (mkWorld {[ 0%nat := emptyDB ]} 1%nat). rewrite H by done. injection Hd as <-.
  exact sample_e1.
Defined.

Lemma shutdown_order_witness :
  ∃ n2 w2, api n2 = Closed ∧ open_dbs w2 = delete 0%nat {[ 0%nat := emptyDB ]}.
Proof.
  destruct (shutdown_order node_config sample_built (node_Start node_config None sample_built).2 (NewSupervisor [])
    (mkWorld {[ 0%nat := emptyDB ]} 1%nat) (mkShutdownIO None None None)
    (mkBillingNode (mkStateMachine 0%nat 0%nat) (mkRaftNode 0%nat "node-1" [] 0)
       (Some (mkSupervisor Returned None 0 ∅ 0 true [])) Closed)
    (sm_Shutdown (mkStateMachine 0%nat 0%nat) None (mkWorld {[ 0%nat := emptyDB ]} 1%nat)).2 [])
    as (_ & H1 & _ & H2 & _).
  - reflexivity.
  - apply rtc_refl.
  - apply (node_shuts_down (mkShutdownIO None None None)
             (running (NewSupervisor []) (node_Start node_config None sample_built).2) _ _ None).
    eapply shutdown_done; [reflexivity| |reflexivity].
    apply rtc_once. exists TakeDone. reflexivity.
  - eexists _, _. split; [exact H1|apply H2; reflexivity].
Defined.
