(* ===== verification/Main.v ===== *)
(** * Main: src/cmd/scheduler/main.go

    The process from its arguments to its exit status: the configuration, the
    node built from it and started, the wait for a signal, the shutdown, and the
    end of the process when [Apply] panics.  The output is the lines main.go
    prints itself; package flag (the usage after a bad flag), raft and the
    runtime (the trace of a panic) also write to standard error, on their own. *)

From Stdlib Require Import Ascii.
From S2P Require Import Prelude Go GoTime GoFloat Model Bolt Json Storage Command Dispatch StateMachine RaftNode.
From S2P Require Import Spec Refinement RefinementScan RefinementTx Replica Sample Restart GoStrings Config Supervisor Node.
Open Scope Z_scope.

(** What main.go prints, by the call: [fmt.Printf] to standard output,
    [fmt.Fprintln(os.Stderr, ...)], and [log.Println], which goes to standard
    error too, after the date and time. *)
Inductive line := Printf (s : string) | Fprintln (s : string) | Println (s : string).

Definition log_lines (out : list line) : list string :=
  omap (λ l, match l with Println s => Some s | _ => None end) out.

Section main.
Context `{PF : !Platform, CC : !CommandCodec, B : !Bolt, J : !Json}.
(** [strconv.Quote], and the texts [fmt] prints of a configuration and a node. *)
Context (Quote : string → string) (show_config : Config → string) (show_node : Node → string).

(** What the surroundings answer while the process starts. *)
Record StartIO := mkStartIO {
  parsed_flags : result Config;
  admin_key_env : string;
  open_io : OpenIO;
  raft_new_io : NewIO;
  listen_err : option error
}.

(** An error is printed and ends the process with [os.Exit(1)]; a panic ends it
    with status 2, and main prints nothing of it. *)
Definition start_up (io : StartIO) (w : World) : (Z + Config * Node) * list line * World :=
  match config_New Quote (parsed_flags io) (admin_key_env io) with
  | Err e => (inl 1, [Fprintln (Error e)], w)
  | Panic _ => (inl 2, [], w)
  | Ok cfg =>
      let out := [Printf ("config: " +:+ show_config cfg)] in
      match node_New cfg (open_io io) (raft_new_io io) w with
      | (Err e, w) => (inl 1, out ++ [Fprintln (Error e)], w)
      | (Panic _, w) => (inl 2, out, w)
      | (Ok n, w) =>
          let out := out ++ [Printf ("node constructed: " +:+ show_node n)] in
          match node_Start cfg (listen_err io) n with
          | (Some e, n) => (inl 1, out ++ [Fprintln (Error e)], w)
          | (None, n) => (inr (cfg, n), out ++ [Printf ("scheduler ready on " +:+ HTTPAddr cfg)], w)
          end
      end
  end.

(** [errors.Join]'s text: the messages of the errors, a line each. *)
Definition newline : string := String (ascii_of_nat 10) "".
Definition Join (errs : list error) : string := join newline (Error <$> errs).

Definition shutdown_lines (errs : list error) : list line :=
  Println "shutting down" :: match errs with [] => [] | _ => [Println (Join errs)] end.

(** A run of the process: what it prints, its exit status, the node that was
    shut down, and the databases it leaves.  While it serves, the supervisor
    takes steps and the state machine applies a log; it goes on until a signal
    arrives, or until [Apply] panics on an entry (one that cannot be decoded or
    makes its handler panic, or whose transaction bbolt fails to commit), which
    ends the process. *)
Inductive main (io : StartIO) (w : World) : list line → Z → option Node → World → Prop :=
| main_exits status out w1 :
    start_up io w = (inl status, out, w1) → main io w out status None w1
| main_serves cfg n out w1 sv l rs w2 sio n' w' errs :
    start_up io w = (inr (cfg, n), out, w1) →
    rtc moves (default (scheduler_Start []) (scheduler n)) sv →
    apply_log (stateMachine n) l w1 = (Ok rs, w2) →
    node_Shutdown sio (running sv n) w2 n' w' errs →
    main io w (out ++ shutdown_lines errs) 0 (Some n') w'
| main_panics cfg n out w1 l rs w2 d commit_err e p :
    start_up io w = (inr (cfg, n), out, w1) →
    apply_log (stateMachine n) l w1 = (Ok rs, w2) →
    open_dbs w2 !! sm_storage (stateMachine n) = Some d →
    (apply_commit commit_err e d).1 = Panic p →
    main io w out 2 None w2.

(** ** What a start leaves *)










End main.

(** ** Concrete processes *)

Definition flags : Config :=
  mkConfig "n1" "10.0.0.1:7000" ":8080" "/data" ∅ true "" "n1=10.0.0.1:7000".
Definition quiet_surroundings : StartIO :=
  mkStartIO (Ok flags) "adminkey" fresh_io raft_io None.
Definition fresh_world : World := mkWorld ∅ 0%nat.

Definition sample_start (io : StartIO) : (Z + Config * Node) * list line * World :=
  start_up id (λ _, "") (λ _, "") io fresh_world.

(** Without the admin key nothing is started. *)
Example no_admin_key :
  (sample_start (mkStartIO (Ok flags) "" fresh_io raft_io None)).1
  = (inl 1, [Fprintln "SCHEDULER_ADMIN_KEY environment variable is required"]).
Proof. reflexivity. Qed.

Example it_starts : (sample_start quiet_surroundings).1.2
  = [Printf "config: "; Printf "node constructed: "; Printf "scheduler ready on :8080"].
Proof. vm_compute. reflexivity. Qed.



(** A log entry that cannot be decoded ends the process with status 2. *)
Example bad_entry_ends_it : ∃ out w',
  main id (λ _, "") (λ _, "") quiet_surroundings fresh_world out 2 None w' ∧ log_lines out = [].
Proof.
  do 2 eexists. split; [eapply (main_panics _ _ _ _ _ _ _ _ _ [] _ _ _ None (Err (EText "unexpected end of JSON input")))|];
    reflexivity.
Qed.
