(* ===== verification/Findings.v ===== *)
(** * Findings: behaviours of the code that its users would not expect

    Each theorem is about the code as it is written.  The concrete ones run the
    handlers on the sample platform. *)

From S2P Require Import Prelude Go Calendar GoTime GoFloat Model RecurrenceCalc Bolt Json Storage.
From S2P Require Import Command Dispatch StateMachine Spec Lifecycle Invariants Refinement RefinementScan RefinementTx.
From S2P Require Import CommandRefinement Replica Sample.
Open Scope Z_scope.

(** ** Commands and logs of the examples *)

Definition create_with (id type tz policy : string) (first : Time) (r : option Recurrence) : command :=
  create_schedule (CreateScheduleCommand.mk id "acme" "ops" "https://acme.example/hook" "{}" ∅
    type first r tz 3 no_backoff None policy).
Definition claim_of (id s : string) (slot : Time) : command :=
  claim_execution (ClaimExecutionCommand.mk id "acme" s slot "node-1").
Definition complete_of (id : string) : command :=
  complete_execution (CompleteExecutionCommand.mk "acme" id ExecutionStatusSucceeded "delivered" None).

(** The state after a list of commands with their times. *)
Definition after (l : list (command * Time)) : DB :=
  (replay ((λ ct, entry ct.1 ct.2) <$> l) emptyDB).2.
(** What the next command answers, and the state then. *)
Definition answer (c : command) (at_ : Time) (d : DB) : result reply := (apply_db (entry c at_) d).1.

Definition status_and_next (t i : string) (d : DB) : option (string * option Time) :=
  match View (GetSchedule t i) d with
  | Ok (Some s) => Some (s.(Schedule.Status), s.(Schedule.NextRunAt))
  | _ => None
  end.

(** ** Finalising ignores the schedule's time zone *)

Definition on_the_first : Recurrence := Recurrence.mk CadenceMonthly (Some 1) None None.
(** Midnight of 2024-03-01 in India. *)
Definition march_first_ist : Time := utc_date 2024 2 29 18 30 0.
Definition ist_log : list (command * Time) :=
  [(create_with "bill" ScheduleTypeRecurring "Asia/Kolkata" CatchUpPolicyAll march_first_ist
      (Some on_the_first), march_first_ist);
   (claim_of "e1" "bill" march_first_ist, march_first_ist);
   (complete_of "e1", march_first_ist)].

(** Completing an execution computes the next run in UTC whatever the
    schedule's time zone: a schedule for the first of each month at midnight in
    India runs again one day later, not on April 1 as the schedule's own time
    zone gives. *)
Theorem completion_ignores_timezone :
  status_and_next "acme" "bill" (after ist_log)
    = Some (ScheduleStatusActive, Some (utc_date 2024 3 1 18 30 0))
  ∧ ComputeNextRunAfter (Some on_the_first) "Asia/Kolkata" march_first_ist march_first_ist
    = Ok (Some (utc_date 2024 3 31 18 30 0)).
Proof. split; vm_compute; reflexivity. Qed.

(** ** Resuming with catch_up_latest_only can name a slot that has run *)

Definition latest_log : list (command * Time) :=
  [(create_with "s1" ScheduleTypeRecurring "UTC" CatchUpPolicyLatestOnly noon (Some daily), noon);
   (claim_of "e1" "s1" noon, noon);
   (complete_of "e1", noon);
   (pause_schedule (PauseScheduleCommand.mk "acme" "s1"), utc_date 2024 3 1 18 0 0);
   (resume_schedule (ResumeScheduleCommand.mk "acme" "s1"), utc_date 2024 3 1 20 0 0)].

(** A schedule with policy catch_up_latest_only that is paused and resumed
    before its next slot is due again for the slot it has already executed;
    the claim for it is refused, and the refusal leaves the state as it is, so
    the schedule stays due for that slot. *)
Theorem latest_only_resume_repeats_slot :
  status_and_next "acme" "s1" (after latest_log) = Some (ScheduleStatusActive, Some noon)
  ∧ answer (claim_of "e2" "s1" noon) (utc_date 2024 3 1 20 0 1) (after latest_log)
    = Ok (RRejected (CommandError.mk KindConflict
        "an execution already exists for this schedule at scheduled_for" "scheduled_for"
        {[ "existing_execution_id" := "e1" ]})).
Proof. split; vm_compute; reflexivity. Qed.

(** ** Composite keys are ambiguous when identifiers contain a colon *)

Definition colon_cmd : command :=
  create_schedule (CreateScheduleCommand.mk "b:c" "a" "ops" "https://a.example/hook" "{}" ∅
    ScheduleTypeOnce noon None "UTC" 3 no_backoff None CatchUpPolicyAll).

(** Nothing keeps colons out of identifiers, and the key "a:b:c" of tenant
    "a"'s schedule "b:c" is also that of tenant "a:b"'s schedule "c": the other
    tenant reads the schedule. *)
Theorem colon_crosses_tenants :
  View (GetSchedule "a:b" "c") (after [(colon_cmd, noon)])
  = View (GetSchedule "a" "b:c") (after [(colon_cmd, noon)])
  ∧ ∃ s, View (GetSchedule "a:b" "c") (after [(colon_cmd, noon)]) = Ok (Some s)
      ∧ s.(Schedule.TenantID) = "a".
Proof.
  split; [vm_compute; reflexivity|]. eexists. split; [vm_compute; reflexivity|reflexivity].
Qed.

(** ** A recurrence without its field panics in Apply *)

Section nil_field.
Context `{PF : !Platform, J : !Json} {St : Type} `{!Tx St}.

(** Creating an interval schedule whose recurrence has no [seconds]
    dereferences a nil pointer inside [Apply]: the handler panics, on every
    replica that applies the entry. *)
Theorem missing_seconds_panics (c : CreateScheduleCommand) (at_ : Time) (s : St) (r : Recurrence)
    (loc : Location) :
  c.(CreateScheduleCommand.TenantID) ≠ "" → c.(CreateScheduleCommand.ID) ≠ "" →
  validateHeaders c.(CreateScheduleCommand.Headers) = None →
  GetSchedule c.(CreateScheduleCommand.TenantID) c.(CreateScheduleCommand.ID) s = (Ok None, s) →
  c.(CreateScheduleCommand.ScheduleType) ≠ ScheduleTypeOnce →
  c.(CreateScheduleCommand.Recurrence) = Some r → r.(Recurrence.Cadence) = CadenceInterval →
  r.(Recurrence.Seconds) = None → resolveTimezone c.(CreateScheduleCommand.Timezone) = Ok loc →
  ApplyCreateSchedule c at_ s = (Panic nil_deref, s).
Proof.
  intros Ht Hi Hh Hg Hty Hr Hc Hsec Hl. unfold ApplyCreateSchedule.
  rewrite !reject_pass by (by apply bool_decide_eq_false). rewrite Hh.
  rewrite (M_bind_ok (reject_some None) _ _ () s eq_refl).
  rewrite (M_bind_ok _ _ _ _ _ (wrap_err_ok _ _ _ _ _ Hg)).
  rewrite bool_decide_false by done. unfold ComputeNextRunOnOrAfter, with_recurrence.
  rewrite Hr, Hl. unfold mbind at 2, result_bind. rewrite Hc. simpl.
  unfold mbind at 2, result_bind. by rewrite Hsec.
Qed.
End nil_field.

(** ** An interval of zero seconds never advances *)

(** An interval schedule of zero seconds, which nothing refuses, has its
    first run as its next run for ever, also after that run. *)
Theorem zero_interval_never_advances `{PF : !Platform} (r : Recurrence) (tz : string) (loc : Location)
    (firstRunAt from : Time) :
  resolveTimezone tz = Ok loc → r.(Recurrence.Cadence) = CadenceInterval →
  r.(Recurrence.Seconds) = Some 0 →
  ComputeNextRunAfter (Some r) tz firstRunAt from = Ok (Some (UTC firstRunAt)).
Proof.
  intros Hl Hc Hs. unfold ComputeNextRunAfter, with_recurrence. rewrite Hl, Hc, Hs. simpl.
  unfold computeIntervalAfter. destruct (Before from firstRunAt); [done|]. cbn zeta.
  unfold slot_offset. rewrite Z.mul_0_r. change (wrap64 (wrap64 0 * second_ns)) with 0.
  unfold Add, UTC. simpl. by rewrite Z.add_0_r.
Qed.

Lemma zero_interval_witness :
  ComputeNextRunAfter (Some (Recurrence.mk CadenceInterval None None (Some 0))) "UTC" noon next_noon
  = Ok (Some (UTC noon)).
Proof. apply (zero_interval_never_advances _ "UTC" loc_UTC); reflexivity. Defined.

(** ** A skipped midnight *)

(** 23:30 of 2018-11-03 in São Paulo, half an hour before the clocks skip 00:00 to 01:00. *)
Definition before_gap : Time := utc_date 2018 11 4 2 30 0.

(** When summer time skips the schedule's time of day, the daily slot
    [time.Date] builds lies before midnight, and [ComputeNextRunAfter] from
    that slot returns the slot itself: not a time after it. *)
Theorem daily_after_stuck_in_gap :
  ComputeNextRunAfter (Some daily) "America/Sao_Paulo" (utc_date 2018 11 1 3 30 0) before_gap
  = Ok (Some before_gap).
Proof. vm_compute. reflexivity. Qed.

(** ** Fractions of a second *)

(** Slots are cut to the second, so the first run of a daily schedule that
    starts at a fraction of a second is not its own first slot: the schedule is
    created with a next run a day later. *)
Theorem fractional_first_run_skipped :
  ComputeNextRunOnOrAfter (Some daily) "UTC" (Add noon 500000000) (Add noon 500000000)
  = Ok (Some next_noon).
Proof. vm_compute. reflexivity. Qed.

(** ** Retry delays overflow *)

Definition tenfold : RetryBackoff :=
  RetryBackoff.mk second_ns (f64_of_int 10) (300 * second_ns).

(** The delay is converted from float64 before it is compared with [Max]:
    on a platform whose out-of-range conversion is the least integer (amd64),
    the eleventh attempt of a tenfold back-off waits a negative time, not the
    maximum of five minutes. *)
Theorem delay_overflow_beats_max :
  DelayForAttempt tenfold 10 = 300 * second_ns ∧ DelayForAttempt tenfold 11 = minInt64.
Proof. split; vm_compute; reflexivity. Qed.

(** ** Unknown catch-up policies *)

(** A recurring schedule with a policy that is none of the three resumes
    to active without a next run, so it is never due. *)
Theorem unknown_policy_never_runs `{PF : !Platform} (s : Schedule) (anchor : option Execution)
    (at_ now : Time) :
  s.(Schedule.CatchUpPolicy) ∉ [CatchUpPolicyAll; CatchUpPolicyLatestOnly; CatchUpPolicySkipMissed] →
  resume_next_run s anchor at_ = Ok None
  ∧ due s.(Schedule.TenantID) now (with_status ScheduleStatusActive None at_ s) = false.
Proof.
  intros Hp. split.
  - unfold resume_next_run. rewrite !bool_decide_false by set_solver. done.
  - unfold due, not_due. simpl. by rewrite andb_false_r.
Qed.

Lemma unknown_policy_witness :
  resume_next_run (Schedule.mk 1 "s1" "acme" noon noon "ops" "" "{}" ∅ ScheduleTypeRecurring noon
    (Some daily) "UTC" 3 no_backoff None "catch_up" ScheduleStatusPaused None) None noon = Ok None.
Proof.
  apply (unknown_policy_never_runs _ None noon noon). apply (bool_decide_unpack _).
  vm_compute. exact I.
Defined.

(** ** Executions without a schedule *)

(** A claim does not look its schedule up: it succeeds for a schedule that
    does not exist, and the execution can then never be finalised. *)
Theorem claim_without_schedule :
  let d := after [(claim_of "e1" "ghost" noon, noon)] in
  (∃ e, View (GetExecution "acme" "e1") d = Ok (Some e)
      ∧ e.(Execution.Status) = ExecutionStatusInFlight)
  ∧ answer (complete_of "e1") noon d
    = Ok (RRejected (CommandError.mk KindNotFound "no schedule exists" "" ∅)).
Proof.
  split; [eexists; split; [vm_compute; reflexivity|reflexivity]|vm_compute; reflexivity].
Qed.

(** ** Canceling a one-time schedule *)

Definition once_log : list (command * Time) :=
  [(create_with "s1" ScheduleTypeOnce "UTC" CatchUpPolicyAll noon None, noon);
   (claim_of "e1" "s1" noon, noon);
   (cancel_schedule (CancelScheduleCommand.mk "acme" "s1"), noon)].

(** A one-time schedule that is canceled while its execution is in flight
    reads as completed once the execution ends: the cancellation is lost. *)
Theorem cancellation_is_overwritten :
  status_and_next "acme" "s1" (after once_log) = Some (ScheduleStatusCanceled, None)
  ∧ status_and_next "acme" "s1" (after (once_log ++ [(complete_of "e1", noon)]))
    = Some (ScheduleStatusCompleted, None).
Proof. split; vm_compute; reflexivity. Qed.

Definition no_seconds_cmd : CreateScheduleCommand := CreateScheduleCommand.mk "s2" "acme" "ops"
  "https://acme.example/hook" "{}" ∅ ScheduleTypeRecurring noon
  (Some (Recurrence.mk CadenceInterval None None None)) "UTC" 3 no_backoff None CatchUpPolicyAll.

Lemma missing_seconds_witness :
  ApplyCreateSchedule no_seconds_cmd noon emptyDB = (Panic nil_deref, emptyDB).
Proof.
  apply (missing_seconds_panics no_seconds_cmd noon emptyDB
    (Recurrence.mk CadenceInterval None None None) loc_UTC); try reflexivity; discriminate.
Defined.
